(* ===== verification/_CoqProject ===== *)
-Q . S2P
Prelude.v
ByteOrder.v
Gtpu.v
Net.v
Diameter.v
SpscRing.v
FlatHash.v
MeterEvent.v
UsageRecord.v
Session.v
Meter.v
MeterProps.v
MeterControl.v
MeterLedger.v
MeterFlows.v
MeterGy.v
Pipeline.v
PipelineProps.v
Synth.v
SynthProps.v
SynthIp.v
SynthGy.v
EndToEnd.v
Histogram.v
Seqlock.v
Snapshot.v
TopN.v
DetailScan.v
DetailProps.v
Runtime.v
RuntimeProps.v
SessionCsv.v
Pcap.v
PcapProps.v
Replay.v
Double.v
Text.v
Clock.v
Json.v
RecordJson.v
Report.v
ReportProps.v
Http.v
HttpProps.v
PrometheusProps.v
CommandLine.v
LiveCapture.v
BpfCapture.v
Threads.v
ThreadsProps.v
Descriptors.v
Pacing.v
Summary.v
Startup.v
BenchCommon.v
BenchRing.v
BenchHash.v
BenchE2e.v
BenchE2eProps.v
BenchMeter.v
BenchEquiv.v
BenchParse.v
