(* ===== verification/Prelude.v ===== *)
(** * gtp-meter: a verification development

    gtp-meter is a C++20 metering pipeline for mobile user-plane traffic.  An
    ingest thread decodes frames (Ethernet, IP, UDP/TCP, GTP-U, Diameter Gy) and
    pushes events onto two single-producer single-consumer rings; a metering
    thread pops them, charges subscribers and emits usage records onto a third
    ring; a reporter thread writes the records out and readers look at published
    snapshots.  This library models that program from its sources under
    include/gtpm/, src/ and bench/, function by function, and proves what makes
    it correct.

    ** Conventions

    C++ code that can fail is a computation in [res] (below): [Ok], [UB] for
    undefined behaviour (out-of-range access, null dereference, [bit_ceil] out
    of range) or [Fuel] for a loop that did not finish in the iterations it was
    given.  [ensures m P] says that [m] returns, and returns something in [P]:
    all theorems about operations have this total form, so they exclude
    undefined behaviour and divergence.  Machine integers are [Z] with their
    wrap written out ([u8] to [u64], [add64], [sub64], [mul64]); bytes are
    [list byte]; vectors are lists with checked indexing ([at_], [set_]);
    structs are records updated with [r <| f := v |>]; the scoped enumerations
    are modules of constants.  Pointers into a buffer are sub-lists of it.

    ** Files

    - [Prelude]: results, integers, spans, record updates, hint databases and
      tactics.
    - [ByteOrder] (byte_order.hpp): loads and stores, the same on either host
      byte order.
    - [Gtpu] (gtpu.hpp), [Net] (net.hpp), [Diameter] (diameter.hpp): the
      parsers.  Each accepts exactly its wire grammar ([gtpu_ok_layout] for whole
      GTP-U PDUs, [ext_chain_grammar], [ethernet_grammar], [avp_area_grammar])
      and returns the fields of it.
    - [SpscRing] (spsc_ring.hpp): the ring as functions, which implement a
      bounded queue, and as the interleaved index and slot accesses of two
      threads, which form a FIFO and do not race.  The class [BoundedQueue] is
      what the clients of the ring are verified against.
    - [FlatHash] (flat_hash.hpp): the TEID table implements a finite map, with
      backward-shift deletion; the class [KeyTable] is its interface.
    - [MeterEvent], [UsageRecord], [Session] (meter_event.hpp,
      usage_record.hpp, session.hpp): the records that cross components.
    - [SessionCsv] (session.hpp): the session file reader and writer, their
      round trip, and that every loaded session can be installed.
    - [Meter] (meter.hpp): the metering engine, every operation.  Beside the data
      members the engine has one history variable, [built_], the list of the
      usage records [emit_record] has built; the billing theorems speak of it.
      [MeterProps] is its invariant, [MeterControl] installation, release,
      learning and sweeps, [MeterLedger] the ledger of whole runs,
      [MeterFlows] the flow table, [MeterGy] the Gy cross-check.
    - [Pipeline] (pipeline.hpp) and [PipelineProps]: the ingest path from a
      frame to the events on the rings.
    - [Synth] (synth.hpp): the packet builders; [SynthProps], [SynthIp] and
      [SynthGy] their round trips through the parsers.  [EndToEnd] takes a built
      frame through ingest and engine to the charge on the subscriber.
    - [Histogram] (histogram.hpp): the latency histogram and its quantiles.
    - [Seqlock] (seqlock.hpp): store and load under relaxed memory with fences.
    - [Snapshot] (snapshot.hpp): the reference-counted snapshot publisher.
    - [TopN], [DetailScan], [DetailProps] (meter.hpp, meter_thread.cpp,
      stats.hpp): [top_flows] and the rolling scan of the detail tables.
    - [Runtime], [RuntimeProps] (runtime.hpp, meter_thread.cpp): the metering
      thread over rings, engine, histogram and snapshots, and the reporter's
      record writer.
    - [Pcap], [PcapProps] (pcap.hpp, ingest_pcap.cpp, source.hpp): capture files
      and the replay source; [Replay] (main.cpp): the ingest loop over a replay.
    - [LiveCapture], [BpfCapture] (ingest_rawsock.cpp): live capture, with the
      storage its packets are views of.
    - [Double], [Text], [Clock], [Json]: binary64 numbers and their decimal text,
      printf-style formatting, RFC 3339 times (clock.hpp), and a JSON printer and
      parser that serve as the reference for every JSON the program writes.
    - [RecordJson] (usage_record.hpp): the record file.  [Report] (reporter.cpp,
      net.hpp), [ReportProps], [PrometheusProps]: the reports.  [Http],
      [HttpProps] (reporter.cpp): requests, routing and responses.
    - [CommandLine] (main.cpp): options and configuration.  [Pacing] (main.cpp): the
      pacer of a replay.  [Summary] (main.cpp, histogram.hpp, flat_hash.hpp): the
      ratios of the statistics and the printed summary.
    - [Threads], [ThreadsProps] (main.cpp, meter_thread.cpp): the main, metering and
      reporter threads, action by action, in any interleaving.
    - [Descriptors] (ingest_rawsock.cpp, reporter.cpp): the file descriptors of live
      capture and of the HTTP reporter.  [Startup] (main.cpp): the help text and
      diagnostics, [main] from the options to the ingest loop and from there to
      its end.
    - [BenchCommon] (bench_common.hpp); [BenchRing] (bench_ring.cpp): the two
      queues as interleaved threads over the class [Channel]; [BenchHash]
      (bench_hash.cpp): the table against [std::unordered_map], with
      [std::mt19937]; [BenchParse] (bench_parse.cpp): the parsers over built
      batches; [BenchE2e] (bench_e2e.cpp): the corpus, the whole runtime, and the
      baseline as interleaved threads, with [BenchE2eProps] (corpus, sender and
      baseline), [BenchMeter] (what the engine counts) and [BenchEquiv] (both
      sides count the same).

    ** What the theorems show

    Billing: over any sequence of engine operations from the constructor on,
    what packets were charged is what the usage records built so far bill plus
    what is pending ([billing_conservation]), and no byte is pending after a drain; every run is safe and keeps the tables consistent
    ([engine_run_safe]); each packet is charged to the owner of its tunnel
    ([apply_charges_owner]); a record is the exact delta ([emit_record_exact]).
    Composition: under every schedule of the three threads no action faults, and
    when the program has ended exactly the events the main thread put on the rings
    have been applied, in order (the relation [fed] keeps this history along an
    execution), every charged byte is billed in a built record and every record
    the ring kept is in the file or a counted write error ([threads_settle]); it
    can be stopped from every state ([threads_can_stop]); the metering loop ends,
    with the rings empty and every byte billed ([meter_loop_drains]); a pass of the
    detail scan publishes every entry once, as the tick that examined it found it
    ([detail_pass_complete]); a built frame charges its inner IP length
    ([end_to_end_charge]); and the whole pipeline counts, subscriber by
    subscriber, what a queue and a map under a mutex count for the same frames
    ([pipeline_matches_baseline]).  Concurrency: FIFO and race freedom of the ring, no
    torn read of the seqlock, no change of a pinned snapshot.  Parsers: grammar
    equivalences, truncation errors, no faults on any input
    ([ingest_never_faults]), and round trips with the builders.  Files: captures,
    session tables and record files read back as written ([pcap_roundtrip],
    [sessions_csv_roundtrip], [records_file_roundtrip]); a replay ends and hands
    the capture to the ingest path as often as asked
    ([replay_ingests_capture]).  Reports: the JSON of the tables is valid and
    complete ([detail_reports_json]), a scraper reads the counters of the
    snapshot ([prometheus_counters_exact]), the endpoint answers any bytes
    ([http_answers_anything]); options survive printing and parsing
    ([options_roundtrip]); a paced replay keeps its rate ([pacing_bound]); no
    descriptor is leaked ([descriptors_balanced]); [main] starts up whole or not
    at all and its end releases everything ([startup_whole]); the help text lists
    exactly the options accepted ([usage_lists_options]) and a refused command
    line is explained ([refusals_explained]).  Benchmarks: the queues
    deliver everything once and in order and can always finish
    ([transit_delivers]), the two tables compute the same ([tables_agree]), and
    every packet timed by the parse benchmark is parsed in full
    ([parse_bench_complete]).  Failure behaviour: the table whose erase never returns when full, refused
    installations, full rings, skipped lines, failed record writes, statistics
    cut at the size of a buffer ([stats_json_iff_fits]), live packets whose
    storage has been freed ([live_batch_intact_iff]).

    ** Bounds and fuel

    Loops whose length is a table size or a queue length take it as fuel, and
    the theorems show it is enough: probe loops take the capacity,
    [meter_loop] one iteration per queued event and one more, [gy_drain] and
    [drain_records] one per queued element and one more, header chains their
    own limits (16 GTP-U extension headers, 8 IPv6 extension headers, AVP areas
    their length, capture files one iteration per record header).  Decimal
    printing takes the 20 digits of a 64-bit number, or 400 for a double, whose
    integer part has at most 309.
    Where a counter wraps the statements are modulo 2^64; the remaining size
    hypotheses are those of the types (fewer than 2^63 frame bytes, 2^31
    readers, 2^64 records).

    ** Parameters

    Clock readings are arguments (functions of the number of readings so far), as
    are the stop flag of [main] and what the other threads do to the rings between
    two packets ([ingest_loop]).  What sockets deliver is a list of outcomes.  The
    theorems on the histogram and the reports take the rank of a quantile and the
    ratios of a snapshot as arguments, which [Summary] computes with [double].  The growth of a
    vector is the argument [grow], at least the size asked for; the layout of
    [bpf_hdr] is the class [BpfAbi].  [std::sort], [std::partial_sort] and the
    heap algorithms are the interface [TopN.Algorithms], with the guarantees of
    the standard and an implementation; [std::unordered_map] is a [gmap].

    Text constants are written with [txt]: a backquote stands for a double quote,
    a tilde for a line feed and a caret for a carriage return.

    What the kernel answers to a system call is an oracle ([Descriptors]); what a
    file contains is an argument ([Startup], [BenchCommon]).  In the benchmarks the
    time a single-threaded routine takes and the order of [std::shuffle] are
    arguments; a paced loop terminates when its clock reaches the deadlines.

    ** Not modelled

    The [main] functions of bench_ring.cpp and bench_e2e.cpp, which print headings
    and call the routines modelled here, and the macOS text of the environment
    block; the handlers installed with [std::signal], whose effect is the stop flag
    of [Threads]; CPU pinning, idle backoff and cache-line layout, which have no effect on results.  In [Threads] an
    action is a ring or engine operation, so the reporter does not pop between two
    records of one sweep; the data race of [publish_locked] on the ingest
    statistics is not given a meaning.  The theorems on quantiles take the rank as an argument: how far the [double]
    product of [quantile_target] can be from the exact rank is not bounded.
    Allocation always succeeds: a [std::bad_alloc] or [std::length_error] of the
    ring, table or vector constructors for very large options ends the program
    outside [Startup].  A [send] of the HTTP reporter is taken to deliver all it
    was given: the source does not look at its result, so a partial send truncates
    the response. *)

From stdpp Require Export base gmap list strings numbers.
From Stdlib Require Export ZArith Lia Strings.Byte.

(** ** Scopes *)

Declare Scope gtpm_scope.
Delimit Scope gtpm_scope with gtpm.
#[global] Open Scope Z_scope.
#[global] Open Scope gtpm_scope.

(** Keep comparisons and the wraps folded under [cbn]. *)
#[global] Arguments Z.le : simpl never.
#[global] Arguments Z.lt : simpl never.
#[global] Arguments Z.pow : simpl never.
#[global] Arguments Z.add : simpl never.
#[global] Arguments Z.sub : simpl never.
#[global] Arguments Z.mul : simpl never.
#[global] Arguments Z.modulo : simpl never.

(** ** Outcomes of C++ code

    [Ok a] is a normal return.  [UB] is undefined behaviour: an out-of-range
    span or vector access, or a null dereference.  [Fuel] is a loop that did
    not finish within the iterations the model allows it. *)

Inductive res (A : Type) : Type :=
| Ok (a : A)
| UB
| Fuel.
Arguments Ok {A} a.
Arguments UB {A}.
Arguments Fuel {A}.

#[export] Instance res_ret : MRet res := fun A a => Ok a.
#[export] Instance res_bind : MBind res := fun A B f m =>
  match m with Ok a => f a | UB => UB | Fuel => Fuel end.

Notation "'let*' x ':=' m 'in' k" := (res_bind _ _ (fun x => k) m)
  (at level 10, x pattern, m at level 100, k at level 200,
   format "'[v' 'let*'  x  ':='  m  'in' '//' k ']'") : gtpm_scope.

Lemma bind_Ok {A B} (a : A) (f : A -> res B) : res_bind A B f (Ok a) = f a.
Proof. reflexivity. Qed.

Lemma bind_Ok_inv {A B} (m : res A) (f : A -> res B) (b : B) :
  res_bind A B f m = Ok b -> exists a, m = Ok a /\ f a = Ok b.
Proof. destruct m; simpl; intros H; try discriminate. eauto. Qed.

(** A computation returns: neither undefined behaviour nor out of fuel. *)
Definition returns {A} (m : res A) : Prop := exists a, m = Ok a.

Lemma returns_Ok {A} (a : A) : returns (Ok a).
Proof. exists a. reflexivity. Qed.

Lemma returns_bind {A B} (m : res A) (f : A -> res B) :
  returns m -> (forall a, m = Ok a -> returns (f a)) -> returns (res_bind A B f m).
Proof. intros [a Ha] Hf. rewrite Ha. apply Hf, Ha. Qed.

(** Hoare-style reading: [m] returns, and with a result in [P]. *)
Definition ensures {A} (m : res A) (P : A -> Prop) : Prop := exists a, m = Ok a /\ P a.

Lemma ensures_Ok {A} (a : A) (P : A -> Prop) : P a -> ensures (Ok a) P.
Proof. intros H. exists a. auto. Qed.

Lemma ensures_bind {A B} (m : res A) (f : A -> res B) (P : A -> Prop) (Q : B -> Prop) :
  ensures m P -> (forall a, P a -> ensures (f a) Q) -> ensures (res_bind A B f m) Q.
Proof. intros (a & -> & Ha) Hf. exact (Hf a Ha). Qed.

Lemma ensures_mono {A} (m : res A) (P Q : A -> Prop) :
  ensures m P -> (forall a, P a -> Q a) -> ensures m Q.
Proof. intros (a & -> & Ha) H. exists a. auto. Qed.

Lemma ensures_returns {A} (m : res A) (P : A -> Prop) : ensures m P -> returns m.
Proof. intros (a & -> & _). apply returns_Ok. Qed.

Lemma ensures_inv {A} (m : res A) (P : A -> Prop) a : ensures m P -> m = Ok a -> P a.
Proof. intros (b & -> & Hb) [= <-]. exact Hb. Qed.

(** ** Machine integers: [Z] kept at its width by an explicit wrap *)

Definition u8 (x : Z) : Z := x mod 2 ^ 8.
Definition u16 (x : Z) : Z := x mod 2 ^ 16.
Definition u32 (x : Z) : Z := x mod 2 ^ 32.
Definition u64 (x : Z) : Z := x mod 2 ^ 64.

Definition UINT32_MAX : Z := 2 ^ 32 - 1.
Definition UINT64_MAX : Z := 2 ^ 64 - 1.
Definition SIZE_MAX : Z := 2 ^ 64 - 1.

(** Unsigned [x + y], [x - y] and [x * y] on [uint64_t] / [size_t]. *)
Definition add64 (x y : Z) : Z := u64 (x + y).
Definition sub64 (x y : Z) : Z := u64 (x - y).
Definition mul64 (x y : Z) : Z := u64 (x * y).

Lemma u8_range x : 0 <= u8 x < 256.
Proof. apply Z.mod_pos_bound. lia. Qed.
Lemma u16_range x : 0 <= u16 x < 65536.
Proof. apply Z.mod_pos_bound. lia. Qed.
Lemma u32_range x : 0 <= u32 x < 2 ^ 32.
Proof. apply Z.mod_pos_bound. lia. Qed.
Lemma u64_range x : 0 <= u64 x < 2 ^ 64.
Proof. apply Z.mod_pos_bound. lia. Qed.

Lemma u8_small x : 0 <= x < 256 -> u8 x = x.
Proof. intros. apply Z.mod_small. lia. Qed.
Lemma u16_small x : 0 <= x < 65536 -> u16 x = x.
Proof. intros. apply Z.mod_small. lia. Qed.
Lemma u32_small x : 0 <= x < 2 ^ 32 -> u32 x = x.
Proof. intros. apply Z.mod_small. lia. Qed.
Lemma u64_small x : 0 <= x < 2 ^ 64 -> u64 x = x.
Proof. intros. apply Z.mod_small. lia. Qed.

Lemma sub64_small x y : 0 <= y <= x -> x < 2 ^ 64 -> sub64 x y = x - y.
Proof. intros. apply u64_small. lia. Qed.

(** A guarded subtraction never exceeds the exact difference. *)
Lemma sub64_le x y : y <= x -> 0 <= sub64 x y <= x - y.
Proof.
  intros. unfold sub64, u64. pose proof (Z.mod_pos_bound (x - y) (2 ^ 64)).
  pose proof (Z.mod_le (x - y) (2 ^ 64)). lia.
Qed.

(** Sums and differences of wrapped values. *)
Lemma u64_sub_u64 a b : u64 (u64 a - u64 b) = u64 (a - b).
Proof. unfold u64. by rewrite <- Zminus_mod. Qed.
Lemma u64_idem x : u64 (u64 x) = u64 x.
Proof. apply Zmod_mod. Qed.
Lemma u64_add_u64_l a b : u64 (u64 a + b) = u64 (a + b).
Proof. unfold u64. by rewrite Zplus_mod_idemp_l. Qed.
Lemma u64_add_u64_r a b : u64 (a + u64 b) = u64 (a + b).
Proof. unfold u64. by rewrite Zplus_mod_idemp_r. Qed.
Lemma u64_add_cong a a' b b' : u64 a = u64 a' -> u64 b = u64 b' -> u64 (a + b) = u64 (a' + b').
Proof. intros Ha Hb. by rewrite <- (u64_add_u64_l a), <- (u64_add_u64_r _ b), Ha, Hb, u64_add_u64_l, u64_add_u64_r. Qed.

(** Free-running 64-bit counters: differences below 2^64 survive the wrap. *)
Lemma sub64_counters a b : 0 <= a - b < 2 ^ 64 -> sub64 (u64 a) (u64 b) = a - b.
Proof. intros. unfold sub64. rewrite u64_sub_u64. by apply u64_small. Qed.

Lemma u64_eqb_counters a b : 0 <= b - a < 2 ^ 64 -> (u64 a =? u64 b) = (a =? b).
Proof.
  intros H. destruct (Z.eqb_spec a b) as [->|Hne]; [apply Z.eqb_refl|].
  apply Z.eqb_neq. intros E. pose proof (sub64_counters b a H) as Hd.
  rewrite E in Hd. unfold sub64 in Hd. rewrite Z.sub_diag in Hd. change (u64 0) with 0 in Hd. lia.
Qed.

(** A power-of-two mask takes the value modulo the power, also after a wrap. *)
Lemma land_mask n k : 0 <= k <= 64 -> Z.land (u64 n) (2 ^ k - 1) = n mod 2 ^ k.
Proof.
  intros. replace (2 ^ k - 1) with (Z.ones k) by (rewrite Z.ones_equiv; lia). rewrite Z.land_ones by lia.
  unfold u64. replace 64 with (k + (64 - k)) by lia. rewrite Z.pow_add_r by lia.
  rewrite Z.rem_mul_r by (try apply Z.pow_nonzero; try apply Z.pow_pos_nonneg; lia).
  rewrite Z.mul_comm, Z_mod_plus_full, Z.mod_mod by (apply Z.pow_nonzero; lia). done.
Qed.

(** Residues are injective on an interval no longer than the modulus. *)
Lemma mod_inj_interval m a b : 0 < m -> - m < a - b < m -> a mod m = b mod m -> a = b.
Proof.
  intros Hm Hab E. pose proof (Z_div_mod_eq_full a m). pose proof (Z_div_mod_eq_full b m).
  assert (a - b = m * (a / m - b / m)) by lia. assert (a / m - b / m = 0) by nia. lia.
Qed.

(** ** Powers of two *)

(** [std::has_single_bit] and [std::bit_ceil] (undefined when the result is
    not representable in [size_t]). *)
Definition has_single_bit (v : Z) : bool := negb (v =? 0) && (Z.land v (v - 1) =? 0).
Definition bit_ceil (v : Z) : res Z :=
  let p := 2 ^ Z.log2_up v in if 2 ^ 64 <=? p then UB else Ok p.

Lemma pow63 k : 1 <= k <= 63 -> 2 <= 2 ^ k /\ 2 ^ k <= 2 ^ 63.
Proof. intros. split; [change 2 with (2 ^ 1) at 1|]; apply Z.pow_le_mono_r; lia. Qed.

Lemma has_single_bit_spec v : 0 < v -> has_single_bit v = true <-> v = 2 ^ Z.log2 v.
Proof.
  intros Hv. unfold has_single_bit. rewrite andb_true_iff, negb_true_iff, Z.eqb_neq, Z.eqb_eq.
  pose proof (Z.log2_spec v Hv) as [Hlo Hhi]. pose proof (Z.log2_nonneg v). split.
  - intros [_ Hl]. destruct (Z.eq_dec v (2 ^ Z.log2 v)) as [|Hne]; [done|].
    assert (Z.log2 (v - 1) = Z.log2 v) as Hl1 by (apply Z.log2_unique; lia).
    assert (Z.testbit (Z.land v (v - 1)) (Z.log2 v) = true) as Hb.
    { rewrite Z.land_spec, Z.bit_log2 by lia. cbn [andb]. rewrite <- Hl1.
      pose proof (Z.pow_pos_nonneg 2 (Z.log2 v)). apply Z.bit_log2. lia. }
    by rewrite Hl, Z.testbit_0_l in Hb.
  - intros E. split; [lia|]. rewrite E at 1 2.
    replace (2 ^ Z.log2 v - 1) with (Z.ones (Z.log2 v)) by (rewrite Z.ones_equiv; lia).
    rewrite Z.land_ones, Z.mod_same by (try apply Z.pow_nonzero; lia). done.
Qed.

Lemma pow2_ceil_spec v : 2 <= v <= 2 ^ 63 ->
  exists k, 1 <= k <= 63 /\ (if has_single_bit v then Ok v else bit_ceil v) = Ok (2 ^ k) /\ v <= 2 ^ k < 2 * v.
Proof.
  intros Hv. unfold bit_ceil.
  destruct (has_single_bit v) eqn:E.
  - apply has_single_bit_spec in E; [|lia]. exists (Z.log2 v). rewrite <- E.
    split_and!; try done; try lia.
    + change 1 with (Z.log2 2). apply Z.log2_le_mono. lia.
    + change 63 with (Z.log2 (2 ^ 63)). apply Z.log2_le_mono. lia.
  - exists (Z.log2_up v). pose proof (Z.log2_up_spec v ltac:(lia)) as [Hlo Hhi].
    assert (1 <= Z.log2_up v <= 63) as Hk.
    { split; [change 1 with (Z.log2_up 2)|change 63 with (Z.log2_up (2 ^ 63))]; apply Z.log2_up_le_mono; lia. }
    pose proof (pow63 _ Hk).
    rewrite (proj2 (Z.leb_gt _ _)) by lia. split_and!; try done; try lia.
    replace (2 ^ Z.log2_up v) with (2 * 2 ^ Z.pred (Z.log2_up v)); [lia|].
    rewrite <- Z.pow_succ_r by lia. f_equal. lia.
Qed.

(** ** Bytes and spans *)

Abbreviation Bytes := (list byte).

(** The unsigned value of a byte, and the conversion [static_cast<uint8_t>]. *)
Definition bval (b : byte) : Z := Z.of_N (Byte.to_N b).
Definition to_byte (z : Z) : byte :=
  match Byte.of_N (Z.to_N (u8 z)) with Some b => b | None => x00 end.

Lemma bval_range b : 0 <= bval b < 256.
Proof. unfold bval. pose proof (to_N_bounded b). lia. Qed.

Lemma bval_to_byte z : bval (to_byte z) = u8 z.
Proof.
  unfold bval, to_byte. pose proof (u8_range z).
  destruct (Byte.of_N (Z.to_N (u8 z))) eqn:E.
  - apply to_of_N in E. lia.
  - apply of_N_None_iff in E. lia.
Qed.

Lemma to_byte_bval b : to_byte (bval b) = b.
Proof.
  unfold to_byte. rewrite u8_small by apply bval_range. unfold bval.
  rewrite N2Z.id, of_to_N. reflexivity.
Qed.

#[export] Instance byte_eq_dec : EqDecision byte := Byte.byte_eq_dec.

(** [span::size()], [span::operator[]] and [span::subspan].  An index or a
    range that leaves the span is undefined behaviour. *)
Definition size {A} (f : list A) : Z := Z.of_nat (length f).

Definition at_ {A} (f : list A) (i : Z) : res A :=
  if decide (0 <= i) then
    match f !! Z.to_nat i with Some a => Ok a | None => UB end
  else UB.

Definition rd (f : Bytes) (i : Z) : res Z := let* b := at_ f i in Ok (bval b).

Definition slice {A} (off len : Z) (f : list A) : list A :=
  take (Z.to_nat len) (drop (Z.to_nat off) f).

Definition subspan {A} (f : list A) (off len : Z) : res (list A) :=
  if decide (0 <= off /\ 0 <= len /\ off + len <= size f) then Ok (slice off len f) else UB.

(** [subspan(off)]: to the end of the span. *)
Definition subspan_from {A} (f : list A) (off : Z) : res (list A) :=
  subspan f off (size f - off).

(** Assignment [f[i] = a]; outside the array it is undefined. *)
Definition set_ {A} (f : list A) (i : Z) (a : A) : res (list A) :=
  if decide (0 <= i < size f) then Ok (<[Z.to_nat i := a]> f) else UB.

(** Value of the byte at [i], 0 outside: the specification's view of [rd]. *)
Definition byte_at (f : Bytes) (i : Z) : Z :=
  match f !! Z.to_nat i with Some b => bval b | None => 0 end.

Lemma size_nonneg {A} (f : list A) : 0 <= size f.
Proof. unfold size. lia. Qed.

Lemma size_nil {A} : size (@nil A) = 0.
Proof. reflexivity. Qed.
Lemma size_cons {A} (x : A) f : size (x :: f) = 1 + size f.
Proof. unfold size. simpl. lia. Qed.
Lemma size_app {A} (f g : list A) : size (f ++ g) = size f + size g.
Proof. unfold size. rewrite length_app. lia. Qed.

Lemma at_Ok {A} (f : list A) i : 0 <= i < size f -> returns (at_ f i).
Proof.
  unfold at_, size. intros H. rewrite decide_True by lia.
  destruct (lookup_lt_is_Some_2 f (Z.to_nat i)) as [a ->]; [lia|]. apply returns_Ok.
Qed.

Lemma at_lookup {A} (f : list A) i a : 0 <= i -> f !! Z.to_nat i = Some a -> at_ f i = Ok a.
Proof. intros Hi Ha. unfold at_. by rewrite decide_True, Ha by done. Qed.

Lemma set_Ok {A} (f : list A) i a : 0 <= i < size f -> set_ f i a = Ok (<[Z.to_nat i := a]> f).
Proof. intros. unfold set_. by rewrite decide_True by done. Qed.

Lemma size_insert {A} (f : list A) i b : size (<[i := b]> f) = size f.
Proof. unfold size. by rewrite length_insert. Qed.

Lemma rd_Ok f i : 0 <= i < size f -> rd f i = Ok (byte_at f i).
Proof.
  unfold rd, at_, byte_at, size. intros H. rewrite decide_True by lia.
  destruct (lookup_lt_is_Some_2 f (Z.to_nat i)) as [a ->]; [lia|]. reflexivity.
Qed.

Lemma rd_UB f i : ~ 0 <= i < size f -> rd f i = UB.
Proof.
  unfold rd, at_, size. intros H. case_decide; [|reflexivity].
  rewrite lookup_ge_None_2 by lia. reflexivity.
Qed.

Lemma byte_at_range f i : 0 <= byte_at f i < 256.
Proof. unfold byte_at. destruct (f !! _); [apply bval_range|lia]. Qed.

Lemma byte_at_cons_0 b f : byte_at (b :: f) 0 = bval b.
Proof. reflexivity. Qed.

Lemma byte_at_app_l f g i : 0 <= i < size f -> byte_at (f ++ g) i = byte_at f i.
Proof. unfold byte_at, size. intros. rewrite lookup_app_l by lia. reflexivity. Qed.

Lemma byte_at_app_r f g i : size f <= i -> byte_at (f ++ g) i = byte_at g (i - size f).
Proof.
  unfold byte_at, size. intros. rewrite lookup_app_r by lia.
  replace (Z.to_nat (i - Z.of_nat (length f))) with (Z.to_nat i - length f)%nat by lia.
  reflexivity.
Qed.

Lemma subspan_Ok {A} (f : list A) off len :
  0 <= off -> 0 <= len -> off + len <= size f -> subspan f off len = Ok (slice off len f).
Proof. intros. unfold subspan. rewrite decide_True by lia. reflexivity. Qed.

Lemma subspan_from_Ok {A} (f : list A) off :
  0 <= off <= size f -> subspan_from f off = Ok (drop (Z.to_nat off) f).
Proof.
  intros. unfold subspan_from. rewrite subspan_Ok by lia. unfold slice, size in *.
  rewrite take_ge; [reflexivity|]. rewrite length_drop. lia.
Qed.

Lemma size_slice {A} (f : list A) off len :
  0 <= off -> 0 <= len -> off + len <= size f -> size (slice off len f) = len.
Proof. unfold size, slice. intros. rewrite length_take, length_drop. lia. Qed.

Lemma size_drop {A} (f : list A) off :
  0 <= off <= size f -> size (drop (Z.to_nat off) f) = size f - off.
Proof. unfold size. intros. rewrite length_drop. lia. Qed.

Lemma size_take {A} (f : list A) n :
  0 <= n <= size f -> size (take (Z.to_nat n) f) = n.
Proof. unfold size. intros. rewrite length_take. lia. Qed.

Lemma slice_split {A} (f : list A) off len :
  0 <= off -> 0 <= len -> off + len <= size f ->
  f = take (Z.to_nat off) f ++ slice off len f ++ drop (Z.to_nat (off + len)) f.
Proof.
  intros. unfold slice. rewrite <- (take_drop (Z.to_nat off) f) at 1. f_equal.
  rewrite <- (take_drop (Z.to_nat len) (drop (Z.to_nat off) f)) at 1. f_equal.
  rewrite drop_drop. f_equal. lia.
Qed.

Lemma byte_at_slice f off len i :
  0 <= off -> 0 <= i < len -> byte_at (slice off len f) i = byte_at f (off + i).
Proof.
  unfold byte_at, slice. intros. rewrite lookup_take_lt by lia. rewrite lookup_drop.
  replace (Z.to_nat off + Z.to_nat i)%nat with (Z.to_nat (off + i)) by lia. reflexivity.
Qed.

Lemma byte_at_take f n i : 0 <= i < n -> byte_at (take (Z.to_nat n) f) i = byte_at f i.
Proof. unfold byte_at. intros. rewrite lookup_take_lt by lia. reflexivity. Qed.

Lemma byte_at_drop f n i :
  0 <= n -> 0 <= i -> byte_at (drop (Z.to_nat n) f) i = byte_at f (n + i).
Proof.
  unfold byte_at. intros. rewrite lookup_drop.
  replace (Z.to_nat n + Z.to_nat i)%nat with (Z.to_nat (n + i)) by lia. reflexivity.
Qed.

(** A part of a concatenation. *)
Lemma byte_at_mid pre mid post i : 0 <= i < size mid ->
  byte_at (pre ++ mid ++ post) (size pre + i) = byte_at mid i.
Proof.
  intros. rewrite byte_at_app_r by lia. replace (size pre + i - size pre) with i by lia.
  by apply byte_at_app_l.
Qed.

Lemma slice_mid {A} (pre mid post : list A) :
  slice (size pre) (size mid) (pre ++ mid ++ post) = mid.
Proof.
  unfold slice, size. rewrite !Nat2Z.id. rewrite drop_app_length, take_app_length. reflexivity.
Qed.

(** Reading [n] bytes at [p] splits the rest of the buffer. *)
Lemma drop_split {A} (f : list A) p n : 0 <= p -> 0 <= n -> p + n <= size f ->
  drop (Z.to_nat p) f = slice p n f ++ drop (Z.to_nat (p + n)) f.
Proof.
  intros. unfold slice. rewrite <- (take_drop (Z.to_nat n) (drop (Z.to_nat p) f)) at 1.
  f_equal. rewrite drop_drop. f_equal. lia.
Qed.

(** A view of [f]: a contiguous run of its bytes. *)
Definition view_of {A} (f g : list A) : Prop := exists pre post, f = pre ++ g ++ post.

Lemma view_of_slice {A} (f : list A) off len :
  0 <= off -> 0 <= len -> off + len <= size f -> view_of f (slice off len f).
Proof. intros. exists (take (Z.to_nat off) f), (drop (Z.to_nat (off + len)) f). by apply slice_split. Qed.

Lemma view_of_drop {A} (f : list A) n : view_of f (drop n f).
Proof. exists (take n f), []. by rewrite app_nil_r, take_drop. Qed.

Lemma view_of_trans {A} (f g h : list A) : view_of f g -> view_of g h -> view_of f h.
Proof.
  intros (p & q & ->) (p' & q' & ->). exists (p ++ p'), (q' ++ q).
  by rewrite <- !app_assoc.
Qed.

Lemma view_of_nil {A} (f : list A) : view_of f [].
Proof. exists [], f. reflexivity. Qed.

Lemma view_of_refl {A} (f : list A) : view_of f f.
Proof. exists [], []. by rewrite app_nil_r. Qed.

Lemma view_of_size {A} (f g : list A) : view_of f g -> size g <= size f.
Proof. intros (p & q & ->). rewrite !size_app. pose proof (size_nonneg p). pose proof (size_nonneg q). lia. Qed.

(** ** Functional update of record fields

    [r <| f := v |>] is [r] with the field [f] assigned.  A record type [R]
    declares its constructor applied to all its own projections with an
    [Eta R] instance; the update of one field abstracts that projection. *)

Class Eta (R : Type) := eta : R -> R.

Class Setter {R T : Type} (proj : R -> T) := setf : (T -> T) -> R -> R.
Arguments setf {R T} proj {_} f r : simpl nomatch.

Ltac derive_setter proj :=
  lazymatch type of proj with
  | ?R -> _ =>
      let e := constr:(@eta R _) in
      let body := eval hnf in e in
      lazymatch eval pattern proj in body with
      | ?abs _ => exact (fun f => abs (fun r => f (proj r)))
      end
  end.

#[export] Hint Extern 1 (Setter ?proj) => derive_setter proj : typeclass_instances.

Notation "r <| f := v |>" := (setf f (fun _ => v) r)
  (at level 1, f at next level, left associativity) : gtpm_scope.
Notation "r <| f ::= g |>" := (setf f g r)
  (at level 1, f at next level, left associativity) : gtpm_scope.

(** ** Shared automation *)

Create HintDb gtpm.
#[export] Hint Resolve returns_Ok ensures_Ok view_of_nil view_of_refl view_of_drop : gtpm.
#[export] Hint Resolve size_nonneg bval_range byte_at_range : gtpm.

Create Rewrite HintDb span.
#[export] Hint Rewrite @size_nil @size_cons @size_app bval_to_byte : span.

(** [auto] with arithmetic side conditions left to [lia]. *)
Ltac arith := first [ lia | cbn; lia ].

(** Take the next binding of a [let*] chain, when its head is known to return. *)
Ltac step_bind := first [ rewrite bind_Ok | progress (cbn [res_bind]) ].

(** Case analysis on the next test of the goal (or of a hypothesis): boolean
    comparisons become propositions on [Z]. *)
Ltac bool_to_prop :=
  repeat match goal with
  | H : (_ =? _) = true |- _ => apply Z.eqb_eq in H
  | H : (_ =? _) = false |- _ => apply Z.eqb_neq in H
  | H : (_ <? _) = true |- _ => apply Z.ltb_lt in H
  | H : (_ <? _) = false |- _ => apply Z.ltb_ge in H
  | H : (_ <=? _) = true |- _ => apply Z.leb_le in H
  | H : (_ <=? _) = false |- _ => apply Z.leb_gt in H
  | H : negb _ = true |- _ => apply negb_true_iff in H
  | H : negb _ = false |- _ => apply negb_false_iff in H
  | H : _ && _ = true |- _ => apply andb_true_iff in H as [? ?]
  | H : _ || _ = false |- _ => apply orb_false_iff in H as [? ?]
  end.

Ltac case_if :=
  match goal with
  | |- context [if ?b then _ else _] =>
      lazymatch type of b with
      | bool => let E := fresh "Hif" in destruct b eqn:E; bool_to_prop
      | sumbool _ _ => let E := fresh "Hif" in destruct b as [E|E]
      end
  end.

Ltac case_if_in H :=
  match type of H with
  | context [if ?b then _ else _] =>
      lazymatch type of b with
      | bool => let E := fresh "Hif" in destruct b eqn:E; bool_to_prop
      | sumbool _ _ => let E := fresh "Hif" in destruct b as [E|E]
      end
  end.
