(* ===== verification/ByteOrder.v ===== *)
(** * include/gtpm/byte_order.hpp: endian-safe scalar loads and stores

    The loads copy the bytes into a native integer ([memcpy]) and swap it on
    a little-endian host, exactly as the source does; [HostEndian] is
    [std::endian::native].  The specification values [be16_at], [be24_at],
    [be32_at], [be64_at], [le16_at], [le32_at] do not mention the host: the
    [load_*_Ok] lemmas show that every load is host-independent.  The stores
    write single bytes of a buffer. *)

From S2P Require Import Prelude.

Inductive endian := little | big.
Class HostEndian := native : endian.

(** Value of a byte sequence, least / most significant byte first. *)
Fixpoint le_val (bs : Bytes) : Z :=
  match bs with
  | [] => 0
  | b :: t => Z.lor (bval b) (Z.shiftl (le_val t) 8)
  end.
Definition be_val (bs : Bytes) : Z := le_val (rev bs).

(** The [n] low-order bytes of [v], least significant first. *)
Fixpoint le_split (n : nat) (v : Z) : Bytes :=
  match n with
  | O => []
  | S n => to_byte v :: le_split n (Z.shiftr v 8)
  end.

(** [__builtin_bswap32] and [__builtin_bswap64]: reverse the bytes. *)
Definition bswap (n : nat) (v : Z) : Z := be_val (le_split n v).

Section Loads.
Context {HE : HostEndian}.

(** [std::memcpy(&v, p, n)] into an [n]-byte integer. *)
Definition memcpy_int (f : Bytes) (p n : Z) : res Z :=
  let* bs := subspan f p n in
  Ok (match native with little => le_val bs | big => be_val bs end).

Definition load_u8 (f : Bytes) (p : Z) : res Z := rd f p.

Definition load_be16 (f : Bytes) (p : Z) : res Z :=
  let* v := memcpy_int f p 2 in
  Ok (match native with
      | little => u16 (Z.lor (Z.shiftr v 8) (Z.shiftl v 8))
      | big => v
      end).

Definition load_be24 (f : Bytes) (p : Z) : res Z :=
  let* b0 := rd f p in
  let* b1 := rd f (p + 1) in
  let* b2 := rd f (p + 2) in
  Ok (Z.lor (Z.lor (u32 (Z.shiftl b0 16)) (u32 (Z.shiftl b1 8))) b2).

Definition load_be32 (f : Bytes) (p : Z) : res Z :=
  let* v := memcpy_int f p 4 in
  Ok (match native with little => bswap 4 v | big => v end).

Definition load_be64 (f : Bytes) (p : Z) : res Z :=
  let* v := memcpy_int f p 8 in
  Ok (match native with little => bswap 8 v | big => v end).

Definition load_le16 (f : Bytes) (p : Z) : res Z :=
  let* v := memcpy_int f p 2 in
  Ok (match native with
      | big => u16 (Z.lor (Z.shiftr v 8) (Z.shiftl v 8))
      | little => v
      end).

Definition load_le32 (f : Bytes) (p : Z) : res Z :=
  let* v := memcpy_int f p 4 in
  Ok (match native with big => bswap 4 v | little => v end).

End Loads.

(** Assignment of one byte of a buffer; outside the buffer it is undefined. *)
Definition store8 (f : Bytes) (i v : Z) : res Bytes :=
  if decide (0 <= i < size f) then Ok (<[Z.to_nat i := to_byte v]> f) else UB.

Definition store_be16 (f : Bytes) (p v : Z) : res Bytes :=
  let* f := store8 f p (Z.shiftr v 8) in
  store8 f (p + 1) v.

Definition store_be24 (f : Bytes) (p v : Z) : res Bytes :=
  let* f := store8 f p (Z.shiftr v 16) in
  let* f := store8 f (p + 1) (Z.shiftr v 8) in
  store8 f (p + 2) v.

Definition store_be32 (f : Bytes) (p v : Z) : res Bytes :=
  let* f := store8 f p (Z.shiftr v 24) in
  let* f := store8 f (p + 1) (Z.shiftr v 16) in
  let* f := store8 f (p + 2) (Z.shiftr v 8) in
  store8 f (p + 3) v.

Definition store_le16 (f : Bytes) (p v : Z) : res Bytes :=
  let* f := store8 f p v in
  store8 f (p + 1) (Z.shiftr v 8).

Definition store_le32 (f : Bytes) (p v : Z) : res Bytes :=
  let* f := store8 f p v in
  let* f := store8 f (p + 1) (Z.shiftr v 8) in
  let* f := store8 f (p + 2) (Z.shiftr v 16) in
  store8 f (p + 3) (Z.shiftr v 24).

(** ** Host-independent specification values *)

Definition be16_at (f : Bytes) (p : Z) : Z := byte_at f p * 2 ^ 8 + byte_at f (p + 1).
Definition be24_at (f : Bytes) (p : Z) : Z := be16_at f p * 2 ^ 8 + byte_at f (p + 2).
Definition be32_at (f : Bytes) (p : Z) : Z := be16_at f p * 2 ^ 16 + be16_at f (p + 2).
Definition be64_at (f : Bytes) (p : Z) : Z := be32_at f p * 2 ^ 32 + be32_at f (p + 4).
Definition le16_at (f : Bytes) (p : Z) : Z := byte_at f p + byte_at f (p + 1) * 2 ^ 8.
Definition le32_at (f : Bytes) (p : Z) : Z := le16_at f p + le16_at f (p + 2) * 2 ^ 16.

(** ** Lemmas *)

Lemma land_low_shiftl a b n : 0 <= n -> 0 <= a < 2 ^ n -> Z.land a (Z.shiftl b n) = 0.
Proof.
  intros Hn Ha. apply Z.bits_inj_0. intros i. rewrite Z.land_spec.
  destruct (Z.lt_ge_cases i 0) as [Hi|Hi]; [by rewrite Z.testbit_neg_r|].
  rewrite Z.shiftl_spec by lia.
  destruct (Z.lt_ge_cases i n) as [Hin|Hin].
  - rewrite (Z.testbit_neg_r b) by lia. apply andb_false_r.
  - replace (Z.testbit a i) with false; [reflexivity|]. symmetry.
    apply Z.testbit_false; [lia|]. rewrite Z.div_small; [reflexivity|].
    pose proof (Z.pow_le_mono_r 2 n i). lia.
Qed.

Lemma lor_shiftl_add a b n :
  0 <= n -> 0 <= a < 2 ^ n -> Z.lor a (Z.shiftl b n) = a + b * 2 ^ n.
Proof.
  intros Hn Ha. pose proof (Z.add_lor_land a (Z.shiftl b n)) as H.
  rewrite (land_low_shiftl a b n Hn Ha), (Z.shiftl_mul_pow2 b n Hn) in H.
  rewrite (Z.shiftl_mul_pow2 b n Hn). lia.
Qed.

Lemma le_val_cons b t : le_val (b :: t) = bval b + le_val t * 2 ^ 8.
Proof. apply lor_shiftl_add; [lia|]. apply bval_range. Qed.

Lemma le_val_range bs : 0 <= le_val bs < 2 ^ (8 * size bs).
Proof.
  induction bs as [|b t IH]; [split; [reflexivity|]; reflexivity|].
  rewrite le_val_cons, size_cons. pose proof (bval_range b).
  replace (8 * (1 + size t)) with (8 + 8 * size t) by lia.
  pose proof (size_nonneg t). rewrite Z.pow_add_r by lia.
  set (X := 2 ^ (8 * size t)) in *. change (2 ^ 8) with 256. lia.
Qed.

Lemma le_split_val bs : le_split (length bs) (le_val bs) = bs.
Proof.
  induction bs as [|b t IH]; [reflexivity|]. cbn [length le_split].
  rewrite le_val_cons. f_equal.
  - rewrite <- (to_byte_bval b) at 2. unfold to_byte. do 3 f_equal. unfold u8.
    rewrite Z_mod_plus_full. reflexivity.
  - rewrite Z.shiftr_div_pow2, Z.div_add, Z.div_small by (lia || apply bval_range).
    exact IH.
Qed.

Lemma bswap_le_val bs : bswap (length bs) (le_val bs) = be_val bs.
Proof. unfold bswap. by rewrite le_split_val. Qed.

Lemma bswap_be_val bs : bswap (length bs) (be_val bs) = le_val bs.
Proof.
  unfold be_val. rewrite <- length_rev, bswap_le_val. unfold be_val.
  by rewrite rev_involutive.
Qed.

(** A two-byte swap done by hand on both hosts. *)
Lemma swap16 a b : 0 <= a < 256 -> 0 <= b < 256 ->
  u16 (Z.lor (Z.shiftr (a + b * 2 ^ 8) 8) (Z.shiftl (a + b * 2 ^ 8) 8)) = b + a * 2 ^ 8.
Proof.
  intros Ha Hb.
  assert (Z.shiftr (a + b * 2 ^ 8) 8 = b) as ->.
  { rewrite Z.shiftr_div_pow2, Z.div_add, Z.div_small by lia. lia. }
  rewrite lor_shiftl_add by lia. unfold u16.
  replace (b + (a + b * 2 ^ 8) * 2 ^ 8) with (b + a * 2 ^ 8 + b * 2 ^ 16) by ring.
  rewrite Z_mod_plus_full, Z.mod_small; lia.
Qed.

(** The bytes of a slice, one by one. *)
Lemma slice_cons f p n : 0 <= p < size f -> 0 < n ->
  exists b, slice p n f = b :: slice (p + 1) (n - 1) f /\ bval b = byte_at f p.
Proof.
  unfold slice, size, byte_at. intros Hp Hn.
  destruct (lookup_lt_is_Some_2 f (Z.to_nat p)) as [b Hb]; [lia|].
  exists b. rewrite Hb. split; [|reflexivity].
  rewrite (drop_S f b (Z.to_nat p)) by exact Hb.
  replace (Z.to_nat n) with (S (Z.to_nat (n - 1))) by lia.
  replace (Z.to_nat (p + 1)) with (S (Z.to_nat p)) by lia. reflexivity.
Qed.

Lemma slice_0 {A} (f : list A) p : slice p 0 f = [].
Proof. reflexivity. Qed.

(** Expand [slice p n f], for a literal [n], into its bytes. *)
Ltac expand_slice :=
  repeat match goal with
  | |- context [slice ?p ?n ?f] =>
      lazymatch eval cbv in n with
      | Z0 => change (slice p n f) with (@nil byte)
      | _ =>
          let b := fresh "b" in let E := fresh "E" in let V := fresh "V" in
          destruct (slice_cons f p n) as (b & E & V); [lia|lia|];
          rewrite E; clear E
      end
  end.

Section LoadLemmas.
Context {HE : HostEndian}.

Ltac load_tac :=
  intros; unfold memcpy_int; rewrite subspan_Ok by lia; cbn [res_bind];
  expand_slice.

Lemma load_be16_Ok f p : 0 <= p -> p + 2 <= size f -> load_be16 f p = Ok (be16_at f p).
Proof.
  unfold load_be16. load_tac. unfold be_val. cbn [rev app].
  unfold be16_at. f_equal. pose proof (bval_range b). pose proof (bval_range b0).
  destruct native; rewrite !le_val_cons; cbn [le_val]; rewrite Z.mul_0_l, Z.add_0_r.
  - rewrite swap16 by lia. lia.
  - lia.
Qed.

Lemma load_le16_Ok f p : 0 <= p -> p + 2 <= size f -> load_le16 f p = Ok (le16_at f p).
Proof.
  unfold load_le16. load_tac. unfold be_val. cbn [rev app].
  unfold le16_at. f_equal. pose proof (bval_range b). pose proof (bval_range b0).
  destruct native; rewrite !le_val_cons; cbn [le_val]; rewrite Z.mul_0_l, Z.add_0_r.
  - lia.
  - rewrite swap16 by lia. lia.
Qed.

Lemma load_be32_Ok f p : 0 <= p -> p + 4 <= size f -> load_be32 f p = Ok (be32_at f p).
Proof.
  unfold load_be32. load_tac. f_equal.
  transitivity (be_val [b; b0; b1; b2]).
  { destruct native; [apply (bswap_le_val [b; b0; b1; b2])|reflexivity]. }
  unfold be_val. cbn [rev app]. rewrite !le_val_cons. cbn [le_val].
  unfold be32_at, be16_at.
  replace (p + 1 + 1) with (p + 2) in * by lia. replace (p + 2 + 1) with (p + 3) in * by lia. lia.
Qed.

Lemma load_le32_Ok f p : 0 <= p -> p + 4 <= size f -> load_le32 f p = Ok (le32_at f p).
Proof.
  unfold load_le32. load_tac. f_equal.
  transitivity (le_val [b; b0; b1; b2]).
  { destruct native; [reflexivity|apply (bswap_be_val [b; b0; b1; b2])]. }
  rewrite !le_val_cons. cbn [le_val]. unfold le32_at, le16_at.
  replace (p + 1 + 1) with (p + 2) in * by lia. replace (p + 2 + 1) with (p + 3) in * by lia. lia.
Qed.

Lemma load_be64_Ok f p : 0 <= p -> p + 8 <= size f -> load_be64 f p = Ok (be64_at f p).
Proof.
  unfold load_be64. load_tac. f_equal.
  transitivity (be_val [b; b0; b1; b2; b3; b4; b5; b6]).
  { destruct native; [apply (bswap_le_val [b; b0; b1; b2; b3; b4; b5; b6])|reflexivity]. }
  unfold be_val. cbn [rev app]. rewrite !le_val_cons. cbn [le_val].
  unfold be64_at, be32_at, be16_at.
  repeat match goal with
  | H : context [?q + ?m + ?n] |- _ => let k := eval cbv in (m + n) in
      replace (q + m + n) with (q + k) in H by lia
  end.
  repeat match goal with
  | |- context [byte_at f (?q + ?m + ?n)] => let k := eval cbv in (m + n) in
      replace (q + m + n) with (q + k) by lia
  end. lia.
Qed.

Lemma load_be24_Ok f p : 0 <= p -> p + 3 <= size f -> load_be24 f p = Ok (be24_at f p).
Proof.
  intros. unfold load_be24. rewrite !rd_Ok by lia. cbn [res_bind]. f_equal.
  pose proof (byte_at_range f p). pose proof (byte_at_range f (p + 1)).
  pose proof (byte_at_range f (p + 2)).
  unfold be24_at, be16_at.
  assert (forall a n, 0 <= a < 256 -> 0 <= n <= 24 -> u32 (Z.shiftl a n) = Z.shiftl a n) as Hw.
  { intros a n Ha Hn. apply u32_small. rewrite Z.shiftl_mul_pow2 by lia.
    pose proof (Z.pow_le_mono_r 2 n 24). nia. }
  rewrite !Hw by lia.
  rewrite (Z.lor_comm (Z.shiftl _ 16)), (Z.lor_comm _ (byte_at f (p + 2))), Z.lor_assoc.
  rewrite (lor_shiftl_add (byte_at f (p + 2))) by lia. rewrite lor_shiftl_add by lia. lia.
Qed.

End LoadLemmas.

Lemma be16_at_range f p : 0 <= be16_at f p < 65536.
Proof. unfold be16_at. pose proof (byte_at_range f p). pose proof (byte_at_range f (p + 1)). lia. Qed.
Lemma be24_at_range f p : 0 <= be24_at f p < 2 ^ 24.
Proof. unfold be24_at. pose proof (be16_at_range f p). pose proof (byte_at_range f (p + 2)). lia. Qed.
Lemma be32_at_range f p : 0 <= be32_at f p < 2 ^ 32.
Proof. unfold be32_at. pose proof (be16_at_range f p). pose proof (be16_at_range f (p + 2)). lia. Qed.
Lemma be64_at_range f p : 0 <= be64_at f p < 2 ^ 64.
Proof. unfold be64_at. pose proof (be32_at_range f p). pose proof (be32_at_range f (p + 4)). lia. Qed.
Lemma le16_at_range f p : 0 <= le16_at f p < 65536.
Proof. unfold le16_at. pose proof (byte_at_range f p). pose proof (byte_at_range f (p + 1)). lia. Qed.
Lemma le32_at_range f p : 0 <= le32_at f p < 2 ^ 32.
Proof. unfold le32_at. pose proof (le16_at_range f p). pose proof (le16_at_range f (p + 2)). lia. Qed.
#[export] Hint Resolve be16_at_range be24_at_range be32_at_range be64_at_range : gtpm.

(** ** Stores *)

Lemma store8_Ok f i v : 0 <= i < size f -> store8 f i v = Ok (<[Z.to_nat i := to_byte v]> f).
Proof. intros. unfold store8. by rewrite decide_True. Qed.

#[export] Hint Rewrite @size_insert : span.

Lemma byte_at_insert f i j b : 0 <= i < size f -> 0 <= j ->
  byte_at (<[Z.to_nat i := b]> f) j = if decide (i = j) then bval b else byte_at f j.
Proof.
  unfold byte_at, size. intros. case_decide.
  - subst. rewrite list_lookup_insert_eq by lia. reflexivity.
  - rewrite list_lookup_insert_ne by lia. reflexivity.
Qed.

Ltac byte_at_tac :=
  repeat (rewrite byte_at_insert by (rewrite ?size_insert; lia));
  repeat (case_decide; try lia); rewrite ?bval_to_byte.

Ltac store_tac :=
  intros; repeat (rewrite store8_Ok by (rewrite ?size_insert; lia); cbn [res_bind]).

Lemma byte_of_shift v n : 0 <= n -> u8 (Z.shiftr v n) = (v / 2 ^ n) mod 256.
Proof. intros. unfold u8. by rewrite Z.shiftr_div_pow2. Qed.

Lemma split16 v : v mod 2 ^ 16 = (v / 2 ^ 8) mod 256 * 2 ^ 8 + v mod 256.
Proof. Z.div_mod_to_equations. lia. Qed.
Lemma split32 v : v mod 2 ^ 32 = (v / 2 ^ 16) mod 2 ^ 16 * 2 ^ 16 + v mod 2 ^ 16.
Proof. Z.div_mod_to_equations. lia. Qed.

Lemma split32_bytes v :
  v mod 2 ^ 32 = ((v / 2 ^ 24) mod 256 * 2 ^ 8 + (v / 2 ^ 16) mod 256) * 2 ^ 16
                 + ((v / 2 ^ 8) mod 256 * 2 ^ 8 + v mod 256).
Proof.
  rewrite split32, (split16 v), (split16 (v / 2 ^ 16)), Z.div_div by lia.
  replace (2 ^ 16 * 2 ^ 8) with (2 ^ 24) by reflexivity. reflexivity.
Qed.

Lemma split24_bytes v :
  v mod 2 ^ 24 = ((v / 2 ^ 16) mod 256 * 2 ^ 8 + (v / 2 ^ 8) mod 256) * 2 ^ 8 + v mod 256.
Proof.
  change (2 ^ 24) with (2 ^ 8 * 2 ^ 16). rewrite Z.rem_mul_r by lia.
  rewrite split16, Z.div_div by lia. change (2 ^ 8 * 2 ^ 8) with (2 ^ 16).
  change (2 ^ 8) with 256. lia.
Qed.

Section RoundTrip.
Context {HE : HostEndian}.

(** What the store/load pairs agree on, for every host byte order:
    a value stored at an offset of a buffer is read back, truncated to the
    width of the store. *)
Lemma store_be16_load f p v : 0 <= p -> p + 2 <= size f ->
  ensures (store_be16 f p v) (fun g => size g = size f /\ load_be16 g p = Ok (u16 v)).
Proof.
  unfold store_be16. store_tac. apply ensures_Ok. rewrite !size_insert. split; [done|].
  rewrite load_be16_Ok by (rewrite ?size_insert; lia). f_equal. unfold be16_at.
  byte_at_tac. rewrite byte_of_shift by lia. unfold u16, u8. by rewrite split16.
Qed.

Lemma store_be32_load f p v : 0 <= p -> p + 4 <= size f ->
  ensures (store_be32 f p v) (fun g => size g = size f /\ load_be32 g p = Ok (u32 v)).
Proof.
  unfold store_be32. store_tac. apply ensures_Ok. rewrite !size_insert. split; [done|].
  rewrite load_be32_Ok by (rewrite ?size_insert; lia). f_equal. unfold be32_at, be16_at.
  byte_at_tac. rewrite !byte_of_shift by lia. unfold u32, u8. by rewrite split32_bytes.
Qed.

Lemma store_le16_load f p v : 0 <= p -> p + 2 <= size f ->
  ensures (store_le16 f p v) (fun g => size g = size f /\ load_le16 g p = Ok (u16 v)).
Proof.
  unfold store_le16. store_tac. apply ensures_Ok. rewrite !size_insert. split; [done|].
  rewrite load_le16_Ok by (rewrite ?size_insert; lia). f_equal. unfold le16_at.
  byte_at_tac. rewrite byte_of_shift by lia. unfold u16, u8. rewrite split16. change (2 ^ 8) with 256. lia.
Qed.

Lemma store_le32_load f p v : 0 <= p -> p + 4 <= size f ->
  ensures (store_le32 f p v) (fun g => size g = size f /\ load_le32 g p = Ok (u32 v)).
Proof.
  unfold store_le32. store_tac. apply ensures_Ok. rewrite !size_insert. split; [done|].
  rewrite load_le32_Ok by (rewrite ?size_insert; lia). f_equal. unfold le32_at, le16_at.
  byte_at_tac. rewrite !byte_of_shift by lia. unfold u32, u8. rewrite split32_bytes. change (2 ^ 8) with 256. lia.
Qed.

Lemma store_be24_load f p v : 0 <= p -> p + 3 <= size f ->
  ensures (store_be24 f p v) (fun g => size g = size f /\ load_be24 g p = Ok (v mod 2 ^ 24)).
Proof.
  unfold store_be24. store_tac. apply ensures_Ok. rewrite !size_insert. split; [done|].
  rewrite load_be24_Ok by (rewrite ?size_insert; lia). f_equal. unfold be24_at, be16_at.
  byte_at_tac. rewrite !byte_of_shift by lia. unfold u8. rewrite split24_bytes. reflexivity.
Qed.
End RoundTrip.

(** Execute the load at the head of a [let*] chain; its bounds go to [lia]. *)
Ltac load_at m :=
  lazymatch m with
  | rd ?f ?i => rewrite (rd_Ok f i) by lia
  | load_u8 ?f ?i => unfold load_u8; rewrite (rd_Ok f i) by lia
  | load_be16 ?f ?i => rewrite (load_be16_Ok f i) by lia
  | load_be24 ?f ?i => rewrite (load_be24_Ok f i) by lia
  | load_be32 ?f ?i => rewrite (load_be32_Ok f i) by lia
  | load_be64 ?f ?i => rewrite (load_be64_Ok f i) by lia
  | load_le16 ?f ?i => rewrite (load_le16_Ok f i) by lia
  | load_le32 ?f ?i => rewrite (load_le32_Ok f i) by lia
  | subspan ?f ?i ?n => rewrite (subspan_Ok f i n) by lia
  | subspan_from ?f ?i => rewrite (subspan_from_Ok f i) by lia
  end.

Ltac load_step :=
  match goal with
  | |- ensures (res_bind _ _ _ ?m) _ => load_at m
  | |- returns (res_bind _ _ _ ?m) => load_at m
  | |- res_bind _ _ _ ?m = _ => load_at m
  end; cbn [res_bind].

(** Loads inside a prefix do not see what follows it, nor what was cut. *)
Lemma be16_at_app_l f g i : 0 <= i -> i + 2 <= size f -> be16_at (f ++ g) i = be16_at f i.
Proof. intros. unfold be16_at. rewrite !byte_at_app_l by lia. reflexivity. Qed.
Lemma be32_at_app_l f g i : 0 <= i -> i + 4 <= size f -> be32_at (f ++ g) i = be32_at f i.
Proof. intros. unfold be32_at. rewrite !be16_at_app_l by lia. reflexivity. Qed.
Lemma be16_at_take f n i : 0 <= i -> i + 2 <= n -> be16_at (take (Z.to_nat n) f) i = be16_at f i.
Proof. intros. unfold be16_at. rewrite !byte_at_take by lia. reflexivity. Qed.
Lemma slice_app_l {A} (f g : list A) off len :
  0 <= off -> 0 <= len -> off + len <= size f -> slice off len (f ++ g) = slice off len f.
Proof.
  unfold slice, size. intros. rewrite drop_app_le by lia.
  rewrite take_app_le by (rewrite length_drop; lia). reflexivity.
Qed.

(** ** Big-endian byte images *)

Definition be16_bytes (v : Z) : Bytes := [to_byte (Z.shiftr v 8); to_byte v].
Definition be24_bytes (v : Z) : Bytes := to_byte (Z.shiftr v 16) :: be16_bytes v.
Definition be32_bytes (v : Z) : Bytes := be16_bytes (Z.shiftr v 16) ++ be16_bytes v.
Definition be64_bytes (v : Z) : Bytes := be32_bytes (Z.shiftr v 32) ++ be32_bytes v.

Lemma bval_inj a b : bval a = bval b -> a = b.
Proof. intros H. rewrite <- (to_byte_bval a), <- (to_byte_bval b). by rewrite H. Qed.

Lemma to_byte_mod a b : a mod 256 = b mod 256 -> to_byte a = to_byte b.
Proof. intros H. apply bval_inj. rewrite !bval_to_byte. exact H. Qed.

Lemma drop_be16 f off : 0 <= off -> off + 2 <= size f ->
  drop (Z.to_nat off) f = be16_bytes (be16_at f off) ++ drop (Z.to_nat (off + 2)) f.
Proof.
  intros H1 H2. pose proof (byte_at_range f off). pose proof (byte_at_range f (off + 1)).
  destruct (slice_cons f off 1) as (b & _ & Hb); [lia..|].
  destruct (slice_cons f (off + 1) 1) as (b' & _ & Hb'); [lia..|].
  unfold byte_at in Hb, Hb'. unfold size in H2.
  destruct (lookup_lt_is_Some_2 f (Z.to_nat off)) as [c Hc]; [lia|].
  destruct (lookup_lt_is_Some_2 f (Z.to_nat (off + 1))) as [c' Hc']; [lia|].
  rewrite (drop_S f c (Z.to_nat off)) by done.
  replace (S (Z.to_nat off)) with (Z.to_nat (off + 1)) by lia.
  rewrite (drop_S f c') by done.
  replace (S (Z.to_nat (off + 1))) with (Z.to_nat (off + 2)) by lia.
  unfold be16_bytes, be16_at, byte_at. rewrite Hc, Hc'. cbn [app].
  pose proof (bval_range c). pose proof (bval_range c').
  f_equal; [|f_equal]; apply bval_inj; rewrite bval_to_byte.
  - rewrite Z.shiftr_div_pow2 by lia. rewrite Z.add_comm, Z.div_add by lia.
    rewrite (Z.div_small (bval c')) by lia. by rewrite u8_small by lia.
  - unfold u8. rewrite Z.add_comm, Z_mod_plus_full. by rewrite Z.mod_small by lia.
Qed.

Lemma be16_at_be16_bytes pre v post : 0 <= v < 65536 ->
  be16_at (pre ++ be16_bytes v ++ post) (size pre) = v.
Proof.
  intros Hv. unfold be16_at.
  rewrite (byte_at_app_r pre _ (size pre)), (byte_at_app_r pre _ (size pre + 1)) by lia.
  replace (size pre - size pre) with 0 by lia. replace (size pre + 1 - size pre) with 1 by lia.
  change (byte_at (be16_bytes v ++ post) 0) with (bval (to_byte (Z.shiftr v 8))).
  change (byte_at (be16_bytes v ++ post) 1) with (bval (to_byte v)).
  rewrite !bval_to_byte. unfold u8. rewrite Z.shiftr_div_pow2 by lia.
  pose proof (split16 v) as H. rewrite (Z.mod_small v) in H by lia.
  change 256 with (2 ^ 8) in H. lia.
Qed.

Lemma size_be16_bytes v : size (be16_bytes v) = 2.
Proof. reflexivity. Qed.

Lemma size_be24_bytes v : size (be24_bytes v) = 3.
Proof. reflexivity. Qed.
Lemma size_be32_bytes v : size (be32_bytes v) = 4.
Proof. reflexivity. Qed.
Lemma size_be64_bytes v : size (be64_bytes v) = 8.
Proof. reflexivity. Qed.
#[export] Hint Rewrite size_be16_bytes size_be24_bytes size_be32_bytes size_be64_bytes : span.

Lemma drop_1 f off : 0 <= off < size f ->
  drop (Z.to_nat off) f = to_byte (byte_at f off) :: drop (Z.to_nat (off + 1)) f.
Proof.
  intros H. unfold size, byte_at in *.
  destruct (lookup_lt_is_Some_2 f (Z.to_nat off)) as [c Hc]; [lia|].
  rewrite Hc, to_byte_bval, (drop_S f c) by done. do 2 f_equal. lia.
Qed.

(** A 16-bit image only depends on the value modulo 2^16. *)
Lemma be16_bytes_mod a b : 0 <= b < 65536 -> be16_bytes (a * 2 ^ 16 + b) = be16_bytes b.
Proof.
  intros Hb. unfold be16_bytes. rewrite !Z.shiftr_div_pow2 by lia.
  f_equal; [|f_equal]; apply to_byte_mod.
  - replace (a * 2 ^ 16 + b) with (b + a * 256 * 2 ^ 8) by lia. rewrite Z.div_add by lia.
    apply Z_mod_plus_full.
  - replace (a * 2 ^ 16 + b) with (b + a * 256 * 256) by lia. apply Z_mod_plus_full.
Qed.

Lemma shiftr_add_16 a b n : 0 <= n -> 0 <= b < 2 ^ n -> Z.shiftr (a * 2 ^ n + b) n = a.
Proof.
  intros. rewrite Z.shiftr_div_pow2, Z.add_comm, Z.div_add, Z.div_small by lia. lia.
Qed.

Lemma drop_be32 f off : 0 <= off -> off + 4 <= size f ->
  drop (Z.to_nat off) f = be32_bytes (be32_at f off) ++ drop (Z.to_nat (off + 4)) f.
Proof.
  intros. rewrite (drop_be16 f off), (drop_be16 f (off + 2)) by lia.
  unfold be32_bytes, be32_at. pose proof (be16_at_range f (off + 2)).
  rewrite be16_bytes_mod, shiftr_add_16 by lia. rewrite <- app_assoc.
  by replace (off + 2 + 2) with (off + 4) by lia.
Qed.

Lemma drop_be24 f off : 0 <= off -> off + 3 <= size f ->
  drop (Z.to_nat off) f = be24_bytes (be24_at f off) ++ drop (Z.to_nat (off + 3)) f.
Proof.
  intros. rewrite (drop_1 f off), (drop_be16 f (off + 1)) by lia.
  replace (be24_at f off) with (byte_at f off * 2 ^ 16 + be16_at f (off + 1)).
  2: { unfold be24_at, be16_at. replace (off + 1 + 1) with (off + 2) by lia. lia. }
  unfold be24_bytes. pose proof (be16_at_range f (off + 1)).
  rewrite be16_bytes_mod, shiftr_add_16 by lia. cbn [app].
  by replace (off + 1 + 2) with (off + 3) by lia.
Qed.

(** Reading an image back, anywhere in a buffer; [v] is taken modulo the width. *)
Lemma be16_at_image pre v post : be16_at (pre ++ be16_bytes v ++ post) (size pre) = u16 v.
Proof.
  rewrite <- (be16_at_be16_bytes pre (u16 v) post) by apply u16_range.
  do 3 f_equal. rewrite (Z_div_mod_eq_full v (2 ^ 16)) at 1.
  rewrite (Z.mul_comm (2 ^ 16)). rewrite be16_bytes_mod; [done|]. apply u16_range.
Qed.

Lemma be32_at_image pre v post : be32_at (pre ++ be32_bytes v ++ post) (size pre) = u32 v.
Proof.
  unfold be32_at, be32_bytes. rewrite <- app_assoc, be16_at_image.
  replace (size pre + 2) with (size (pre ++ be16_bytes (Z.shiftr v 16)))
    by (rewrite size_app; reflexivity).
  rewrite app_assoc, be16_at_image. unfold u16, u32. rewrite Z.shiftr_div_pow2 by lia.
  by rewrite split32.
Qed.

Lemma be24_at_image pre v post : be24_at (pre ++ be24_bytes v ++ post) (size pre) = v mod 2 ^ 24.
Proof.
  transitivity (byte_at (pre ++ be24_bytes v ++ post) (size pre) * 2 ^ 16
    + be16_at ((pre ++ [to_byte (Z.shiftr v 16)]) ++ be16_bytes v ++ post) (size pre + 1)).
  { rewrite <- app_assoc. unfold be24_at, be16_at, be24_bytes. cbn [app].
    replace (size pre + 1 + 1) with (size pre + 2) by lia. lia. }
  replace (size pre + 1) with (size (pre ++ [to_byte (Z.shiftr v 16)])) by (rewrite size_app; done).
  rewrite be16_at_image, byte_at_app_r, Z.sub_diag by lia. unfold be24_bytes. cbn [app].
  rewrite byte_at_cons_0, bval_to_byte, byte_of_shift by lia. unfold u16.
  change (2 ^ 24) with (2 ^ 16 * 2 ^ 8). rewrite Z.rem_mul_r by lia. change (2 ^ 8) with 256. lia.
Qed.

Lemma be64_at_image pre v post : be64_at (pre ++ be64_bytes v ++ post) (size pre) = u64 v.
Proof.
  unfold be64_at, be64_bytes. rewrite <- app_assoc, be32_at_image.
  replace (size pre + 4) with (size (pre ++ be32_bytes (Z.shiftr v 32)))
    by (rewrite size_app; reflexivity).
  rewrite app_assoc, be32_at_image. unfold u32, u64. rewrite Z.shiftr_div_pow2 by lia.
  change (2 ^ 64) with (2 ^ 32 * 2 ^ 32). rewrite Z.rem_mul_r by lia. lia.
Qed.
