(* ===== verification/Gtpu.v ===== *)
(** * include/gtpm/gtpu.hpp: the GTP-U parser (3GPP TS 29.281)

    [parse_ext_chain] walks the extension-header chain and [parse_gtpu]
    decodes one PDU.  Both return the status together with the header as the
    C++ out-parameter leaves it, also on the error paths.  Every byte access
    goes through [rd] / [subspan], so a read outside the frame would be [UB]. *)

From S2P Require Import Prelude ByteOrder.

Definition kGtpuPort : Z := 2152.
Definition kGtpuFixedHeaderLen : Z := 8.
Definition kGtpuOptionalFieldsLen : Z := 4.
Definition kGtpuMaxExtHeaders : Z := 16.

Module GtpuMsgType.
Definition kEchoRequest : Z := 1.
Definition kEchoResponse : Z := 2.
Definition kErrorIndication : Z := 26.
Definition kSupportedExtHeadersNotify : Z := 31.
Definition kEndMarker : Z := 254.
Definition kGpdu : Z := 255.
End GtpuMsgType.

Module GtpuExtType.
Definition kNone : Z := 0x00.
Definition kLongPdcpPduNumber : Z := 0x03.
Definition kServiceClassIndicator : Z := 0x20.
Definition kUdpPort : Z := 0x40.
Definition kRanContainer : Z := 0x81.
Definition kLongPdcpPduNumber2 : Z := 0x82.
Definition kXwRanContainer : Z := 0x83.
Definition kNrRanContainer : Z := 0x84.
Definition kPduSessionContainer : Z := 0x85.
Definition kPdcpPduNumber : Z := 0xC0.
End GtpuExtType.

Module PduSessionInfoType.
Definition kDownlink : Z := 0.
Definition kUplink : Z := 1.
End PduSessionInfoType.

Module GtpuStatus.
Inductive t :=
| kOk | kTruncated | kBadVersion | kNotGtpU | kBadLength | kBadExtHeader | kExtChainTooLong.
#[global] Instance eq_dec : EqDecision t.
Proof. solve_decision. Defined.

Definition to_string (s : t) : string :=
  match s with
  | kOk => "ok"
  | kTruncated => "truncated"
  | kBadVersion => "bad-version"
  | kNotGtpU => "not-gtpu"
  | kBadLength => "bad-length"
  | kBadExtHeader => "bad-ext-header"
  | kExtChainTooLong => "ext-chain-too-long"
  end.
End GtpuStatus.

Record GtpuHeader := mkGtpuHeader {
  payload : Bytes;
  teid : Z;
  seq : Z;
  header_len : Z;
  declared_len : Z;
  msg_type : Z;
  npdu : Z;
  qfi : Z;
  pdu_type : Z;
  ext_count : Z;
  has_seq : bool;
  has_npdu : bool;
  has_ext : bool;
  has_qfi : bool;
  rqi : bool
}.

#[export] Instance GtpuHeader_eta : Eta GtpuHeader := fun h =>
  mkGtpuHeader (payload h) (teid h) (seq h) (header_len h) (declared_len h) (msg_type h)
    (npdu h) (qfi h) (pdu_type h) (ext_count h) (has_seq h) (has_npdu h) (has_ext h)
    (has_qfi h) (rqi h).

(** [GtpuHeader{}]. *)
Definition GtpuHeader_init : GtpuHeader :=
  mkGtpuHeader [] 0 0 0 0 0 0 0 0 0 false false false false false.

Definition is_gpdu (h : GtpuHeader) : bool := msg_type h =? GtpuMsgType.kGpdu.
Definition is_end_marker (h : GtpuHeader) : bool := msg_type h =? GtpuMsgType.kEndMarker.

Section Parser.
Context {HE : HostEndian}.

(** The body of the PDU Session Container branch: pdu_type, qfi, rqi. *)
Definition read_pdu_session_container (buf : Bytes) (content : Z) (out : GtpuHeader)
  : res GtpuHeader :=
  let* c0 := rd buf content in
  let* c1 := rd buf (content + 1) in
  let pt := u8 (Z.shiftr c0 4) in
  Ok (out <| pdu_type := pt |>
          <| qfi := u8 (Z.land c1 0x3F) |>
          <| rqi := (pt =? PduSessionInfoType.kDownlink) && negb (Z.land c1 0x40 =? 0) |>
          <| has_qfi := true |>).

(** The [while (next != kNone)] loop; the result carries [consumed]. *)
Fixpoint ext_loop (fuel : nat) (buf : Bytes) (next links consumed : Z) (out : GtpuHeader)
  : res (GtpuStatus.t * GtpuHeader * Z) :=
  match fuel with
  | O => Fuel
  | S fuel =>
    if next =? GtpuExtType.kNone then
      Ok (GtpuStatus.kOk, out <| ext_count := u8 links |>, consumed)
    else
    let links := links + 1 in
    if kGtpuMaxExtHeaders <? links then Ok (GtpuStatus.kExtChainTooLong, out, consumed) else
    if size buf <=? consumed then Ok (GtpuStatus.kTruncated, out, consumed) else
    let* units := rd buf consumed in
    if units =? 0 then Ok (GtpuStatus.kBadExtHeader, out, consumed) else
    let ext_len := units * 4 in
    if size buf <? consumed + ext_len then Ok (GtpuStatus.kTruncated, out, consumed) else
    let content := consumed + 1 in
    let content_len := sub64 ext_len 2 in
    let* out :=
      (if (next =? GtpuExtType.kPduSessionContainer) && (2 <=? content_len)
       then read_pdu_session_container buf content out else Ok out) in
    let* next := rd buf (consumed + ext_len - 1) in
    ext_loop fuel buf next links (consumed + ext_len) out
  end.

(** At most 16 links are followed, so 17 tests of the loop condition are
    enough fuel: [ext_loop_safe] below. *)
Definition ext_fuel : nat := 17.

Definition parse_ext_chain (buf : Bytes) (first_type : Z) (out : GtpuHeader)
  : res (GtpuStatus.t * GtpuHeader * Z) :=
  ext_loop ext_fuel buf first_type 0 0 out.

(** The tail of [parse_gtpu], after the optional block. *)
Definition finish_gtpu (frame : Bytes) (out : GtpuHeader)
    (declared offset optional_and_ext : Z) : res (GtpuStatus.t * GtpuHeader) :=
  if declared <? optional_and_ext then Ok (GtpuStatus.kBadLength, out) else
  let payload_len := sub64 declared optional_and_ext in
  let out := out <| header_len := u16 offset |> in
  let* p := subspan frame offset payload_len in
  Ok (GtpuStatus.kOk, out <| payload := p |>).

Definition parse_gtpu (frame : Bytes) : res (GtpuStatus.t * GtpuHeader) :=
  let out := GtpuHeader_init in
  if size frame <? kGtpuFixedHeaderLen then Ok (GtpuStatus.kTruncated, out) else
  let* flags := rd frame 0 in
  if negb (Z.shiftr flags 5 =? 1) then Ok (GtpuStatus.kBadVersion, out) else
  if Z.land flags 0x10 =? 0 then Ok (GtpuStatus.kNotGtpU, out) else
  let e_bit := negb (Z.land flags 0x04 =? 0) in
  let s_bit := negb (Z.land flags 0x02 =? 0) in
  let pn_bit := negb (Z.land flags 0x01 =? 0) in
  let* mt := rd frame 1 in
  let out := out <| msg_type := mt |> in
  let* dl := load_be16 frame 2 in
  let out := out <| declared_len := dl |> in
  let* t := load_be32 frame 4 in
  let out := out <| teid := t |> in
  let declared := declared_len out in
  if sub64 (size frame) kGtpuFixedHeaderLen <? declared
  then Ok (GtpuStatus.kTruncated, out) else
  let offset := kGtpuFixedHeaderLen in
  if e_bit || s_bit || pn_bit then
    if declared <? kGtpuOptionalFieldsLen then Ok (GtpuStatus.kBadLength, out) else
    let* sq := load_be16 frame offset in
    let out := out <| seq := sq |> in
    let* np := rd frame (offset + 2) in
    let out := out <| npdu := np |> <| has_seq := s_bit |> <| has_npdu := pn_bit |> in
    let* first_ext := rd frame (offset + 3) in
    let offset := offset + kGtpuOptionalFieldsLen in
    let optional_and_ext := kGtpuOptionalFieldsLen in
    if e_bit && negb (first_ext =? GtpuExtType.kNone) then
      let out := out <| has_ext := true |> in
      let* ext_area := subspan frame offset (sub64 declared kGtpuOptionalFieldsLen) in
      let* r := parse_ext_chain ext_area first_ext out in
      let '(st, out, ext_bytes) := r in
      if bool_decide (st = GtpuStatus.kOk)
      then finish_gtpu frame out declared (offset + ext_bytes) (optional_and_ext + ext_bytes)
      else Ok (st, out)
    else finish_gtpu frame out declared offset optional_and_ext
  else finish_gtpu frame out declared offset 0.

End Parser.

(** ** The wire grammar of the extension chain

    An extension header is [units][content][next type], [units] counting
    4-byte words of the whole header (TS 29.281 §5.2.1).  [enc_chain] is the
    wire image of a list of headers, [decode_ext] what one of them says. *)

Record ExtHeader := mkExt { ext_type : Z; ext_content : Bytes }.

Definition head_type (l : list ExtHeader) : Z :=
  match l with [] => GtpuExtType.kNone | e :: _ => ext_type e end.

Fixpoint enc_chain (l : list ExtHeader) : Bytes :=
  match l with
  | [] => []
  | e :: r =>
      to_byte ((size (ext_content e) + 2) / 4) :: ext_content e
      ++ to_byte (head_type r) :: enc_chain r
  end.

Definition wf_ext (e : ExtHeader) : Prop :=
  0 < ext_type e < 256 /\ (size (ext_content e) + 2) mod 4 = 0 /\
  size (ext_content e) + 2 <= 255 * 4.

Definition decode_ext (out : GtpuHeader) (e : ExtHeader) : GtpuHeader :=
  if (ext_type e =? GtpuExtType.kPduSessionContainer) && (2 <=? size (ext_content e)) then
    let c0 := byte_at (ext_content e) 0 in
    let c1 := byte_at (ext_content e) 1 in
    out <| pdu_type := u8 (Z.shiftr c0 4) |>
        <| qfi := u8 (Z.land c1 0x3F) |>
        <| rqi := (u8 (Z.shiftr c0 4) =? PduSessionInfoType.kDownlink)
                  && negb (Z.land c1 0x40 =? 0) |>
        <| has_qfi := true |>
  else out.

Definition decode_chain (l : list ExtHeader) (out : GtpuHeader) : GtpuHeader :=
  (foldl decode_ext out l) <| ext_count := u8 (size l) |>.

Lemma enc_chain_cons e r :
  enc_chain (e :: r) =
  to_byte ((size (ext_content e) + 2) / 4) :: ext_content e ++ to_byte (head_type r) :: enc_chain r.
Proof. reflexivity. Qed.

Lemma size_enc_cons e r :
  size (enc_chain (e :: r)) = size (ext_content e) + 2 + size (enc_chain r).
Proof. rewrite enc_chain_cons. autorewrite with span. lia. Qed.

Lemma wf_ext_units e : wf_ext e ->
  let u := (size (ext_content e) + 2) / 4 in
  u * 4 = size (ext_content e) + 2 /\ 0 < u < 256.
Proof.
  intros (_ & Hm & Hl). pose proof (size_nonneg (ext_content e)). cbn zeta.
  split; Z.div_mod_to_equations; lia.
Qed.

Lemma head_type_range l : Forall wf_ext l -> 0 <= head_type l < 256.
Proof. destruct 1 as [|e r [? _]]; cbn; unfold GtpuExtType.kNone; lia. Qed.

(** Bytes of a middle part of a concatenation. *)
Section Chain.
Context {HE : HostEndian}.

Lemma read_container_Ok buf c out : 0 <= c -> c + 2 <= size buf ->
  read_pdu_session_container buf c out =
  Ok (decode_ext out (mkExt GtpuExtType.kPduSessionContainer (slice c 2 buf))).
Proof.
  intros. unfold read_pdu_session_container, decode_ext. rewrite !rd_Ok by lia.
  cbn [res_bind ext_type ext_content]. rewrite size_slice by lia.
  rewrite !byte_at_slice by lia. rewrite Z.add_0_r. reflexivity.
Qed.

(** [decode_ext] only looks at the first two content bytes. *)
Lemma decode_ext_content out t c c' :
  (2 <=? size c) = (2 <=? size c') -> byte_at c 0 = byte_at c' 0 -> byte_at c 1 = byte_at c' 1 ->
  decode_ext out (mkExt t c) = decode_ext out (mkExt t c').
Proof. intros E E0 E1. unfold decode_ext; cbn. by rewrite E, E0, E1. Qed.

(** One turn of the loop over a well-formed header. *)
Lemma ext_loop_step fuel buf next links consumed out c :
  next <> 0 -> links < 16 -> 0 <= consumed ->
  let u := byte_at buf consumed in
  0 < u -> consumed + u * 4 <= size buf ->
  c = slice (consumed + 1) (u * 4 - 2) buf ->
  ext_loop (S fuel) buf next links consumed out =
  ext_loop fuel buf (byte_at buf (consumed + u * 4 - 1)) (links + 1) (consumed + u * 4)
    (decode_ext out (mkExt next c)).
Proof.
  cbn zeta. intros Hn Hl Hc Hu Hs ->. pose proof (byte_at_range buf consumed) as Hr.
  cbn [ext_loop]. unfold GtpuExtType.kNone, kGtpuMaxExtHeaders.
  rewrite (proj2 (Z.eqb_neq _ _) Hn), (proj2 (Z.ltb_ge _ _)), (proj2 (Z.leb_gt _ _)) by lia.
  rewrite rd_Ok by lia. cbn [res_bind].
  rewrite (proj2 (Z.eqb_neq _ 0)), (proj2 (Z.ltb_ge _ _)) by lia.
  rewrite sub64_small by lia. rewrite rd_Ok by lia.
  assert ((if (next =? GtpuExtType.kPduSessionContainer) && (2 <=? byte_at buf consumed * 4 - 2)
           then read_pdu_session_container buf (consumed + 1) out else Ok out) =
          Ok (decode_ext out (mkExt next (slice (consumed + 1) (byte_at buf consumed * 4 - 2) buf))))
    as ->; [|reflexivity].
  destruct (next =? _) eqn:E; cbn [andb]; bool_to_prop.
  - subst next. rewrite (proj2 (Z.leb_le 2 _)) by lia. rewrite read_container_Ok by lia. f_equal.
    apply decode_ext_content; rewrite ?size_slice, ?byte_at_slice by lia; try done.
    symmetry. apply Z.leb_le. lia.
  - unfold decode_ext. cbn [ext_type]. rewrite (proj2 (Z.eqb_neq _ _)) by lia. reflexivity.
Qed.

Lemma ext_loop_done fuel buf links consumed out :
  ext_loop (S fuel) buf 0 links consumed out =
  Ok (GtpuStatus.kOk, out <| ext_count := u8 links |>, consumed).
Proof. reflexivity. Qed.
End Chain.

(** The loop decodes every well-formed chain of at most 16 links. *)
Lemma ext_loop_complete l : forall fuel pre rest links out,
  Forall wf_ext l -> 0 <= links -> links + size l <= 16 -> (length l < fuel)%nat ->
  ext_loop fuel (pre ++ enc_chain l ++ rest) (head_type l) links (size pre) out =
  Ok (GtpuStatus.kOk, (foldl decode_ext out l) <| ext_count := u8 (links + size l) |>,
      size pre + size (enc_chain l)).
Proof.
  induction l as [|e r IH]; intros fuel pre rest links out Hwf Hl0 Hl Hf.
  - destruct fuel; [lia|]. rewrite ext_loop_done. by rewrite !Z.add_0_r.
  - inversion_clear Hwf as [|? ? He Hr]. rewrite size_cons in Hl. cbn in Hf.
    destruct fuel as [|fuel]; [lia|]. pose proof (wf_ext_units e He) as [Hu Hur]. cbn zeta in *.
    destruct He as ([Ht0 Ht1] & Hm & Hmax). set (u := (size (ext_content e) + 2) / 4) in *.
    pose proof (size_nonneg (enc_chain r)). pose proof (size_nonneg rest).
    pose proof (size_nonneg r).
    assert (size (enc_chain (e :: r)) = u * 4 + size (enc_chain r)) as Hsz
      by (rewrite size_enc_cons; lia).
    assert (byte_at (pre ++ enc_chain (e :: r) ++ rest) (size pre) = u) as Hb0.
    { replace (size pre) with (size pre + 0) by lia. rewrite byte_at_mid by lia.
      rewrite enc_chain_cons, byte_at_cons_0, bval_to_byte. apply u8_small. lia. }
    rewrite (ext_loop_step _ _ _ _ _ _ (ext_content e)); rewrite ?Hb0;
      try (rewrite ?size_app; lia); try (pose proof (size_nonneg pre); cbn; lia).
    + cbn [foldl]. replace (ext_type e) with (head_type (e :: r)) by reflexivity.
      replace (pre ++ enc_chain (e :: r) ++ rest) with
        ((pre ++ to_byte u :: ext_content e ++ [to_byte (head_type r)]) ++ enc_chain r ++ rest).
      2: { rewrite enc_chain_cons. fold u. by rewrite <- !app_assoc, <- !app_comm_cons, <- !app_assoc. }
      assert (size pre + u * 4 =
              size (pre ++ to_byte u :: ext_content e ++ [to_byte (head_type r)])) as Hp
        by (autorewrite with span; lia).
      rewrite Hp at 2.
      replace (byte_at _ (size pre + u * 4 - 1)) with (head_type r).
      * rewrite IH by (auto; lia). rewrite <- Hp, Hsz, size_cons, !Z.add_assoc.
        destruct e; reflexivity.
      * rewrite byte_at_app_l by (rewrite <- Hp; pose proof (size_nonneg pre); lia).
        rewrite app_comm_cons, byte_at_app_r, byte_at_app_r
          by (autorewrite with span; lia).
        autorewrite with span. replace (_ - _ - _) with 0 by lia.
        rewrite byte_at_cons_0, bval_to_byte, u8_small; [done|by apply head_type_range].
    + replace (pre ++ enc_chain (e :: r) ++ rest) with
        ((pre ++ [to_byte u]) ++ ext_content e ++ (to_byte (head_type r) :: enc_chain r ++ rest)).
      2: { rewrite enc_chain_cons. fold u. rewrite <- !app_assoc. cbn [app]. by rewrite <- app_assoc. }
      replace (size pre + 1) with (size (pre ++ [to_byte u])) by (autorewrite with span; lia).
      replace (u * 4 - 2) with (size (ext_content e)) by lia. by rewrite slice_mid.
Qed.

(** One turn of the loop: it stops with a status, or follows a well-formed
    header.  The other lemmas on the loop go through this case analysis. *)
Lemma ext_loop_cases fuel buf next links consumed out :
  0 <= consumed <= size buf -> 0 <= next < 256 ->
  let u := byte_at buf consumed in
  (next = 0 /\
   ext_loop (S fuel) buf next links consumed out =
   Ok (GtpuStatus.kOk, out <| ext_count := u8 links |>, consumed))
  \/ (exists st, ext_loop (S fuel) buf next links consumed out = Ok (st, out, consumed)
      /\ st <> GtpuStatus.kOk)
  \/ (next <> 0 /\ links < 16 /\ 0 < u < 256 /\ consumed + u * 4 <= size buf /\
      ext_loop (S fuel) buf next links consumed out =
      ext_loop fuel buf (byte_at buf (consumed + u * 4 - 1)) (links + 1) (consumed + u * 4)
        (decode_ext out (mkExt next (slice (consumed + 1) (u * 4 - 2) buf)))).
Proof.
  intros Hc Hn u. pose proof (byte_at_range buf consumed) as Hu. fold u in Hu.
  destruct (Z.eq_dec next 0) as [->|Hn0]; [left; auto using ext_loop_done|right].
  destruct (Z_lt_ge_dec links 16) as [Hl|Hl].
  2: { left. exists GtpuStatus.kExtChainTooLong. split; [|done].
       cbn [ext_loop]. unfold GtpuExtType.kNone, kGtpuMaxExtHeaders.
       rewrite (proj2 (Z.eqb_neq _ _) Hn0), (proj2 (Z.ltb_lt _ _)) by lia. done. }
  destruct (Z_lt_ge_dec consumed (size buf)) as [Hs|Hs].
  2: { left. exists GtpuStatus.kTruncated. split; [|done].
       cbn [ext_loop]. unfold GtpuExtType.kNone, kGtpuMaxExtHeaders.
       rewrite (proj2 (Z.eqb_neq _ _) Hn0), (proj2 (Z.ltb_ge _ _)), (proj2 (Z.leb_le _ _)) by lia.
       done. }
  destruct (Z.eq_dec u 0) as [Hu0|Hu0]; [|destruct (Z_le_gt_dec (consumed + u * 4) (size buf))].
  2: { right. repeat split; try lia. apply ext_loop_step; fold u; auto with lia. }
  all: left; eexists; cbn [ext_loop]; unfold GtpuExtType.kNone, kGtpuMaxExtHeaders;
    rewrite (proj2 (Z.eqb_neq _ _) Hn0), (proj2 (Z.ltb_ge _ _)), (proj2 (Z.leb_gt _ _)) by lia;
    rewrite rd_Ok by lia; cbn [res_bind]; fold u.
  - rewrite Hu0. cbn. split; [reflexivity|done].
  - rewrite (proj2 (Z.eqb_neq _ 0)), (proj2 (Z.ltb_lt _ _)) by lia. split; [reflexivity|done].
Qed.

Lemma slice_1 f p : 0 <= p < size f -> slice p 1 f = [to_byte (byte_at f p)].
Proof.
  intros. destruct (slice_cons f p 1) as (b & -> & Hb); [lia|lia|].
  rewrite slice_0, <- Hb, to_byte_bval. reflexivity.
Qed.

(** The bytes of one accepted header are its wire image. *)
Lemma drop_ext buf consumed u : 0 <= consumed -> 0 < u -> u = byte_at buf consumed ->
  consumed + u * 4 <= size buf ->
  drop (Z.to_nat consumed) buf =
  to_byte u :: slice (consumed + 1) (u * 4 - 2) buf
  ++ to_byte (byte_at buf (consumed + u * 4 - 1)) :: drop (Z.to_nat (consumed + u * 4)) buf.
Proof.
  intros Hc Hu -> Hs.
  rewrite (drop_split buf consumed 1) by lia. rewrite slice_1 by lia. cbn [app]. f_equal.
  rewrite (drop_split buf (consumed + 1) (byte_at buf consumed * 4 - 2)) by lia. f_equal.
  rewrite (drop_split buf _ 1) by lia.
  rewrite slice_1 by lia. cbn [app]. do 3 f_equal; lia.
Qed.

(** Whatever the loop accepts is the wire image of a well-formed chain. *)
Lemma ext_loop_sound : forall fuel buf next links consumed out out' c,
  0 <= consumed <= size buf -> 0 <= next < 256 -> 0 <= links <= 16 ->
  ext_loop fuel buf next links consumed out = Ok (GtpuStatus.kOk, out', c) ->
  exists l rest,
    Forall wf_ext l /\ links + size l <= 16 /\ next = head_type l /\
    drop (Z.to_nat consumed) buf = enc_chain l ++ rest /\
    c = consumed + size (enc_chain l) /\
    out' = (foldl decode_ext out l) <| ext_count := u8 (links + size l) |>.
Proof.
  induction fuel as [|fuel IH]; intros buf next links consumed out out' c Hc Hn Hl; [done|].
  pose proof (ext_loop_cases fuel buf next links consumed out Hc Hn) as Hcase. cbn zeta in Hcase.
  destruct Hcase as [[-> ->]|[(st & -> & Hst)|(Hn0 & Hl16 & Hu & Hs & ->)]].
  - intros [= <- <-]. exists [], (drop (Z.to_nat consumed) buf).
    rewrite size_nil, !Z.add_0_r. repeat split; auto. lia.
  - intros [= -> _ _]. contradiction.
  - intros H. set (u := byte_at buf consumed) in *.
    apply IH in H; [|lia|apply byte_at_range|lia].
    destruct H as (l & rest & Hwf & Hlen & Hnext & Hd & -> & ->).
    set (e := mkExt next (slice (consumed + 1) (u * 4 - 2) buf)).
    assert (size (ext_content e) = u * 4 - 2) as Hce by (apply size_slice; lia).
    assert (wf_ext e) as He.
    { split; [cbn; lia|]. rewrite Hce. split; [|lia].
      replace (u * 4 - 2 + 2) with (u * 4) by lia. apply Z_mod_mult. }
    exists (e :: l), rest. rewrite size_cons, size_enc_cons, Hce, !Z.add_assoc.
    repeat split; auto; try lia.
    rewrite enc_chain_cons, Hce. replace (u * 4 - 2 + 2) with (u * 4) by lia.
    rewrite Z.div_mul by lia. cbn [ext_content e].
    rewrite (drop_ext buf consumed u) by (lia || reflexivity).
    rewrite Hd, Hnext, <- app_comm_cons, <- app_assoc. reflexivity.
Qed.

(** The header fields that the chain walk does not touch. *)
Definition fixed_part (h : GtpuHeader) :=
  (payload h, teid h, seq h, header_len h, declared_len h, msg_type h, npdu h,
   has_seq h, has_npdu h, has_ext h).

Lemma decode_ext_fixed out e : fixed_part (decode_ext out e) = fixed_part out.
Proof. unfold decode_ext. case_if; reflexivity. Qed.

Lemma decode_ext_qfi out e : 0 <= qfi out < 64 -> 0 <= qfi (decode_ext out e) < 64.
Proof.
  intros H. unfold decode_ext. case_if; [|exact H]. cbn.
  change 63 with (Z.ones 6). rewrite Z.land_ones by lia.
  pose proof (Z.mod_pos_bound (byte_at (ext_content e) 1) (2 ^ 6)).
  rewrite u8_small; lia.
Qed.

(** The chain walk never leaves its area, needs at most 17 tests, consumes at
    most 255 words per remaining link, and keeps the QFI in six bits. *)
Lemma ext_loop_safe : forall fuel buf next links consumed out,
  0 <= consumed <= size buf -> 0 <= next < 256 -> 0 <= links <= 16 ->
  17 <= Z.of_nat fuel + links -> 0 <= qfi out < 64 -> 0 <= ext_count out <= 16 ->
  ensures (ext_loop fuel buf next links consumed out) (fun '(st, out', c) =>
    consumed <= c <= size buf /\ c <= consumed + (16 - links) * 1020 /\
    fixed_part out' = fixed_part out /\ 0 <= qfi out' < 64 /\ 0 <= ext_count out' <= 16).
Proof.
  induction fuel as [|fuel IH]; intros buf next links consumed out Hc Hn Hl Hf Hq He; [lia|].
  pose proof (ext_loop_cases fuel buf next links consumed out Hc Hn) as Hcase. cbn zeta in Hcase.
  destruct Hcase as [[-> ->]|[(st & -> & Hst)|(Hn0 & Hl16 & Hu & Hs & ->)]].
  - apply ensures_Ok. cbn. rewrite u8_small by lia. repeat split; auto; lia.
  - apply ensures_Ok. repeat split; auto; lia.
  - set (e := mkExt _ _). set (u := byte_at buf consumed) in *.
    eapply ensures_mono; [apply IH|]; try apply byte_at_range; try lia.
    + by apply decode_ext_qfi.
    + unfold decode_ext. by case_if.
    + intros [[st out'] c] (H1 & H2 & H3 & H4). rewrite decode_ext_fixed in H3.
      repeat split; try tauto; lia.
Qed.

Lemma parse_ext_chain_safe buf first out :
  0 <= first < 256 -> 0 <= qfi out < 64 -> 0 <= ext_count out <= 16 ->
  ensures (parse_ext_chain buf first out) (fun '(st, out', c) =>
    0 <= c <= size buf /\ c <= 16320 /\ fixed_part out' = fixed_part out /\
    0 <= qfi out' < 64 /\ 0 <= ext_count out' <= 16).
Proof.
  intros. unfold parse_ext_chain, ext_fuel. pose proof (size_nonneg buf).
  eapply ensures_mono; [apply ext_loop_safe|]; try lia.
  intros [[st out'] c] (? & ? & ? & ? & ?). repeat split; auto; lia.
Qed.

(** The extent of an accepted PDU in its frame, and the ranges the callers use;
    the grammar at the end of this file says exactly what is accepted. *)
Definition gtpu_extent (frame : Bytes) (h : GtpuHeader) : Prop :=
  8 <= header_len h <= 8 + declared_len h /\
  8 + declared_len h <= size frame /\
  payload h = slice (header_len h) (8 + declared_len h - header_len h) frame /\
  msg_type h = byte_at frame 1 /\ declared_len h = be16_at frame 2 /\ teid h = be32_at frame 4 /\
  0 <= qfi h < 64 /\ 0 <= ext_count h <= 16.

Section TopLevel.
Context {HE : HostEndian}.

(** The part of the layout already fixed when [finish_gtpu] starts. *)
Definition prelayout (frame : Bytes) (h : GtpuHeader) : Prop :=
  msg_type h = byte_at frame 1 /\ declared_len h = be16_at frame 2 /\ teid h = be32_at frame 4 /\
  8 + declared_len h <= size frame /\ 0 <= qfi h < 64 /\ 0 <= ext_count h <= 16.

Lemma finish_gtpu_spec frame out declared offset opt :
  prelayout frame out -> declared = declared_len out -> offset = 8 + opt ->
  0 <= opt <= declared -> opt <= 65527 ->
  ensures (finish_gtpu frame out declared offset opt)
    (fun '(st, h) => st = GtpuStatus.kOk -> gtpu_extent frame h).
Proof.
  intros (Hm & Hd & Ht & Hs & Hq & He) -> -> Ho Hb. unfold finish_gtpu.
  pose proof (be16_at_range frame 2).
  rewrite (proj2 (Z.ltb_ge _ _)), sub64_small, subspan_Ok by lia. cbn [res_bind].
  apply ensures_Ok. intros _. unfold gtpu_extent. cbn.
  rewrite u16_small by lia.
  replace (8 + declared_len out - (8 + opt)) with (declared_len out - opt) by lia.
  repeat split; auto; lia.
Qed.

(** The chain walk keeps [prelayout]: it depends on untouched fields. *)
Lemma prelayout_chain frame out out' :
  prelayout frame out -> fixed_part out' = fixed_part out ->
  0 <= qfi out' < 64 -> 0 <= ext_count out' <= 16 ->
  prelayout frame out' /\ declared_len out' = declared_len out.
Proof.
  unfold prelayout, fixed_part. intros (? & ? & ? & ? & _) [= ? ? ? ? ? ? ? ? ? ?] ? ?.
  repeat split; congruence || lia.
Qed.

Lemma parse_gtpu_spec frame :
  ensures (parse_gtpu frame) (fun '(st, h) => st = GtpuStatus.kOk -> gtpu_extent frame h).
Proof.
  unfold parse_gtpu, kGtpuFixedHeaderLen, kGtpuOptionalFieldsLen, GtpuExtType.kNone.
  case_if; [by apply ensures_Ok|]. load_step.
  case_if; [by apply ensures_Ok|]. case_if; [by apply ensures_Ok|].
  do 3 load_step. cbn [declared_len setf GtpuHeader_init].
  pose proof (be16_at_range frame 2) as Hdr.
  pose proof (sub64_le (size frame) 8) as Hsub.
  case_if; [by apply ensures_Ok|].
  case_if; [case_if; [by apply ensures_Ok|]|].
  2: { apply finish_gtpu_spec; cbn; try lia. repeat split; cbn; lia. }
  do 3 load_step.
  case_if.
  2: { apply finish_gtpu_spec; cbn; try lia. repeat split; cbn; lia. }
  rewrite sub64_small by lia. load_step.
  eapply ensures_bind.
  - apply parse_ext_chain_safe; [apply byte_at_range|cbn; lia|cbn; lia].
  - intros [[st out'] c] (Hc & Hcb & Hfix & Hq & He). rewrite size_slice in Hc by lia.
    case_bool_decide as Hst; [|apply ensures_Ok; contradiction].
    apply (prelayout_chain frame) in Hfix as [Hpl Hdl]; auto; [|repeat split; cbn; lia].
    apply finish_gtpu_spec; auto; try lia.
Qed.

(** The result depends only on the bytes the Length field announces. *)
Lemma parse_gtpu_app frame junk :
  8 <= size frame -> 8 + be16_at frame 2 <= size frame -> size (frame ++ junk) < 2 ^ 64 ->
  parse_gtpu (frame ++ junk) = parse_gtpu frame.
Proof.
  intros H8 Hd H64. pose proof (be16_at_range frame 2). rewrite size_app in H64.
  pose proof (size_nonneg junk). unfold parse_gtpu, kGtpuFixedHeaderLen, kGtpuOptionalFieldsLen.
  rewrite size_app, !(proj2 (Z.ltb_ge _ 8)) by lia.
  rewrite !(rd_Ok _ 0), byte_at_app_l by (rewrite ?size_app; lia). cbn [res_bind].
  case_if; [done|]. case_if; [done|].
  rewrite !(rd_Ok _ 1), byte_at_app_l by (rewrite ?size_app; lia). cbn [res_bind].
  rewrite !(load_be16_Ok _ 2), be16_at_app_l by (rewrite ?size_app; lia). cbn [res_bind].
  rewrite !(load_be32_Ok _ 4), be32_at_app_l by (rewrite ?size_app; lia). cbn [res_bind].
  cbn [declared_len setf GtpuHeader_init].
  rewrite (sub64_small (size frame + size junk) 8), (sub64_small (size frame) 8) by lia.
  rewrite !(proj2 (Z.ltb_ge _ (be16_at frame 2))) by lia.
  assert (forall out offset opt, offset = 8 + opt -> 0 <= opt ->
    finish_gtpu (frame ++ junk) out (be16_at frame 2) offset opt =
    finish_gtpu frame out (be16_at frame 2) offset opt) as Hfin.
  { intros out offset opt -> Ho. unfold finish_gtpu. case_if; [done|].
    rewrite sub64_small, !subspan_Ok, slice_app_l by (rewrite ?size_app; lia). done. }
  case_if; [case_if; [done|]|by apply Hfin].
  rewrite !(load_be16_Ok _ 8), be16_at_app_l by (rewrite ?size_app; lia). cbn [res_bind].
  rewrite !(rd_Ok _ (8 + 2)), byte_at_app_l by (rewrite ?size_app; lia). cbn [res_bind].
  rewrite !(rd_Ok _ (8 + 3)), byte_at_app_l by (rewrite ?size_app; lia). cbn [res_bind].
  case_if; [|by apply Hfin].
  rewrite sub64_small, !subspan_Ok, slice_app_l by (rewrite ?size_app; lia). cbn [res_bind].
  edestruct (parse_ext_chain_safe (slice (8 + 4) (be16_at frame 2 - 4) frame)
    (byte_at frame (8 + 3))) as ([[st out] c] & -> & Hc & _);
    [apply byte_at_range|cbn; lia|cbn; lia|].
  cbn [res_bind]. case_bool_decide; [|done]. apply Hfin; lia.
Qed.

(** ** Properties *)

(** Parsing never goes wrong.  For every byte string, on either host byte
    order, [parse_gtpu] returns a status: no read leaves the frame, and the
    extension-chain loop ends within its 16-link cap. *)
Lemma gtpu_never_faults frame : returns (parse_gtpu frame).
Proof. eapply ensures_returns, parse_gtpu_spec. Qed.

(** The payload of an accepted PDU is a view of the frame. *)
Lemma gtpu_payload_view frame h :
  parse_gtpu frame = Ok (GtpuStatus.kOk, h) -> gtpu_extent frame h /\ view_of frame (payload h).
Proof.
  intros H. pose proof (ensures_inv _ _ _ (parse_gtpu_spec frame) H eq_refl) as HL.
  split; [exact HL|]. destruct HL as (? & ? & -> & _). apply view_of_slice; lia.
Qed.

(** Every proper prefix of an accepted PDU is rejected as truncated,
    never partially decoded: cutting an accepted frame anywhere before the
    end of the announced 8 + Length bytes gives [kTruncated]. *)
Theorem gtpu_prefix_truncated frame h n :
  parse_gtpu frame = Ok (GtpuStatus.kOk, h) -> 0 <= n < 8 + declared_len h ->
  exists h', parse_gtpu (take (Z.to_nat n) frame) = Ok (GtpuStatus.kTruncated, h').
Proof.
  intros H Hn.
  destruct (ensures_inv _ _ _ (parse_gtpu_spec frame) H eq_refl)
    as (Hh & Hs & _ & _ & Hd & _).
  pose proof (be16_at_range frame 2) as Hr. revert H.
  unfold parse_gtpu, kGtpuFixedHeaderLen. rewrite size_take by lia.
  rewrite (proj2 (Z.ltb_ge (size frame) 8)) by lia. rewrite (rd_Ok frame 0) by lia. cbn [res_bind].
  case_if; [done|]. case_if; [done|]. intros _.
  destruct (Z.ltb_spec n 8); [eauto|].
  assert (size (take (Z.to_nat n) frame) = n) as Hst by (apply size_take; lia).
  rewrite (rd_Ok (take _ _) 0), byte_at_take by lia. cbn [res_bind].
  rewrite (proj2 (Z.eqb_eq _ 1) Hif), (proj2 (Z.eqb_neq _ 0) Hif0). cbn [negb].
  rewrite (rd_Ok (take _ _) 1) by lia. cbn [res_bind].
  rewrite (load_be16_Ok _ 2) by lia. cbn [res_bind].
  rewrite (load_be32_Ok _ 4) by lia. cbn [res_bind].
  rewrite be16_at_take by lia. cbn [declared_len setf GtpuHeader_init].
  rewrite (sub64_small n 8), (proj2 (Z.ltb_lt (n - 8) _)) by lia. eauto.
Qed.

(** Trailing bytes (Ethernet padding) are not part of the PDU: appending
    anything to an accepted frame changes neither the status nor any field of
    the header or the payload. *)
Lemma gtpu_trailing_ignored frame h junk :
  parse_gtpu frame = Ok (GtpuStatus.kOk, h) -> size (frame ++ junk) < 2 ^ 64 ->
  parse_gtpu (frame ++ junk) = Ok (GtpuStatus.kOk, h).
Proof.
  intros H H64. destruct (ensures_inv _ _ _ (parse_gtpu_spec frame) H eq_refl)
    as (Hh & Hs & _ & _ & Hd & _).
  pose proof (be16_at_range frame 2). rewrite parse_gtpu_app by lia. exact H.
Qed.

(** Both directions of the chain grammar. *)
Lemma parse_ext_chain_sound buf first out out' c : 0 <= first < 256 ->
  parse_ext_chain buf first out = Ok (GtpuStatus.kOk, out', c) ->
  exists l rest, Forall wf_ext l /\ size l <= 16 /\ first = head_type l /\
    buf = enc_chain l ++ rest /\ c = size (enc_chain l) /\ out' = decode_chain l out.
Proof.
  intros Hf. unfold parse_ext_chain, ext_fuel, decode_chain.
  intros H. apply ext_loop_sound in H as (l & rest & Hl); [|pose proof (size_nonneg buf); lia|lia|lia].
  exists l, rest. rewrite drop_0 in Hl. tauto.
Qed.

Lemma parse_ext_chain_complete l rest out : Forall wf_ext l -> size l <= 16 ->
  parse_ext_chain (enc_chain l ++ rest) (head_type l) out = Ok (GtpuStatus.kOk, decode_chain l out, size (enc_chain l)).
Proof.
  intros Hwf Hl. unfold parse_ext_chain, ext_fuel, decode_chain.
  change 0 with (size (@nil byte)) at 2.
  change (enc_chain l ++ rest) with ([] ++ enc_chain l ++ rest).
  rewrite ext_loop_complete; auto; unfold size in *; lia.
Qed.

(** C26: The chain walk recognises exactly the wire grammar.
    [parse_ext_chain] accepts a buffer if and only if the buffer starts with
    the wire image of a chain of at most 16 well-formed extension headers
    whose first type is the one announced; it then consumes exactly those
    bytes and leaves in the header what the PDU Session Containers say. *)
Theorem ext_chain_grammar buf first out out' c :
  0 <= first < 256 ->
  parse_ext_chain buf first out = Ok (GtpuStatus.kOk, out', c) <->
  exists l rest, Forall wf_ext l /\ size l <= 16 /\ first = head_type l /\
    buf = enc_chain l ++ rest /\ c = size (enc_chain l) /\ out' = decode_chain l out.
Proof.
  intros Hf. split; [by apply parse_ext_chain_sound|].
  intros (l & rest & Hwf & Hl & -> & -> & -> & ->). by apply parse_ext_chain_complete.
Qed.
End TopLevel.

(** ** The wire grammar of a PDU

    TS 29.281 §5.1: a flags octet (version 1, PT 1, a spare bit, E, S, PN), the
    message type, the 16-bit Length of everything after the first eight octets,
    the TEID; if any of E, S and PN is set, four octets with the sequence number,
    the N-PDU number and the type of the next extension header, and, if E is set,
    the chain of extension headers; then the payload. *)

Record GtpuOptions := mkOptions { o_seq : Z; o_npdu : Z; o_next : Z; o_chain : list ExtHeader }.
Record GtpuPdu := mkPdu {
  w_spare : bool; w_e : bool; w_s : bool; w_pn : bool;
  w_type : Z; w_teid : Z; w_options : option GtpuOptions; w_payload : Bytes
}.

Definition enc_flags (spare e s pn : bool) : Z :=
  0x30 + 8 * Z.b2z spare + 4 * Z.b2z e + 2 * Z.b2z s + Z.b2z pn.
Definition enc_options (o : option GtpuOptions) : Bytes :=
  match o with
  | None => []
  | Some o => be16_bytes (o_seq o) ++ [to_byte (o_npdu o); to_byte (o_next o)] ++ enc_chain (o_chain o)
  end.
Definition pdu_body (p : GtpuPdu) : Bytes := enc_options (w_options p) ++ w_payload p.
Definition enc_pdu (p : GtpuPdu) : Bytes :=
  to_byte (enc_flags (w_spare p) (w_e p) (w_s p) (w_pn p)) :: to_byte (w_type p) ::
  be16_bytes (size (pdu_body p)) ++ be32_bytes (w_teid p) ++ pdu_body p.

Definition wf_options (e : bool) (o : GtpuOptions) : Prop :=
  0 <= o_seq o < 65536 /\ 0 <= o_npdu o < 256 /\ 0 <= o_next o < 256 /\
  Forall wf_ext (o_chain o) /\ size (o_chain o) <= 16 /\
  if e then o_next o = head_type (o_chain o) else o_chain o = [].
Definition wf_pdu (p : GtpuPdu) : Prop :=
  0 <= w_type p < 256 /\ 0 <= w_teid p < 2 ^ 32 /\ size (pdu_body p) < 65536 /\
  match w_options p with
  | Some o => w_e p || w_s p || w_pn p = true /\ wf_options (w_e p) o
  | None => w_e p || w_s p || w_pn p = false
  end.

(** What a PDU says, as the header the parser reports. *)
Definition pdu_header (p : GtpuPdu) : GtpuHeader :=
  let base := GtpuHeader_init <| msg_type := w_type p |> <| declared_len := size (pdu_body p) |> <| teid := w_teid p |> in
  let out := match w_options p with
    | None => base
    | Some o => decode_chain (o_chain o)
        (base <| seq := o_seq o |> <| npdu := o_npdu o |> <| has_seq := w_s p |> <| has_npdu := w_pn p |>
              <| has_ext := match o_chain o with [] => false | _ => true end |>)
    end in
  out <| header_len := 8 + size (enc_options (w_options p)) |> <| payload := w_payload p |>.

Section Grammar.
Context {HE : HostEndian}.

(** The flags octets with version 1 and PT 1. *)
Lemma flags_bits f : 0 <= f < 256 -> Z.shiftr f 5 = 1 -> Z.land f 0x10 <> 0 ->
  f = enc_flags (Z.testbit f 3) (negb (Z.land f 0x04 =? 0)) (negb (Z.land f 0x02 =? 0)) (negb (Z.land f 0x01 =? 0)).
Proof.
  intros Hf Hv Hp.
  assert (forallb (fun n => let f := Z.of_nat n in
    negb (Z.shiftr f 5 =? 1) || (Z.land f 0x10 =? 0) ||
    (f =? enc_flags (Z.testbit f 3) (negb (Z.land f 0x04 =? 0)) (negb (Z.land f 0x02 =? 0)) (negb (Z.land f 0x01 =? 0))))
    (List.seq 0 256) = true) as Hall by (vm_compute; reflexivity).
  rewrite forallb_forall in Hall. specialize (Hall (Z.to_nat f)). cbn zeta in Hall. rewrite Z2Nat.id in Hall by lia.
  rewrite Hv, (proj2 (Z.eqb_neq _ _) Hp) in Hall. apply Z.eqb_eq, Hall, in_seq. lia.
Qed.

Lemma enc_flags_spec spare e s pn : let f := enc_flags spare e s pn in
  0 <= f < 256 /\ Z.shiftr f 5 = 1 /\ (Z.land f 0x10 =? 0) = false /\
  negb (Z.land f 0x04 =? 0) = e /\ negb (Z.land f 0x02 =? 0) = s /\ negb (Z.land f 0x01 =? 0) = pn.
Proof. destruct spare, e, s, pn; vm_compute; split_and!; try reflexivity; discriminate. Qed.

Lemma size_enc_chain l : Forall wf_ext l -> size (enc_chain l) <= 1020 * size l.
Proof.
  induction 1 as [|e l (_ & _ & He) _ IH]; [done|]. rewrite size_enc_cons, size_cons. lia.
Qed.

Lemma size_enc_options e o : wf_options e o -> 4 <= size (enc_options (Some o)) <= 16324.
Proof.
  intros (_ & _ & _ & Hwf & Hl & _). pose proof (size_enc_chain _ Hwf). pose proof (size_nonneg (enc_chain (o_chain o))).
  cbn [enc_options]. rewrite !size_app, size_be16_bytes. change (size [to_byte (o_npdu o); to_byte (o_next o)]) with 2. lia.
Qed.

(** The header after the fixed part and after the optional block. *)
Definition base_header (frame : Bytes) : GtpuHeader :=
  GtpuHeader_init <| msg_type := byte_at frame 1 |> <| declared_len := be16_at frame 2 |> <| teid := be32_at frame 4 |>.
Definition options_header (frame : Bytes) (s pn : bool) : GtpuHeader :=
  (base_header frame) <| seq := be16_at frame 8 |> <| npdu := byte_at frame 10 |> <| has_seq := s |> <| has_npdu := pn |>.

(** [parse_gtpu] behind the checks of the fixed part. *)
Lemma parse_gtpu_checked frame :
  let f := byte_at frame 0 in let d := be16_at frame 2 in
  let e := negb (Z.land f 0x04 =? 0) in let s := negb (Z.land f 0x02 =? 0) in let pn := negb (Z.land f 0x01 =? 0) in
  8 + d <= size frame < 2 ^ 64 -> Z.shiftr f 5 = 1 -> (Z.land f 0x10 =? 0) = false ->
  parse_gtpu frame =
  if e || s || pn then
    if d <? 4 then Ok (GtpuStatus.kBadLength, base_header frame) else
    if e && negb (byte_at frame 11 =? 0) then
      let* r := parse_ext_chain (slice 12 (d - 4) frame) (byte_at frame 11) ((options_header frame s pn) <| has_ext := true |>) in
      let '(st, out, ext_bytes) := r in
      if bool_decide (st = GtpuStatus.kOk) then finish_gtpu frame out d (12 + ext_bytes) (4 + ext_bytes) else Ok (st, out)
    else finish_gtpu frame (options_header frame s pn) d 12 4
  else finish_gtpu frame (base_header frame) d 8 0.
Proof.
  cbn zeta. intros Hs Hv Hp. pose proof (be16_at_range frame 2).
  unfold parse_gtpu, kGtpuFixedHeaderLen, kGtpuOptionalFieldsLen, GtpuExtType.kNone.
  rewrite (proj2 (Z.ltb_ge _ _)) by lia. rewrite (rd_Ok frame 0) by lia. cbn [res_bind]. rewrite Hv, Hp. cbn [negb Z.eqb Pos.eqb].
  rewrite (rd_Ok frame 1), bind_Ok, (load_be16_Ok frame 2), bind_Ok, (load_be32_Ok frame 4), bind_Ok by lia.
  cbn [declared_len setf GtpuHeader_init]. rewrite sub64_small, (proj2 (Z.ltb_ge (size frame - 8) _)) by lia.
  match goal with |- context [if ?c then _ else _] => destruct c end; [|done].
  destruct (Z.ltb_spec (be16_at frame 2) 4); [done|].
  rewrite (load_be16_Ok frame 8), bind_Ok, (rd_Ok frame (8 + 2)), bind_Ok, (rd_Ok frame (8 + 3)), bind_Ok by lia.
  change (8 + 2) with 10. change (8 + 3) with 11. change (8 + 4) with 12.
  match goal with |- context [if ?c then _ else _] => destruct c end; [|done].
  rewrite sub64_small, subspan_Ok by lia. done.
Qed.

Lemma finish_gtpu_eq frame out d opt : 0 <= opt <= d -> 8 + d <= size frame -> 8 + opt < 65536 -> d < 65536 ->
  finish_gtpu frame out d (8 + opt) opt =
  Ok (GtpuStatus.kOk, out <| header_len := 8 + opt |> <| payload := slice (8 + opt) (d - opt) frame |>).
Proof.
  intros. unfold finish_gtpu. rewrite (proj2 (Z.ltb_ge _ _)), sub64_small, subspan_Ok by lia. cbn [res_bind].
  by rewrite u16_small by lia.
Qed.

Lemma finish_gtpu_inv frame out d opt h : finish_gtpu frame out d (8 + opt) opt = Ok (GtpuStatus.kOk, h) -> opt <= d.
Proof. unfold finish_gtpu. destruct (Z.ltb_spec d opt); [done|lia]. Qed.

(** ** Every image of a well-formed PDU is accepted *)

Lemma enc_pdu_fields p rest : wf_pdu p -> let frame := enc_pdu p ++ rest in
  byte_at frame 0 = enc_flags (w_spare p) (w_e p) (w_s p) (w_pn p) /\ base_header frame =
    GtpuHeader_init <| msg_type := w_type p |> <| declared_len := size (pdu_body p) |> <| teid := w_teid p |> /\
  be16_at frame 2 = size (pdu_body p) /\ size frame = 8 + size (pdu_body p) + size rest.
Proof.
  intros (Ht & Hte & Hb & _). cbn zeta. pose proof (size_nonneg (pdu_body p)).
  pose proof (enc_flags_spec (w_spare p) (w_e p) (w_s p) (w_pn p)) as (Hf & _). cbn zeta in Hf.
  unfold enc_pdu. set (a := to_byte (enc_flags _ _ _ _)). set (b := to_byte (w_type p)). set (len := be16_bytes _). set (t := be32_bytes _).
  assert (be16_at ((a :: b :: len ++ t ++ pdu_body p) ++ rest) 2 = size (pdu_body p)) as Hlen.
  { change 2 with (size [a; b]) at 1. replace ((a :: b :: len ++ t ++ pdu_body p) ++ rest) with ([a; b] ++ len ++ (t ++ pdu_body p ++ rest))
      by (cbn [app]; by rewrite <- !app_assoc).
    unfold len. rewrite be16_at_image. apply u16_small. lia. }
  assert (byte_at ((a :: b :: len ++ t ++ pdu_body p) ++ rest) 1 = w_type p) as Hty.
  { cbn [app]. change (bval b = w_type p). unfold b. rewrite bval_to_byte. apply u8_small. lia. }
  assert (be32_at ((a :: b :: len ++ t ++ pdu_body p) ++ rest) 4 = w_teid p) as Hteid.
  { replace 4 with (size (a :: b :: len)) by (unfold len; rewrite !size_cons, size_be16_bytes; done).
    replace ((a :: b :: len ++ t ++ pdu_body p) ++ rest) with ((a :: b :: len) ++ t ++ (pdu_body p ++ rest)) by (cbn [app]; by rewrite <- !app_assoc).
    unfold t. rewrite be32_at_image. apply u32_small. lia. }
  split; [|split; [|split; [done|]]].
  - cbn [app]. change (bval a = enc_flags (w_spare p) (w_e p) (w_s p) (w_pn p)). unfold a. rewrite bval_to_byte. apply u8_small. lia.
  - unfold base_header. by rewrite Hlen, Hty, Hteid.
  - unfold len, t. rewrite size_app, !size_cons, !size_app, size_be16_bytes, size_be32_bytes. lia.
Qed.

Lemma enc_pdu_tail p rest : exists pre, size pre = 8 /\ enc_pdu p ++ rest = pre ++ enc_options (w_options p) ++ w_payload p ++ rest.
Proof.
  exists (to_byte (enc_flags (w_spare p) (w_e p) (w_s p) (w_pn p)) :: to_byte (w_type p) :: be16_bytes (size (pdu_body p)) ++ be32_bytes (w_teid p)).
  unfold enc_pdu, pdu_body. rewrite !size_cons, size_app, size_be16_bytes, size_be32_bytes. split; [done|].
  cbn [app]. by rewrite <- !app_assoc.
Qed.

Lemma slice_after {A} (pre mid post : list A) n m : n = size pre -> m = size mid -> slice n m (pre ++ mid ++ post) = mid.
Proof. intros -> ->. apply slice_mid. Qed.

(** The four octets of the optional block, eight octets into the frame. *)
Lemma options_fields (pre : Bytes) o tl : size pre = 8 -> 0 <= o_seq o < 65536 -> 0 <= o_npdu o < 256 -> 0 <= o_next o < 256 ->
  let frame := pre ++ enc_options (Some o) ++ tl in
  be16_at frame 8 = o_seq o /\ byte_at frame 10 = o_npdu o /\ byte_at frame 11 = o_next o.
Proof.
  intros Hp Hs Hn Hx. cbn zeta. cbn [enc_options].
  replace (pre ++ (be16_bytes (o_seq o) ++ [to_byte (o_npdu o); to_byte (o_next o)] ++ enc_chain (o_chain o)) ++ tl) with
    (pre ++ be16_bytes (o_seq o) ++ (to_byte (o_npdu o) :: to_byte (o_next o) :: enc_chain (o_chain o) ++ tl)) by (rewrite <- !app_assoc; done).
  split; [rewrite <- Hp, be16_at_image; apply u16_small; lia|].
  rewrite app_assoc. replace 10 with (size (pre ++ be16_bytes (o_seq o)) + 0) by (rewrite size_app, Hp, size_be16_bytes; done).
  replace 11 with (size (pre ++ be16_bytes (o_seq o)) + 1) by (rewrite size_app, Hp, size_be16_bytes; done).
  rewrite !byte_at_app_r by lia. rewrite !Z.add_simpl_l.
  split; [change (bval (to_byte (o_npdu o)) = o_npdu o)|change (bval (to_byte (o_next o)) = o_next o)]; rewrite bval_to_byte; apply u8_small; lia.
Qed.

Lemma chain_nonempty (e : bool) l : Forall wf_ext l -> (if e then True else l = []) ->
  e && negb (head_type l =? 0) = match l with [] => false | _ => true end.
Proof.
  intros Hwf He. destruct Hwf as [|x l [Hx _] _]; [apply andb_false_r|]. destruct e; [|done]. cbn [head_type andb].
  rewrite (proj2 (Z.eqb_neq _ _)) by lia. done.
Qed.

Lemma parse_gtpu_complete p rest : wf_pdu p -> size (enc_pdu p ++ rest) < 2 ^ 64 ->
  parse_gtpu (enc_pdu p ++ rest) = Ok (GtpuStatus.kOk, pdu_header p).
Proof.
  intros Hwf H64. destruct (enc_pdu_fields p rest Hwf) as (Hf & Hbase & Hd & Hsz). pose proof (size_nonneg rest).
  pose proof (enc_flags_spec (w_spare p) (w_e p) (w_s p) (w_pn p)) as (_ & Hv & Hpt & He & Hs & Hpn). cbn zeta in *.
  destruct Hwf as (Hty & Hteid & Hb & Hopt). rewrite parse_gtpu_checked; rewrite ?Hf, ?Hd; [|lia|done|done].
  rewrite He, Hs, Hpn. unfold options_header. rewrite Hbase. clear Hbase.
  destruct (enc_pdu_tail p rest) as (pre & Hpre & Heq). unfold pdu_header. pose proof (size_nonneg (w_payload p)). pose proof (size_nonneg (pdu_body p)).
  assert (size (pdu_body p) = size (enc_options (w_options p)) + size (w_payload p)) as Hbody by apply size_app.
  assert (forall n, n = 8 + size (enc_options (w_options p)) ->
    slice n (size (w_payload p)) (enc_pdu p ++ rest) = w_payload p) as Hpay.
  { intros n ->. rewrite Heq, app_assoc. apply slice_after; [rewrite size_app; lia|done]. }
  destruct (w_options p) as [o|]; [destruct Hopt as [Hany Hwo]|].
  2: { rewrite Hopt. rewrite (finish_gtpu_eq _ _ _ 0) by lia. change (size (enc_options None)) with 0 in *.
       replace (size (pdu_body p) - 0) with (size (w_payload p)) by lia. by rewrite Hpay. }
  rewrite Hany. pose proof (size_enc_options _ _ Hwo) as Hso. pose proof Hwo as (Hq & Hn & Hx & Hch & Hl & Hnx).
  rewrite (proj2 (Z.ltb_ge _ 4)) by lia.
  destruct (options_fields pre o (w_payload p ++ rest) Hpre Hq Hn Hx) as (F1 & F2 & F3). rewrite <- Heq in F1, F2, F3. rewrite F1, F2, F3.
  set (out := setf has_npdu _ _).
  assert (size (enc_options (Some o)) = 4 + size (enc_chain (o_chain o))) as Hse.
  { cbn [enc_options]. rewrite !size_app, size_be16_bytes. change (size [to_byte (o_npdu o); to_byte (o_next o)]) with 2. lia. }
  destruct (w_e p && negb (o_next o =? 0)) eqn:Ec.
  - apply andb_prop in Ec as [Ew Ec]. rewrite Ew in Hnx. rewrite Hnx in *.
    replace (slice 12 _ _) with (enc_chain (o_chain o) ++ w_payload p).
    2: { rewrite Heq. cbn [enc_options].
         replace (pre ++ (be16_bytes (o_seq o) ++ [to_byte (o_npdu o); to_byte (o_next o)] ++ enc_chain (o_chain o)) ++ w_payload p ++ rest) with
           ((pre ++ be16_bytes (o_seq o) ++ [to_byte (o_npdu o); to_byte (o_next o)]) ++ (enc_chain (o_chain o) ++ w_payload p) ++ rest)
           by (rewrite <- !app_assoc; done).
         symmetry. apply slice_after; rewrite !size_app, ?size_be16_bytes; [rewrite Hpre; done|lia]. }
    rewrite parse_ext_chain_complete by done. cbn [res_bind]. rewrite bool_decide_true by done.
    replace (12 + size (enc_chain (o_chain o))) with (8 + (4 + size (enc_chain (o_chain o)))) by lia.
    rewrite finish_gtpu_eq by lia. rewrite Hse. replace (size (pdu_body p) - _) with (size (w_payload p)) by lia. rewrite Hpay by lia.
    destruct (o_chain o); [done|]. done.
  - assert (o_chain o = []) as Hnil.
    { destruct (w_e p); [|exact Hnx]. pose proof (chain_nonempty true (o_chain o) Hch I) as Hne.
      rewrite <- Hnx, Ec in Hne. by destruct (o_chain o). }
    rewrite Hnil in *. change (size (enc_chain [])) with 0 in Hse. rewrite (finish_gtpu_eq _ _ _ 4) by lia. rewrite Hse.
    replace (size (pdu_body p) - 4) with (size (w_payload p)) by lia. by rewrite Hpay by lia.
Qed.

(** ** Everything accepted is such an image *)

(** The fixed part of a frame and what follows it. *)
Lemma frame_split frame : 8 + be16_at frame 2 <= size frame ->
  frame = to_byte (byte_at frame 0) :: to_byte (byte_at frame 1) :: be16_bytes (be16_at frame 2) ++ be32_bytes (be32_at frame 4) ++
    slice 8 (be16_at frame 2) frame ++ drop (Z.to_nat (8 + be16_at frame 2)) frame.
Proof.
  intros Hs. pose proof (be16_at_range frame 2).
  rewrite <- (drop_split frame 8) by lia. change 8 with (4 + 4) at 1. rewrite <- drop_be32 by lia.
  change 4 with (2 + 2) at 1. rewrite <- drop_be16 by lia. change 2 with (1 + 1) at 1.
  rewrite <- drop_1 by lia. change 1 with (0 + 1) at 1. rewrite <- drop_1 by lia. done.
Qed.

(** The body behind the optional block. *)
Lemma body_split frame d : 4 <= d -> 8 + d <= size frame ->
  slice 8 d frame = be16_bytes (be16_at frame 8) ++ [to_byte (byte_at frame 10); to_byte (byte_at frame 11)] ++ slice 12 (d - 4) frame.
Proof.
  intros Hd Hs. apply (app_inv_tail (drop (Z.to_nat (8 + d)) frame)). rewrite <- drop_split by lia.
  rewrite (drop_be16 frame 8), (drop_1 frame (8 + 2)), (drop_1 frame (8 + 2 + 1)) by lia.
  change (8 + 2 + 1 + 1) with 12. rewrite (drop_split frame 12 (d - 4)) by lia. replace (12 + (d - 4)) with (8 + d) by lia.
  rewrite <- !app_assoc. done.
Qed.

Lemma parse_gtpu_checks frame h : parse_gtpu frame = Ok (GtpuStatus.kOk, h) ->
  8 + be16_at frame 2 <= size frame /\ Z.shiftr (byte_at frame 0) 5 = 1 /\ Z.land (byte_at frame 0) 0x10 <> 0.
Proof.
  intros H. destruct (ensures_inv _ _ _ (parse_gtpu_spec frame) H eq_refl) as (Hh & Hs & _ & _ & Hd & _).
  rewrite Hd in *. split; [lia|]. revert H. unfold parse_gtpu, kGtpuFixedHeaderLen.
  rewrite (proj2 (Z.ltb_ge _ _)) by lia. rewrite (rd_Ok frame 0) by lia. cbn [res_bind].
  case_if; [done|]. case_if; [done|]. done.
Qed.

(** The PDU read off an accepted frame, given its options and payload. *)
Definition pdu_of (frame : Bytes) (o : option GtpuOptions) (pay : Bytes) : GtpuPdu :=
  let f := byte_at frame 0 in
  mkPdu (Z.testbit f 3) (negb (Z.land f 0x04 =? 0)) (negb (Z.land f 0x02 =? 0)) (negb (Z.land f 0x01 =? 0))
    (byte_at frame 1) (be32_at frame 4) o pay.

Lemma pdu_of_image frame o pay : 8 + be16_at frame 2 <= size frame ->
  Z.shiftr (byte_at frame 0) 5 = 1 -> Z.land (byte_at frame 0) 0x10 <> 0 ->
  enc_options o ++ pay = slice 8 (be16_at frame 2) frame ->
  frame = enc_pdu (pdu_of frame o pay) ++ drop (Z.to_nat (8 + be16_at frame 2)) frame /\ size (enc_options o ++ pay) = be16_at frame 2.
Proof.
  intros Hs Hv Hp Hb. pose proof (be16_at_range frame 2).
  assert (size (enc_options o ++ pay) = be16_at frame 2) as Hsz by (rewrite Hb; apply size_slice; lia). split; [|done].
  unfold enc_pdu, pdu_body, pdu_of. cbn [w_spare w_e w_s w_pn w_type w_teid w_options w_payload].
  rewrite <- (flags_bits (byte_at frame 0)) by (done || apply byte_at_range).
  rewrite Hsz, Hb. cbn [app]. rewrite <- !app_assoc. by apply frame_split.
Qed.

Lemma finish_ok frame out d opt h : 0 <= opt -> 8 + d <= size frame -> 8 + opt < 65536 -> d < 65536 ->
  finish_gtpu frame out d (8 + opt) opt = Ok (GtpuStatus.kOk, h) ->
  opt <= d /\ h = out <| header_len := 8 + opt |> <| payload := slice (8 + opt) (d - opt) frame |>.
Proof.
  intros H0 Hs H1 H2 H. pose proof (finish_gtpu_inv _ _ _ _ _ H). rewrite finish_gtpu_eq in H by lia. injection H as <-. done.
Qed.

(** The optional block with its chain [l] in front of the payload. *)
Lemma options_sound frame l pay h : let d := be16_at frame 2 in let f := byte_at frame 0 in
  let e := negb (Z.land f 0x04 =? 0) in let s := negb (Z.land f 0x02 =? 0) in let pn := negb (Z.land f 0x01 =? 0) in
  let o := mkOptions (be16_at frame 8) (byte_at frame 10) (byte_at frame 11) l in
  8 + d <= size frame -> Z.shiftr f 5 = 1 -> Z.land f 0x10 <> 0 -> e || s || pn = true -> 4 <= d ->
  slice 12 (d - 4) frame = enc_chain l ++ pay -> Forall wf_ext l -> size l <= 16 ->
  (if e then byte_at frame 11 = head_type l else l = []) ->
  h = (decode_chain l ((options_header frame s pn) <| has_ext := match l with [] => false | _ => true end |>))
        <| header_len := 12 + size (enc_chain l) |> <| payload := pay |> ->
  exists p rest, wf_pdu p /\ frame = enc_pdu p ++ rest /\ h = pdu_header p.
Proof.
  cbn zeta. intros Hs Hv Hp Hany Hd Harea Hwf Hl He ->. pose proof (be16_at_range frame 2).
  set (o := mkOptions (be16_at frame 8) (byte_at frame 10) (byte_at frame 11) l).
  assert (enc_options (Some o) ++ pay = slice 8 (be16_at frame 2) frame) as Hb.
  { rewrite body_split by lia. rewrite Harea. cbn [enc_options o o_seq o_npdu o_next o_chain]. by rewrite <- !app_assoc. }
  destruct (pdu_of_image frame (Some o) pay Hs Hv Hp Hb) as [Him Hsz].
  exists (pdu_of frame (Some o) pay), (drop (Z.to_nat (8 + be16_at frame 2)) frame). split_and!; [|done|].
  - unfold wf_pdu, pdu_body. cbn [pdu_of w_type w_teid w_options w_payload w_e w_s w_pn]. rewrite Hsz.
    pose proof (byte_at_range frame 1). pose proof (be32_at_range frame 4).
    split; [lia|]. split; [lia|]. split; [lia|]. split; [done|]. unfold wf_options. cbn.
    pose proof (be16_at_range frame 8). pose proof (byte_at_range frame 10). pose proof (byte_at_range frame 11). split_and!; try lia; done.
  - unfold pdu_header, pdu_body. cbn [pdu_of w_type w_teid w_options w_payload w_s w_pn]. rewrite Hsz.
    replace (8 + size (enc_options (Some o))) with (12 + size (enc_chain l)); [done|].
    cbn [enc_options o o_seq o_npdu o_next o_chain]. rewrite !size_app, size_be16_bytes. change (size [to_byte (byte_at frame 10); to_byte (byte_at frame 11)]) with 2. lia.
Qed.

Lemma parse_gtpu_sound frame h : size frame < 2 ^ 64 -> parse_gtpu frame = Ok (GtpuStatus.kOk, h) ->
  exists p rest, wf_pdu p /\ frame = enc_pdu p ++ rest /\ h = pdu_header p.
Proof.
  intros H64 H. destruct (parse_gtpu_checks frame h H) as (Hs & Hv & Hp). pose proof (be16_at_range frame 2).
  rewrite parse_gtpu_checked in H; [|lia|done|by apply Z.eqb_neq].
  match type of H with (if ?c then _ else _) = _ => destruct c eqn:Hany end.
  - destruct (Z.ltb_spec (be16_at frame 2) 4); [done|].
    match type of H with (if ?c then _ else _) = _ => destruct c eqn:Hc end.
    + apply andb_prop in Hc as [Hc Hn]. destruct (parse_ext_chain _ _ _) as [[[st out] c]| |] eqn:Hx; [|done|done]. cbn [res_bind] in H.
      case_bool_decide as Hst; [|congruence]. subst st. apply parse_ext_chain_sound in Hx as (l & pay & Hwf & Hl & Hh & Ha & -> & ->); [|apply byte_at_range].
      pose proof (size_enc_chain l Hwf). pose proof (size_nonneg (enc_chain l)). pose proof (size_nonneg pay).
      replace (12 + size (enc_chain l)) with (8 + (4 + size (enc_chain l))) in H by lia.
      apply finish_ok in H as [Hle ->]; [|lia..].
      apply (options_sound frame l pay); try done; [by rewrite Hc|]. rewrite Hh in Hn. destruct l as [|x l]; [done|].
      replace (slice (8 + (4 + size (enc_chain (x :: l)))) _ frame) with pay; [by replace (8 + (4 + size (enc_chain (x :: l)))) with (12 + size (enc_chain (x :: l))) by lia|].
      pose proof (f_equal size Ha) as Hsa. rewrite size_slice, size_app in Hsa by lia.
      replace (be16_at frame 2 - (4 + size (enc_chain (x :: l)))) with (size pay) by lia.
      rewrite (slice_split frame 12 (be16_at frame 2 - 4)), Ha by lia. rewrite <- app_assoc, app_assoc. symmetry. apply slice_after; [|done].
      rewrite size_app, size_take by lia. lia.
    + apply (finish_ok frame _ _ 4) in H as [Hle ->]; [|lia..].
      apply (options_sound frame [] (slice 12 (be16_at frame 2 - 4) frame)); try done.
      destruct (negb (Z.land (byte_at frame 0) 4 =? 0)); [|done]. cbn [andb] in Hc. apply negb_false_iff, Z.eqb_eq in Hc. done.
  - apply (finish_ok frame _ _ 0) in H as [_ ->]; [|lia..]. rewrite Z.sub_0_r. change (8 + 0) with 8.
    destruct (pdu_of_image frame None (slice 8 (be16_at frame 2) frame) Hs Hv Hp eq_refl) as [Him Hsz]. cbn [enc_options app] in Hsz.
    eexists _, _. split_and!; [|exact Him|].
    + unfold wf_pdu, pdu_body. cbn [pdu_of w_type w_teid w_options w_payload w_e w_s w_pn enc_options app]. rewrite Hsz.
      pose proof (byte_at_range frame 1). pose proof (be32_at_range frame 4). split_and!; try lia; done.
    + unfold pdu_header, pdu_body. cbn [pdu_of w_type w_teid w_options w_payload enc_options app]. by rewrite Hsz.
Qed.

(** C25: [parse_gtpu] accepts exactly the PDUs of TS 29.281.  A frame is accepted
    with [kOk] and the header [h] if and only if it is the wire image of a
    well-formed PDU, followed by any trailing bytes: version 1 and PT 1 in the
    flags octet, the Length of everything behind the first eight octets, the
    TEID; the four optional octets exactly if one of E, S and PN is set; if E is
    set, a chain of at most 16 well-formed extension headers that starts with the
    announced type (and no chain if it is not); then the payload.  The header
    then holds this PDU's fields: type, TEID, Length, sequence and N-PDU numbers
    with their presence flags, what the PDU Session Containers say, the number of
    extension headers, the length of all headers, and the payload behind them. *)
Theorem gtpu_ok_layout frame h : size frame < 2 ^ 64 ->
  parse_gtpu frame = Ok (GtpuStatus.kOk, h) <->
  exists p rest, wf_pdu p /\ frame = enc_pdu p ++ rest /\ h = pdu_header p.
Proof.
  intros H64. split; [by apply parse_gtpu_sound|]. intros (p & rest & Hp & -> & ->). by apply parse_gtpu_complete.
Qed.
End Grammar.

(** ** Witnesses: a G-PDU with a PDU Session Container (QFI 9, uplink) *)

Definition sample_pdu : Bytes := map to_byte
  [0x34; 255; 0; 12; 0; 0; 16; 0; 0; 0; 0; 0x85; 1; 0x10; 9; 0; 1; 2; 3; 4].
Definition sample_header : GtpuHeader :=
  mkGtpuHeader (map to_byte [1; 2; 3; 4]) 4096 0 16 12 255 0 9 1 1 false false true true false.

Lemma gtpu_ok_layout_witness :
  @parse_gtpu little sample_pdu = Ok (GtpuStatus.kOk, sample_header) /\
  exists p rest, wf_pdu p /\ sample_pdu = enc_pdu p ++ rest /\ sample_header = pdu_header p.
Proof.
  assert (@parse_gtpu little sample_pdu = Ok (GtpuStatus.kOk, sample_header)) as H by (vm_compute; reflexivity).
  split; [exact H|]. apply (@gtpu_ok_layout little sample_pdu sample_header); [vm_compute; reflexivity|exact H].
Defined.

Lemma gtpu_prefix_truncated_witness :
  exists h', @parse_gtpu little (take (Z.to_nat 15) sample_pdu) = Ok (GtpuStatus.kTruncated, h').
Proof.
  apply (@gtpu_prefix_truncated little sample_pdu sample_header 15).
  - vm_compute; reflexivity.
  - cbn; lia.
Defined.

Lemma gtpu_trailing_ignored_witness :
  @parse_gtpu big (sample_pdu ++ [x00; xff]) = Ok (GtpuStatus.kOk, sample_header).
Proof.
  apply (@gtpu_trailing_ignored big sample_pdu sample_header [x00; xff]); vm_compute; reflexivity.
Defined.

Definition sample_chain : list ExtHeader := [mkExt 0x85 [x10; x09]].

Lemma ext_chain_grammar_witness :
  parse_ext_chain (enc_chain sample_chain ++ [xaa]) 0x85 GtpuHeader_init =
    Ok (GtpuStatus.kOk, decode_chain sample_chain GtpuHeader_init, 4) <->
  exists l rest, Forall wf_ext l /\ size l <= 16 /\ 0x85 = head_type l /\
    enc_chain sample_chain ++ [xaa] = enc_chain l ++ rest /\ 4 = size (enc_chain l) /\
    decode_chain sample_chain GtpuHeader_init = decode_chain l GtpuHeader_init.
Proof.
  apply (ext_chain_grammar (enc_chain sample_chain ++ [xaa]) 0x85 GtpuHeader_init
           (decode_chain sample_chain GtpuHeader_init) 4). lia.
Defined.
