(* ===== verification/Net.v ===== *)
(** * include/gtpm/net.hpp: Ethernet / VLAN / IPv4 / IPv6 / UDP / TCP / SCTP

    The decoders return by value, as in the source; an early [return out] of
    a loop body is the [Return] case of the loop's result. *)

From S2P Require Import Prelude ByteOrder.

Definition kEthHeaderLen : Z := 14.
Definition kVlanTagLen : Z := 4.
Definition kEtherTypeIpv4 : Z := 0x0800.
Definition kEtherTypeIpv6 : Z := 0x86DD.
Definition kEtherTypeVlan : Z := 0x8100.
Definition kEtherTypeQinQ : Z := 0x88A8.
Definition kMaxVlanTags : nat := 2.
Definition kMaxIpv6ExtHeaders : nat := 8.

Module IpProto.
Definition kHopByHop : Z := 0.
Definition kIcmp : Z := 1.
Definition kTcp : Z := 6.
Definition kUdp : Z := 17.
Definition kIpv6Route : Z := 43.
Definition kIpv6Frag : Z := 44.
Definition kEsp : Z := 50.
Definition kAh : Z := 51.
Definition kIcmpv6 : Z := 58.
Definition kIpv6NoNext : Z := 59.
Definition kIpv6Dest : Z := 60.
Definition kSctp : Z := 132.
End IpProto.

(** [std::array<uint8_t, 16>], zero-initialised. *)
Abbreviation IpAddr := (list byte) (only parsing).
Definition IpAddr_zero : IpAddr := replicate 16 x00.

(** [memcpy] of [bs] over the first bytes of an array. *)
Definition copy_over (bs : Bytes) (a : Bytes) : Bytes := bs ++ drop (length bs) a.

Record FiveTuple := mkFiveTuple {
  src : IpAddr;
  dst : IpAddr;
  src_port : Z;
  dst_port : Z;
  proto : Z;
  ip_version : Z;
  fragmented : bool;
  ports_valid : bool
}.
#[export] Instance FiveTuple_eta : Eta FiveTuple := fun t =>
  mkFiveTuple (src t) (dst t) (src_port t) (dst_port t) (proto t) (ip_version t)
    (fragmented t) (ports_valid t).
Definition FiveTuple_init : FiveTuple :=
  mkFiveTuple IpAddr_zero IpAddr_zero 0 0 0 0 false false.

(** [FiveTuple::operator==]: [fragmented] and [ports_valid] do not take part. *)
Definition FiveTuple_eqb (t o : FiveTuple) : bool :=
  bool_decide (src t = src o) && bool_decide (dst t = dst o) && (src_port t =? src_port o)
  && (dst_port t =? dst_port o) && (proto t =? proto o) && (ip_version t =? ip_version o).

Record IpPacket := mkIpPacket {
  tuple : FiveTuple;
  l4_payload : Bytes;
  ip_total_len : Z;
  l3_header_len : Z;
  l4_header_len : Z;
  valid : bool
}.
#[export] Instance IpPacket_eta : Eta IpPacket := fun p =>
  mkIpPacket (tuple p) (l4_payload p) (ip_total_len p) (l3_header_len p) (l4_header_len p) (valid p).
Definition IpPacket_init : IpPacket := mkIpPacket FiveTuple_init [] 0 0 0 false.

Record EthFrame := mkEthFrame {
  eth_payload : Bytes;
  ethertype : Z;
  vlan_tags : Z;
  eth_valid : bool
}.
#[export] Instance EthFrame_eta : Eta EthFrame := fun f =>
  mkEthFrame (eth_payload f) (ethertype f) (vlan_tags f) (eth_valid f).
Definition EthFrame_init : EthFrame := mkEthFrame [] 0 0 false.

(** How a loop ends: by [return], or by falling through with its variables. *)
Inductive loop_end (R S : Type) := Return (r : R) | Next (s : S).
Arguments Return {R S} r.
Arguments Next {R S} s.

Section Parsers.
Context {HE : HostEndian}.

Definition src_v4 (t : FiveTuple) : res Z := load_be32 (src t) 0.
Definition dst_v4 (t : FiveTuple) : res Z := load_be32 (dst t) 0.

(** The VLAN loop: [n] iterations left, [et] the current ethertype. *)
Fixpoint vlan_loop (n : nat) (frame : Bytes) (et off : Z) (out : EthFrame)
  : res (loop_end EthFrame (Z * Z * EthFrame)) :=
  match n with
  | O => Ok (Next (et, off, out))
  | S n =>
    if negb (et =? kEtherTypeVlan) && negb (et =? kEtherTypeQinQ) then Ok (Next (et, off, out)) else
    if size frame <? off + kVlanTagLen then Ok (Return out) else
    let* et := load_be16 frame (off + 2) in
    vlan_loop n frame et (off + kVlanTagLen) (out <| vlan_tags ::= fun v => u8 (v + 1) |>)
  end.

Definition parse_ethernet (frame : Bytes) : res EthFrame :=
  let out := EthFrame_init in
  if size frame <? kEthHeaderLen then Ok out else
  let off := 12 in
  let* et := load_be16 frame off in
  let off := off + 2 in
  let* e := vlan_loop kMaxVlanTags frame et off out in
  match e with
  | Return out => Ok out
  | Next (et, off, out) =>
      let out := out <| ethertype := et |> in
      let* p := subspan_from frame off in
      Ok (out <| eth_payload := p |> <| eth_valid := true |>)
  end.

Definition set_ports (l4 : Bytes) (out : IpPacket) : res IpPacket :=
  let* sp := load_be16 l4 0 in
  let* dp := load_be16 l4 2 in
  Ok (out <| tuple ::= fun t => t <| src_port := sp |> <| dst_port := dp |> <| ports_valid := true |> |>).

Definition set_l4 (l4 : Bytes) (hl : Z) (out : IpPacket) : res IpPacket :=
  let* p := subspan_from l4 hl in
  Ok (out <| l4_header_len := u16 hl |> <| l4_payload := p |>).

Definition parse_l4 (l4 : Bytes) (out : IpPacket) : res IpPacket :=
  let pr := proto (tuple out) in
  if pr =? IpProto.kUdp then
    if size l4 <? 8 then Ok out else
    let* out := set_ports l4 out in
    set_l4 l4 8 out
  else if pr =? IpProto.kTcp then
    if size l4 <? 20 then Ok out else
    let* out := set_ports l4 out in
    let* b12 := rd l4 12 in
    let doff := Z.shiftr b12 4 * 4 in
    if (doff <? 20) || (size l4 <? doff) then Ok out else
    set_l4 l4 doff out
  else if pr =? IpProto.kSctp then
    if size l4 <? 12 then Ok out else
    let* out := set_ports l4 out in
    set_l4 l4 12 out
  else Ok out.

Definition parse_ipv4 (pkt : Bytes) : res IpPacket :=
  let out := IpPacket_init in
  if size pkt <? 20 then Ok out else
  let* b0 := rd pkt 0 in
  if negb (Z.shiftr b0 4 =? 4) then Ok out else
  let ihl := Z.land b0 0x0F * 4 in
  if (ihl <? 20) || (size pkt <? ihl) then Ok out else
  let* total_len := load_be16 pkt 2 in
  if total_len <? ihl then Ok out else
  let* frag := load_be16 pkt 6 in
  let more_frags := negb (Z.land frag 0x2000 =? 0) in
  let frag_off := u16 (Z.land frag 0x1FFF) in
  let* pr := rd pkt 9 in
  let* s := subspan pkt 12 4 in
  let* d := subspan pkt 16 4 in
  let out := out
    <| tuple ::= fun t => t
         <| ip_version := 4 |> <| proto := pr |>
         <| fragmented := more_frags || negb (frag_off =? 0) |>
         <| src ::= copy_over s |> <| dst ::= copy_over d |> |>
    <| l3_header_len := u16 ihl |> <| ip_total_len := total_len |> <| valid := true |> in
  let declared_payload := sub64 total_len ihl in
  let avail := sub64 (size pkt) ihl in
  let* l4 := subspan pkt ihl (if declared_payload <? avail then declared_payload else avail) in
  if frag_off =? 0 then parse_l4 l4 out else Ok out.

Definition is_ipv6_ext (next : Z) : bool :=
  (next =? IpProto.kHopByHop) || (next =? IpProto.kIpv6Route) || (next =? IpProto.kIpv6Dest)
  || (next =? IpProto.kAh) || (next =? IpProto.kIpv6Frag).

(** The extension-header loop of [parse_ipv6]: [n] iterations left. *)
Fixpoint ipv6_loop (n : nat) (pkt : Bytes) (end_ next off : Z) (out : IpPacket)
  : res (loop_end IpPacket (Z * Z * IpPacket)) :=
  match n with
  | O => Ok (Next (next, off, out))
  | S n =>
    if negb (is_ipv6_ext next) then Ok (Next (next, off, out)) else
    if end_ <? off + 8 then Ok (Return (out <| tuple ::= fun t => t <| proto := next |> |>)) else
    if next =? IpProto.kIpv6Frag then
      let* frag := load_be16 pkt (off + 2) in
      let out := out <| tuple ::= fun t =>
                          t <| fragmented := negb (Z.land frag 0xFFF9 =? 0) |> |> in
      let first_frag := Z.land frag 0xFFF8 =? 0 in
      let* next := rd pkt off in
      let off := off + 8 in
      if negb first_frag then
        Ok (Return (out <| tuple ::= fun t => t <| proto := next |> |> <| l3_header_len := u16 off |>))
      else ipv6_loop n pkt end_ next off out
    else
      let* l := rd pkt (off + 1) in
      let ext_len := if next =? IpProto.kAh then (l + 2) * 4 else (l + 1) * 8 in
      if end_ <? off + ext_len
      then Ok (Return (out <| tuple ::= fun t => t <| proto := next |> |>)) else
      let* next := rd pkt off in
      ipv6_loop n pkt end_ next (off + ext_len) out
  end.

Definition parse_ipv6 (pkt : Bytes) : res IpPacket :=
  let out := IpPacket_init in
  if size pkt <? 40 then Ok out else
  let* b0 := rd pkt 0 in
  if negb (Z.shiftr b0 4 =? 6) then Ok out else
  let* payload_len := load_be16 pkt 4 in
  let* s := subspan pkt 8 16 in
  let* d := subspan pkt 24 16 in
  let out := out
    <| tuple ::= fun t => t <| ip_version := 6 |> <| src ::= copy_over s |> <| dst ::= copy_over d |> |>
    <| l3_header_len := 40 |> <| ip_total_len := u32 (40 + payload_len) |> <| valid := true |> in
  let declared := 40 + payload_len in
  let end_ := if declared <? size pkt then declared else size pkt in
  let* next := rd pkt 6 in
  let* e := ipv6_loop kMaxIpv6ExtHeaders pkt end_ next 40 out in
  match e with
  | Return out => Ok out
  | Next (next, off, out) =>
      let out := out <| tuple ::= fun t => t <| proto := next |> |> <| l3_header_len := u16 off |> in
      if off <=? end_ then
        let* l4 := subspan pkt off (sub64 end_ off) in
        parse_l4 l4 out
      else Ok out
  end.

Definition parse_ip (pkt : Bytes) : res IpPacket :=
  if size pkt =? 0 then Ok IpPacket_init else
  let* b0 := rd pkt 0 in
  let version := u8 (Z.shiftr b0 4) in
  if version =? 4 then parse_ipv4 pkt else
  if version =? 6 then parse_ipv6 pkt else
  Ok IpPacket_init.

End Parsers.

(** ** The flow key: FNV-1a over the tuple bytes *)

Definition fnv_mix (h b : Z) : Z := mul64 (Z.lxor h b) 1099511628211.

Definition flow_key (t : FiveTuple) : Z :=
  let h := 1469598103934665603 in
  let addr_len := if ip_version t =? 6 then 16%nat else 4%nat in
  let h := foldl fnv_mix h (map bval (take addr_len (src t))) in
  let h := foldl fnv_mix h (map bval (take addr_len (dst t))) in
  let h := fnv_mix h (u8 (Z.shiftr (src_port t) 8)) in
  let h := fnv_mix h (u8 (src_port t)) in
  let h := fnv_mix h (u8 (Z.shiftr (dst_port t) 8)) in
  let h := fnv_mix h (u8 (dst_port t)) in
  let h := fnv_mix h (proto t) in
  fnv_mix h (ip_version t).

(** ** Lemmas *)

Definition tuple_ok (t : FiveTuple) : Prop :=
  size (src t) = 16 /\ size (dst t) = 16 /\ 0 <= src_port t < 65536 /\ 0 <= dst_port t < 65536 /\
  0 <= proto t < 256.

(** What [parse_l4] may change: the ports, their flag and the L4 view. *)
Definition l3_part (p : IpPacket) :=
  (src (tuple p), dst (tuple p), proto (tuple p), ip_version (tuple p), fragmented (tuple p),
   ip_total_len p, l3_header_len p, valid p).

(** The L4 header and payload lie, in this order, at the start of [l4]. *)
Definition l4_ok (l4 : Bytes) (p : IpPacket) : Prop :=
  view_of l4 (l4_payload p) /\ 0 <= l4_header_len p /\
  l4_header_len p + size (l4_payload p) <= size l4 /\
  (l4_payload p <> [] -> ports_valid (tuple p) = true).

Lemma l4_ok_none l4 p : l4_payload p = [] -> l4_header_len p = 0 -> l4_ok l4 p.
Proof.
  intros H1 H2. unfold l4_ok. rewrite H1, H2. pose proof (size_nonneg l4).
  rewrite (@size_nil byte). repeat split; auto with gtpm; lia.
Qed.

Section Lemmas.
Context {HE : HostEndian}.

Lemma set_ports_spec l4 out : 4 <= size l4 -> tuple_ok (tuple out) ->
  ensures (set_ports l4 out) (fun p =>
    l3_part p = l3_part out /\ tuple_ok (tuple p) /\ ports_valid (tuple p) = true /\
    l4_payload p = l4_payload out /\ l4_header_len p = l4_header_len out /\
    src_port (tuple p) = be16_at l4 0 /\ dst_port (tuple p) = be16_at l4 2).
Proof.
  intros Hs (? & ? & ? & ? & ?). unfold set_ports. do 2 load_step. apply ensures_Ok.
  unfold l3_part, tuple_ok. cbn. pose proof (be16_at_range l4 0). pose proof (be16_at_range l4 2).
  repeat split; auto; lia.
Qed.

Lemma set_l4_spec l4 hl out : 0 <= hl <= size l4 -> hl < 65536 ->
  ports_valid (tuple out) = true ->
  ensures (set_l4 l4 hl out) (fun p =>
    tuple p = tuple out /\ l3_part p = l3_part out /\ l4_ok l4 p /\
    l4_header_len p = hl /\ l4_payload p = drop (Z.to_nat hl) l4).
Proof.
  intros Hs Hb Hp. unfold set_l4. load_step. apply ensures_Ok. cbn. rewrite u16_small by lia.
  unfold l4_ok. cbn. rewrite size_drop by lia. repeat split; auto with gtpm; lia.
Qed.

Lemma tcp_doff b : 0 <= b < 256 -> 0 <= Z.shiftr b 4 * 4 <= 60.
Proof. intros. rewrite Z.shiftr_div_pow2 by lia. Z.div_mod_to_equations. lia. Qed.

Lemma parse_l4_spec l4 out :
  tuple_ok (tuple out) -> l4_payload out = [] -> l4_header_len out = 0 ->
  ensures (parse_l4 l4 out) (fun p =>
    l3_part p = l3_part out /\ tuple_ok (tuple p) /\ l4_ok l4 p).
Proof.
  intros Ht Hp Hl. unfold parse_l4.
  assert (l3_part out = l3_part out /\ tuple_ok (tuple out) /\ l4_ok l4 out) as Hsame
    by auto using l4_ok_none.
  assert (forall hl p, 0 <= hl <= size l4 -> hl < 65536 -> l3_part p = l3_part out ->
    tuple_ok (tuple p) -> ports_valid (tuple p) = true ->
    ensures (set_l4 l4 hl p) (fun p => l3_part p = l3_part out /\ tuple_ok (tuple p) /\ l4_ok l4 p))
    as Hset.
  { intros hl p ? ? <- ? ?. eapply ensures_mono; [by apply set_l4_spec|].
    intros p' (Htup & ? & ? & _). rewrite Htup. auto. }
  repeat (case_if; [case_if; [by apply ensures_Ok|]|]); [..|by apply ensures_Ok];
    (eapply ensures_bind; [apply set_ports_spec; [lia|done]|]);
    intros p (? & ? & ? & Hpl & Hhl & _).
  - apply Hset; auto; lia.
  - load_step. pose proof (tcp_doff (byte_at l4 12) (byte_at_range l4 12)).
    case_if.
    + apply ensures_Ok. refine (conj _ (conj _ (l4_ok_none _ _ _ _))); congruence.
    + bool_to_prop. apply Hset; auto; lia.
  - apply Hset; auto; lia.
Qed.

(** The 16-byte address field after the copy of an IPv4 or IPv6 address. *)
Lemma size_copy_over bs a : size bs <= size a -> size (copy_over bs a) = size a.
Proof. unfold copy_over, size. intros. rewrite length_app, length_drop. lia. Qed.

(** A decoded packet lies inside its buffer: L3 header, L4 header and payload
    in this order; the declared length and the tuple are in range. *)
Definition ip_ok (pkt : Bytes) (p : IpPacket) : Prop :=
  tuple_ok (tuple p) /\ view_of pkt (l4_payload p) /\
  20 <= l3_header_len p <= 65535 /\ 0 <= l4_header_len p /\
  l3_header_len p + l4_header_len p + size (l4_payload p) <= size pkt /\
  20 <= ip_total_len p <= 65575 /\
  (l4_payload p <> [] -> ports_valid (tuple p) = true) /\
  (ip_version (tuple p) = 4 \/ ip_version (tuple p) = 6).

(** From the spec of [parse_l4] on a slice of the packet to [ip_ok]. *)
Lemma parse_l4_ip_ok pkt off len out :
  0 <= len -> l3_header_len out = off -> off + len <= size pkt ->
  tuple_ok (tuple out) -> l4_payload out = [] -> l4_header_len out = 0 ->
  20 <= off <= 65535 -> 20 <= ip_total_len out <= 65575 ->
  (ip_version (tuple out) = 4 \/ ip_version (tuple out) = 6) ->
  ensures (parse_l4 (slice off len pkt) out) (fun p => l3_part p = l3_part out /\ ip_ok pkt p).
Proof.
  intros Hl Hoff Hs Ht Hp Hh Hr Htl Hv.
  eapply ensures_mono; [by apply parse_l4_spec|].
  intros p (H3 & Ht' & Hview & Hh0 & Hsz & Hports). split; [done|].
  rewrite size_slice in Hsz by lia. revert H3; intros [= E1 E2 E3 E4 E5 E6 E7 E8].
  unfold ip_ok. rewrite E4, E6, E7.
  refine (conj Ht' (conj _ _)); [|repeat split; auto; lia].
  eapply view_of_trans; [|exact Hview]. apply view_of_slice; lia.
Qed.

Lemma ihl_range b : 0 <= b < 256 -> 0 <= Z.land b 0x0F * 4 <= 60.
Proof.
  intros. change 0x0F with (Z.ones 4). rewrite Z.land_ones by lia.
  Z.div_mod_to_equations. lia.
Qed.

Lemma parse_ipv4_spec pkt :
  ensures (parse_ipv4 pkt) (fun p =>
    (p = IpPacket_init) \/
    (valid p = true /\ ip_ok pkt p /\ ip_version (tuple p) = 4 /\ ip_total_len p = be16_at pkt 2)).
Proof.
  unfold parse_ipv4. case_if; [by apply ensures_Ok; left|]. load_step.
  case_if; [by apply ensures_Ok; left|].
  pose proof (ihl_range (byte_at pkt 0) (byte_at_range pkt 0)) as Hihl.
  set (ihl := Z.land (byte_at pkt 0) 15 * 4) in *.
  case_if; [by apply ensures_Ok; left|]. bool_to_prop. load_step.
  case_if; [by apply ensures_Ok; left|]. do 4 load_step.
  pose proof (be16_at_range pkt 2). pose proof (byte_at_range pkt 9).
  set (out := setf valid _ _).
  rewrite (sub64_small (be16_at pkt 2)) by lia.
  pose proof (sub64_le (size pkt) ihl).
  set (len := if _ <? _ then _ else _).
  assert (0 <= len <= size pkt - ihl) as Hlen by (unfold len; case_if; lia).
  load_step.
  assert (tuple_ok (tuple out)) as Ht.
  { unfold tuple_ok, out; cbn.
    repeat split; try lia; rewrite size_copy_over; rewrite ?size_slice by lia; cbv; done. }
  assert (l3_header_len out = ihl) as Hl3 by (cbn; apply u16_small; lia).
  case_if.
  - eapply ensures_mono.
    + apply (parse_l4_ip_ok pkt ihl len out); try done; cbn; try lia.
    + intros p [[= E1 E2 E3 E4 E5 E6 E7 E8] Hok]. right. rewrite E4, E6, E8. auto.
  - apply ensures_Ok. right. refine (conj eq_refl (conj _ (conj eq_refl eq_refl))).
    unfold ip_ok. rewrite Hl3. cbn -[Z.le]. rewrite (@size_nil byte).
    refine (conj Ht _). repeat split; auto with gtpm; lia.
Qed.

(** What the extension-header loop keeps about [out]. *)
Definition v6_base (total : Z) (p : IpPacket) : Prop :=
  tuple_ok (tuple p) /\ l4_payload p = [] /\ l4_header_len p = 0 /\ ip_total_len p = total /\
  valid p = true /\ ip_version (tuple p) = 6 /\ ports_valid (tuple p) = false.

Lemma v6_base_ip_ok pkt total p :
  v6_base total p -> 40 <= l3_header_len p <= size pkt -> l3_header_len p <= 65535 ->
  20 <= total <= 65575 -> ip_ok pkt p.
Proof.
  intros (Ht & Hp & Hl & Htl & _ & Hv & _) H3 H3' H. unfold ip_ok. rewrite Hp, Hl, Htl, Hv.
  rewrite (@size_nil byte). refine (conj Ht _). repeat split; auto with gtpm; lia.
Qed.

Lemma v6_base_proto total p next :
  v6_base total p -> 0 <= next < 256 ->
  v6_base total (p <| tuple ::= fun t => t <| proto := next |> |>).
Proof.
  intros ((? & ? & ? & ? & ?) & ? & ? & ? & ? & ? & ?) Hn. unfold v6_base, tuple_ok. cbn.
  repeat split; auto; lia.
Qed.

Lemma v6_base_fragmented total p b :
  v6_base total p -> v6_base total (p <| tuple ::= fun t => t <| fragmented := b |> |>).
Proof. intros H. exact H. Qed.

Lemma v6_base_l3 total p n : v6_base total p -> v6_base total (p <| l3_header_len := n |>).
Proof. intros H. exact H. Qed.
#[local] Hint Resolve v6_base_proto v6_base_fragmented v6_base_l3 byte_at_range : gtpm.

(** [n] iterations starting at [off] stay below [end_]; each advances by at
    most 2048 bytes, so the header length never wraps its 16 bits. *)
Lemma ipv6_loop_spec pkt end_ total : forall n next off out,
  end_ <= size pkt -> 40 <= off <= end_ -> off + 2048 * Z.of_nat n <= 65535 ->
  0 <= next < 256 -> v6_base total out -> l3_header_len out = 40 ->
  ensures (ipv6_loop n pkt end_ next off out) (fun e =>
    match e with
    | Return p => v6_base total p /\ 40 <= l3_header_len p <= size pkt /\ l3_header_len p <= 65535
    | Next (next', off', p) => v6_base total p /\ 0 <= next' < 256 /\ off <= off' <= end_ /\
        off' <= off + 2048 * Z.of_nat n
    end).
Proof.
  induction n as [|n IH]; intros next off out He Ho Hb Hn Hout H40; cbn [ipv6_loop].
  { apply ensures_Ok. split_and!; auto; lia. }
  case_if; [apply ensures_Ok; split_and!; auto; lia|].
  case_if; [apply ensures_Ok; split; [by apply v6_base_proto|]; cbn; lia|].
  assert (forall next' off' p', 0 <= next' < 256 -> off + 8 <= off' <= end_ ->
    off' <= off + 2048 -> v6_base total p' -> l3_header_len p' = 40 ->
    ensures (ipv6_loop n pkt end_ next' off' p') (fun e =>
    match e with
    | Return p => v6_base total p /\ 40 <= l3_header_len p <= size pkt /\ l3_header_len p <= 65535
    | Next (next'', off'', p) => v6_base total p /\ 0 <= next'' < 256 /\ off <= off'' <= end_ /\
        off'' <= off + 2048 * Z.of_nat (S n)
    end)) as Hgo.
  { intros next' off' p' ? ? ? ? ?. eapply ensures_mono; [apply IH; auto; lia|].
    intros [p|[[next'' off''] p]]; [tauto|]. intros (? & ? & ? & ?). split_and!; auto; lia. }
  case_if.
  - do 2 load_step. case_if; [|apply Hgo; auto with gtpm; lia].
    apply ensures_Ok. cbn [l3_header_len setf]. rewrite u16_small by lia.
    split; [|cbn; lia].
    apply v6_base_l3, v6_base_proto, byte_at_range. by apply v6_base_fragmented.
  - load_step. pose proof (byte_at_range pkt (off + 1)).
    set (ext_len := if next =? IpProto.kAh then _ else _).
    assert (8 <= ext_len <= 2048) as Hx by (unfold ext_len; case_if; lia).
    case_if; [apply ensures_Ok; split; [by apply v6_base_proto|]; cbn; lia|].
    load_step. apply Hgo; auto with gtpm; lia.
Qed.

Lemma parse_ipv6_spec pkt :
  ensures (parse_ipv6 pkt) (fun p =>
    (p = IpPacket_init) \/
    (valid p = true /\ ip_ok pkt p /\ ip_version (tuple p) = 6 /\ ip_total_len p = 40 + be16_at pkt 4)).
Proof.
  unfold parse_ipv6. case_if; [by apply ensures_Ok; left|]. load_step.
  case_if; [by apply ensures_Ok; left|]. do 3 load_step.
  pose proof (be16_at_range pkt 4) as Hr. rewrite u32_small by lia.
  set (out := setf valid _ _). set (end_ := if _ <? _ then _ else _).
  assert (40 <= end_ <= size pkt) as He by (unfold end_; case_if; lia).
  assert (end_ <= 40 + be16_at pkt 4) as He' by (unfold end_; case_if; lia).
  load_step.
  assert (v6_base (40 + be16_at pkt 4) out) as Hout.
  { unfold v6_base, tuple_ok, out; cbn. split_and!; try done; try lia;
    rewrite size_copy_over; rewrite ?size_slice by lia; cbv; done. }
  eapply ensures_bind.
  { apply (ipv6_loop_spec pkt end_ (40 + be16_at pkt 4));
      [lia|lia|unfold kMaxIpv6ExtHeaders; lia|apply byte_at_range|exact Hout|reflexivity]. }
  intros [p|[[next off] p]].
  - intros (Hp & H3 & H3'). apply ensures_Ok. right.
    destruct (Hp) as (_ & _ & _ & -> & -> & -> & _).
    split_and!; try tauto. eapply v6_base_ip_ok; eauto; lia.
  - intros (Hp & Hn & Ho & Ho'). unfold kMaxIpv6ExtHeaders in Ho'.
    rewrite (proj2 (Z.leb_le off end_)) by lia. rewrite sub64_small by lia. load_step.
    set (p' := setf l3_header_len _ _).
    assert (v6_base (40 + be16_at pkt 4) p') as (Ht & Hpl & Hl & Htl & Hv & Hver & _)
      by (apply v6_base_l3, v6_base_proto; auto).
    assert (l3_header_len p' = off) as H3 by (cbn; apply u16_small; lia).
    eapply ensures_mono.
    + apply (parse_l4_ip_ok pkt off (end_ - off) p'); auto; lia.
    + intros q [[= E1 E2 E3 E4 E5 E6 E7 E8] Hok]. right. rewrite E4, E6, E8. auto.
Qed.

Lemma parse_ip_spec pkt :
  ensures (parse_ip pkt) (fun p => p = IpPacket_init \/ (valid p = true /\ ip_ok pkt p)).
Proof.
  unfold parse_ip. case_if; [by apply ensures_Ok; left|].
  pose proof (size_nonneg pkt). load_step.
  case_if; [|case_if; [|by apply ensures_Ok; left]]; eapply ensures_mono;
    [apply parse_ipv4_spec| |apply parse_ipv6_spec|]; cbn; tauto.
Qed.
End Lemmas.

(** ** The wire grammar of a tagged Ethernet frame *)

Definition is_vlan_type (et : Z) : bool := (et =? kEtherTypeVlan) || (et =? kEtherTypeQinQ).

(** A tag: its TPID and its control field; [head_et] is the first type field
    on the wire and [eth_rest] what follows it. *)
Definition head_et (tags : list (Z * Z)) (et : Z) : Z :=
  match tags with [] => et | (tpid, _) :: _ => tpid end.
Fixpoint eth_rest (tags : list (Z * Z)) (et : Z) (payload : Bytes) : Bytes :=
  match tags with
  | [] => payload
  | (_, tci) :: tags => be16_bytes tci ++ be16_bytes (head_et tags et) ++ eth_rest tags et payload
  end.
Definition enc_eth (macs : Bytes) (tags : list (Z * Z)) (et : Z) (payload : Bytes) : Bytes :=
  macs ++ be16_bytes (head_et tags et) ++ eth_rest tags et payload.

Definition wf_tag (t : Z * Z) : Prop := is_vlan_type t.1 = true /\ 0 <= t.2 < 65536.

Lemma head_et_range tags et : Forall wf_tag tags -> 0 <= et < 65536 -> 0 <= head_et tags et < 65536.
Proof.
  intros Hwf He. destruct tags as [|[t c] ?]; [done|]. apply Forall_cons_iff in Hwf as [[Ht _] _].
  cbn in Ht |- *. unfold is_vlan_type, kEtherTypeVlan, kEtherTypeQinQ in Ht.
  apply orb_true_iff in Ht as [?%Z.eqb_eq|?%Z.eqb_eq]; lia.
Qed.

Lemma eth_rest_app tags et pl :
  exists tagbytes, eth_rest tags et pl = tagbytes ++ pl /\ size tagbytes = 4 * size tags.
Proof.
  induction tags as [|[tpid tci] tags (tb & E & Hs)]; [by exists []|]. cbn [eth_rest]. rewrite E.
  exists (be16_bytes tci ++ be16_bytes (head_et tags et) ++ tb). rewrite <- !app_assoc. split; [done|].
  rewrite !size_app, Hs, size_cons. unfold be16_bytes. rewrite !size_cons, !(@size_nil byte). lia.
Qed.

Section Ethernet.
Context {HE : HostEndian}.

Lemma is_vlan_negb et :
  negb (et =? kEtherTypeVlan) && negb (et =? kEtherTypeQinQ) = negb (is_vlan_type et).
Proof. unfold is_vlan_type. by rewrite negb_orb. Qed.

(** The tag loop decodes exactly the tags in front of the payload: at most
    [n] of them, and fewer only when the next type is not a VLAN type. *)
Lemma vlan_loop_spec frame : forall n et0 off out,
  0 <= off <= size frame -> 0 <= vlan_tags out <= 255 - Z.of_nat n -> 0 <= et0 < 65536 ->
  ensures (vlan_loop n frame et0 off out) (fun e =>
    match e with
    | Return p => eth_valid p = eth_valid out
    | Next (et, off', p) => off <= off' <= size frame /\ 0 <= et < 65536 /\
        exists tags, p = out <| vlan_tags := vlan_tags out + size tags |> /\ Forall wf_tag tags /\
          (length tags <= n)%nat /\ (is_vlan_type et = true -> length tags = n) /\
          et0 = head_et tags et /\
          drop (Z.to_nat off) frame = eth_rest tags et (drop (Z.to_nat off') frame)
    end).
Proof.
  induction n as [|n IH]; intros et0 off out Ho Hv He; cbn [vlan_loop].
  { apply ensures_Ok. split_and!; try lia. exists []. destruct out; cbn in *.
    rewrite Z.add_0_r. split_and!; auto. }
  rewrite is_vlan_negb. case_if.
  { apply ensures_Ok. split_and!; try lia. exists []. destruct out; cbn in *.
    rewrite Z.add_0_r. split_and!; auto; [lia|congruence]. }
  unfold kVlanTagLen. case_if; [by apply ensures_Ok|]. load_step.
  eapply ensures_mono; [apply IH|]; [lia|cbn; rewrite u8_small; lia|apply be16_at_range|].
  intros [p|[[et off'] p]]; [done|]. intros (Hoff & Het & tags & -> & Hwf & Hlen & Hfull & Hhd & Hd).
  split_and!; try lia. exists ((et0, be16_at frame off) :: tags).
  rewrite (@size_cons (Z * Z)). split_and!.
  - destruct out; unfold setf in *; cbn in *. f_equal. rewrite u8_small by lia. lia.
  - constructor; [|done]. split; [done|apply be16_at_range].
  - cbn. lia.
  - intros. cbn. f_equal. auto.
  - done.
  - cbn [eth_rest]. rewrite <- Hd, <- Hhd, (drop_be16 frame off) by lia.
    rewrite (drop_be16 frame (off + 2)) by lia. by replace (off + 2 + 2) with (off + 4) by lia.
Qed.

Lemma vlan_loop_complete : forall tags n pre et pl out,
  Forall wf_tag tags -> 0 <= et < 65536 -> (length tags <= n)%nat ->
  (is_vlan_type et = true -> length tags = n) -> 0 <= vlan_tags out <= 255 - Z.of_nat n ->
  vlan_loop n (pre ++ eth_rest tags et pl) (head_et tags et) (size pre) out =
    Ok (Next (et, size pre + 4 * size tags, out <| vlan_tags := vlan_tags out + size tags |>)).
Proof.
  induction tags as [|[tpid tci] tags IH]; intros n pre et pl out Hwf He Hn Hfull Hv.
  - replace (out <| vlan_tags := _ |>) with out by (destruct out; cbn; rewrite Z.add_0_r; done).
    cbn [head_et eth_rest]. rewrite (@size_nil (Z * Z)), Z.mul_0_r, Z.add_0_r.
    destruct n; [done|]. cbn [vlan_loop]. rewrite is_vlan_negb.
    destruct (is_vlan_type et); [|done]. discriminate (Hfull eq_refl).
  - apply Forall_cons_iff in Hwf as [[Hvt Htci] Hwf]. cbn in Hvt, Htci.
    destruct n as [|n]; [cbn in Hn; lia|]. cbn [vlan_loop eth_rest head_et].
    rewrite is_vlan_negb, Hvt. cbn [negb].
    pose proof (head_et_range tags et Hwf He) as Hh.
    set (f := pre ++ _).
    assert (f = (pre ++ be16_bytes tci) ++ be16_bytes (head_et tags et) ++ eth_rest tags et pl) as Hf1
      by (unfold f; by rewrite <- app_assoc).
    assert (f = (pre ++ be16_bytes tci ++ be16_bytes (head_et tags et)) ++ eth_rest tags et pl) as Hf2
      by (unfold f; by rewrite <- !app_assoc).
    assert (size pre + 4 <= size f) as Hs.
    { rewrite Hf2, !size_app. change (size (be16_bytes _)) with 2.
      pose proof (size_nonneg (eth_rest tags et pl)). change (size (be16_bytes _)) with 2. lia. }
    pose proof (size_nonneg pre). unfold kVlanTagLen. rewrite (proj2 (Z.ltb_ge _ _)) by lia. load_step.
    assert (be16_at f (size pre + 2) = head_et tags et) as ->.
    { rewrite Hf1. replace (size pre + 2) with (size (pre ++ be16_bytes tci))
        by (rewrite size_app; reflexivity). by apply be16_at_be16_bytes. }
    rewrite Hf2. replace (size pre + 4) with (size (pre ++ be16_bytes tci ++ be16_bytes (head_et tags et)))
      by (rewrite !size_app; reflexivity).
    rewrite IH; [|done|done|cbn in Hn; lia|intros; cbn in Hfull; specialize (Hfull H0); lia|
      cbn; rewrite u8_small; lia].
    rewrite (@size_cons (Z * Z)), !size_app. do 3 f_equal.
    + f_equal. change (size (be16_bytes tci)) with 2. change (size (be16_bytes _)) with 2. lia.
    + destruct out; unfold setf in *; cbn in *. f_equal. rewrite u8_small by lia. lia.
Qed.
(** Every frame of the grammar is accepted. *)
Lemma parse_ethernet_complete macs tags et pl :
  size macs = 12 -> Forall wf_tag tags -> (length tags <= 2)%nat ->
  (is_vlan_type et = true -> length tags = 2%nat) -> 0 <= et < 65536 ->
  parse_ethernet (enc_eth macs tags et pl) = Ok (mkEthFrame pl et (size tags) true).
Proof.
  intros Hm Hwf Hlen Hfull Het. unfold parse_ethernet, kEthHeaderLen, kMaxVlanTags, enc_eth.
  destruct (eth_rest_app tags et pl) as (tb & Hr & Htb).
  pose proof (size_nonneg pl). pose proof (size_nonneg tags).
  set (hd := macs ++ be16_bytes (head_et tags et)).
  assert (size hd = 14) as Hhd by (unfold hd; rewrite size_app, size_be16_bytes; lia).
  assert (macs ++ be16_bytes (head_et tags et) ++ eth_rest tags et pl = hd ++ eth_rest tags et pl)
    as Hf by (unfold hd; by rewrite <- app_assoc).
  rewrite (load_be16_Ok _ 12) by (rewrite ?Hf, ?Hr, ?size_app; lia). cbn [res_bind].
  assert (be16_at (macs ++ be16_bytes (head_et tags et) ++ eth_rest tags et pl) 12 = head_et tags et)
    as -> by (rewrite <- Hm; apply be16_at_be16_bytes; by apply head_et_range).
  rewrite Hf, Hr, !size_app, (proj2 (Z.ltb_ge _ 14)) by lia. rewrite <- Hr.
  change (12 + 2) with 14. rewrite <- Hhd, vlan_loop_complete; auto; [|cbn; lia]. cbn [res_bind].
  rewrite subspan_from_Ok by (rewrite Hr, !size_app; lia). cbn [res_bind]. do 2 f_equal.
  unfold setf; cbn. f_equal.
  rewrite Hr, app_assoc, drop_app_length'; [done|].
  rewrite <- Htb, <- size_app. unfold size. lia.
Qed.
End Ethernet.

(** The header checks of [parse_ipv4], on the wire bytes. *)
Definition ipv4_ihl (pkt : Bytes) : Z := Z.land (byte_at pkt 0) 0x0F * 4.
Definition ipv4_frag_off (pkt : Bytes) : Z := Z.land (be16_at pkt 6) 0x1FFF.
Definition ipv4_wf (pkt : Bytes) : Prop :=
  20 <= ipv4_ihl pkt /\ ipv4_ihl pkt <= size pkt /\ Z.shiftr (byte_at pkt 0) 4 = 4 /\
  ipv4_ihl pkt <= be16_at pkt 2.

(** What an accepted IPv4 packet decodes to. *)
Definition ipv4_fields (pkt : Bytes) (p : IpPacket) : Prop :=
  take 4 (src (tuple p)) = slice 12 4 pkt /\ take 4 (dst (tuple p)) = slice 16 4 pkt /\
  proto (tuple p) = byte_at pkt 9 /\ ip_version (tuple p) = 4 /\
  l3_header_len p = ipv4_ihl pkt /\ ip_total_len p = be16_at pkt 2 /\
  fragmented (tuple p) = negb (Z.land (be16_at pkt 6) 0x2000 =? 0) || negb (ipv4_frag_off pkt =? 0) /\
  (ipv4_frag_off pkt <> 0 -> ports_valid (tuple p) = false /\ l4_payload p = []).

Lemma take_copy_over n bs a : length bs = n -> take n (copy_over bs a) = bs.
Proof. intros <-. unfold copy_over. by rewrite take_app_length. Qed.

Lemma length_slice {A} (f : list A) off n :
  0 <= off -> off + Z.of_nat n <= size f -> length (slice off (Z.of_nat n) f) = n.
Proof. unfold slice, size. intros. rewrite length_take, length_drop. lia. Qed.

Section Properties.
Context {HE : HostEndian}.

(** Ethernet decoding recognises exactly the tagged-frame grammar.
    [parse_ethernet] accepts a frame with payload [pl], type [et] and [n]
    tags if and only if the frame is two MAC addresses, [n] <= 2 VLAN/QinQ
    tags, the type field and [pl]; a VLAN type may remain as the payload's
    type only when both tag slots were used. *)
Theorem ethernet_grammar frame pl et n :
  parse_ethernet frame = Ok (mkEthFrame pl et n true) <->
  exists macs tags, size macs = 12 /\ Forall wf_tag tags /\ (length tags <= 2)%nat /\
    (is_vlan_type et = true -> length tags = 2%nat) /\ 0 <= et < 65536 /\
    n = size tags /\ frame = enc_eth macs tags et pl.
Proof.
  split.
  - unfold parse_ethernet, kEthHeaderLen, kMaxVlanTags. case_if; [done|]. rewrite (load_be16_Ok frame 12) by lia. cbn [res_bind].
    destruct (vlan_loop_spec frame 2 (be16_at frame 12) (12 + 2) EthFrame_init)
      as (e & -> & He); [lia|cbn; lia|apply be16_at_range|].
    destruct e as [p|[[et' off] p]]; cbn [res_bind]; [by intros [= ->]|].
    destruct He as (Ho & Het & tags & -> & Hwf & Hlen & Hfull & Hhd & Hd).
    rewrite subspan_from_Ok by lia. cbn. intros [= <- <- <-].
    exists (take (Z.to_nat 12) frame), tags. rewrite size_take by lia. split_and!; auto; try lia.
    unfold enc_eth. rewrite <- Hd, <- Hhd, <- drop_be16 by lia. by rewrite take_drop.
  - intros (macs & tags & Hm & Hwf & Hlen & Hfull & Het & -> & ->). by apply parse_ethernet_complete.
Qed.

(** IP decoding is safe and stays inside its buffer.  For every byte
    string [parse_ip] returns; the result is either the blank, invalid packet
    or a valid one whose L3 header, L4 header and payload follow one another
    inside the buffer, whose payload is a view of the buffer present only
    with valid ports, and whose lengths and tuple fields are in range (the
    16-bit header length of a chain of IPv6 extension headers never wraps). *)
Lemma ip_decode_sound pkt :
  ensures (parse_ip pkt) (fun p => p = IpPacket_init \/ (valid p = true /\ ip_ok pkt p)).
Proof. apply parse_ip_spec. Qed.

(** IPv4 decoding accepts exactly the well-formed headers (version 4,
    20 <= IHL*4 <= bytes present, IHL*4 <= total length) and then reports the
    wire's addresses, protocol, lengths and fragment flags; a fragment with a
    non-zero offset never yields ports or an L4 payload. *)
Theorem ipv4_decode pkt :
  ensures (parse_ipv4 pkt) (fun p =>
    (valid p = true <-> ipv4_wf pkt) /\ (valid p = true -> ipv4_fields pkt p)).
Proof.
  unfold parse_ipv4. case_if.
  { apply ensures_Ok. unfold ipv4_wf. split; [|done]. split; [done|]. intros (? & ? & _). lia. }
  load_step. case_if.
  { apply ensures_Ok. split; [|done]. split; [done|]. intros (_ & _ & ? & _). lia. }
  fold (ipv4_ihl pkt).
  pose proof (ihl_range (byte_at pkt 0) (byte_at_range pkt 0)) as Hihl. fold (ipv4_ihl pkt) in Hihl.
  case_if.
  { apply ensures_Ok. split; [|done]. split; [done|]. intros (? & ? & _).
    apply orb_true_iff in Hif1 as [?%Z.ltb_lt|?%Z.ltb_lt]; lia. }
  bool_to_prop. load_step. case_if.
  { apply ensures_Ok. split; [|done]. split; [done|]. intros (_ & _ & _ & ?). lia. }
  do 4 load_step. set (out := setf valid _ _).
  pose proof (be16_at_range pkt 2). rewrite (sub64_small (be16_at pkt 2)) by lia.
  pose proof (sub64_le (size pkt) (ipv4_ihl pkt)).
  set (len := if _ <? _ then _ else _).
  assert (0 <= len <= size pkt - ipv4_ihl pkt) as Hlen by (unfold len; case_if; lia).
  load_step.
  assert (u16 (Z.land (be16_at pkt 6) 8191) = ipv4_frag_off pkt) as Hfo.
  { apply u16_small. unfold ipv4_frag_off. change 8191 with (Z.ones 13).
    rewrite Z.land_ones by lia. pose proof (Z.mod_pos_bound (be16_at pkt 6) (2 ^ 13)). lia. }
  assert (tuple_ok (tuple out)) as Ht.
  { pose proof (byte_at_range pkt 9). unfold tuple_ok, out; cbn.
    split_and!; try lia; rewrite size_copy_over; rewrite ?size_slice by lia; cbv; done. }
  assert (forall p, l3_part p = l3_part out ->
    (ipv4_frag_off pkt <> 0 -> ports_valid (tuple p) = false /\ l4_payload p = []) ->
    (valid p = true <-> ipv4_wf pkt) /\ (valid p = true -> ipv4_fields pkt p)) as Hpost.
  { intros p [= E1 E2 E3 E4 E5 E6 E7 E8] Hfrag. rewrite Hfo in E5.
    split; [rewrite E8; unfold ipv4_wf; split_and!; try split; auto; lia|]. intros _.
    unfold ipv4_fields. rewrite E1, E2, E3, E4, E5, E6, E7, u16_small by (unfold ipv4_ihl in *; lia).
    rewrite !take_copy_over by (apply (length_slice _ _ 4); lia). split_and!; done || apply Hfrag. }
  rewrite Hfo. case_if.
  - eapply ensures_mono; [by apply parse_l4_spec|]. intros p (Hl3 & _). apply Hpost; auto. lia.
  - apply ensures_Ok. apply Hpost; auto.
Qed.
End Properties.

(** ** Witness: a QinQ + VLAN tagged frame with a two-byte payload *)

Definition sample_macs : Bytes := replicate 12 x02.
Definition sample_tags : list (Z * Z) := [(kEtherTypeQinQ, 100); (kEtherTypeVlan, 7)].

Example ethernet_sample :
  @parse_ethernet little (enc_eth sample_macs sample_tags kEtherTypeIpv4 [x45; x00]) =
  Ok (mkEthFrame [x45; x00] kEtherTypeIpv4 2 true).
Proof. vm_compute. reflexivity. Qed.

(** An IPv4/UDP packet of 30 bytes, ports 53 and 4660. *)
Definition sample_ipv4 : Bytes := map to_byte
  [0x45; 0; 0; 30; 0; 0; 0; 0; 64; 17; 0; 0; 10; 0; 0; 1; 10; 0; 0; 2;
   0; 53; 0x12; 0x34; 0; 10; 0; 0; 0xAB; 0xCD].

Example ipv4_sample :
  (let* p := @parse_ip big sample_ipv4 in
   Ok (src_port (tuple p), dst_port (tuple p), l4_payload p, ip_total_len p)) =
  Ok (53, 4660, [xab; xcd], 30).
Proof. vm_compute. reflexivity. Qed.
