(* ===== verification/Diameter.v ===== *)
(** * include/gtpm/diameter.hpp: Diameter base protocol and Gy extraction

    The AVP walk [for_each_avp] takes its callback as a state-passing
    function: the captured variables are the state, the returned boolean is
    the callback's return value.  Strings ([std::string_view]) are views of
    the message, hence byte lists.  Statuses that the source discards with
    [(void)] are discarded here at the same places. *)

From S2P Require Import Prelude ByteOrder.

Definition kDiameterPort : Z := 3868.
Definition kDiameterHeaderLen : Z := 20.
Definition kDiameterMaxMsgLen : Z := 2 ^ 20.
Definition kAvpMaxDepth : Z := 8.
Definition kMaxMsccPerMessage : Z := 8.

Module DiameterCommand.
Definition kCapabilitiesExchange : Z := 257.
Definition kDeviceWatchdog : Z := 280.
Definition kDisconnectPeer : Z := 282.
Definition kReAuth : Z := 258.
Definition kSessionTermination : Z := 275.
Definition kCreditControl : Z := 272.
End DiameterCommand.

Module DiameterApp.
Definition kCommon : Z := 0.
Definition kCreditControl : Z := 4.
Definition kGx : Z := 16777238.
End DiameterApp.

Module AvpCode.
Definition kSessionId : Z := 263.
Definition kOriginHost : Z := 264.
Definition kOriginRealm : Z := 296.
Definition kDestinationHost : Z := 293.
Definition kDestinationRealm : Z := 283.
Definition kResultCode : Z := 268.
Definition kCcRequestType : Z := 416.
Definition kCcRequestNumber : Z := 415.
Definition kSubscriptionId : Z := 443.
Definition kSubscriptionIdType : Z := 450.
Definition kSubscriptionIdData : Z := 444.
Definition kMultipleServicesCreditControl : Z := 456.
Definition kRatingGroup : Z := 432.
Definition kServiceIdentifier : Z := 439.
Definition kGrantedServiceUnit : Z := 431.
Definition kUsedServiceUnit : Z := 446.
Definition kCcInputOctets : Z := 412.
Definition kCcOutputOctets : Z := 414.
Definition kCcTotalOctets : Z := 421.
Definition kCcTime : Z := 420.
Definition kEventTimestamp : Z := 55.
Definition kUserName : Z := 1.
End AvpCode.

Module CcRequestType.
Definition kInitial : Z := 1.
Definition kUpdate : Z := 2.
Definition kTermination : Z := 3.
Definition kEvent : Z := 4.
End CcRequestType.

Module SubscriptionIdType.
Definition kE164 : Z := 0.
Definition kImsi : Z := 1.
Definition kSipUri : Z := 2.
Definition kNai : Z := 3.
Definition kPrivate : Z := 4.
End SubscriptionIdType.

Definition kResultSuccess : Z := 2001.

Module DiameterStatus.
Inductive t := kOk | kTruncated | kBadVersion | kBadLength | kBadAvp | kAvpTooDeep.
#[global] Instance eq_dec : EqDecision t.
Proof. solve_decision. Defined.

Definition to_string (s : t) : string :=
  match s with
  | kOk => "ok"
  | kTruncated => "truncated"
  | kBadVersion => "bad-version"
  | kBadLength => "bad-length"
  | kBadAvp => "bad-avp"
  | kAvpTooDeep => "avp-too-deep"
  end.
End DiameterStatus.

Record DiameterHeader := mkDiameterHeader {
  avps : Bytes;
  msg_length : Z;
  command_code : Z;
  application_id : Z;
  hop_by_hop : Z;
  end_to_end : Z;
  dh_flags : Z
}.
#[export] Instance DiameterHeader_eta : Eta DiameterHeader := fun h =>
  mkDiameterHeader (avps h) (msg_length h) (command_code h) (application_id h) (hop_by_hop h)
    (end_to_end h) (dh_flags h).
Definition DiameterHeader_init : DiameterHeader := mkDiameterHeader [] 0 0 0 0 0 0.

Definition request (h : DiameterHeader) : bool := negb (Z.land (dh_flags h) 0x80 =? 0).
Definition proxiable (h : DiameterHeader) : bool := negb (Z.land (dh_flags h) 0x40 =? 0).
Definition error (h : DiameterHeader) : bool := negb (Z.land (dh_flags h) 0x20 =? 0).
Definition retransmit (h : DiameterHeader) : bool := negb (Z.land (dh_flags h) 0x10 =? 0).
Definition is_credit_control (h : DiameterHeader) : bool :=
  command_code h =? DiameterCommand.kCreditControl.

Record Avp := mkAvp {
  data : Bytes;
  code : Z;
  vendor_id : Z;
  avp_length : Z;
  avp_flags : Z
}.
#[export] Instance Avp_eta : Eta Avp := fun a =>
  mkAvp (data a) (code a) (vendor_id a) (avp_length a) (avp_flags a).
Definition Avp_init : Avp := mkAvp [] 0 0 0 0.

Definition vendor_specific (a : Avp) : bool := negb (Z.land (avp_flags a) 0x80 =? 0).
Definition mandatory (a : Avp) : bool := negb (Z.land (avp_flags a) 0x40 =? 0).
Definition protectedf (a : Avp) : bool := negb (Z.land (avp_flags a) 0x20 =? 0).

(** One Multiple-Services-Credit-Control block. *)
Record MsccInfo := mkMsccInfo {
  used_input_octets : Z;
  used_output_octets : Z;
  used_total_octets : Z;
  granted_total_octets : Z;
  rating_group : Z;
  service_identifier : Z;
  has_rating_group : bool;
  has_service_identifier : bool;
  has_used : bool;
  has_granted : bool
}.
#[export] Instance MsccInfo_eta : Eta MsccInfo := fun m =>
  mkMsccInfo (used_input_octets m) (used_output_octets m) (used_total_octets m)
    (granted_total_octets m) (rating_group m) (service_identifier m) (has_rating_group m)
    (has_service_identifier m) (has_used m) (has_granted m).
Definition MsccInfo_init : MsccInfo := mkMsccInfo 0 0 0 0 0 0 false false false false.

Record GyMessage := mkGyMessage {
  session_id : Bytes;
  origin_host : Bytes;
  origin_realm : Bytes;
  msisdn : Bytes;
  mscc : list MsccInfo;
  imsi : Z;
  cc_request_type : Z;
  cc_request_number : Z;
  result_code : Z;
  mscc_count : Z;
  is_request : bool;
  has_imsi : bool;
  has_result_code : bool;
  mscc_overflow : bool
}.
#[export] Instance GyMessage_eta : Eta GyMessage := fun g =>
  mkGyMessage (session_id g) (origin_host g) (origin_realm g) (msisdn g) (mscc g) (imsi g)
    (cc_request_type g) (cc_request_number g) (result_code g) (mscc_count g) (is_request g)
    (has_imsi g) (has_result_code g) (mscc_overflow g).
Definition GyMessage_init : GyMessage :=
  mkGyMessage [] [] [] [] (replicate (Z.to_nat kMaxMsccPerMessage) MsccInfo_init)
    0 0 0 0 0 false false false false.

Section Parser.
Context {HE : HostEndian}.

(** The accessors return the flag and the out-parameter. *)
Definition as_u32 (a : Avp) (out : Z) : res (bool * Z) :=
  if negb (size (data a) =? 4) then Ok (false, out) else
  let* v := load_be32 (data a) 0 in Ok (true, v).

(** [static_cast<int32_t>] of an unsigned value. *)
Definition to_i32 (v : Z) : Z := if v <? 2 ^ 31 then v else v - 2 ^ 32.

Definition as_i32 (a : Avp) (out : Z) : res (bool * Z) :=
  let* (ok, v) := as_u32 a 0 in
  if negb ok then Ok (false, out) else Ok (true, to_i32 v).

Definition as_u64 (a : Avp) (out : Z) : res (bool * Z) :=
  if size (data a) =? 8 then let* v := load_be64 (data a) 0 in Ok (true, v) else
  if size (data a) =? 4 then let* v := load_be32 (data a) 0 in Ok (true, v) else
  Ok (false, out).

Definition as_string (a : Avp) : Bytes := data a.

Definition parse_diameter_header (buf : Bytes) : res (DiameterStatus.t * DiameterHeader) :=
  let out := DiameterHeader_init in
  if size buf <? kDiameterHeaderLen then Ok (DiameterStatus.kTruncated, out) else
  let* b0 := rd buf 0 in
  if negb (b0 =? 1) then Ok (DiameterStatus.kBadVersion, out) else
  let* len := load_be24 buf 1 in
  if (len <? kDiameterHeaderLen) || (kDiameterMaxMsgLen <? len)
  then Ok (DiameterStatus.kBadLength, out) else
  if negb (Z.land len 3 =? 0) then Ok (DiameterStatus.kBadLength, out) else
  if size buf <? len then Ok (DiameterStatus.kTruncated, out) else
  let out := out <| msg_length := len |> in
  let* fl := rd buf 4 in
  let out := out <| dh_flags := fl |> in
  let* cc := load_be24 buf 5 in
  let out := out <| command_code := cc |> in
  let* app := load_be32 buf 8 in
  let out := out <| application_id := app |> in
  let* hbh := load_be32 buf 12 in
  let out := out <| hop_by_hop := hbh |> in
  let* e2e := load_be32 buf 16 in
  let out := out <| end_to_end := e2e |> in
  let* a := subspan buf kDiameterHeaderLen (sub64 len kDiameterHeaderLen) in
  Ok (DiameterStatus.kOk, out <| avps := a |>).

(** The [while (off < area.size())] loop. *)
Fixpoint avp_loop {S : Type} (fuel : nat) (area : Bytes) (fn : Avp -> Z -> S -> res (bool * S))
    (depth off : Z) (s : S) : res (DiameterStatus.t * S) :=
  match fuel with
  | O => Fuel
  | Datatypes.S fuel =>
    if negb (off <? size area) then Ok (DiameterStatus.kOk, s) else
    if sub64 (size area) off <? 8 then Ok (DiameterStatus.kBadAvp, s) else
    let avp := Avp_init in
    let* c := load_be32 area off in
    let avp := avp <| code := c |> in
    let* fl := rd area (off + 4) in
    let avp := avp <| avp_flags := fl |> in
    let* l := load_be24 area (off + 5) in
    let avp := avp <| avp_length := l |> in
    let hdr := if vendor_specific avp then 12 else 8 in
    if l <? hdr then Ok (DiameterStatus.kBadAvp, s) else
    if sub64 (size area) off <? l then Ok (DiameterStatus.kBadAvp, s) else
    let* avp :=
      (if vendor_specific avp
       then let* v := load_be32 area (off + 8) in Ok (avp <| vendor_id := v |>)
       else Ok avp) in
    let* d := subspan area (off + hdr) (sub64 l hdr) in
    let avp := avp <| data := d |> in
    let* (continue_, s) := fn avp depth s in
    if negb continue_ then Ok (DiameterStatus.kOk, s) else
    let advance := Z.land (u32 (l + 3)) (2 ^ 64 - 1 - 3) in
    if (advance =? 0) || (sub64 (size area) off <? advance) then Ok (DiameterStatus.kBadAvp, s) else
    avp_loop fuel area fn depth (off + advance) s
  end.

(** Every iteration consumes at least one byte: [length area] of them and one
    more test of the loop condition are enough (lemma [avp_loop_fold]). *)
Definition for_each_avp {S : Type} (area : Bytes) (fn : Avp -> Z -> S -> res (bool * S))
    (depth : Z) (s : S) : res (DiameterStatus.t * S) :=
  if kAvpMaxDepth <=? depth then Ok (DiameterStatus.kAvpTooDeep, s) else
  avp_loop (Datatypes.S (length area)) area fn depth 0 s.

Definition for_each_sub_avp {S : Type} (grouped : Avp) (fn : Avp -> Z -> S -> res (bool * S))
    (depth : Z) (s : S) : res (DiameterStatus.t * S) :=
  for_each_avp (data grouped) fn (depth + 1) s.

(** The digit loop of [pack_imsi]; [None] is its [return false]. *)
Fixpoint pack_digits (s : Bytes) (v : Z) : option Z :=
  match s with
  | [] => Some v
  | c :: s =>
    if (bval c <? 48) || (57 <? bval c) then None else
    pack_digits s (add64 (mul64 v 10) (bval c - 48))
  end.

Definition pack_imsi (s : Bytes) (out : Z) : bool * Z :=
  if (size s =? 0) || (19 <? size s) then (false, out) else
  match pack_digits s 0 with
  | None => (false, out)
  | Some v => (true, v)
  end.

Definition usu_fn (a : Avp) (depth : Z) (info : MsccInfo) : res (bool * MsccInfo) :=
  let* info :=
    (if code a =? AvpCode.kCcInputOctets then
       let* (_, v) := as_u64 a (used_input_octets info) in
       Ok (info <| used_input_octets := v |>)
     else if code a =? AvpCode.kCcOutputOctets then
       let* (_, v) := as_u64 a (used_output_octets info) in
       Ok (info <| used_output_octets := v |>)
     else if code a =? AvpCode.kCcTotalOctets then
       let* (_, v) := as_u64 a (used_total_octets info) in
       Ok (info <| used_total_octets := v |>)
     else Ok info) in
  Ok (true, info).

Definition parse_used_service_unit (usu : Avp) (info : MsccInfo) (depth : Z) : res MsccInfo :=
  let info := info <| has_used := true |> in
  let* (_, info) := for_each_sub_avp usu usu_fn depth info in
  Ok (if used_total_octets info =? 0
      then info <| used_total_octets := add64 (used_input_octets info) (used_output_octets info) |>
      else info).

Definition granted_fn (g : Avp) (depth : Z) (info : MsccInfo) : res (bool * MsccInfo) :=
  let* info :=
    (if code g =? AvpCode.kCcTotalOctets then
       let* (_, v) := as_u64 g (granted_total_octets info) in
       Ok (info <| granted_total_octets := v |>)
     else Ok info) in
  Ok (true, info).

(** The callback of [parse_mscc]; [depth] is the captured one. *)
Definition mscc_fn (depth : Z) (a : Avp) (_ : Z) (info : MsccInfo) : res (bool * MsccInfo) :=
  let* info :=
    (if code a =? AvpCode.kRatingGroup then
       let* (ok, v) := as_u32 a (rating_group info) in
       Ok (info <| rating_group := v |> <| has_rating_group := ok |>)
     else if code a =? AvpCode.kServiceIdentifier then
       let* (ok, v) := as_u32 a (service_identifier info) in
       Ok (info <| service_identifier := v |> <| has_service_identifier := ok |>)
     else if code a =? AvpCode.kUsedServiceUnit then
       parse_used_service_unit a info (depth + 1)
     else if code a =? AvpCode.kGrantedServiceUnit then
       let info := info <| has_granted := true |> in
       let* (_, info) := for_each_sub_avp a granted_fn (depth + 2) info in
       Ok info
     else Ok info) in
  Ok (true, info).

Definition parse_mscc (mscc_avp : Avp) (info : MsccInfo) (depth : Z) : res MsccInfo :=
  let* (_, info) := for_each_sub_avp mscc_avp (mscc_fn depth) depth info in
  Ok info.

Definition subscription_fn (a : Avp) (depth : Z) (s : Z * Bytes) : res (bool * (Z * Bytes)) :=
  let '(type, d) := s in
  if code a =? AvpCode.kSubscriptionIdType then
    let* (_, v) := as_u32 a type in Ok (true, (v, d))
  else if code a =? AvpCode.kSubscriptionIdData then Ok (true, (type, as_string a))
  else Ok (true, (type, d)).

Definition parse_subscription_id (sub : Avp) (out : GyMessage) (depth : Z) : res GyMessage :=
  let* (_, (type, d)) := for_each_sub_avp sub subscription_fn depth (0xFFFFFFFF, []) in
  Ok (if type =? SubscriptionIdType.kImsi then
        let '(ok, v) := pack_imsi d (imsi out) in out <| imsi := v |> <| has_imsi := ok |>
      else if type =? SubscriptionIdType.kE164 then out <| msisdn := d |>
      else out).

(** The callback of [parse_gy]. *)
Definition gy_fn (a : Avp) (depth : Z) (out : GyMessage) : res (bool * GyMessage) :=
  let* out :=
    (if code a =? AvpCode.kSessionId then Ok (out <| session_id := as_string a |>)
     else if code a =? AvpCode.kOriginHost then Ok (out <| origin_host := as_string a |>)
     else if code a =? AvpCode.kOriginRealm then Ok (out <| origin_realm := as_string a |>)
     else if code a =? AvpCode.kCcRequestType then
       let* (_, v) := as_u32 a (cc_request_type out) in Ok (out <| cc_request_type := v |>)
     else if code a =? AvpCode.kCcRequestNumber then
       let* (_, v) := as_u32 a (cc_request_number out) in Ok (out <| cc_request_number := v |>)
     else if code a =? AvpCode.kResultCode then
       let* (ok, v) := as_u32 a (result_code out) in
       Ok (out <| result_code := v |> <| has_result_code := ok |>)
     else if code a =? AvpCode.kSubscriptionId then parse_subscription_id a out depth
     else if code a =? AvpCode.kMultipleServicesCreditControl then
       if mscc_count out <? size (mscc out) then
         let* info := at_ (mscc out) (mscc_count out) in
         let* info := parse_mscc a info depth in
         Ok (out <| mscc ::= <[Z.to_nat (mscc_count out) := info]> |>
                 <| mscc_count ::= fun n => add64 n 1 |>)
       else Ok (out <| mscc_overflow := true |>)
     else Ok out) in
  Ok (true, out).

Definition parse_gy (hdr : DiameterHeader) : res (DiameterStatus.t * GyMessage) :=
  let out := GyMessage_init <| is_request := request hdr |> in
  for_each_avp (avps hdr) gy_fn 0 out.

Definition parse_diameter_gy (buf : Bytes) (gy : GyMessage)
  : res (DiameterStatus.t * DiameterHeader * GyMessage) :=
  let* (st, hdr) := parse_diameter_header buf in
  if negb (bool_decide (st = DiameterStatus.kOk)) then Ok (st, hdr, gy) else
  if negb (is_credit_control hdr) then Ok (DiameterStatus.kOk, hdr, gy) else
  let* (st, gy) := parse_gy hdr in
  Ok (st, hdr, gy).

End Parser.

(** ** The AVP at an offset, read off the wire *)

Definition avp_hdr (area : Bytes) (off : Z) : Z :=
  if negb (Z.land (byte_at area (off + 4)) 0x80 =? 0) then 12 else 8.
Definition avp_len (area : Bytes) (off : Z) : Z := be24_at area (off + 5).
Definition avp_at (area : Bytes) (off : Z) : Avp :=
  mkAvp (slice (off + avp_hdr area off) (avp_len area off - avp_hdr area off) area)
    (be32_at area off)
    (if negb (Z.land (byte_at area (off + 4)) 0x80 =? 0) then be32_at area (off + 8) else 0)
    (avp_len area off) (byte_at area (off + 4)).
Definition avp_fits (area : Bytes) (off : Z) : bool :=
  (8 <=? size area - off) && (avp_hdr area off <=? avp_len area off)
  && (avp_len area off <=? size area - off).

(** An AVP length rounded up to a multiple of four. *)
Definition pad4 (l : Z) : Z := (l + 3) / 4 * 4.

Lemma pad4_bounds l : l <= pad4 l <= l + 3.
Proof. unfold pad4. Z.div_mod_to_equations. lia. Qed.

Lemma land_pad4 l : 0 <= l < 2 ^ 24 -> Z.land (u32 (l + 3)) (2 ^ 64 - 1 - 3) = pad4 l.
Proof.
  intros Hl. rewrite u32_small by lia. unfold pad4.
  change (2 ^ 64 - 1 - 3) with (Z.shiftl (Z.ones 62) 2).
  rewrite <- Z.shiftl_mul_pow2 with (n := 2), <- Z.shiftr_div_pow2 with (n := 2) by lia.
  apply Z.bits_inj'. intros n Hn. rewrite Z.land_spec, !Z.shiftl_spec by lia.
  destruct (Z.lt_ge_cases n 2).
  { rewrite !(Z.testbit_neg_r _ (n - 2)) by lia. apply andb_false_r. }
  rewrite Z.shiftr_spec by lia. replace (n - 2 + 2) with n by lia.
  rewrite Z.testbit_ones_nonneg by lia. destruct (Z.ltb_spec (n - 2) 62); [apply andb_true_r|].
  rewrite andb_false_r. symmetry. apply Z.testbit_false; [lia|].
  rewrite Z.div_small; [reflexivity|]. pose proof (Z.pow_le_mono_r 2 64 n). lia.
Qed.

Lemma avp_len_range area off : 0 <= avp_len area off < 2 ^ 24.
Proof. apply be24_at_range. Qed.

Lemma avp_fits_inv area off : avp_fits area off = true ->
  8 <= avp_hdr area off <= 12 /\ off + avp_len area off <= size area /\
  avp_hdr area off <= avp_len area off.
Proof.
  unfold avp_fits. intros H. bool_to_prop. unfold avp_hdr in *. split; [case_if; lia|lia].
Qed.

(** All AVPs a walk decodes: the callback that collects them. *)
Definition collect (a : Avp) (_ : Z) (l : list Avp) : res (bool * list Avp) := Ok (true, l ++ [a]).

(** The calls of the callback on a list of AVPs, stopping where it says so. *)
Fixpoint fold_avps {S} (fn : Avp -> Z -> S -> res (bool * S)) (depth : Z) (l : list Avp) (s : S)
  : res (bool * S) :=
  match l with
  | [] => Ok (true, s)
  | a :: l =>
      let* (c, s) := fn a depth s in
      if negb c then Ok (false, s) else fold_avps fn depth l s
  end.

Section Walk.
Context {HE : HostEndian}.

Lemma avp_loop_step {S} (fn : Avp -> Z -> S -> res (bool * S)) fuel area depth off s :
  0 <= off -> size area < 2 ^ 64 ->
  avp_loop (Datatypes.S fuel) area fn depth off s =
    if size area <=? off then Ok (DiameterStatus.kOk, s) else
    if negb (avp_fits area off) then Ok (DiameterStatus.kBadAvp, s) else
    let* (c, s) := fn (avp_at area off) depth s in
    if negb c then Ok (DiameterStatus.kOk, s) else
    if size area - off <? pad4 (avp_len area off) then Ok (DiameterStatus.kBadAvp, s) else
    avp_loop fuel area fn depth (off + pad4 (avp_len area off)) s.
Proof.
  intros Ho Hs. cbn [avp_loop]. rewrite Z.leb_antisym.
  destruct (Z.ltb_spec off (size area)); cbn [negb]; [|done].
  rewrite sub64_small by lia. unfold avp_fits. destruct (Z.leb_spec 8 (size area - off)).
  2: { rewrite (proj2 (Z.ltb_lt _ 8)) by lia. done. }
  rewrite (proj2 (Z.ltb_ge _ 8)) by lia. cbn [andb].
  rewrite (load_be32_Ok area off) by lia. cbn [res_bind].
  rewrite (rd_Ok area (off + 4)) by lia. cbn [res_bind].
  rewrite (load_be24_Ok area (off + 5)) by lia. cbn [res_bind].
  fold (avp_len area off). pose proof (avp_len_range area off) as Hl.
  unfold vendor_specific, setf. cbn [avp_flags Avp_init].
  fold (avp_hdr area off). rewrite (Z.ltb_antisym (avp_hdr area off)).
  destruct (Z.leb_spec (avp_hdr area off) (avp_len area off)); cbn [negb andb]; [|done].
  rewrite (Z.ltb_antisym (avp_len area off)).
  destruct (Z.leb_spec (avp_len area off) (size area - off)); cbn [negb]; [|done].
  assert (8 <= avp_hdr area off) by (unfold avp_hdr; case_if; lia).
  rewrite land_pad4 by lia. pose proof (pad4_bounds (avp_len area off)).
  rewrite (proj2 (Z.eqb_neq _ 0)) by lia. cbn [orb].
  rewrite sub64_small by lia. unfold avp_at. unfold avp_hdr in *.
  destruct (negb (Z.land (byte_at area (off + 4)) 128 =? 0)).
  - rewrite (load_be32_Ok area (off + 8)) by lia. cbn [res_bind].
    rewrite subspan_Ok by lia. reflexivity.
  - cbn [res_bind]. rewrite subspan_Ok by lia. reflexivity.
Qed.

(** What a walk decodes does not depend on the callback: the walk is the fold
    of the callback over the collected AVPs, with the status of the walk
    unless the callback stopped it. *)
Lemma avp_loop_fold {S} (fn : Avp -> Z -> S -> res (bool * S)) area depth : size area < 2 ^ 64 ->
  forall fuel off, 0 <= off <= size area -> size area < off + Z.of_nat fuel ->
  exists st l, (forall d l0, avp_loop fuel area collect d off l0 = Ok (st, l0 ++ l)) /\
    (st = DiameterStatus.kOk \/ st = DiameterStatus.kBadAvp) /\
    (forall s, avp_loop fuel area fn depth off s =
      let* (c, s') := fold_avps fn depth l s in
      Ok (if (c : bool) then st else DiameterStatus.kOk, s')).
Proof.
  intros Hs. induction fuel as [|fuel IH]; intros off Ho Hf; [lia|].
  pose proof (fun T (g : Avp -> Z -> T -> res (bool * T)) d =>
    avp_loop_step g fuel area d off) as Hstep.
  destruct (Z.leb_spec (size area) off) as [Hend|Hend].
  { exists DiameterStatus.kOk, []. split_and!; [intros d l0|by left|intros s]; rewrite Hstep by lia;
      rewrite ?app_nil_r; done. }
  destruct (avp_fits area off) eqn:Hfit; cbn [negb] in Hstep.
  2: { exists DiameterStatus.kBadAvp, []. split_and!; [intros d l0|by right|intros s];
      rewrite Hstep by lia; rewrite ?app_nil_r; done. }
  apply avp_fits_inv in Hfit as (? & ? & ?).
  pose proof (pad4_bounds (avp_len area off)).
  destruct (Z.ltb_spec (size area - off) (pad4 (avp_len area off))).
  - exists DiameterStatus.kBadAvp, [avp_at area off].
    split_and!; [intros d l0|by right|intros s]; rewrite Hstep by lia; [done|].
    cbn [fold_avps]. destruct (fn _ depth s) as [[c s']| |]; cbn [res_bind]; [|done..].
    by destruct c.
  - destruct (IH (off + pad4 (avp_len area off))) as (st & l & Hc & Hst & Hl); [lia|lia|].
    exists st, (avp_at area off :: l).
    split_and!; [intros d l0|done|intros s]; rewrite Hstep by lia.
    + cbn [collect res_bind negb]. rewrite Hc. by rewrite <- app_assoc.
    + cbn [fold_avps]. destruct (fn _ depth s) as [[c s']| |]; cbn [res_bind]; [|done..].
      destruct c; cbn [negb]; [apply Hl|done].
Qed.

(** The decoded AVP list of an area, with the status of its walk. *)
Definition decode_avps (area : Bytes) : res (DiameterStatus.t * list Avp) :=
  for_each_avp area collect 0 [].

Lemma for_each_avp_fold {S} (fn : Avp -> Z -> S -> res (bool * S)) area depth s :
  size area < 2 ^ 64 -> depth < kAvpMaxDepth ->
  exists st l, decode_avps area = Ok (st, l) /\
    (st = DiameterStatus.kOk \/ st = DiameterStatus.kBadAvp) /\
    for_each_avp area fn depth s =
      let* (c, s') := fold_avps fn depth l s in
      Ok (if (c : bool) then st else DiameterStatus.kOk, s').
Proof.
  intros Hs Hd. pose proof (size_nonneg area).
  destruct (avp_loop_fold fn area depth Hs (Datatypes.S (length area)) 0) as (st & l & Hc & Hst & Hl);
    [lia|unfold size; lia|].
  exists st, l. unfold decode_avps, for_each_avp. rewrite (proj2 (Z.leb_gt kAvpMaxDepth depth)) by done.
  split_and!; [|done|apply Hl]. rewrite (proj2 (Z.leb_gt kAvpMaxDepth 0)) by (unfold kAvpMaxDepth; lia).
  apply Hc.
Qed.

(** Every decoded value is a view of the area. *)
Lemma avp_loop_views area : size area < 2 ^ 64 -> forall fuel off l0 st l,
  0 <= off -> avp_loop fuel area collect 0 off l0 = Ok (st, l) ->
  Forall (fun a => view_of area (data a)) l0 -> Forall (fun a => view_of area (data a)) l.
Proof.
  intros Hs. induction fuel as [|fuel IH]; intros off l0 st l Ho H Hl0; [done|].
  rewrite avp_loop_step in H by lia. case_if_in H; [by injection H as <- <-|].
  case_if_in H; [by injection H as <- <-|]. apply avp_fits_inv in Hif0 as (? & ? & ?).
  assert (Forall (fun a => view_of area (data a)) (l0 ++ [avp_at area off])) as Hl1.
  { apply Forall_app. split; [done|]. constructor; [|constructor]. apply view_of_slice; lia. }
  cbn [collect res_bind negb] in H. case_if_in H; [by injection H as <- <-|].
  pose proof (pad4_bounds (avp_len area off)). eapply IH; [|exact H|done]. lia.
Qed.

(** Invariant rule for a walk: the callback keeps [P] on every decoded AVP. *)
Lemma fold_avps_inv {S} (fn : Avp -> Z -> S -> res (bool * S)) depth (P : S -> Prop) l s :
  (forall a s, In a l -> P s -> ensures (fn a depth s) (fun r => P r.2)) -> P s ->
  ensures (fold_avps fn depth l s) (fun r => P r.2).
Proof.
  revert s. induction l as [|a l IH]; intros s Hfn Hs; cbn [fold_avps]; [by apply ensures_Ok|].
  eapply ensures_bind; [apply Hfn; [by left|done]|]. intros [c s'] Hs'. cbn in Hs'.
  destruct c; cbn [negb]; [|by apply ensures_Ok]. apply IH; [|done].
  intros b t Hb. apply Hfn. by right.
Qed.

Lemma for_each_avp_inv {S} (fn : Avp -> Z -> S -> res (bool * S)) area depth (P : S -> Prop) s :
  size area < 2 ^ 64 ->
  (forall a s, view_of area (data a) -> P s -> ensures (fn a depth s) (fun r => P r.2)) -> P s ->
  ensures (for_each_avp area fn depth s) (fun r => P r.2).
Proof.
  intros Hs Hfn HP. destruct (Z.lt_ge_cases depth kAvpMaxDepth) as [Hd|Hd].
  2: { unfold for_each_avp. rewrite (proj2 (Z.leb_le _ _)) by done. by apply ensures_Ok. }
  destruct (for_each_avp_fold fn area depth s Hs Hd) as (st & l & Hdec & _ & ->).
  assert (Forall (fun a => view_of area (data a)) l) as Hv.
  { eapply (avp_loop_views area Hs); [|exact Hdec|constructor]. lia. }
  rewrite Forall_forall in Hv.
  eapply ensures_bind; [apply (fold_avps_inv _ _ P); auto|]. intros [c s'] ?. by apply ensures_Ok.
Qed.
End Walk.

(** ** Gy extraction *)

Section Gy.
Context {HE : HostEndian}.

Lemma as_u32_returns a out : returns (as_u32 a out).
Proof.
  unfold as_u32. case_if; [apply returns_Ok|]. load_step. apply returns_Ok.
Qed.

Lemma as_u64_returns a out : returns (as_u64 a out).
Proof.
  unfold as_u64. case_if; [load_step; apply returns_Ok|].
  case_if; [load_step; apply returns_Ok|]. apply returns_Ok.
Qed.

Lemma returns_ensures {A} (m : res A) : returns m -> ensures m (fun _ => True).
Proof. intros [a ->]. by apply ensures_Ok. Qed.

Ltac accessor :=
  match goal with
  | |- context [as_u32 ?a ?o] =>
      destruct (as_u32_returns a o) as [[? ?] ->]; cbn [res_bind]
  | |- context [as_u64 ?a ?o] =>
      destruct (as_u64_returns a o) as [[? ?] ->]; cbn [res_bind]
  end.

Lemma usu_fn_returns a d info : ensures (usu_fn a d info) (fun _ => True).
Proof. unfold usu_fn. repeat case_if; try accessor; by apply ensures_Ok. Qed.

Lemma granted_fn_returns a d info : ensures (granted_fn a d info) (fun _ => True).
Proof. unfold granted_fn. repeat case_if; try accessor; by apply ensures_Ok. Qed.

Lemma subscription_fn_returns a d s : ensures (subscription_fn a d s) (fun _ => True).
Proof. unfold subscription_fn. destruct s. repeat case_if; try accessor; by apply ensures_Ok. Qed.

Lemma sub_walk_returns {S} (fn : Avp -> Z -> S -> res (bool * S)) a depth s :
  size (data a) < 2 ^ 64 ->
  (forall b t, size (data b) < 2 ^ 64 -> ensures (fn b (depth + 1) t) (fun _ => True)) ->
  ensures (for_each_sub_avp a fn depth s) (fun _ => True).
Proof.
  intros Hs Hfn. unfold for_each_sub_avp.
  apply (for_each_avp_inv fn _ _ (fun _ => True)); [done| |done].
  intros b t Hv _. apply Hfn. apply view_of_size in Hv. lia.
Qed.

Lemma mscc_fn_returns depth a d info :
  size (data a) < 2 ^ 64 -> ensures (mscc_fn depth a d info) (fun _ => True).
Proof.
  intros Hs. unfold mscc_fn, parse_used_service_unit.
  repeat case_if; try (accessor; by apply ensures_Ok); try by apply ensures_Ok.
  - destruct (sub_walk_returns usu_fn a (depth + 1) (info <| has_used := true |>) Hs)
      as ([? ?] & -> & _); [intros; apply usu_fn_returns|]. by apply ensures_Ok.
  - destruct (sub_walk_returns granted_fn a (depth + 2) (info <| has_granted := true |>) Hs)
      as ([? ?] & -> & _); [intros; apply granted_fn_returns|]. by apply ensures_Ok.
Qed.

Lemma parse_mscc_returns a info depth :
  size (data a) < 2 ^ 64 -> returns (parse_mscc a info depth).
Proof.
  intros Hs. unfold parse_mscc.
  destruct (sub_walk_returns (mscc_fn depth) a depth info Hs) as ([? ?] & -> & _);
    [intros; by apply mscc_fn_returns|]. apply returns_Ok.
Qed.

Lemma parse_subscription_id_spec a out depth : size (data a) < 2 ^ 64 ->
  ensures (parse_subscription_id a out depth) (fun g =>
    mscc g = mscc out /\ mscc_count g = mscc_count out /\ mscc_overflow g = mscc_overflow out).
Proof.
  intros Hs. unfold parse_subscription_id.
  destruct (sub_walk_returns subscription_fn a depth (0xFFFFFFFF, []) Hs) as ([? [t d]] & -> & _);
    [intros; apply subscription_fn_returns|].
  cbn [res_bind]. destruct (pack_imsi d (imsi out)). apply ensures_Ok. by repeat case_if.
Qed.

(** The number of MSCC blocks among decoded AVPs. *)
Definition is_mscc (a : Avp) : bool := code a =? AvpCode.kMultipleServicesCreditControl.
Definition count_mscc (l : list Avp) : Z := size (List.filter is_mscc l).

(** [n] MSCC blocks have been seen. *)
Definition gy_inv (n : Z) (g : GyMessage) : Prop :=
  size (mscc g) = kMaxMsccPerMessage /\ mscc_count g = Z.min n kMaxMsccPerMessage /\
  mscc_overflow g = (kMaxMsccPerMessage <? n).

(** Two different literal codes. *)
Ltac other_code :=
  intros E; match goal with H : code _ = _ |- _ => rewrite E in H; discriminate H end.

Lemma gy_fn_spec n a depth g : 0 <= n -> size (data a) < 2 ^ 64 -> gy_inv n g ->
  ensures (gy_fn a depth g) (fun r => r.1 = true /\
    gy_inv (if is_mscc a then n + 1 else n) r.2).
Proof.
  intros Hn Hs (H1 & H2 & H3). unfold gy_fn, is_mscc, kMaxMsccPerMessage in *.
  assert (forall g' : GyMessage, mscc g' = mscc g -> mscc_count g' = mscc_count g ->
    mscc_overflow g' = mscc_overflow g ->
    code a <> AvpCode.kMultipleServicesCreditControl ->
    ensures (Ok (true, g')) (fun r => r.1 = true /\
      gy_inv (if code a =? AvpCode.kMultipleServicesCreditControl then n + 1 else n) r.2)) as Hsame.
  { intros g' E1 E2 E3 Hc. apply ensures_Ok. split; [done|].
    rewrite (proj2 (Z.eqb_neq _ _) Hc). unfold gy_inv, kMaxMsccPerMessage. cbn [snd].
    rewrite E1, E2, E3. auto. }
  do 6 (case_if; [try accessor; apply Hsame; [done..|other_code]|]).
  case_if.
  { destruct (parse_subscription_id_spec a g depth Hs) as (g' & -> & ? & ? & ?).
    apply Hsame; [done..|other_code]. }
  case_if; [|apply Hsame; done].
  rewrite H1. case_if.
  - destruct (at_Ok (mscc g) (mscc_count g)) as [info ->]; [lia|]. cbn [res_bind].
    destruct (parse_mscc_returns a info depth Hs) as [info' ->]. cbn [res_bind].
    apply ensures_Ok. split; [done|]. unfold gy_inv, kMaxMsccPerMessage. cbn.
    rewrite size_insert. unfold add64. rewrite u64_small by lia.
    split_and!; [done|lia|]. rewrite H3. lia.
  - apply ensures_Ok. split; [done|]. unfold gy_inv, kMaxMsccPerMessage. cbn.
    split_and!; [done|lia|]. symmetry. apply Z.ltb_lt. lia.
Qed.

Lemma fold_gy depth : forall l n g, 0 <= n -> Forall (fun a => size (data a) < 2 ^ 64) l ->
  gy_inv n g -> ensures (fold_avps gy_fn depth l g) (fun r => r.1 = true /\
    gy_inv (n + count_mscc l) r.2).
Proof.
  induction l as [|a l IH]; intros n g Hn Hl Hg; cbn [fold_avps].
  { apply ensures_Ok. split; [done|]. unfold count_mscc, size. cbn. by rewrite Z.add_0_r. }
  apply Forall_cons_iff in Hl as [Ha Hl].
  destruct (gy_fn_spec n a depth g Hn Ha Hg) as ([c g'] & -> & Hc & Hg'). cbn in Hc, Hg'. subst c.
  cbn [res_bind negb]. eapply ensures_mono; [apply (IH (if is_mscc a then n + 1 else n)); auto|].
  { case_if; lia. }
  intros [c g''] [? Hinv]. split; [done|]. cbn [snd] in *. replace (n + count_mscc (a :: l))
    with ((if is_mscc a then n + 1 else n) + count_mscc l); [done|].
  unfold count_mscc. cbn [List.filter]. case_if; rewrite ?size_cons; lia.
Qed.

(** The Gy extraction of any AVP area: it returns, its status is the one of
    the AVP walk, and the MSCC bookkeeping counts the decoded blocks. *)
Lemma parse_gy_spec hdr : size (avps hdr) < 2 ^ 64 ->
  exists st l g, decode_avps (avps hdr) = Ok (st, l) /\ parse_gy hdr = Ok (st, g) /\
    (st = DiameterStatus.kOk \/ st = DiameterStatus.kBadAvp) /\ gy_inv (count_mscc l) g.
Proof.
  intros Hs. unfold parse_gy.
  destruct (for_each_avp_fold gy_fn (avps hdr) 0 (GyMessage_init <| is_request := request hdr |>) Hs)
    as (st & l & Hdec & Hst & ->); [done|].
  assert (Forall (fun a => size (data a) < 2 ^ 64) l) as Hl.
  { eapply (Forall_impl (P := fun a => view_of (avps hdr) (data a))).
    - intros a Hv%view_of_size. lia.
    - eapply (avp_loop_views (avps hdr) Hs); [|exact Hdec|constructor]. lia. }
  destruct (fold_gy 0 l 0 (GyMessage_init <| is_request := request hdr |>))
    as ([c g] & -> & Hc & Hg); [lia|done|done|].
  cbn in Hc, Hg. subst c. exists st, l, g. auto.
Qed.

Lemma parse_diameter_header_spec buf :
  ensures (parse_diameter_header buf) (fun r =>
    r.1 = DiameterStatus.kOk ->
    20 <= msg_length r.2 <= size buf /\ msg_length r.2 <= kDiameterMaxMsgLen /\
    msg_length r.2 mod 4 = 0 /\ byte_at buf 0 = 1 /\ msg_length r.2 = be24_at buf 1 /\
    dh_flags r.2 = byte_at buf 4 /\ command_code r.2 = be24_at buf 5 /\
    application_id r.2 = be32_at buf 8 /\ hop_by_hop r.2 = be32_at buf 12 /\
    end_to_end r.2 = be32_at buf 16 /\ avps r.2 = slice 20 (msg_length r.2 - 20) buf).
Proof.
  unfold parse_diameter_header, kDiameterHeaderLen, kDiameterMaxMsgLen.
  case_if; [by apply ensures_Ok|]. load_step. case_if; [by apply ensures_Ok|]. load_step.
  case_if; [by apply ensures_Ok|]. bool_to_prop.
  case_if; [by apply ensures_Ok|]. case_if; [by apply ensures_Ok|].
  do 5 load_step. rewrite sub64_small by lia. load_step. apply ensures_Ok. intros _. cbn.
  change 3 with (Z.ones 2) in Hif1. rewrite Z.land_ones in Hif1 by lia.
  split_and!; try done; lia.
Qed.
End Gy.

(** ** The wire grammar of an AVP area *)

Record WireAvp := mkWireAvp {
  w_code : Z;
  w_flags : Z;
  w_vendor : Z;
  w_data : Bytes;
  w_pad : Bytes
}.

Definition w_vbit (w : WireAvp) : bool := negb (Z.land (w_flags w) 0x80 =? 0).
Definition w_len (w : WireAvp) : Z := (if w_vbit w then 12 else 8) + size (w_data w).

Definition wf_wire (w : WireAvp) : Prop :=
  0 <= w_code w < 2 ^ 32 /\ 0 <= w_flags w < 256 /\ 0 <= w_vendor w < 2 ^ 32 /\
  (w_vbit w = false -> w_vendor w = 0) /\ w_len w < 2 ^ 24 /\
  size (w_pad w) = pad4 (w_len w) - w_len w.

Definition enc_avp (w : WireAvp) : Bytes :=
  be32_bytes (w_code w) ++ [to_byte (w_flags w)] ++ be24_bytes (w_len w) ++
  (if w_vbit w then be32_bytes (w_vendor w) else []) ++ w_data w ++ w_pad w.

Definition avp_of (w : WireAvp) : Avp :=
  mkAvp (w_data w) (w_code w) (w_vendor w) (w_len w) (w_flags w).

Definition enc_avps (ws : list WireAvp) : Bytes := concat (map enc_avp ws).

Lemma size_enc_avp w : wf_wire w -> size (enc_avp w) = pad4 (w_len w).
Proof.
  intros (_ & _ & _ & _ & _ & Hp). unfold enc_avp, w_len in *.
  autorewrite with span. rewrite Hp. destruct (w_vbit w); autorewrite with span; lia.
Qed.

Lemma w_len_nonneg w : 8 <= w_len w.
Proof. unfold w_len. pose proof (size_nonneg (w_data w)). case_if; lia. Qed.

(** The AVP at the start of a wire image is the encoded one. *)
Lemma avp_at_enc pre w post : wf_wire w ->
  let area := pre ++ enc_avp w ++ post in
  avp_at area (size pre) = avp_of w /\ avp_len area (size pre) = w_len w /\
  avp_fits area (size pre) = true.
Proof.
  intros Hw area. pose proof (size_enc_avp w Hw) as Hsz.
  destruct Hw as (Hc & Hf & Hv & Hv0 & Hl & Hp). pose proof (w_len_nonneg w).
  pose proof (pad4_bounds (w_len w)). pose proof (size_nonneg post).
  assert (size area = size pre + pad4 (w_len w) + size post) as Hs
    by (unfold area; rewrite !size_app; lia).
  assert (byte_at area (size pre + 4) = w_flags w) as Hfl.
  { unfold area, enc_avp. rewrite <- !app_assoc, app_assoc, byte_at_app_r
      by (rewrite size_app, size_be32_bytes; lia).
    rewrite size_app, size_be32_bytes. replace (_ - _) with 0 by lia.
    cbn [app]. rewrite byte_at_cons_0, bval_to_byte. by apply u8_small. }
  assert (be32_at area (size pre) = w_code w) as Hcode.
  { unfold area, enc_avp. rewrite <- !app_assoc, be32_at_image. by apply u32_small. }
  assert (avp_len area (size pre) = w_len w) as Hlen.
  { unfold avp_len, area, enc_avp.
    replace (size pre + 5) with (size (pre ++ be32_bytes (w_code w) ++ [to_byte (w_flags w)]))
      by (rewrite !size_app, size_be32_bytes; reflexivity).
    rewrite <- !app_assoc.
    rewrite (app_assoc (be32_bytes _)), (app_assoc pre), be24_at_image. rewrite Z.mod_small; lia. }
  assert (avp_hdr area (size pre) = w_len w - size (w_data w)) as Hh.
  { unfold avp_hdr, w_len. rewrite Hfl. fold (w_vbit w). case_if; lia. }
  split_and!; [|done|].
  - unfold avp_at, avp_of. rewrite Hlen, Hh, Hfl, Hcode. fold (w_vbit w).
    set (h := be32_bytes (w_code w) ++ [to_byte (w_flags w)] ++ be24_bytes (w_len w)).
    set (v := if w_vbit w then be32_bytes (w_vendor w) else []).
    assert (area = (pre ++ h) ++ v ++ w_data w ++ w_pad w ++ post) as Ha
      by (unfold area, enc_avp, h, v; by rewrite <- !app_assoc).
    assert (size (pre ++ h) = size pre + 8) as Hph by (unfold h; autorewrite with span; lia).
    f_equal.
    + replace (w_len w - (w_len w - size (w_data w))) with (size (w_data w)) by lia.
      replace (size pre + (w_len w - size (w_data w))) with (size ((pre ++ h) ++ v)).
      2: { rewrite (size_app (pre ++ h)), Hph. unfold v, w_len. case_if; autorewrite with span; lia. }
      rewrite Ha, (app_assoc (pre ++ h)). unfold slice, size. rewrite !Nat2Z.id.
      by rewrite drop_app_length, take_app_length.
    + destruct (w_vbit w) eqn:Hb; [|symmetry; auto].
      rewrite <- Hph, Ha. unfold v. rewrite be32_at_image. by apply u32_small.
  - unfold avp_fits. rewrite Hlen, Hh, !andb_true_iff, !Z.leb_le. pose proof (size_nonneg (w_data w)). lia.
Qed.

(** The wire AVP at an offset whose padded length fits. *)
Definition wire_at (area : Bytes) (off : Z) : WireAvp :=
  let a := avp_at area off in
  mkWireAvp (code a) (avp_flags a) (vendor_id a) (data a)
    (slice (off + avp_length a) (pad4 (avp_length a) - avp_length a) area).

Lemma wire_at_spec area off : 0 <= off -> avp_fits area off = true ->
  off + pad4 (avp_len area off) <= size area ->
  wf_wire (wire_at area off) /\ avp_of (wire_at area off) = avp_at area off /\
  drop (Z.to_nat off) area =
    enc_avp (wire_at area off) ++ drop (Z.to_nat (off + pad4 (avp_len area off))) area.
Proof.
  intros Ho Hf Hp. apply avp_fits_inv in Hf as (Hh & Hl & Hhl).
  pose proof (pad4_bounds (avp_len area off)). pose proof (avp_len_range area off).
  assert (w_len (wire_at area off) = avp_len area off) as Hw.
  { unfold w_len, w_vbit, wire_at. cbn. rewrite size_slice by lia. unfold avp_hdr. case_if; lia. }
  pose proof (be32_at_range area off). pose proof (be32_at_range area (off + 8)).
  refine (conj _ (conj _ _)).
  - unfold wf_wire. rewrite Hw. unfold w_vbit. cbn.
    split_and!; try done; try lia; try apply byte_at_range; [case_if; lia..| |].
    + intros Hb. by rewrite Hb.
    + rewrite size_slice; lia.
  - unfold avp_of. by rewrite Hw.
  - unfold enc_avp. rewrite Hw. unfold w_vbit, wire_at. cbn [w_code w_flags w_vendor w_data w_pad
      avp_at code avp_flags vendor_id data avp_length].
    rewrite (drop_be32 area off), <- !app_assoc by lia. f_equal.
    rewrite (drop_1 area (off + 4)) by lia. cbn [app]. f_equal.
    replace (off + 4 + 1) with (off + 5) by lia. rewrite (drop_be24 area (off + 5)) by lia.
    fold (avp_len area off). f_equal. replace (off + 5 + 3) with (off + 8) by lia.
    transitivity ((if negb (Z.land (byte_at area (off + 4)) 128 =? 0)
       then be32_bytes (be32_at area (off + 8)) else []) ++ drop (Z.to_nat (off + avp_hdr area off)) area).
    { unfold avp_hdr in *. case_if; [|done]. rewrite (drop_be32 area (off + 8)) by lia.
      by replace (off + 8 + 4) with (off + 12) by lia. }
    f_equal; [by destruct (negb _)|].
    rewrite (drop_split area (off + avp_hdr area off) (avp_len area off - avp_hdr area off)) by lia.
    f_equal. replace (off + avp_hdr area off + (avp_len area off - avp_hdr area off))
      with (off + avp_len area off) by lia.
    rewrite (drop_split area _ (pad4 (avp_len area off) - avp_len area off)) by lia.
    f_equal. f_equal. lia.
Qed.

Section Grammar.
Context {HE : HostEndian}.

Lemma avp_loop_complete : forall ws fuel pre l0,
  Forall wf_wire ws -> size (pre ++ enc_avps ws) < 2 ^ 64 -> (length ws < fuel)%nat ->
  avp_loop fuel (pre ++ enc_avps ws) collect 0 (size pre) l0 =
    Ok (DiameterStatus.kOk, l0 ++ map avp_of ws).
Proof.
  induction ws as [|w ws IH]; intros fuel pre l0 Hwf Hs Hf; (destruct fuel as [|fuel]; [cbn in Hf; lia|]);
    pose proof (size_nonneg pre); rewrite avp_loop_step by done.
  { unfold enc_avps. cbn. rewrite !app_nil_r, (proj2 (Z.leb_le _ _)) by lia. done. }
  apply Forall_cons_iff in Hwf as [Hw Hwf].
  change (enc_avps (w :: ws)) with (enc_avp w ++ enc_avps ws) in *.
  destruct (avp_at_enc pre w (enc_avps ws) Hw) as (Ha & Hl & Hfit).
  rewrite Ha, Hl, Hfit. cbn [negb collect res_bind].
  pose proof (size_enc_avp w Hw) as Hsz. pose proof (size_nonneg (enc_avps ws)).
  pose proof (w_len_nonneg w). pose proof (pad4_bounds (w_len w)).
  rewrite (proj2 (Z.leb_gt _ _)), (proj2 (Z.ltb_ge _ _)) by (rewrite !size_app; lia).
  rewrite app_assoc in *. replace (size pre + pad4 (w_len w)) with (size (pre ++ enc_avp w))
    by (rewrite size_app; lia).
  rewrite IH by (done || (cbn in Hf; lia)). cbn [map]. by rewrite <- app_assoc.
Qed.

Lemma avp_loop_sound area : size area < 2 ^ 64 -> forall fuel off l0 l,
  0 <= off <= size area -> avp_loop fuel area collect 0 off l0 = Ok (DiameterStatus.kOk, l) ->
  exists ws, Forall wf_wire ws /\ drop (Z.to_nat off) area = enc_avps ws /\ l = l0 ++ map avp_of ws.
Proof.
  intros Hs. induction fuel as [|fuel IH]; intros off l0 l Ho H; [done|].
  rewrite avp_loop_step in H by lia. case_if_in H.
  { injection H as <-. exists []. cbn. rewrite app_nil_r. split_and!; [done| |done].
    apply drop_ge. unfold size in *. lia. }
  case_if_in H; [done|]. cbn [collect res_bind negb] in H. case_if_in H; [done|].
  pose proof (pad4_bounds (avp_len area off)). pose proof (avp_len_range area off).
  destruct (wire_at_spec area off) as (Hw & Hof & Hd); [lia|done|lia|].
  apply IH in H as (ws & Hws & Hd' & ->); [|lia]. exists (wire_at area off :: ws).
  split_and!; [by constructor| |].
  - rewrite Hd, Hd'. reflexivity.
  - cbn [map]. by rewrite Hof, <- app_assoc.
Qed.

Lemma length_enc_avps ws : Forall wf_wire ws -> (length ws <= length (enc_avps ws))%nat.
Proof.
  induction 1 as [|w ws Hw _ IH]; [done|].
  change (enc_avps (w :: ws)) with (enc_avp w ++ enc_avps ws). rewrite length_app. cbn [length].
  pose proof (size_enc_avp w Hw). pose proof (w_len_nonneg w). pose proof (pad4_bounds (w_len w)).
  unfold size in *. lia.
Qed.

Lemma decode_avps_complete ws : Forall wf_wire ws -> size (enc_avps ws) < 2 ^ 64 ->
  decode_avps (enc_avps ws) = Ok (DiameterStatus.kOk, map avp_of ws).
Proof.
  intros Hwf Hs. unfold decode_avps, for_each_avp. cbn [kAvpMaxDepth Z.leb Z.compare].
  apply (avp_loop_complete ws _ [] []); [done|done|]. pose proof (length_enc_avps ws Hwf). lia.
Qed.

(** Walking the wire image of AVPs is folding the callback over them. *)
Lemma for_each_avp_enc {S} (fn : Avp -> Z -> S -> res (bool * S)) ws depth s :
  Forall wf_wire ws -> size (enc_avps ws) < 2 ^ 64 -> depth < kAvpMaxDepth ->
  for_each_avp (enc_avps ws) fn depth s =
    let* (c, s') := fold_avps fn depth (map avp_of ws) s in Ok (DiameterStatus.kOk, s').
Proof.
  intros Hwf Hs Hd. destruct (for_each_avp_fold fn (enc_avps ws) depth s Hs Hd) as (st & l & Hdec & _ & ->).
  rewrite decode_avps_complete in Hdec by done. injection Hdec as <- <-.
  destruct (fold_avps _ _ _ _) as [[c s']| |]; cbn; [|done..]. by destruct c.
Qed.
End Grammar.

(** ** IMSI packing *)

Definition is_digit (c : byte) : Prop := 48 <= bval c <= 57.
(** The exact (unbounded) decimal value of a digit string. *)
Definition decimal (s : Bytes) : Z := foldl (fun v c => v * 10 + (bval c - 48)) 0 s.

Lemma foldl_decimal_bounds s : Forall is_digit s -> forall v, 0 <= v ->
  0 <= foldl (fun v c => v * 10 + (bval c - 48)) v s < (v + 1) * 10 ^ size s.
Proof.
  induction 1 as [|c s Hc _ IH]; intros v Hv; [cbn [foldl]; change (10 ^ size []) with 1; lia|].
  cbn [foldl]. unfold is_digit in Hc. rewrite size_cons, Z.pow_add_r by (pose proof (size_nonneg s); lia).
  specialize (IH (v * 10 + (bval c - 48)) ltac:(lia)).
  pose proof (Z.pow_pos_nonneg 10 (size s) ltac:(lia) (size_nonneg s)). nia.
Qed.

Lemma pack_digits_spec s : forall v, 0 <= v -> (v + 1) * 10 ^ size s <= 10 ^ 19 -> forall r,
  pack_digits s v = Some r <->
  Forall is_digit s /\ r = foldl (fun v c => v * 10 + (bval c - 48)) v s.
Proof.
  induction s as [|c s IH]; intros v Hv Hb r; cbn [pack_digits foldl].
  { split; [intros [= ->]; auto|]. intros [_ ->]. done. }
  rewrite size_cons, Z.pow_add_r in Hb by (pose proof (size_nonneg s); lia).
  pose proof (Z.pow_pos_nonneg 10 (size s) ltac:(lia) (size_nonneg s)) as Hp.
  case_if.
  { split; [done|]. intros [Hd _]. apply Forall_cons_iff in Hd as [Hd _]. unfold is_digit in Hd.
    apply orb_true_iff in Hif as [?%Z.ltb_lt|?%Z.ltb_lt]; lia. }
  bool_to_prop.
  assert (10 ^ 19 < 2 ^ 64) as H19 by reflexivity.
  assert ((v + 1) * 10 <= 10 ^ 19) as Hv10 by nia.
  assert (add64 (mul64 v 10) (bval c - 48) = v * 10 + (bval c - 48)) as ->.
  { unfold add64, mul64. rewrite (u64_small (v * 10)) by lia. apply u64_small. lia. }
  rewrite IH by nia. rewrite Forall_cons_iff.
  assert (is_digit c) by (unfold is_digit; lia). tauto.
Qed.

Section Properties.
Context {HE : HostEndian}.

(** Diameter decoding never goes wrong, on either host byte order: header
    and Gy extraction, all nested AVP walks included, return for every byte
    string (every walk ends, no read leaves the message); a message accepted
    with [kOk] has version 1, an aligned length of 20 bytes to 1 MiB that fits
    the buffer, the big-endian header fields of RFC 6733, and an AVP area that
    is exactly the announced length minus the header. *)
Lemma diameter_decode_sound buf gy :
  ensures (parse_diameter_gy buf gy) (fun '(st, hdr, gy') =>
    st = DiameterStatus.kOk ->
    20 <= msg_length hdr <= size buf /\ msg_length hdr <= 2 ^ 20 /\
    msg_length hdr mod 4 = 0 /\ byte_at buf 0 = 1 /\ msg_length hdr = be24_at buf 1 /\
    dh_flags hdr = byte_at buf 4 /\ command_code hdr = be24_at buf 5 /\
    application_id hdr = be32_at buf 8 /\ hop_by_hop hdr = be32_at buf 12 /\
    end_to_end hdr = be32_at buf 16 /\ avps hdr = slice 20 (msg_length hdr - 20) buf).
Proof.
  unfold parse_diameter_gy.
  eapply ensures_bind; [apply parse_diameter_header_spec|]. intros [st hdr] Hh. cbn [fst snd] in Hh.
  case_bool_decide as Hst; cbn [negb]; [|by apply ensures_Ok].
  specialize (Hh Hst). case_if; [by apply ensures_Ok|].
  destruct (parse_gy_spec hdr) as (st' & l & g & _ & -> & _).
  { destruct Hh as (? & ? & _ & _ & _ & _ & _ & _ & _ & _ & ->). unfold kDiameterMaxMsgLen in *.
    rewrite size_slice; lia. }
  by apply ensures_Ok.
Qed.

(** C28: The AVP walk recognises exactly the RFC 6733 grammar: it reports an
    area as well-formed and delivers the AVPs [l] if and only if the area is
    the concatenation of the wire images of [l], each with its 8- or 12-byte
    header, a 24-bit length that counts header and value, and the padding (any
    bytes) to the next multiple of four. *)
Theorem avp_area_grammar area l : size area < 2 ^ 64 ->
  decode_avps area = Ok (DiameterStatus.kOk, l) <->
  exists ws, Forall wf_wire ws /\ area = enc_avps ws /\ l = map avp_of ws.
Proof.
  intros Hs. split.
  - intros H. apply (avp_loop_sound area Hs) in H as (ws & ? & ? & ->);
      [|pose proof (size_nonneg area); lia]. exists ws. auto.
  - intros (ws & Hwf & -> & ->). by apply decode_avps_complete.
Qed.

(** What a walk delivers does not depend on the callback: for every
    callback (also one that fails or stops the walk), [for_each_avp] is the
    fold of the callback over the decoded AVP list, with the status of the
    decoding unless the callback stopped it; past the depth cap the callback
    is never called. *)
Theorem avp_walk_is_fold {S} (fn : Avp -> Z -> S -> res (bool * S)) area depth s :
  size area < 2 ^ 64 ->
  exists st l, decode_avps area = Ok (st, l) /\
    for_each_avp area fn depth s =
      if kAvpMaxDepth <=? depth then Ok (DiameterStatus.kAvpTooDeep, s) else
      let* (c, s') := fold_avps fn depth l s in
      Ok (if (c : bool) then st else DiameterStatus.kOk, s').
Proof.
  intros Hs. destruct (Z.leb_spec kAvpMaxDepth depth).
  - destruct (for_each_avp_fold (S := unit) (fun _ _ _ => Ok (true, tt)) area 0 tt Hs)
      as (st & l & Hdec & _); [done|]. exists st, l. split; [done|].
    unfold for_each_avp. by rewrite (proj2 (Z.leb_le _ _)) by done.
  - destruct (for_each_avp_fold fn area depth s Hs) as (st & l & Hdec & _ & ->); [done|].
    exists st, l. auto.
Qed.

(** The MSCC bookkeeping of a Credit-Control message is exact: extraction
    never fails on the message that the header accepts, its status is the
    status of the AVP walk (never "too deep"), it keeps the first 8 blocks and
    flags an overflow if and only if the message has more than 8. *)
Theorem gy_mscc_bookkeeping buf hdr :
  parse_diameter_header buf = Ok (DiameterStatus.kOk, hdr) ->
  exists st l g, decode_avps (avps hdr) = Ok (st, l) /\ parse_gy hdr = Ok (st, g) /\
    st <> DiameterStatus.kAvpTooDeep /\
    mscc_count g = Z.min (count_mscc l) 8 /\ mscc_overflow g = (8 <? count_mscc l) /\
    size (mscc g) = 8.
Proof.
  intros H. pose proof (ensures_inv _ _ _ (parse_diameter_header_spec buf) H eq_refl) as Hh.
  cbn [fst snd] in Hh. destruct Hh as (? & ? & _ & _ & _ & _ & _ & _ & _ & _ & Ha).
  destruct (parse_gy_spec hdr) as (st & l & g & ? & ? & Hst & Hi & Hc & Ho).
  { rewrite Ha. unfold kDiameterMaxMsgLen in *. rewrite size_slice; lia. }
  exists st, l, g. split_and!; auto. by destruct Hst; subst.
Qed.

(** IMSI packing is exact: [pack_imsi] accepts exactly the strings of 1 to
    19 ASCII digits, and the 64-bit result is their decimal value, which never
    overflows; otherwise the output is left as it was. *)
Theorem pack_imsi_exact s out :
  (forall v, pack_imsi s out = (true, v) <-> 1 <= size s <= 19 /\ Forall is_digit s /\ v = decimal s) /\
  (Forall is_digit s -> 1 <= size s <= 19 -> decimal s < 2 ^ 64) /\
  ((pack_imsi s out).1 = false -> (pack_imsi s out).2 = out).
Proof.
  pose proof (size_nonneg s) as Hs0. split_and!.
  - intros v. unfold pack_imsi. case_if.
    { split; [done|]. intros (? & _). apply orb_true_iff in Hif as [?%Z.eqb_eq|?%Z.ltb_lt]; lia. }
    bool_to_prop. assert ((0 + 1) * 10 ^ size s <= 10 ^ 19) as Hb.
    { rewrite Z.mul_1_l. apply Z.pow_le_mono_r; lia. }
    pose proof (pack_digits_spec s 0 ltac:(lia) Hb) as Hp. fold (decimal s) in Hp.
    destruct (pack_digits s 0) as [r|] eqn:E.
    + destruct (proj1 (Hp r) eq_refl) as [Hd ->]. split; [intros [= <-]; split_and!; auto; lia|].
      by intros (_ & _ & ->).
    + split; [done|]. intros (_ & Hd & _). discriminate (proj2 (Hp (decimal s)) (conj Hd eq_refl)).
  - intros Hd Hs. pose proof (foldl_decimal_bounds s Hd 0 ltac:(lia)) as Hb. fold (decimal s) in Hb.
    pose proof (Z.pow_le_mono_r 10 (size s) 19). assert (10 ^ 19 < 2 ^ 64) by reflexivity. lia.
  - unfold pack_imsi. case_if; [done|]. by destruct (pack_digits s 0).
Qed.
End Properties.

(** ** Witnesses: a CCR with a Session-Id, an IMSI and one MSCC block *)

Definition sample_avps : list WireAvp :=
  [ mkWireAvp AvpCode.kSessionId 0x40 0 [x61; x3b; x31] [x00];
    mkWireAvp AvpCode.kCcRequestType 0x40 0 (be32_bytes 2) [];
    mkWireAvp AvpCode.kSubscriptionId 0x40 0
      (enc_avps [ mkWireAvp AvpCode.kSubscriptionIdType 0x40 0 (be32_bytes 1) [];
                  mkWireAvp AvpCode.kSubscriptionIdData 0x40 0 [x30; x39; x37] [x00] ]) [];
    mkWireAvp AvpCode.kMultipleServicesCreditControl 0xC0 10415
      (enc_avps [ mkWireAvp AvpCode.kRatingGroup 0x40 0 (be32_bytes 100) [];
                  mkWireAvp AvpCode.kUsedServiceUnit 0x40 0
                    (enc_avps [ mkWireAvp AvpCode.kCcInputOctets 0x40 0 (be64_bytes 7) [];
                                mkWireAvp AvpCode.kCcOutputOctets 0x40 0 (be32_bytes 5) [] ]) [] ]) [] ].

Definition sample_area : Bytes := enc_avps sample_avps.
Definition sample_ccr : Bytes :=
  [x01] ++ be24_bytes (20 + size sample_area) ++ [xc0] ++ be24_bytes 272 ++
  be32_bytes 4 ++ be32_bytes 17 ++ be32_bytes 18 ++ sample_area.

Example sample_ccr_decodes :
  (let* (_, gy) := @parse_diameter_gy big sample_ccr GyMessage_init in
   Ok (imsi gy, has_imsi gy, session_id gy, cc_request_type gy, take 1 (mscc gy))) =
  Ok (97, true, [x61; x3b; x31], 2, [mkMsccInfo 7 5 12 0 100 0 true false true false]).
Proof. vm_compute. reflexivity. Qed.

Lemma sample_wf : Forall wf_wire sample_avps.
Proof. repeat constructor; vm_compute; congruence. Qed.

Lemma avp_area_grammar_witness :
  @decode_avps little sample_area = Ok (DiameterStatus.kOk, map avp_of sample_avps) <->
  exists ws, Forall wf_wire ws /\ sample_area = enc_avps ws /\
    map avp_of sample_avps = map avp_of ws.
Proof. apply (@avp_area_grammar little sample_area (map avp_of sample_avps)). vm_compute; reflexivity. Defined.

Lemma avp_walk_is_fold_witness :
  exists st l, @decode_avps little sample_area = Ok (st, l) /\
    @for_each_avp little _ sample_area (@gy_fn little) 0 GyMessage_init =
      if kAvpMaxDepth <=? 0 then Ok (DiameterStatus.kAvpTooDeep, GyMessage_init) else
      let* (c, s') := fold_avps (@gy_fn little) 0 l GyMessage_init in
      Ok (if (c : bool) then st else DiameterStatus.kOk, s').
Proof. apply (@avp_walk_is_fold little _ (@gy_fn little) sample_area 0 GyMessage_init). vm_compute; reflexivity. Defined.

Definition sample_ccr_header : DiameterHeader :=
  mkDiameterHeader sample_area (20 + size sample_area) 272 4 17 18 0xC0.

Lemma gy_mscc_bookkeeping_witness :
  exists st l g, @decode_avps little (avps sample_ccr_header) = Ok (st, l) /\
    @parse_gy little sample_ccr_header = Ok (st, g) /\ st <> DiameterStatus.kAvpTooDeep /\
    mscc_count g = Z.min (count_mscc l) 8 /\ mscc_overflow g = (8 <? count_mscc l) /\
    size (mscc g) = 8.
Proof. apply (@gy_mscc_bookkeeping little sample_ccr sample_ccr_header). vm_compute; reflexivity. Defined.
