(* ===== verification/SpscRing.v ===== *)
(** * include/gtpm/spsc_ring.hpp: the single-producer/single-consumer ring

    First the operations as the source writes them, with the index counters
    kept at 64 bits: each is a function on the ring state, as one side runs it
    while the other is quiescent.  Then the two threads interleaved: a step
    relation whose steps are the atomic actions of the source (an index load,
    one slot access, an index store), in which an acquire load of the other
    side's index may return any value not older than the one last seen.

    The class [BoundedQueue] is what the ring promises to the ingest and meter
    threads: a FIFO of bounded capacity. *)

From stdpp Require Import relations.
From S2P Require Import Prelude.

(** ** Interface: a bounded FIFO *)

Class BoundedQueue (T R : Type) := {
  q_push : R -> T -> res (bool * R);
  q_pop_bulk : R -> Z -> res (list T * R);
  q_pop : R -> res (option T * R);
  q_depth : R -> Z;
  q_cap : R -> Z;
  q_repr : R -> list T -> Prop;
  q_push_spec r q v : q_repr r q ->
    ensures (q_push r v) (fun '(ok, r') => q_cap r' = q_cap r /\
      if size q <? q_cap r then ok = true /\ q_repr r' (q ++ [v]) else ok = false /\ q_repr r' q);
  q_pop_bulk_spec r q max : q_repr r q -> 0 <= max < 2 ^ 64 ->
    ensures (q_pop_bulk r max) (fun '(out, r') => q_cap r' = q_cap r /\
      exists rest, q = out ++ rest /\ q_repr r' rest /\ size out <= max /\
        (out = [] -> max = 0 \/ q = []));
  q_pop_spec r q : q_repr r q ->
    ensures (q_pop r) (fun '(o, r') => q_cap r' = q_cap r /\
      match q with [] => o = None /\ q_repr r' [] | x :: q => o = Some x /\ q_repr r' q end);
  q_depth_spec r q : q_repr r q -> q_depth r = size q
}.

Record SpscRing (T : Type) := mkSpscRing {
  capacity_ : Z;
  mask_ : Z;
  slots_ : list T;
  head_ : Z;
  cached_tail_ : Z;
  tail_ : Z;
  cached_head_ : Z
}.
Arguments mkSpscRing {T}.
Arguments capacity_ {T}.
Arguments mask_ {T}.
Arguments slots_ {T}.
Arguments head_ {T}.
Arguments cached_tail_ {T}.
Arguments tail_ {T}.
Arguments cached_head_ {T}.
#[export] Instance SpscRing_eta T : Eta (SpscRing T) := fun r =>
  mkSpscRing (capacity_ r) (mask_ r) (slots_ r) (head_ r) (cached_tail_ r) (tail_ r) (cached_head_ r).

Definition round_up_pow2 (v : Z) : res Z := if has_single_bit v then Ok v else bit_ceil v.

Section Ring.
Context {T : Type}.
Implicit Types r : SpscRing T.

(** The constructor; [dflt] is the value-initialised [T{}]. *)
Definition SpscRing_new (dflt : T) (capacity : Z) : res (SpscRing T) :=
  let* c := round_up_pow2 (if capacity <? 2 then 2 else capacity) in
  Ok (mkSpscRing c (sub64 c 1) (replicate (Z.to_nat c) dflt) 0 0 0 0).

Definition capacity (r : SpscRing T) : Z := capacity_ r.

(** [slots_[i & mask_]], read and written. *)
Definition slot_get (r : SpscRing T) (i : Z) : res T := at_ (slots_ r) (Z.land i (mask_ r)).
Definition slot_set (r : SpscRing T) (i : Z) (v : T) : res (SpscRing T) :=
  let* s := set_ (slots_ r) (Z.land i (mask_ r)) v in Ok (r <| slots_ := s |>).

Definition try_push (r : SpscRing T) (value : T) : res (bool * SpscRing T) :=
  let head := head_ r in
  let store r :=
    let* r := slot_set r head value in
    Ok (true, r <| head_ := add64 head 1 |>) in
  if capacity_ r <=? sub64 head (cached_tail_ r) then
    let r := r <| cached_tail_ := tail_ r |> in
    if capacity_ r <=? sub64 head (cached_tail_ r) then Ok (false, r) else store r
  else store r.

(** [None] is [return false]; otherwise the element copied to [out]. *)
Definition try_pop (r : SpscRing T) : res (option T * SpscRing T) :=
  let tail := tail_ r in
  let take_ r :=
    let* v := slot_get r tail in
    Ok (Some v, r <| tail_ := add64 tail 1 |>) in
  if tail =? cached_head_ r then
    let r := r <| cached_head_ := head_ r |> in
    if tail =? cached_head_ r then Ok (None, r) else take_ r
  else take_ r.

(** [for (i = i0; i < i0 + n; ++i) out[i] = slots_[(tail + i) & mask_]]. *)
Fixpoint pop_loop (r : SpscRing T) (tail i : Z) (n : nat) : res (list T) :=
  match n with
  | O => Ok []
  | S n =>
      let* v := slot_get r (add64 tail i) in
      let* vs := pop_loop r tail (i + 1) n in
      Ok (v :: vs)
  end.

Definition try_pop_bulk (r : SpscRing T) (max : Z) : res (list T * SpscRing T) :=
  let tail := tail_ r in
  let head := cached_head_ r in
  let take_ r head :=
    let available := sub64 head tail in
    let available := if max <? available then max else available in
    let* out := pop_loop r tail 0 (Z.to_nat available) in
    Ok (out, r <| tail_ := add64 tail available |>) in
  if tail =? head then
    let head := head_ r in
    let r := r <| cached_head_ := head |> in
    if tail =? head then Ok ([], r) else take_ r head
  else take_ r head.

Fixpoint push_loop (r : SpscRing T) (head i : Z) (vs : list T) : res (SpscRing T) :=
  match vs with
  | [] => Ok r
  | v :: vs =>
      let* r := slot_set r (add64 head i) v in
      push_loop r head (i + 1) vs
  end.

(** [in[0..count)] is the list [vs]; the result is how many were accepted. *)
Definition try_push_bulk (r : SpscRing T) (vs : list T) : res (Z * SpscRing T) :=
  let count := size vs in
  let head := head_ r in
  let tail := cached_tail_ r in
  let free_slots := sub64 (capacity_ r) (sub64 head tail) in
  let put r free_slots :=
    let n := if free_slots <? count then free_slots else count in
    let* r := push_loop r head 0 (take (Z.to_nat n) vs) in
    Ok (n, r <| head_ := add64 head n |>) in
  if free_slots <? count then
    let tail := tail_ r in
    let r := r <| cached_tail_ := tail |> in
    put r (sub64 (capacity_ r) (sub64 head tail))
  else put r free_slots.

Definition size_approx (r : SpscRing T) : Z := sub64 (head_ r) (tail_ r).
Definition empty_approx (r : SpscRing T) : bool := size_approx r =? 0.
Definition produced (r : SpscRing T) : Z := head_ r.
Definition consumed (r : SpscRing T) : Z := tail_ r.

End Ring.

(** ** The two threads interleaved

    [PWriting vs i]: the producer owns its claim for [vs] and has written [i]
    of them.  [CReading n acc]: the consumer has copied [acc] of [n].  The
    single-element operations are the same with one element.  [pushed] and
    [popped] are histories: the elements of completed pushes and pops. *)

Inductive producer (T : Type) :=
| PIdle
| PPushReload (v : T)
| PBulkReload (vs : list T)
| PWriting (vs : list T) (i : nat).
Arguments PIdle {T}.
Arguments PPushReload {T}.
Arguments PBulkReload {T}.
Arguments PWriting {T}.

Inductive consumer (T : Type) :=
| CIdle
| CPopReload
| CBulkReload (max : Z)
| CReading (n : nat) (acc : list T).
Arguments CIdle {T}.
Arguments CPopReload {T}.
Arguments CBulkReload {T}.
Arguments CReading {T}.

Record config (T : Type) := mkConfig {
  ring : SpscRing T;
  prod : producer T;
  cons_ : consumer T;
  pushed : list T;
  popped : list T
}.
Arguments mkConfig {T}.
Arguments ring {T}.
Arguments prod {T}.
Arguments cons_ {T}.
Arguments pushed {T}.
Arguments popped {T}.

(** [seen] is a value the other side's index had at or after [last], up to
    its current value [now]; all are 64-bit counters. *)
Definition not_older (last now seen : Z) : Prop :=
  sub64 seen last + sub64 now seen = sub64 now last /\ 0 <= seen < 2 ^ 64.

Section Steps.
Context {T : Type}.

Inductive step : config T -> config T -> Prop :=
(* try_push *)
| p_push_start r c hi ho v :
    step (mkConfig r PIdle c hi ho)
      (mkConfig r (if capacity_ r <=? sub64 (head_ r) (cached_tail_ r)
                   then PPushReload v else PWriting [v] 0) c hi ho)
| p_push_reload r c hi ho v seen :
    not_older (cached_tail_ r) (tail_ r) seen ->
    step (mkConfig r (PPushReload v) c hi ho)
      (mkConfig (r <| cached_tail_ := seen |>)
         (if capacity_ r <=? sub64 (head_ r) seen then PIdle else PWriting [v] 0) c hi ho)
(* try_push_bulk *)
| p_bulk_start r c hi ho vs :
    size vs < 2 ^ 64 ->
    step (mkConfig r PIdle c hi ho)
      (mkConfig r (if sub64 (capacity_ r) (sub64 (head_ r) (cached_tail_ r)) <? size vs
                   then PBulkReload vs else PWriting vs 0) c hi ho)
| p_bulk_reload r c hi ho vs seen :
    not_older (cached_tail_ r) (tail_ r) seen ->
    step (mkConfig r (PBulkReload vs) c hi ho)
      (mkConfig (r <| cached_tail_ := seen |>)
         (PWriting (take (Z.to_nat (sub64 (capacity_ r) (sub64 (head_ r) seen))) vs) 0) c hi ho)
(* the slot writes and the release store of head *)
| p_write r c hi ho vs i v r' :
    vs !! i = Some v -> slot_set r (add64 (head_ r) (Z.of_nat i)) v = Ok r' ->
    step (mkConfig r (PWriting vs i) c hi ho) (mkConfig r' (PWriting vs (S i)) c hi ho)
| p_publish r c hi ho vs :
    step (mkConfig r (PWriting vs (length vs)) c hi ho)
      (mkConfig (r <| head_ := add64 (head_ r) (size vs) |>) PIdle c (hi ++ vs) ho)
(* try_pop *)
| c_pop_start r p hi ho :
    step (mkConfig r p CIdle hi ho)
      (mkConfig r p (if tail_ r =? cached_head_ r then CPopReload else CReading 1 []) hi ho)
| c_pop_reload r p hi ho seen :
    not_older (cached_head_ r) (head_ r) seen ->
    step (mkConfig r p CPopReload hi ho)
      (mkConfig (r <| cached_head_ := seen |>) p
         (if tail_ r =? seen then CIdle else CReading 1 []) hi ho)
(* try_pop_bulk *)
| c_bulk_start r p hi ho max :
    0 <= max < 2 ^ 64 ->
    step (mkConfig r p CIdle hi ho)
      (mkConfig r p (if tail_ r =? cached_head_ r then CBulkReload max
                     else CReading (Z.to_nat (Z.min max (sub64 (cached_head_ r) (tail_ r)))) []) hi ho)
| c_bulk_reload r p hi ho max seen :
    not_older (cached_head_ r) (head_ r) seen ->
    step (mkConfig r p (CBulkReload max) hi ho)
      (mkConfig (r <| cached_head_ := seen |>) p
         (if tail_ r =? seen then CIdle
          else CReading (Z.to_nat (Z.min max (sub64 seen (tail_ r)))) []) hi ho)
(* the slot reads and the release store of tail *)
| c_read r p hi ho n acc v :
    (length acc < n)%nat -> slot_get r (add64 (tail_ r) (size acc)) = Ok v ->
    step (mkConfig r p (CReading n acc) hi ho) (mkConfig r p (CReading n (acc ++ [v])) hi ho)
| c_publish r p hi ho n acc :
    length acc = n ->
    step (mkConfig r p (CReading n acc) hi ho)
      (mkConfig (r <| tail_ := add64 (tail_ r) (Z.of_nat n) |>) p CIdle hi (ho ++ acc)).

(** Runs from a freshly constructed ring. *)
Inductive reachable (dflt : T) (cap : Z) : config T -> Prop :=
| reach_init r : SpscRing_new dflt cap = Ok r -> reachable dflt cap (mkConfig r PIdle CIdle [] [])
| reach_step s s' : reachable dflt cap s -> step s s' -> reachable dflt cap s'.

End Steps.

(** ** Invariant

    The 64-bit indices are the wraps of unbounded counters: [H] elements were
    published, [Tl] consumed, [CT] and [CH] are the cached views. *)

Record ring_inv {T} (r : SpscRing T) (H Tl CT CH k : Z) : Prop := {
  ri_k : 1 <= k <= 63;
  ri_cap : capacity_ r = 2 ^ k;
  ri_mask : mask_ r = 2 ^ k - 1;
  ri_slots : size (slots_ r) = 2 ^ k;
  ri_head : head_ r = u64 H;
  ri_tail : tail_ r = u64 Tl;
  ri_ctail : cached_tail_ r = u64 CT;
  ri_chead : cached_head_ r = u64 CH;
  ri_order : 0 <= CT <= Tl /\ Tl <= CH <= H /\ H <= CT + 2 ^ k
}.

(** [q] is stored in order in the slots from counter [Tl] on. *)
Definition holds {T} (r : SpscRing T) (Tl : Z) (q : list T) : Prop :=
  forall i x, q !! i = Some x -> slots_ r !! Z.to_nat ((Tl + Z.of_nat i) mod capacity_ r) = Some x.

Definition repr {T} (r : SpscRing T) (q : list T) : Prop :=
  exists H Tl CT CH k, ring_inv r H Tl CT CH k /\ size q = H - Tl /\ holds r Tl q.

Section Facts.
Context {T : Type}.
Implicit Types (r : SpscRing T) (q : list T).

Lemma slot_index r H Tl CT CH k n :
  ring_inv r H Tl CT CH k -> Z.land (u64 n) (mask_ r) = n mod capacity_ r.
Proof. intros []. rewrite ri_cap0, ri_mask0. apply land_mask. lia. Qed.

Lemma slot_get_holds r H Tl CT CH k q i x :
  ring_inv r H Tl CT CH k -> holds r Tl q -> q !! i = Some x ->
  slot_get r (add64 (tail_ r) (Z.of_nat i)) = Ok x.
Proof.
  intros Hr Hq Hi. unfold slot_get, add64. rewrite (ri_tail _ _ _ _ _ _ Hr), u64_add_u64_l.
  rewrite (slot_index r _ _ _ _ _ _ Hr). apply at_lookup; [|by apply Hq].
  destruct Hr. rewrite ri_cap0. apply Z.mod_pos_bound. lia.
Qed.

Lemma slot_set_Ok r H Tl CT CH k n v :
  ring_inv r H Tl CT CH k ->
  slot_set r (u64 n) v = Ok (r <| slots_ := <[Z.to_nat (n mod capacity_ r) := v]> (slots_ r) |>).
Proof.
  intros Hr. unfold slot_set. rewrite (slot_index r _ _ _ _ _ _ Hr). destruct Hr.
  rewrite set_Ok; [done|]. rewrite ri_slots0, ri_cap0. apply Z.mod_pos_bound. lia.
Qed.

(** Writing the next free slot appends to what is stored. *)
Lemma holds_snoc r H Tl CT CH k q v :
  ring_inv r H Tl CT CH k -> holds r Tl q -> size q < 2 ^ k ->
  holds (r <| slots_ := <[Z.to_nat ((Tl + size q) mod capacity_ r) := v]> (slots_ r) |>) Tl (q ++ [v]).
Proof.
  intros Hr Hq Hs i x Hi. destruct Hr. cbn. pose proof (pow63 k ltac:(lia)).
  assert (forall n, 0 <= n mod capacity_ r < 2 ^ k) as Hm
    by (intros; rewrite ri_cap0; apply Z.mod_pos_bound; lia).
  apply lookup_app_Some in Hi as [Hi|[Hi Hx]].
  - pose proof (lookup_lt_Some _ _ _ Hi). unfold size in *.
    rewrite list_lookup_insert_ne; [by apply Hq|]. intros E.
    apply Z2Nat.inj in E; [|apply Hm..].
    apply mod_inj_interval in E; rewrite ?ri_cap0; lia.
  - apply list_lookup_singleton_Some in Hx as [Hi0 ->].
    replace (Z.of_nat i) with (size q) by (unfold size; lia).
    apply list_lookup_insert_eq. specialize (Hm (Tl + size q)). unfold size in *. lia.
Qed.

Lemma holds_app_l r Tl q q' : holds r Tl (q ++ q') -> holds r Tl q.
Proof. intros H i x Hi. apply H. by apply lookup_app_l_Some. Qed.

Lemma holds_drop r Tl q q' : holds r Tl (q ++ q') -> holds r (Tl + size q) q'.
Proof.
  intros H i x Hi. replace (Tl + size q + Z.of_nat i) with (Tl + Z.of_nat (length q + i)) by (unfold size; lia).
  apply H. rewrite lookup_app_r by lia. by replace (length q + i - length q)%nat with i by lia.
Qed.

(** Updates of the slots and of the indices keep the invariant. *)
Lemma ring_inv_slots r H Tl CT CH k s :
  ring_inv r H Tl CT CH k -> size s = size (slots_ r) -> ring_inv (r <| slots_ := s |>) H Tl CT CH k.
Proof. intros [] Hs. constructor; cbn; auto. lia. Qed.
Lemma ring_inv_head r H Tl CT CH k n :
  ring_inv r H Tl CT CH k -> 0 <= n -> H + n <= CT + 2 ^ k ->
  ring_inv (r <| head_ := add64 (head_ r) n |>) (H + n) Tl CT CH k.
Proof. intros [] ? ?. constructor; cbn; auto; [|lia]. rewrite ri_head0. unfold add64. by rewrite u64_add_u64_l. Qed.
Lemma ring_inv_tail r H Tl CT CH k n :
  ring_inv r H Tl CT CH k -> 0 <= n -> Tl + n <= CH ->
  ring_inv (r <| tail_ := add64 (tail_ r) n |>) H (Tl + n) CT CH k.
Proof. intros [] ? ?. constructor; cbn; auto; [|lia]. rewrite ri_tail0. unfold add64. by rewrite u64_add_u64_l. Qed.
Lemma ring_inv_ctail r H Tl CT CH k S :
  ring_inv r H Tl CT CH k -> CT <= S <= Tl -> ring_inv (r <| cached_tail_ := u64 S |>) H Tl S CH k.
Proof. intros [] ?. constructor; cbn; auto. lia. Qed.
Lemma ring_inv_chead r H Tl CT CH k S :
  ring_inv r H Tl CT CH k -> CH <= S <= H -> ring_inv (r <| cached_head_ := u64 S |>) H Tl CT S k.
Proof. intros [] ?. constructor; cbn; auto. lia. Qed.

(** The full and empty tests of the source, on the unbounded counters. *)
Lemma occupancy r H Tl CT CH k S :
  ring_inv r H Tl CT CH k -> CT <= S <= Tl -> sub64 (head_ r) (u64 S) = H - S.
Proof. intros [] ?. pose proof (pow63 k ri_k0). rewrite ri_head0. apply sub64_counters. lia. Qed.
Lemma free_slots_eq r H Tl CT CH k S :
  ring_inv r H Tl CT CH k -> CT <= S <= Tl ->
  sub64 (capacity_ r) (sub64 (head_ r) (u64 S)) = S + 2 ^ k - H.
Proof.
  intros Hr HS. rewrite (occupancy _ _ _ _ _ _ _ Hr HS). destruct Hr. pose proof (pow63 k ri_k0).
  rewrite ri_cap0, sub64_small; lia.
Qed.
Lemma empty_test r H Tl CT CH k S :
  ring_inv r H Tl CT CH k -> CH <= S <= H -> (tail_ r =? u64 S) = (Tl =? S).
Proof. intros [] ?. pose proof (pow63 k ri_k0). rewrite ri_tail0. apply u64_eqb_counters. lia. Qed.
Lemma available_eq r H Tl CT CH k S :
  ring_inv r H Tl CT CH k -> CH <= S <= H -> sub64 (u64 S) (tail_ r) = S - Tl.
Proof. intros [] ?. pose proof (pow63 k ri_k0). rewrite ri_tail0. apply sub64_counters. lia. Qed.

Lemma pop_loop_holds r H Tl CT CH k q : ring_inv r H Tl CT CH k -> holds r Tl q ->
  forall n i, (i + n <= length q)%nat ->
  pop_loop r (tail_ r) (Z.of_nat i) n = Ok (take n (drop i q)).
Proof.
  intros Hr Hq. induction n as [|n IH]; intros i Hi; cbn [pop_loop]; [by rewrite take_0|].
  destruct (lookup_lt_is_Some_2 q i) as [x Hx]; [lia|].
  rewrite (slot_get_holds _ _ _ _ _ _ _ _ _ Hr Hq Hx). cbn [res_bind].
  replace (Z.of_nat i + 1) with (Z.of_nat (S i)) by lia. rewrite IH by lia. cbn [res_bind].
  by rewrite (drop_S _ _ _ Hx).
Qed.

Lemma push_loop_holds H Tl CT CH k vs : forall r q i,
  ring_inv r H Tl CT CH k -> holds r Tl q -> size q = H - Tl + i ->
  size q + size vs <= 2 ^ k -> 0 <= i ->
  ensures (push_loop r (head_ r) i vs) (fun r' =>
    ring_inv r' H Tl CT CH k /\ holds r' Tl (q ++ vs) /\ head_ r' = head_ r /\ capacity_ r' = capacity_ r).
Proof.
  induction vs as [|v vs IH]; intros r q i Hr Hq Hs Hb Hi; cbn [push_loop].
  { apply ensures_Ok. by rewrite app_nil_r. }
  rewrite size_cons in Hb. pose proof (size_nonneg vs).
  unfold add64. rewrite (ri_head _ _ _ _ _ _ Hr), u64_add_u64_l.
  rewrite (slot_set_Ok r _ _ _ _ _ _ _ Hr). cbn [res_bind].
  replace (H + i) with (Tl + size q) by lia.
  set (r' := r <| slots_ := _ |>).
  assert (ring_inv r' H Tl CT CH k) as Hr' by (apply ring_inv_slots; [done|apply size_insert]).
  rewrite <- (ri_head _ _ _ _ _ _ Hr'). replace (head_ r') with (head_ r) by done.
  change (head_ r) with (head_ r').
  eapply ensures_mono; [apply (IH r' (q ++ [v]) (i + 1) Hr')|]; rewrite ?size_app, ?size_cons, ?(@size_nil T); try lia.
  - apply (holds_snoc r _ _ _ _ _ _ _ Hr Hq). lia.
  - intros r'' (? & ? & ? & ?). by rewrite <- app_assoc in *.
Qed.
End Facts.

(** ** The constructor *)

Section Seq.
Context {T : Type}.
Implicit Types (r : SpscRing T) (q : list T).

Lemma new_inv (dflt : T) cap : cap <= 2 ^ 63 ->
  ensures (SpscRing_new dflt cap) (fun r =>
    exists k, ring_inv r 0 0 0 0 k /\ Z.max 2 cap <= capacity_ r < 2 * Z.max 2 cap).
Proof.
  intros Hc. unfold SpscRing_new, round_up_pow2.
  replace (if cap <? 2 then 2 else cap) with (Z.max 2 cap) by (case_if; lia).
  destruct (pow2_ceil_spec (Z.max 2 cap)) as (k & Hk & -> & Hb); [lia|].
  cbn [res_bind]. apply ensures_Ok. pose proof (pow63 k Hk). exists k.
  split; [|cbn [capacity_]; lia].
  constructor; cbn; try done; try lia.
  - rewrite sub64_small; lia.
  - unfold size. rewrite length_replicate. lia.
Qed.

Ltac inv_order Hr :=
  let Ho := fresh "Ho" in let Hk := fresh "Hk" in
  pose proof (ri_order _ _ _ _ _ _ Hr) as Ho; pose proof (pow63 _ (ri_k _ _ _ _ _ _ Hr)) as Hk.

(** The store half of [try_push]. *)
Lemma push_store_repr r H Tl CT CH k q v :
  ring_inv r H Tl CT CH k -> holds r Tl q -> size q = H - Tl -> H < CT + 2 ^ k ->
  ensures (let* r' := slot_set r (head_ r) v in Ok (true, r' <| head_ := add64 (head_ r) 1 |>))
    (fun '(ok, r') => capacity_ r' = capacity_ r /\ ok = true /\ repr r' (q ++ [v])).
Proof.
  intros Hr Hq Hs Hf. inv_order Hr. rewrite (ri_head _ _ _ _ _ _ Hr).
  rewrite (slot_set_Ok r _ _ _ _ _ _ _ Hr). cbn [res_bind]. apply ensures_Ok.
  split_and!; [done..|]. exists (H + 1), Tl, CT, CH, k.
  pose proof (holds_snoc r _ _ _ _ _ _ v Hr Hq ltac:(lia)) as Hq'.
  replace (Tl + size q) with H in Hq' by lia. rewrite size_app, size_cons, (@size_nil T).
  split_and!; [|lia|exact Hq'].
  rewrite <- (ri_head _ _ _ _ _ _ Hr). set (r1 := r <| slots_ := _ |>).
  change (head_ r) with (head_ r1). apply ring_inv_head; [|lia..].
  apply ring_inv_slots; [done|apply size_insert].
Qed.

Lemma try_push_repr r q v : repr r q ->
  ensures (try_push r v) (fun '(ok, r') => capacity_ r' = capacity_ r /\
    if size q <? capacity_ r then ok = true /\ repr r' (q ++ [v]) else ok = false /\ repr r' q).
Proof.
  intros (H & Tl & CT & CH & k & Hr & Hs & Hq). inv_order Hr. unfold try_push.
  pose proof (ri_cap _ _ _ _ _ _ Hr) as Hcap.
  rewrite (ri_ctail _ _ _ _ _ _ Hr), (occupancy _ _ _ _ _ _ CT Hr) by lia. cbn [setf].
  case_if.
  - set (r1 := r <| cached_tail_ := tail_ r |>).
    assert (ring_inv r1 H Tl Tl CH k) as Hr1.
    { unfold r1. rewrite (ri_tail _ _ _ _ _ _ Hr). apply (ring_inv_ctail _ _ _ CT); [done|lia]. }
    change (head_ r) with (head_ r1). change (capacity_ r) with (capacity_ r1) in *.
    rewrite (ri_ctail _ _ _ _ _ _ Hr1), (occupancy _ _ _ _ _ _ Tl Hr1) by lia.
    rewrite <- Hs, Z.leb_antisym. destruct (size q <? capacity_ r1) eqn:Hfull; cbn [negb]; bool_to_prop.
    + eapply ensures_mono; [apply (push_store_repr r1 H Tl Tl CH k q); auto; lia|].
      intros [ok r'] (? & ? & ?). auto.
    + apply ensures_Ok. split_and!; [done..|]. exists H, Tl, Tl, CH, k. auto.
  - rewrite (proj2 (Z.ltb_lt _ _)) by lia.
    eapply ensures_mono; [apply (push_store_repr r H Tl CT CH k q); auto; lia|].
    intros [ok r'] (? & ? & ?). auto.
Qed.

Lemma try_pop_repr r q : repr r q ->
  ensures (try_pop r) (fun '(o, r') => capacity_ r' = capacity_ r /\
    match q with [] => o = None /\ repr r' [] | x :: q => o = Some x /\ repr r' q end).
Proof.
  intros (H & Tl & CT & CH & k & Hr & Hs & Hq). inv_order Hr. unfold try_pop.
  assert (forall r CH x q', ring_inv r H Tl CT CH k -> holds r Tl (x :: q') -> size (x :: q') = H - Tl ->
    Tl < CH -> ensures (let* v := slot_get r (tail_ r) in Ok (Some v, r <| tail_ := add64 (tail_ r) 1 |>))
      (fun '(o, r') => capacity_ r' = capacity_ r /\ o = Some x /\ repr r' q')) as Htake.
  { clear. intros r CH x q' Hr Hq Hs Hne. inv_order Hr.
    pose proof (slot_get_holds r _ _ _ _ _ _ 0 x Hr Hq eq_refl) as Hg.
    replace (add64 (tail_ r) (Z.of_nat 0)) with (tail_ r) in Hg.
    2: { rewrite (ri_tail _ _ _ _ _ _ Hr). unfold add64. by rewrite u64_add_u64_l, Z.add_0_r. }
    rewrite Hg. cbn [res_bind]. apply ensures_Ok. split_and!; [done..|].
    exists H, (Tl + 1), CT, CH, k. rewrite size_cons in Hs. split_and!; [|lia|].
    - apply ring_inv_tail; [done|lia..].
    - apply (holds_drop r Tl [x] q' Hq). }
  rewrite (ri_chead _ _ _ _ _ _ Hr), (empty_test _ _ _ _ _ _ CH Hr) by lia. cbn [setf].
  case_if.
  - set (r1 := r <| cached_head_ := head_ r |>).
    assert (ring_inv r1 H Tl CT H k) as Hr1.
    { unfold r1. rewrite (ri_head _ _ _ _ _ _ Hr). apply (ring_inv_chead _ _ _ _ CH); [done|lia]. }
    change (tail_ r) with (tail_ r1).
    rewrite (ri_chead _ _ _ _ _ _ Hr1), (empty_test _ _ _ _ _ _ H Hr1) by lia.
    destruct q as [|x q']; [rewrite (@size_nil T) in Hs|rewrite size_cons in Hs; pose proof (size_nonneg q')].
    + rewrite (proj2 (Z.eqb_eq _ _)) by lia. apply ensures_Ok. split_and!; [done..|].
      exists H, Tl, CT, H, k. rewrite (@size_nil T). split_and!; auto; lia.
    + rewrite (proj2 (Z.eqb_neq _ _)) by lia. apply (Htake r1 H x q' Hr1); [done|rewrite size_cons; lia|lia].
  - destruct q as [|x q']; [rewrite (@size_nil T) in Hs; lia|].
    apply (Htake r CH x q'); auto. lia.
Qed.

Lemma pop_take_repr r H Tl CT CH k q max :
  ring_inv r H Tl CT CH k -> holds r Tl q -> size q = H - Tl -> Tl < CH -> 0 <= max ->
  ensures (let available := sub64 (cached_head_ r) (tail_ r) in
           let available := if max <? available then max else available in
           let* out := pop_loop r (tail_ r) 0 (Z.to_nat available) in
           Ok (out, r <| tail_ := add64 (tail_ r) available |>))
    (fun '(out, r') => capacity_ r' = capacity_ r /\ exists rest, q = out ++ rest /\ repr r' rest /\
       size out = Z.min max (CH - Tl)).
Proof.
  intros Hr Hq Hs Hne Hm. inv_order Hr. cbv zeta.
  rewrite (ri_chead _ _ _ _ _ _ Hr), (available_eq _ _ _ _ _ _ CH Hr) by lia.
  set (n := if max <? CH - Tl then max else CH - Tl).
  assert (n = Z.min max (CH - Tl)) as Hn by (unfold n; case_if; lia).
  rewrite (pop_loop_holds _ _ _ _ _ _ _ Hr Hq _ 0) by (unfold size in *; lia).
  cbn [res_bind]. rewrite drop_0. apply ensures_Ok. split; [done|]. exists (drop (Z.to_nat n) q).
  rewrite take_drop. split_and!; [done| |rewrite size_take; lia].
  exists H, (Tl + n), CT, CH, k. rewrite size_drop by lia. split_and!; [|lia|].
  - apply ring_inv_tail; [done|lia..].
  - rewrite <- (size_take q n) at 1 by lia. apply (holds_drop r Tl). by rewrite take_drop.
Qed.

Lemma try_pop_bulk_repr r q max : repr r q -> 0 <= max < 2 ^ 64 ->
  ensures (try_pop_bulk r max) (fun '(out, r') => capacity_ r' = capacity_ r /\
    exists rest, q = out ++ rest /\ repr r' rest /\ size out <= max /\
      (out = [] -> max = 0 \/ q = [])).
Proof.
  intros (H & Tl & CT & CH & k & Hr & Hs & Hq) Hmax. inv_order Hr. unfold try_pop_bulk.
  assert (forall r CH, ring_inv r H Tl CT CH k -> holds r Tl q -> Tl < CH ->
    ensures (let available := sub64 (cached_head_ r) (tail_ r) in
             let available := if max <? available then max else available in
             let* out := pop_loop r (tail_ r) 0 (Z.to_nat available) in
             Ok (out, r <| tail_ := add64 (tail_ r) available |>))
      (fun '(out, r') => capacity_ r' = capacity_ r /\
        exists rest, q = out ++ rest /\ repr r' rest /\ size out <= max /\
          (out = [] -> max = 0 \/ q = []))) as Htake.
  { clear -Hs Hmax. intros r CH Hr Hq Hne. eapply ensures_mono; [apply (pop_take_repr r H Tl CT CH k q); auto; lia|].
    intros [out r'] (? & rest & ? & ? & ?). split; [done|]. exists rest. split_and!; auto; [lia|].
    intros ->. rewrite (@size_nil T) in *. left. lia. }
  pose proof (empty_test _ _ _ _ _ _ CH Hr) as He.
  rewrite <- (ri_chead _ _ _ _ _ _ Hr) in He. rewrite He by lia. clear He.
  destruct (Z.eqb_spec Tl CH).
  - set (r1 := r <| cached_head_ := head_ r |>).
    assert (ring_inv r1 H Tl CT H k) as Hr1.
    { unfold r1. rewrite (ri_head _ _ _ _ _ _ Hr). apply (ring_inv_chead _ _ _ _ CH); [done|lia]. }
    change (tail_ r) with (tail_ r1). change (head_ r) with (cached_head_ r1).
    pose proof (empty_test _ _ _ _ _ _ H Hr1) as He.
    rewrite <- (ri_chead _ _ _ _ _ _ Hr1) in He. rewrite He by lia. clear He.
    destruct (Z.eqb_spec Tl H); [|apply (Htake r1 H Hr1 Hq); lia].
    apply ensures_Ok. split; [done|]. exists q. rewrite (@size_nil T).
    split_and!; [done| |lia|].
    + exists H, Tl, CT, H, k. auto.
    + intros _. right. destruct q; [done|]. rewrite size_cons in Hs. pose proof (size_nonneg q). lia.
  - apply (Htake r CH Hr Hq). lia.
Qed.

Lemma push_put_repr r H Tl CT CH k q vs :
  ring_inv r H Tl CT CH k -> holds r Tl q -> size q = H - Tl ->
  ensures (let free_slots := CT + 2 ^ k - H in
           let n := if free_slots <? size vs then free_slots else size vs in
           let* r' := push_loop r (head_ r) 0 (take (Z.to_nat n) vs) in
           Ok (n, r' <| head_ := add64 (head_ r) n |>))
    (fun '(n, r') => capacity_ r' = capacity_ r /\ n = Z.min (CT + 2 ^ k - H) (size vs) /\
       repr r' (q ++ take (Z.to_nat n) vs)).
Proof.
  intros Hr Hq Hs. inv_order Hr. cbv zeta. pose proof (size_nonneg vs).
  set (n := if _ <? _ then _ else _).
  assert (n = Z.min (CT + 2 ^ k - H) (size vs)) as Hn by (unfold n; case_if; lia).
  assert (size (take (Z.to_nat n) vs) = n) as Hsz by (apply size_take; lia).
  destruct (push_loop_holds H Tl CT CH k (take (Z.to_nat n) vs) r q 0)
    as (r' & -> & Hr' & Hq' & Hh & Hcap); [done|done|lia|lia|lia|].
  cbn [res_bind]. apply ensures_Ok. split_and!; [done..|]. rewrite <- Hh.
  exists (H + n), Tl, CT, CH, k. rewrite size_app, Hsz. split_and!; [|lia|exact Hq'].
  apply ring_inv_head; [done|lia..].
Qed.

(** A bulk push accepts everything when it fits the space the producer knows
    of, and otherwise exactly as much as fits the ring. *)
Lemma try_push_bulk_repr r q vs : repr r q -> size vs < 2 ^ 64 ->
  ensures (try_push_bulk r vs) (fun '(n, r') => capacity_ r' = capacity_ r /\
    n = Z.min (capacity_ r - size q) (size vs) /\ repr r' (q ++ take (Z.to_nat n) vs)).
Proof.
  intros (H & Tl & CT & CH & k & Hr & Hs & Hq) Hvs. inv_order Hr. unfold try_push_bulk. cbv zeta.
  pose proof (ri_cap _ _ _ _ _ _ Hr) as Hcap.
  rewrite (ri_ctail _ _ _ _ _ _ Hr), (free_slots_eq _ _ _ _ _ _ CT Hr) by lia.
  destruct (Z.ltb_spec (CT + 2 ^ k - H) (size vs)) as [Hlt|Hge].
  - set (r1 := r <| cached_tail_ := tail_ r |>).
    assert (ring_inv r1 H Tl Tl CH k) as Hr1.
    { unfold r1. rewrite (ri_tail _ _ _ _ _ _ Hr). apply (ring_inv_ctail _ _ _ CT); [done|lia]. }
    change (capacity_ r) with (capacity_ r1) in *. change (head_ r) with (head_ r1).
    rewrite (ri_tail _ _ _ _ _ _ Hr), (free_slots_eq _ _ _ _ _ _ Tl Hr1) by lia.
    eapply ensures_mono; [apply (push_put_repr r1 H Tl Tl CH k q vs Hr1 Hq Hs)|].
    intros [n r'] (? & -> & ?). split_and!; auto. lia.
  - pose proof (push_put_repr r H Tl CT CH k q vs Hr Hq Hs) as Hput. cbv zeta in Hput.
    rewrite (proj2 (Z.ltb_ge _ _)) in Hput by lia.
    eapply ensures_mono; [exact Hput|]. intros [n r'] (? & ? & ?). split_and!; auto. lia.
Qed.

Lemma size_approx_repr r q : repr r q -> size_approx r = size q.
Proof.
  intros (H & Tl & CT & CH & k & Hr & Hs & _). inv_order Hr. unfold size_approx.
  rewrite (ri_tail _ _ _ _ _ _ Hr), (occupancy _ _ _ _ _ _ Tl Hr) by lia. lia.
Qed.

#[export] Instance SpscRing_queue : BoundedQueue T (SpscRing T) := {|
  q_push := try_push;
  q_pop_bulk := try_pop_bulk;
  q_pop := try_pop;
  q_depth := size_approx;
  q_cap := capacity_;
  q_repr := repr;
  q_push_spec := try_push_repr;
  q_pop_bulk_spec := try_pop_bulk_repr;
  q_pop_spec := try_pop_repr;
  q_depth_spec := size_approx_repr
|}.
End Seq.

(** ** The interleaved threads *)

Section Concurrent.
Context {T : Type}.
Implicit Types (r : SpscRing T) (q : list T).

(** Elements written but not yet published. *)
Definition pending (p : producer T) : list T :=
  match p with PWriting vs i => take i vs | _ => [] end.

Definition prod_ok (p : producer T) (H CT k : Z) : Prop :=
  match p with
  | PWriting vs i => H + size vs <= CT + 2 ^ k /\ (i <= length vs)%nat
  | _ => True
  end.

Definition cons_ok (c : consumer T) (q : list T) (Tl CH : Z) : Prop :=
  match c with
  | CReading n acc => Tl + Z.of_nat n <= CH /\ (length acc <= n)%nat /\ acc = take (length acc) q
  | CBulkReload max => 0 <= max
  | _ => True
  end.

Record conf_inv_at (s : config T) (q : list T) (H Tl CT CH k : Z) : Prop := {
  ci_ring : ring_inv (ring s) H Tl CT CH k;
  ci_hist : pushed s = popped s ++ q;
  ci_size : size q = H - Tl;
  ci_holds : holds (ring s) Tl (q ++ pending (prod s));
  ci_prod : prod_ok (prod s) H CT k;
  ci_cons : cons_ok (cons_ s) q Tl CH
}.

Definition conf_inv (cap : Z) (s : config T) : Prop :=
  capacity_ (ring s) = cap /\ exists q H Tl CT CH k, conf_inv_at s q H Tl CT CH k.

(** A coherent load returns the wrap of a counter between the last one seen
    and the current one. *)
Lemma not_older_counter L N seen : 0 <= N - L < 2 ^ 64 -> not_older (u64 L) (u64 N) seen ->
  exists S, seen = u64 S /\ L <= S <= N.
Proof.
  intros HLN [E Hs]. rewrite (sub64_counters N L) in E by lia.
  pose proof (u64_range (seen - u64 L)). pose proof (u64_range (u64 N - seen)).
  unfold sub64 in E. exists (L + u64 (seen - u64 L)). split; [|lia].
  rewrite u64_add_u64_r. unfold u64 at 1 2. symmetry.
  rewrite <- (u64_small seen) at 2 by lia. unfold u64.
  replace (L + (seen - L mod 2 ^ 64)) with (seen + L / 2 ^ 64 * 2 ^ 64)
    by (pose proof (Z_div_mod_eq_full L (2 ^ 64)); lia).
  apply Z_mod_plus_full.
Qed.

(** The invariant spelled out for a configuration given by its parts. *)
Lemma conf_inv_pc cap r p c hi ho q H Tl CT CH k :
  capacity_ r = cap -> ring_inv r H Tl CT CH k -> hi = ho ++ q -> size q = H - Tl ->
  holds r Tl (q ++ pending p) -> prod_ok p H CT k -> cons_ok c q Tl CH ->
  conf_inv cap (mkConfig r p c hi ho).
Proof. intros. split; [done|]. exists q, H, Tl, CT, CH, k. by constructor. Qed.

Ltac start_inv Hinv :=
  destruct Hinv as (Hcap & q & H & Tl & CT & CH & k & [Hr Hh Hsz Hq Hp Hc]);
  cbn [ring prod cons_ pushed popped pending prod_ok cons_ok] in *;
  pose proof (ri_order _ _ _ _ _ _ Hr) as Ho; pose proof (pow63 _ (ri_k _ _ _ _ _ _ Hr)) as Hk;
  pose proof (ri_cap _ _ _ _ _ _ Hr) as Hck.

(** A claim of [vs] that fits, before anything is written. *)
Lemma claim_ok H CT k (vs : list T) : H + size vs <= CT + 2 ^ k -> prod_ok (PWriting vs 0) H CT k.
Proof. intros. split; [done|lia]. Qed.
Lemma claim_read_ok q Tl CH n : 0 <= n <= CH - Tl -> cons_ok (CReading (Z.to_nat n) []) q Tl CH.
Proof. intros. cbn. split_and!; [lia|lia|done]. Qed.

(** Reloading the other side's index keeps the invariant and makes the claims
    computed from it safe. *)
Lemma inv_reload_tail cap r p c hi ho seen (p' : producer T) :
  conf_inv cap (mkConfig r p c hi ho) -> pending p = [] -> pending p' = [] ->
  not_older (cached_tail_ r) (tail_ r) seen ->
  (forall H CT k, capacity_ r = 2 ^ k -> sub64 (head_ r) seen = H - CT ->
     sub64 (capacity_ r) (sub64 (head_ r) seen) = CT + 2 ^ k - H -> H <= CT + 2 ^ k -> prod_ok p' H CT k) ->
  conf_inv cap (mkConfig (r <| cached_tail_ := seen |>) p' c hi ho).
Proof.
  intros Hinv Hpe Hpe' Hno Hp'. start_inv Hinv. rewrite Hpe in Hq.
  rewrite (ri_ctail _ _ _ _ _ _ Hr), (ri_tail _ _ _ _ _ _ Hr) in Hno.
  apply not_older_counter in Hno as (S & -> & HS); [|lia].
  apply (conf_inv_pc cap _ _ c hi ho q H Tl S CH k); auto.
  - by apply ring_inv_ctail with CT.
  - rewrite Hpe'. exact Hq.
  - apply Hp'; [done|by apply (occupancy _ _ _ _ _ _ S Hr)|by apply (free_slots_eq _ _ _ _ _ _ S Hr)|lia].
Qed.

Lemma inv_reload_head cap r p c hi ho seen (c' : consumer T) :
  conf_inv cap (mkConfig r p c hi ho) -> not_older (cached_head_ r) (head_ r) seen ->
  (forall q Tl CH, (tail_ r =? seen) = (Tl =? CH) -> sub64 seen (tail_ r) = CH - Tl -> Tl <= CH ->
     cons_ok c' q Tl CH) ->
  conf_inv cap (mkConfig (r <| cached_head_ := seen |>) p c' hi ho).
Proof.
  intros Hinv Hno Hc'. start_inv Hinv.
  rewrite (ri_chead _ _ _ _ _ _ Hr), (ri_head _ _ _ _ _ _ Hr) in Hno.
  apply not_older_counter in Hno as (S & -> & HS); [|lia].
  apply (conf_inv_pc cap _ p _ hi ho q H Tl CT S k); auto; [by apply ring_inv_chead with CH|].
  apply Hc'; [by apply (empty_test _ _ _ _ _ _ S Hr)|by apply (available_eq _ _ _ _ _ _ S Hr)|lia].
Qed.

Lemma inv_write cap r c hi ho vs i v r' :
  conf_inv cap (mkConfig r (PWriting vs i) c hi ho) -> vs !! i = Some v ->
  slot_set r (add64 (head_ r) (Z.of_nat i)) v = Ok r' ->
  conf_inv cap (mkConfig r' (PWriting vs (S i)) c hi ho).
Proof.
  intros Hinv Hi Hset. start_inv Hinv. destruct Hp as [Hp1 Hp2].
  pose proof (lookup_lt_Some _ _ _ Hi) as Hlt.
  unfold add64 in Hset. rewrite (ri_head _ _ _ _ _ _ Hr), u64_add_u64_l in Hset.
  rewrite (slot_set_Ok r _ _ _ _ _ _ _ Hr) in Hset. injection Hset as <-.
  assert (size (q ++ take i vs) = H - Tl + Z.of_nat i) as Hs1.
  { rewrite size_app. unfold size in *. rewrite length_take. lia. }
  apply (conf_inv_pc cap _ _ c hi ho q H Tl CT CH k); auto.
  - apply ring_inv_slots; [done|apply size_insert].
  - cbn [pending]. rewrite (take_S_r _ _ _ Hi), app_assoc.
    replace (H + Z.of_nat i) with (Tl + size (q ++ take i vs)) by lia.
    apply (holds_snoc r _ _ _ _ _ _ _ Hr Hq). unfold size in *. lia.
  - cbn [prod_ok]. split; [done|lia].
Qed.

Lemma inv_publish_head cap r c hi ho vs :
  conf_inv cap (mkConfig r (PWriting vs (length vs)) c hi ho) ->
  conf_inv cap (mkConfig (r <| head_ := add64 (head_ r) (size vs) |>) PIdle c (hi ++ vs) ho).
Proof.
  intros Hinv. start_inv Hinv. destruct Hp as [Hp1 Hp2]. rewrite take_ge in Hq by lia.
  pose proof (size_nonneg vs).
  apply (conf_inv_pc cap _ _ c _ ho (q ++ vs) (H + size vs) Tl CT CH k); auto.
  - apply ring_inv_head; [done|lia..].
  - rewrite Hh. by rewrite app_assoc.
  - rewrite size_app. lia.
  - cbn [pending]. by rewrite app_nil_r.
  - done.
  - destruct c as [| | |n acc]; auto. cbn [cons_ok] in *. destruct Hc as (? & ? & Ha).
    split_and!; auto. rewrite take_app_le; [done|]. unfold size in *. lia.
Qed.

Lemma inv_read cap r p hi ho n acc v :
  conf_inv cap (mkConfig r p (CReading n acc) hi ho) -> (length acc < n)%nat ->
  slot_get r (add64 (tail_ r) (size acc)) = Ok v ->
  conf_inv cap (mkConfig r p (CReading n (acc ++ [v])) hi ho).
Proof.
  intros Hinv Hn Hget. start_inv Hinv. destruct Hc as (Hc1 & Hc2 & Ha).
  destruct (lookup_lt_is_Some_2 q (length acc)) as [x Hx]; [unfold size in *; lia|].
  unfold size in Hget.
  rewrite (slot_get_holds r _ _ _ _ _ _ (length acc) x Hr (holds_app_l _ _ _ _ Hq) Hx) in Hget.
  injection Hget as <-.
  apply (conf_inv_pc cap r p _ hi ho q H Tl CT CH k); auto. cbn [cons_ok].
  rewrite length_app. cbn [length]. split_and!; [done|lia|].
  rewrite Nat.add_1_r, (take_S_r _ _ _ Hx). by rewrite <- Ha.
Qed.

Lemma inv_publish_tail cap r p hi ho acc :
  conf_inv cap (mkConfig r p (CReading (length acc) acc) hi ho) ->
  conf_inv cap (mkConfig (r <| tail_ := add64 (tail_ r) (Z.of_nat (length acc)) |>) p CIdle hi (ho ++ acc)).
Proof.
  intros Hinv. start_inv Hinv. destruct Hc as (Hc1 & Hc2 & Ha). set (n := length acc) in *.
  apply (conf_inv_pc cap _ p _ hi _ (drop n q) H (Tl + Z.of_nat n) CT CH k); auto.
  - apply ring_inv_tail; [done|lia..].
  - rewrite Hh, Ha, <- app_assoc. by rewrite take_drop.
  - unfold size in *. rewrite length_drop. lia.
  - replace (Z.of_nat n) with (size (take n q)) by (unfold size in *; rewrite length_take; lia).
    apply (holds_drop r). by rewrite app_assoc, take_drop.
  - done.
Qed.

Lemma conf_inv_step cap s s' : conf_inv cap s -> step s s' -> conf_inv cap s'.
Proof.
  intros Hinv Hstep.
  destruct Hstep as [r c hi ho v|r c hi ho v seen Hno|r c hi ho vs Hvs|r c hi ho vs seen Hno
    |r c hi ho vs i v r' Hi Hset|r c hi ho vs|r p hi ho|r p hi ho seen Hno|r p hi ho max Hmax
    |r p hi ho max seen Hno|r p hi ho n acc v Hn Hget|r p hi ho n acc Hn].
  - start_inv Hinv. apply (conf_inv_pc cap r _ c hi ho q H Tl CT CH k); auto;
      rewrite (ri_ctail _ _ _ _ _ _ Hr), (occupancy _ _ _ _ _ _ CT Hr), Hck by lia;
      case_if; try done. apply claim_ok. change (size [v]) with 1. lia.
  - eapply inv_reload_tail; [exact Hinv|done|by case_if|done|].
    intros Hd CT k -> -> _ ?. case_if; [done|]. apply claim_ok. change (size [v]) with 1. lia.
  - start_inv Hinv. apply (conf_inv_pc cap r _ c hi ho q H Tl CT CH k); auto;
      rewrite (ri_ctail _ _ _ _ _ _ Hr), (free_slots_eq _ _ _ _ _ _ CT Hr) by lia;
      case_if; try done. apply claim_ok. lia.
  - eapply inv_reload_tail; [exact Hinv|done|done|done|].
    intros Hd CT k _ _ -> ?. apply claim_ok. unfold size. rewrite length_take. lia.
  - by eapply inv_write.
  - by apply inv_publish_head.
  - start_inv Hinv. apply (conf_inv_pc cap r p _ hi ho q H Tl CT CH k); auto.
    rewrite (ri_chead _ _ _ _ _ _ Hr), (empty_test _ _ _ _ _ _ CH Hr) by lia.
    case_if; [done|]. apply (claim_read_ok q Tl CH 1). lia.
  - eapply inv_reload_head; [exact Hinv|done|]. intros q Tl CH -> _ ?.
    case_if; [done|]. apply (claim_read_ok q Tl CH 1). lia.
  - start_inv Hinv. apply (conf_inv_pc cap r p _ hi ho q H Tl CT CH k); auto.
    rewrite (ri_chead _ _ _ _ _ _ Hr), (empty_test _ _ _ _ _ _ CH Hr), (available_eq _ _ _ _ _ _ CH Hr) by lia.
    case_if; [cbn; lia|]. apply claim_read_ok. lia.
  - assert (0 <= max) by (by destruct Hinv as (_ & q & H' & Tl & CT & CH & k & []) ).
    eapply inv_reload_head; [exact Hinv|done|]. intros q Tl CH -> -> ?.
    case_if; [done|]. apply claim_read_ok. lia.
  - by eapply inv_read.
  - subst n. by apply inv_publish_tail.
Qed.

Lemma reachable_inv dflt cap s : cap <= 2 ^ 63 -> reachable dflt cap s ->
  conf_inv (capacity_ (ring s)) s.
Proof.
  intros Hc. induction 1 as [r Hr|s s' _ IH Hs].
  - destruct (ensures_inv _ _ _ (new_inv dflt cap Hc) Hr) as (k & Hk & _).
    apply (conf_inv_pc _ r _ _ _ _ [] 0 0 0 0 k); auto; done.
  - apply (conf_inv_step _ _ _ IH) in Hs as Hs'. destruct Hs' as [-> ?].
    by apply (conf_inv_step _ _ _ IH).
Qed.
End Concurrent.

(** ** The operations are runs of the step relation

    An operation executed without interference is a sequence of the atomic
    steps above, so the interleaved model runs the same code. *)

Section Runs.
Context {T : Type}.
Implicit Types (r : SpscRing T) (c : consumer T) (p : producer T).

Lemma not_older_now last now : 0 <= now < 2 ^ 64 -> not_older last now now.
Proof. intros. split; [|done]. unfold sub64. rewrite Z.sub_diag. change (u64 0) with 0. lia. Qed.

Lemma push_loop_run c hi ho vs : forall n i r r', (n + i = length vs)%nat ->
  push_loop r (head_ r) (Z.of_nat i) (drop i vs) = Ok r' ->
  rtc step (mkConfig r (PWriting vs i) c hi ho) (mkConfig r' (PWriting vs (length vs)) c hi ho).
Proof.
  induction n as [|n IH]; intros i r r' Hi H.
  - cbn in Hi. subst i. rewrite drop_all in H. injection H as <-. apply rtc_refl.
  - destruct (lookup_lt_is_Some_2 vs i) as [v Hv]; [lia|]. rewrite (drop_S _ _ _ Hv) in H.
    cbn [push_loop] in H. apply bind_Ok_inv in H as (r1 & Hset & H).
    eapply rtc_l; [by eapply p_write|]. apply (IH (S i)); [lia|].
    replace (Z.of_nat (S i)) with (Z.of_nat i + 1) by lia.
    replace (head_ r1) with (head_ r); [done|]. unfold slot_set in Hset.
    apply bind_Ok_inv in Hset as (? & _ & [= <-]). done.
Qed.

Lemma push_put_run r c hi ho vs r1 :
  push_loop r (head_ r) 0 vs = Ok r1 ->
  head_ r1 = head_ r ->
  rtc step (mkConfig r (PWriting vs 0) c hi ho)
    (mkConfig (r1 <| head_ := add64 (head_ r) (size vs) |>) PIdle c (hi ++ vs) ho).
Proof.
  intros H Hh. etrans; [apply (push_loop_run c hi ho vs (length vs) 0 r r1); [lia|exact H]|].
  rewrite <- Hh. apply rtc_once, p_publish.
Qed.

Lemma pop_loop_run p hi ho n : forall todo acc r out, (length acc + todo = n)%nat ->
  pop_loop r (tail_ r) (size acc) todo = Ok out ->
  rtc step (mkConfig r p (CReading n acc) hi ho) (mkConfig r p (CReading n (acc ++ out)) hi ho) /\
  length out = todo.
Proof.
  induction todo as [|todo IH]; intros acc r out Hn H; cbn [pop_loop] in H.
  - injection H as <-. rewrite app_nil_r. split; [apply rtc_refl|done].
  - apply bind_Ok_inv in H as (v & Hv & H). apply bind_Ok_inv in H as (vs & Hvs & [= <-]).
    replace (size acc + 1) with (size (acc ++ [v])) in Hvs by (rewrite size_app; done).
    apply IH in Hvs as [Hrun Hlen]; [|rewrite length_app; cbn; lia]. split; [|cbn; lia].
    eapply rtc_l; [apply c_read; [lia|exact Hv]|]. by rewrite <- app_assoc in Hrun.
Qed.

(** Both index counters are 64-bit values. *)
Definition ring64 r : Prop := 0 <= head_ r < 2 ^ 64 /\ 0 <= tail_ r < 2 ^ 64.

Lemma slot_set_head r i v r' : slot_set r i v = Ok r' -> head_ r' = head_ r.
Proof. unfold slot_set. intros H. by apply bind_Ok_inv in H as (? & _ & [= <-]). Qed.

Lemma push_loop_head h vs : forall r i r', push_loop r h i vs = Ok r' -> head_ r' = head_ r.
Proof.
  induction vs as [|v vs IH]; intros r i r' H; cbn [push_loop] in H; [by injection H as <-|].
  apply bind_Ok_inv in H as (r1 & Hset & H). apply slot_set_head in Hset. apply IH in H. congruence.
Qed.

Lemma try_push_run r v c hi ho b r' : ring64 r -> try_push r v = Ok (b, r') ->
  rtc step (mkConfig r PIdle c hi ho) (mkConfig r' PIdle c (if b then hi ++ [v] else hi) ho).
Proof.
  intros [Hh Ht] H. unfold try_push in H. cbv zeta in H.
  assert (forall r0, (let* r := slot_set r0 (head_ r0) v in
    Ok (true, r <| head_ := add64 (head_ r0) 1 |>)) = Ok (b, r') -> 0 <= head_ r0 < 2 ^ 64 ->
    rtc step (mkConfig r0 (PWriting [v] 0) c hi ho) (mkConfig r' PIdle c (if b then hi ++ [v] else hi) ho))
    as Hstore.
  { intros r0 H0 Hr0. apply bind_Ok_inv in H0 as (r1 & Hset & [= <- <-]).
    apply (push_put_run r0 c hi ho [v] r1); [|by eapply slot_set_head].
    cbn [push_loop]. unfold add64. rewrite Z.add_0_r, u64_small, Hset by lia. done. }
  eapply rtc_l; [apply (p_push_start _ _ _ _ v)|].
  destruct (capacity_ r <=? sub64 (head_ r) (cached_tail_ r)); [|by apply Hstore].
  eapply rtc_l; [by apply p_push_reload, not_older_now|].
  cbn [cached_tail_ setf capacity_] in H.
  destruct (capacity_ r <=? sub64 (head_ r) (tail_ r)); [|by apply Hstore].
  injection H as <- <-. apply rtc_refl.
Qed.

Lemma try_push_bulk_run r vs c hi ho n r' : ring64 r -> size vs < 2 ^ 64 ->
  0 <= n <= size vs -> try_push_bulk r vs = Ok (n, r') ->
  rtc step (mkConfig r PIdle c hi ho) (mkConfig r' PIdle c (hi ++ take (Z.to_nat n) vs) ho).
Proof.
  intros [Hh Ht] Hvs Hn H. unfold try_push_bulk in H. cbv zeta in H.
  eapply rtc_l; [by apply (p_bulk_start _ _ _ _ vs)|].
  destruct (_ <? size vs) eqn:E.
  - eapply rtc_l; [by apply p_bulk_reload, not_older_now|]. cbn [setf capacity_] in H.
    set (fs := sub64 (capacity_ r) (sub64 (head_ r) (tail_ r))) in *.
    apply bind_Ok_inv in H as (r1 & Hl & [= Hn' <-]). rewrite Hn' in Hl. rewrite Hn'.
    assert (take (Z.to_nat fs) vs = take (Z.to_nat n) vs) as ->.
    { case_if_in Hn'; [by rewrite Hn'|]. rewrite !take_ge; [done|unfold size in *; lia..]. }
    pose proof (push_loop_head _ _ _ _ _ Hl) as Hh1.
    pose proof (push_put_run (r <| cached_tail_ := tail_ r |>) c hi ho _ r1 Hl Hh1) as Hrun.
    by rewrite size_take in Hrun by lia.
  - apply bind_Ok_inv in H as (r1 & Hl & [= Hn' <-]). subst n.
    rewrite take_ge in * by (unfold size; lia).
    apply (push_put_run r c hi ho vs r1 Hl). by eapply push_loop_head.
Qed.

Lemma take_run r p hi ho n out : 0 <= n ->
  pop_loop r (tail_ r) 0 (Z.to_nat n) = Ok out ->
  rtc step (mkConfig r p (CReading (Z.to_nat n) []) hi ho)
    (mkConfig (r <| tail_ := add64 (tail_ r) n |>) p CIdle hi (ho ++ out)).
Proof.
  intros Hn H. destruct (pop_loop_run p hi ho (Z.to_nat n) (Z.to_nat n) [] r out) as [Hrun Hlen]; [done|done|].
  etrans; [exact Hrun|]. cbn [app].
  pose proof (c_publish r p hi ho (Z.to_nat n) out Hlen) as Hpub. rewrite Z2Nat.id in Hpub by done.
  by apply rtc_once.
Qed.

Lemma try_pop_run r p hi ho o r' : ring64 r -> try_pop r = Ok (o, r') ->
  rtc step (mkConfig r p CIdle hi ho)
    (mkConfig r' p CIdle hi (ho ++ match o with Some x => [x] | None => [] end)).
Proof.
  intros [Hh Ht] H. unfold try_pop in H. cbv zeta in H.
  assert (forall r0, (let* v := slot_get r0 (tail_ r0) in
    Ok (Some v, r0 <| tail_ := add64 (tail_ r0) 1 |>)) = Ok (o, r') -> 0 <= tail_ r0 < 2 ^ 64 ->
    rtc step (mkConfig r0 p (CReading 1 []) hi ho)
      (mkConfig r' p CIdle hi (ho ++ match o with Some x => [x] | None => [] end))) as Htake.
  { intros r0 H0 Hr0. apply bind_Ok_inv in H0 as (v & Hg & [= <- <-]).
    apply (take_run r0 p hi ho 1 [v]); [lia|]. change (Z.to_nat 1) with 1%nat. cbn [pop_loop].
    unfold add64. rewrite Z.add_0_r, u64_small, Hg by lia. done. }
  eapply rtc_l; [apply c_pop_start|].
  destruct (tail_ r =? cached_head_ r); [|by apply Htake].
  eapply rtc_l; [by apply c_pop_reload, not_older_now|]. cbn [setf cached_head_] in H.
  destruct (tail_ r =? head_ r); [|by apply Htake].
  injection H as <- <-. rewrite app_nil_r. apply rtc_refl.
Qed.

Lemma try_pop_bulk_run r p hi ho max out r' : ring64 r -> 0 <= max < 2 ^ 64 ->
  try_pop_bulk r max = Ok (out, r') ->
  rtc step (mkConfig r p CIdle hi ho) (mkConfig r' p CIdle hi (ho ++ out)).
Proof.
  intros [Hh Ht] Hmax H. unfold try_pop_bulk in H. cbv zeta in H.
  assert (forall r0 av, (let* out := pop_loop r0 (tail_ r0) 0 (Z.to_nat (if max <? av then max else av)) in
    Ok (out, r0 <| tail_ := add64 (tail_ r0) (if max <? av then max else av) |>)) = Ok (out, r') -> 0 <= av ->
    rtc step (mkConfig r0 p (CReading (Z.to_nat (Z.min max av)) []) hi ho)
      (mkConfig r' p CIdle hi (ho ++ out))) as Htake.
  { intros r0 av H0 Hav. replace (if max <? av then max else av) with (Z.min max av) in H0 by (case_if; lia).
    apply bind_Ok_inv in H0 as (o & Hl & [= <- <-]). apply take_run; [lia|done]. }
  eapply rtc_l; [by apply (c_bulk_start _ _ _ _ max)|].
  destruct (tail_ r =? cached_head_ r); [|apply Htake; [done|apply u64_range]].
  eapply rtc_l; [by apply c_bulk_reload, not_older_now|].
  destruct (tail_ r =? head_ r); [|apply (Htake (r <| cached_head_ := head_ r |>)); [done|apply u64_range]].
  injection H as <- <-. rewrite app_nil_r. apply rtc_refl.
Qed.
End Runs.

(** ** Properties *)

Section Properties.
Context {T : Type}.

(** C7: Interleaved producer and consumer form a FIFO.  In every reachable
    state, under every interleaving of the index loads (stale ones included),
    slot accesses and index stores of single and bulk operations, and across
    the wrap of the 64-bit indices, what was pushed is what was popped
    followed by at most [capacity] unread elements, which are exactly the
    slots from the consumer index on: nothing is lost, duplicated or
    reordered. *)
Theorem spsc_fifo (dflt : T) cap s :
  cap <= 2 ^ 63 -> reachable dflt cap s ->
  exists unread, pushed s = popped s ++ unread /\ size unread <= capacity_ (ring s) /\
    size_approx (ring s) = size unread /\
    forall i x, unread !! i = Some x ->
      slot_get (ring s) (add64 (tail_ (ring s)) (Z.of_nat i)) = Ok x.
Proof.
  intros Hc Hs. destruct (reachable_inv dflt cap s Hc Hs) as (_ & q & H & Tl & CT & CH & k & [Hr Hh Hsz Hq _ _]).
  pose proof (ri_order _ _ _ _ _ _ Hr) as Ho. pose proof (pow63 _ (ri_k _ _ _ _ _ _ Hr)) as Hk.
  exists q. rewrite (ri_cap _ _ _ _ _ _ Hr). split_and!; [done|lia| |].
  - unfold size_approx. rewrite (ri_tail _ _ _ _ _ _ Hr), (occupancy _ _ _ _ _ _ Tl Hr) by lia. lia.
  - intros i x Hi. apply (slot_get_holds _ _ _ _ _ _ q i x Hr); [|done]. by eapply holds_app_l.
Qed.

(** C27: The two sides never touch the same slot.  Whenever the producer is
    about to write a slot and the consumer about to read one, both accesses
    are inside the slot array and they address different slots: the plain
    (non-atomic) slot accesses of the two threads do not race. *)
Theorem spsc_race_free (dflt : T) cap r vs i v n acc hi ho :
  cap <= 2 ^ 63 -> reachable dflt cap (mkConfig r (PWriting vs i) (CReading n acc) hi ho) ->
  vs !! i = Some v -> (length acc < n)%nat ->
  let w := Z.land (add64 (head_ r) (Z.of_nat i)) (mask_ r) in
  let d := Z.land (add64 (tail_ r) (size acc)) (mask_ r) in
  0 <= w < size (slots_ r) /\ 0 <= d < size (slots_ r) /\ w <> d.
Proof.
  intros Hc Hs Hi Hn w d.
  destruct (reachable_inv dflt cap _ Hc Hs) as (_ & q & H & Tl & CT & CH & k & [Hr Hh Hsz Hq Hp Hco]).
  cbn [ring prod cons_ pushed popped prod_ok cons_ok] in *.
  pose proof (ri_order _ _ _ _ _ _ Hr) as Ho. pose proof (pow63 _ (ri_k _ _ _ _ _ _ Hr)) as Hk.
  pose proof (lookup_lt_Some _ _ _ Hi). unfold w, d, add64.
  rewrite (ri_head _ _ _ _ _ _ Hr), (ri_tail _ _ _ _ _ _ Hr), !u64_add_u64_l.
  rewrite !(slot_index r _ _ _ _ _ _ Hr), (ri_slots _ _ _ _ _ _ Hr), (ri_cap _ _ _ _ _ _ Hr).
  split_and!; [apply Z.mod_pos_bound; lia..|]. unfold size in *. intros E.
  apply mod_inj_interval in E; lia.
Qed.

(** Run without interference, the ring operations implement a bounded
    FIFO queue: on a ring that represents the queue [q], [try_push] appends
    or refuses exactly when [q] fills the capacity, [try_pop] takes the front
    element or reports empty, [try_pop_bulk] takes a prefix of at most [max]
    elements (empty only if [max] is 0 or [q] is empty), and [try_push_bulk]
    accepts exactly what fits; none of them reaches an undefined access. *)
Theorem spsc_refines_queue (r : SpscRing T) q v (vs : list T) max :
  repr r q -> 0 <= max < 2 ^ 64 -> size vs < 2 ^ 64 ->
  ensures (try_push r v) (fun '(ok, r') => capacity_ r' = capacity_ r /\
    if size q <? capacity_ r then ok = true /\ repr r' (q ++ [v]) else ok = false /\ repr r' q) /\
  ensures (try_pop r) (fun '(o, r') => capacity_ r' = capacity_ r /\
    match q with [] => o = None /\ repr r' [] | x :: q => o = Some x /\ repr r' q end) /\
  ensures (try_pop_bulk r max) (fun '(out, r') => capacity_ r' = capacity_ r /\
    exists rest, q = out ++ rest /\ repr r' rest /\ size out <= max /\
      (out = [] -> max = 0 \/ q = [])) /\
  ensures (try_push_bulk r vs) (fun '(n, r') => capacity_ r' = capacity_ r /\
    n = Z.min (capacity_ r - size q) (size vs) /\ repr r' (q ++ take (Z.to_nat n) vs)).
Proof.
  intros. split_and!; auto using try_push_repr, try_pop_repr, try_pop_bulk_repr, try_push_bulk_repr.
Qed.
End Properties.

(** ** Witnesses: capacity 2, one element published and half read *)

Definition sample_ring : SpscRing Z := mkSpscRing 2 1 [7; 0] 1 0 0 1.
Definition sample_conf : config Z := mkConfig sample_ring (PWriting [8] 0) (CReading 1 []) [7] [].

Lemma sample_reachable : reachable 0 2 sample_conf.
Proof.
  set (r0 := mkSpscRing 2 1 [0; 0] 0 0 0 0). set (r1 := mkSpscRing 2 1 [7; 0] 0 0 0 0).
  set (r2 := mkSpscRing 2 1 [7; 0] 1 0 0 0).
  assert (not_older (cached_head_ r2) (head_ r2) 1) as Hno by by vm_compute.
  assert (slot_set r0 (add64 (head_ r0) (Z.of_nat 0)) 7 = Ok r1) as Hset by by vm_compute.
  assert (reachable 0 2 (mkConfig r0 PIdle CIdle [] [])) as H0 by (apply reach_init; by vm_compute).
  pose proof (reach_step 0 2 _ _ H0 (p_push_start _ _ _ _ 7)) as H1. vm_compute in H1.
  pose proof (reach_step 0 2 _ _ H1 (p_write r0 _ _ _ [7] 0 7 r1 eq_refl Hset)) as H2. vm_compute in H2.
  pose proof (reach_step 0 2 _ _ H2 (p_publish r1 _ _ _ [7])) as H3. vm_compute in H3.
  pose proof (reach_step 0 2 _ _ H3 (c_pop_start r2 _ _ _)) as H4. vm_compute in H4.
  pose proof (reach_step 0 2 _ _ H4 (c_pop_reload r2 _ _ _ 1 Hno)) as H5. vm_compute in H5.
  pose proof (reach_step 0 2 _ _ H5 (p_push_start sample_ring _ _ _ 8)) as H6. vm_compute in H6.
  exact H6.
Qed.

Lemma spsc_fifo_witness :
  exists unread, pushed sample_conf = popped sample_conf ++ unread /\
    size unread <= capacity_ (ring sample_conf) /\ size_approx (ring sample_conf) = size unread /\
    (forall i x, unread !! i = Some x ->
      slot_get (ring sample_conf) (add64 (tail_ (ring sample_conf)) (Z.of_nat i)) = Ok x).
Proof. apply (spsc_fifo 0 2 sample_conf); [lia|apply sample_reachable]. Defined.

Lemma spsc_race_free_witness :
  let w := Z.land (add64 (head_ sample_ring) (Z.of_nat 0)) (mask_ sample_ring) in
  let d := Z.land (add64 (tail_ sample_ring) (size (@nil Z))) (mask_ sample_ring) in
  0 <= w < size (slots_ sample_ring) /\ 0 <= d < size (slots_ sample_ring) /\ w <> d.
Proof.
  apply (spsc_race_free 0 2 sample_ring [8] 0 8 1 [] [7] []); [lia|apply sample_reachable|done|cbn; lia].
Defined.

Lemma sample_repr : repr sample_ring [7].
Proof.
  exists 1, 0, 0, 1, 1. split_and!; [constructor; cbn; try done; lia|done|].
  intros i x Hi. destruct i as [|i]; [|done]. injection Hi as <-. done.
Qed.

Lemma spsc_refines_queue_witness :
  ensures (try_push sample_ring 8) (fun '(ok, r') => capacity_ r' = capacity_ sample_ring /\
    if size [7] <? capacity_ sample_ring then ok = true /\ repr r' ([7] ++ [8]) else ok = false /\ repr r' [7]) /\
  ensures (try_pop sample_ring) (fun '(o, r') => capacity_ r' = capacity_ sample_ring /\
    o = Some 7 /\ repr r' []) /\
  ensures (try_pop_bulk sample_ring 5) (fun '(out, r') => capacity_ r' = capacity_ sample_ring /\
    exists rest, [7] = out ++ rest /\ repr r' rest /\ size out <= 5 /\ (out = [] -> 5 = 0 \/ [7] = [])) /\
  ensures (try_push_bulk sample_ring [1; 2]) (fun '(n, r') => capacity_ r' = capacity_ sample_ring /\
    n = Z.min (capacity_ sample_ring - size [7]) (size [1; 2]) /\ repr r' ([7] ++ take (Z.to_nat n) [1; 2])).
Proof. apply (spsc_refines_queue sample_ring [7] 8 [1; 2] 5); [apply sample_repr|lia|by vm_compute]. Defined.
