(* ===== verification/FlatHash.v ===== *)
(** * include/gtpm/flat_hash.hpp: the open-addressing TEID table

    Keys and values live in parallel arrays; probing is linear, deletion is by
    backward shift.  A returned [Value*] is a [ptr] into the table, read with
    [deref].  The class [KeyTable] is what the table promises to the metering
    engine: a finite map that refuses an insert only when it holds at least as
    many keys as its capacity. *)

From S2P Require Import Prelude.

(** ** Interface: a finite map of bounded size *)

Class KeyTable (V M : Type) := {
  kt_find : M -> Z -> res (option V * M);
  kt_insert : M -> Z -> V -> res (bool * M);
  kt_erase : M -> Z -> res (bool * M);
  kt_cap : M -> Z;
  kt_size : M -> Z;
  kt_repr : M -> gmap Z V -> Prop;
  kt_find_spec t m k : kt_repr t m -> 0 <= k < 2 ^ 32 ->
    ensures (kt_find t k) (fun '(o, t') => o = m !! k /\ kt_repr t' m /\ kt_cap t' = kt_cap t);
  kt_insert_spec t m k v : kt_repr t m -> 0 <= k < 2 ^ 32 ->
    ensures (kt_insert t k v) (fun '(ok, t') => kt_cap t' = kt_cap t /\
      if negb ok then kt_cap t <= Z.of_nat (base.size m) /\ kt_repr t' m
      else kt_repr t' (<[k := v]> m));
  kt_erase_spec t m k : kt_repr t m -> 0 <= k < 2 ^ 32 -> Z.of_nat (base.size m) < kt_cap t ->
    ensures (kt_erase t k) (fun '(ok, t') => kt_cap t' = kt_cap t /\
      ok = bool_decide (is_Some (m !! k)) /\ kt_repr t' (delete k m))
}.

Definition kEmptyKey : Z := 0xFFFFFFFF.

Definition hash_u32 (key : Z) : Z :=
  let x := key in
  let x := Z.lxor x (Z.shiftr x 16) in
  let x := u32 (x * 0x7feb352d) in
  let x := Z.lxor x (Z.shiftr x 15) in
  let x := u32 (x * 0x846ca68b) in
  Z.lxor x (Z.shiftr x 16).

Record FlatHashU32 (V : Type) := mkFlatHash {
  fh_capacity_ : Z;
  fh_mask_ : Z;
  keys_ : list Z;
  values_ : list V;
  fh_size_ : Z;
  probes_ : Z;
  lookups_ : Z;
  sentinel_value_ : V;
  sentinel_used_ : bool
}.
Arguments mkFlatHash {V}.
Arguments fh_capacity_ {V}.
Arguments fh_mask_ {V}.
Arguments keys_ {V}.
Arguments values_ {V}.
Arguments fh_size_ {V}.
Arguments probes_ {V}.
Arguments lookups_ {V}.
Arguments sentinel_value_ {V}.
Arguments sentinel_used_ {V}.
#[export] Instance FlatHashU32_eta V : Eta (FlatHashU32 V) := fun h =>
  mkFlatHash (fh_capacity_ h) (fh_mask_ h) (keys_ h) (values_ h) (fh_size_ h) (probes_ h)
    (lookups_ h) (sentinel_value_ h) (sentinel_used_ h).

(** A [Value*]: [&values_[i]] or [&sentinel_value_]. *)
Inductive ptr := PSlot (i : Z) | PSentinel.

Definition fh_round_up_pow2 (v : Z) : res Z := if has_single_bit v then Ok v else bit_ceil v.

Section Table.
Context {V : Type}.
Implicit Types h : FlatHashU32 V.

(** The constructor; [dflt] is the value-initialised [Value{}]. *)
Definition FlatHashU32_new (dflt : V) (capacity : Z) : res (FlatHashU32 V) :=
  let* c := fh_round_up_pow2 (if capacity <? 8 then 8 else capacity) in
  Ok (mkFlatHash c (sub64 c 1) (replicate (Z.to_nat c) kEmptyKey) (replicate (Z.to_nat c) dflt)
        0 0 0 dflt false).

Definition fh_capacity h : Z := fh_capacity_ h.
Definition fh_size h : Z := add64 (fh_size_ h) (if sentinel_used_ h then 1 else 0).
Definition fh_empty h : bool := fh_size h =? 0.
Definition probe_count h : Z := probes_ h.
Definition lookup_count h : Z := lookups_ h.

Definition deref h (p : ptr) : res V :=
  match p with PSlot i => at_ (values_ h) i | PSentinel => Ok (sentinel_value_ h) end.

(** The [probe] loops run [mask_ + 1] times: [n] iterations are left. *)
Fixpoint find_loop (n : nat) h (key idx : Z) : res (option ptr * FlatHashU32 V) :=
  match n with
  | O => Ok (None, h)
  | S n =>
      let h := h <| probes_ ::= fun p => add64 p 1 |> in
      let* k := at_ (keys_ h) idx in
      if k =? key then Ok (Some (PSlot idx), h) else
      if k =? kEmptyKey then Ok (None, h) else
      find_loop n h key (Z.land (add64 idx 1) (fh_mask_ h))
  end.

Definition find h (key : Z) : res (option ptr * FlatHashU32 V) :=
  if key =? kEmptyKey then
    Ok (if sentinel_used_ h then Some PSentinel else None, h)
  else
  let h := h <| lookups_ ::= fun l => add64 l 1 |> in
  let idx := Z.land (hash_u32 key) (fh_mask_ h) in
  find_loop (Z.to_nat (fh_mask_ h + 1)) h key idx.

Definition contains h (key : Z) : res bool :=
  let* (p, _) := find h key in Ok (match p with Some _ => true | None => false end).

Fixpoint insert_loop (n : nat) h (key : Z) (value : V) (idx : Z) : res (bool * FlatHashU32 V) :=
  match n with
  | O => Ok (false, h)
  | S n =>
      let h := h <| probes_ ::= fun p => add64 p 1 |> in
      let* k := at_ (keys_ h) idx in
      if k =? kEmptyKey then
        let* ks := set_ (keys_ h) idx key in
        let* vs := set_ (values_ h) idx value in
        Ok (true, h <| keys_ := ks |> <| values_ := vs |> <| fh_size_ ::= fun s => add64 s 1 |>)
      else if k =? key then
        let* vs := set_ (values_ h) idx value in
        Ok (true, h <| values_ := vs |>)
      else insert_loop n h key value (Z.land (add64 idx 1) (fh_mask_ h))
  end.

Definition insert h (key : Z) (value : V) : res (bool * FlatHashU32 V) :=
  if key =? kEmptyKey then
    Ok (true, h <| sentinel_value_ := value |> <| sentinel_used_ := true |>)
  else if fh_capacity_ h <=? fh_size_ h then Ok (false, h)
  else
  insert_loop (Z.to_nat (fh_mask_ h + 1)) h key value (Z.land (hash_u32 key) (fh_mask_ h)).

(** The [while] loop of [remove_at]; [next] is the slot under test. *)
Fixpoint shift_loop (fuel : nat) h (hole next : Z) : res (FlatHashU32 V) :=
  match fuel with
  | O => Fuel
  | S fuel =>
      let* k := at_ (keys_ h) next in
      if k =? kEmptyKey then
        let* ks := set_ (keys_ h) hole kEmptyKey in
        Ok (h <| keys_ := ks |>)
      else
      let ideal := Z.land (hash_u32 k) (fh_mask_ h) in
      let dist_hole := Z.land (sub64 next hole) (fh_mask_ h) in
      let dist_ideal := Z.land (sub64 next ideal) (fh_mask_ h) in
      let next' := Z.land (add64 next 1) (fh_mask_ h) in
      if dist_hole <=? dist_ideal then
        let* ks := set_ (keys_ h) hole k in
        let* v := at_ (values_ h) next in
        let* vs := set_ (values_ h) hole v in
        shift_loop fuel (h <| keys_ := ks |> <| values_ := vs |>) next next'
      else shift_loop fuel h hole next'
  end.

Definition remove_at (fuel : nat) h (hole : Z) : res (FlatHashU32 V) :=
  shift_loop fuel h hole (Z.land (add64 hole 1) (fh_mask_ h)).

Fixpoint erase_loop (n fuel : nat) h (key idx : Z) : res (bool * FlatHashU32 V) :=
  match n with
  | O => Ok (false, h)
  | S n =>
      let* k := at_ (keys_ h) idx in
      if k =? kEmptyKey then Ok (false, h) else
      if k =? key then
        let* h := remove_at fuel h idx in
        Ok (true, h <| fh_size_ ::= fun s => sub64 s 1 |>)
      else erase_loop n fuel h key (Z.land (add64 idx 1) (fh_mask_ h))
  end.

(** [fuel] bounds the iterations of [remove_at]'s loop: as many as the table
    has slots are enough unless the table is full ([erase_correct] below), and
    no number is enough when it is ([erase_full_diverges]). *)
Definition erase_fuel (fuel : nat) h (key : Z) : res (bool * FlatHashU32 V) :=
  if key =? kEmptyKey then
    Ok (sentinel_used_ h, h <| sentinel_used_ := false |>)
  else erase_loop (Z.to_nat (fh_mask_ h + 1)) fuel h key (Z.land (hash_u32 key) (fh_mask_ h)).

Definition erase h (key : Z) : res (bool * FlatHashU32 V) :=
  erase_fuel (Z.to_nat (fh_capacity_ h)) h key.

Definition clear h : FlatHashU32 V :=
  h <| keys_ := replicate (length (keys_ h)) kEmptyKey |> <| fh_size_ := 0 |>
    <| sentinel_used_ := false |>.

Definition reset_stats h : FlatHashU32 V := h <| probes_ := 0 |> <| lookups_ := 0 |>.

(** [for_each]: the entries in visiting order. *)
Definition for_each_entries h : list (Z * V) :=
  List.filter (fun e => negb (e.1 =? kEmptyKey)) (zip (keys_ h) (values_ h))
  ++ (if sentinel_used_ h then [(kEmptyKey, sentinel_value_ h)] else []).

(** [find] followed by a read through the pointer, as the engine uses it. *)
Definition find_value h (key : Z) : res (option V * FlatHashU32 V) :=
  let* (p, h) := find h key in
  match p with
  | None => Ok (None, h)
  | Some p => let* v := deref h p in Ok (Some v, h)
  end.
End Table.

(** ** Invariant

    The key array is read as a function of period [capacity] on [Z]: position
    [j] is slot [j mod capacity].  [dist k j] is how far position [j] is from
    the ideal slot of key [k]. *)

Definition kat (keys : list Z) (cap j : Z) : Z := nth (Z.to_nat (j mod cap)) keys kEmptyKey.
Definition dist (cap k j : Z) : Z := (j - hash_u32 k) mod cap.
Definition live (k : Z) : bool := negb (k =? kEmptyKey).
Arguments live : simpl never.
Lemma live_ne k : k <> kEmptyKey -> live k = true.
Proof. intros. unfold live. by rewrite (proj2 (Z.eqb_neq _ _)). Qed.
Definition nlive (keys : list Z) : Z := size (List.filter live keys).

Definition distinct_keys (keys : list Z) (cap : Z) : Prop :=
  forall i j, kat keys cap i = kat keys cap j -> kat keys cap i <> kEmptyKey -> i mod cap = j mod cap.

(** No gap between an element and its ideal slot. *)
Definition probe_ok (keys : list Z) (cap : Z) : Prop :=
  forall j e, kat keys cap j <> kEmptyKey -> 1 <= e <= dist cap (kat keys cap j) j ->
    kat keys cap (j - e) <> kEmptyKey.

Record table_wf {V} (h : FlatHashU32 V) (b : Z) : Prop := {
  tw_b : 3 <= b <= 63;
  tw_cap : fh_capacity_ h = 2 ^ b;
  tw_mask : fh_mask_ h = 2 ^ b - 1;
  tw_keys : size (keys_ h) = 2 ^ b;
  tw_values : size (values_ h) = 2 ^ b;
  tw_distinct : distinct_keys (keys_ h) (2 ^ b);
  tw_probe : probe_ok (keys_ h) (2 ^ b);
  tw_size : fh_size_ h = nlive (keys_ h)
}.

(** Key [k] has value [v] in the array slot of position [j]. *)
Definition entry_at {V} (h : FlatHashU32 V) (k : Z) (v : V) (j : Z) : Prop :=
  kat (keys_ h) (fh_capacity_ h) j = k /\ values_ h !! Z.to_nat (j mod fh_capacity_ h) = Some v.
Definition entry {V} (h : FlatHashU32 V) (k : Z) (v : V) : Prop :=
  (k = kEmptyKey /\ sentinel_used_ h = true /\ sentinel_value_ h = v) \/
  (k <> kEmptyKey /\ exists j, entry_at h k v j).

Definition table_repr {V} (h : FlatHashU32 V) (m : gmap Z V) : Prop :=
  (exists b, table_wf h b) /\ forall k v, m !! k = Some v <-> entry h k v.

Section Array.
Context (keys : list Z) (b : Z) (Hb : 3 <= b <= 63) (Hkeys : size keys = 2 ^ b).
Let cap := 2 ^ b.

Lemma cap_bounds : 8 <= cap <= 2 ^ 63.
Proof. unfold cap. split; [change 8 with (2 ^ 3)|]; apply Z.pow_le_mono_r; lia. Qed.

Lemma kat_at j : at_ keys (j mod cap) = Ok (kat keys cap j).
Proof.
  pose proof cap_bounds. pose proof (Z.mod_pos_bound j cap ltac:(lia)).
  destruct (lookup_lt_is_Some_2 keys (Z.to_nat (j mod cap))) as [k Hk]; [unfold size in *; lia|].
  rewrite (at_lookup keys (j mod cap) k) by (done || lia). f_equal. unfold kat. symmetry.
  by apply nth_lookup_Some.
Qed.

Lemma kat_mod j : kat keys cap (j mod cap) = kat keys cap j.
Proof. pose proof cap_bounds. unfold kat. by rewrite Z.mod_mod by lia. Qed.

Lemma kat_add_cap j : kat keys cap (j + cap) = kat keys cap j.
Proof. pose proof cap_bounds. unfold kat. by rewrite <- (Z_mod_plus_full j 1 cap), Z.mul_1_l. Qed.

Lemma kat_eq i j : i mod cap = j mod cap -> kat keys cap i = kat keys cap j.
Proof. intros H. rewrite <- (kat_mod i), H. apply kat_mod. Qed.

Lemma kat_insert i j k : kat (<[Z.to_nat (i mod cap) := k]> keys) cap j =
  if decide (i mod cap = j mod cap) then k else kat keys cap j.
Proof.
  pose proof cap_bounds. pose proof (Z.mod_pos_bound i cap ltac:(lia)).
  pose proof (Z.mod_pos_bound j cap ltac:(lia)). unfold kat, size in *. case_decide as E.
  - rewrite E. apply nth_lookup_Some. apply list_lookup_insert_eq. lia.
  - rewrite !nth_lookup. rewrite list_lookup_insert_ne by lia. done.
Qed.

Lemma dist_bounds k j : 0 <= dist cap k j < cap.
Proof. pose proof cap_bounds. apply Z.mod_pos_bound. lia. Qed.

(** The element's ideal slot is [dist] positions back. *)
Lemma dist_start k j : (j - dist cap k j) mod cap = hash_u32 k mod cap.
Proof.
  pose proof cap_bounds. unfold dist. rewrite Zminus_mod_idemp_r. f_equal. lia.
Qed.

Lemma dist_unique k j d : 0 <= d < cap -> (j - d) mod cap = hash_u32 k mod cap -> dist cap k j = d.
Proof.
  intros Hd E. unfold dist. rewrite Zminus_mod, <- E, <- Zminus_mod.
  replace (j - (j - d)) with d by lia. by apply Z.mod_small.
Qed.

Lemma mod_succ j : (j mod cap + 1) mod cap = (j + 1) mod cap.
Proof. by rewrite Zplus_mod_idemp_l. Qed.

Lemma land_cap n : Z.land (u64 n) (cap - 1) = n mod cap.
Proof. apply land_mask. lia. Qed.

Lemma land_hash k : Z.land (hash_u32 k) (cap - 1) = hash_u32 k mod cap.
Proof.
  unfold cap. replace (2 ^ b - 1) with (Z.ones b) by (rewrite Z.ones_equiv; lia).
  apply Z.land_ones. lia.
Qed.

(** First stop of a probe sequence: the key or a gap. *)
Definition hit (key j : Z) : Prop := kat keys cap j = key \/ kat keys cap j = kEmptyKey.

Lemma first_hit key s n : (exists p, 0 <= p < Z.of_nat n /\ hit key (s + p) /\
    forall e, 0 <= e < p -> ~ hit key (s + e)) \/
  (forall p, 0 <= p < Z.of_nat n -> ~ hit key (s + p)).
Proof.
  assert (forall j, Decision (hit key j)) as Hdec by (intros; unfold hit; apply _).
  induction n as [|n [(p & Hp & Hh & Hf)|IH]].
  - right. intros. lia.
  - left. exists p. split_and!; auto; lia.
  - destruct (Hdec (s + Z.of_nat n)) as [Hh|Hh].
    + left. exists (Z.of_nat n). split_and!; auto; lia.
    + right. intros p Hp. destruct (decide (p = Z.of_nat n)) as [->|]; [done|]. apply IH. lia.
Qed.

(** A stored key is the first hit of its own probe sequence. *)
Lemma present_first_hit key j : probe_ok keys cap -> distinct_keys keys cap ->
  key <> kEmptyKey -> kat keys cap j = key ->
  exists p, 0 <= p < cap /\ (hash_u32 key mod cap + p) mod cap = j mod cap /\
    (forall e, 0 <= e < p -> ~ hit key (hash_u32 key mod cap + e)).
Proof.
  intros Hp Hd Hk Hj. pose proof cap_bounds. pose proof (dist_bounds key j).
  exists (dist cap key j). split_and!; try lia.
  - unfold dist. rewrite Zplus_mod_idemp_l, Zplus_mod_idemp_r. f_equal. lia.
  - intros e He. assert (kat keys cap (hash_u32 key mod cap + e) = kat keys cap (j - (dist cap key j - e))) as E.
    { apply kat_eq. rewrite Zplus_mod_idemp_l.
      replace (j - (dist cap key j - e)) with (j - dist cap key j + e) by lia.
      rewrite <- (Zplus_mod_idemp_l (j - _)), dist_start. by rewrite Zplus_mod_idemp_l. }
    intros [Heq|Heq]; rewrite E in Heq.
    + assert ((j - (dist cap key j - e)) mod cap = j mod cap) as Hm by (apply Hd; congruence).
      apply mod_inj_interval in Hm; lia.
    + apply (Hp j (dist cap key j - e)); [by rewrite Hj|rewrite Hj; lia|done].
Qed.

(** A table with fewer live keys than slots has a gap in every window. *)
Lemma gap_exists s : nlive keys < cap -> exists p, 0 <= p < cap /\ kat keys cap (s + p) = kEmptyKey.
Proof.
  intros Hn. pose proof cap_bounds.
  assert (exists i, keys !! i = Some kEmptyKey) as [i Hi].
  { destruct (list_find (fun k => k = kEmptyKey) keys) as [[i k]|] eqn:E.
    - apply list_find_Some in E as (Hi & -> & _). by exists i.
    - apply list_find_None in E. exfalso. unfold nlive in Hn.
      assert (List.filter live keys = keys) as Hf.
      { clear -E. induction keys as [|k l IH]; [done|]. inversion E; subst. cbn. unfold live at 1.
        rewrite (proj2 (Z.eqb_neq _ _)) by done. cbn. f_equal. auto. }
      rewrite Hf in Hn. unfold cap in *. lia. }
  pose proof (lookup_lt_Some _ _ _ Hi). exists ((Z.of_nat i - s) mod cap).
  split; [apply Z.mod_pos_bound; lia|]. unfold kat.
  rewrite Zplus_mod_idemp_r. replace (s + (Z.of_nat i - s)) with (Z.of_nat i) by lia.
  unfold size in *. rewrite Z.mod_small, Nat2Z.id by (unfold cap; lia).
  by apply nth_lookup_Some.
Qed.

Lemma nlive_insert i k k0 : keys !! i = Some k0 ->
  nlive (<[i := k]> keys) = nlive keys + (if live k then 1 else 0) - (if live k0 then 1 else 0).
Proof.
  clear. unfold nlive. revert i. induction keys as [|x l IH]; intros [|i] Hi; try done.
  - injection Hi as ->. change (<[0%nat := k]> (k0 :: l)) with (k :: l). cbn [List.filter].
    destruct (live k), (live k0); rewrite ?size_cons; lia.
  - change (<[S i := k]> (x :: l)) with (x :: <[i := k]> l). specialize (IH i Hi). cbn [List.filter].
    destruct (live x); rewrite ?size_cons; lia.
Qed.
End Array.

Section Loops.
Context {V : Type}.
Implicit Types h : FlatHashU32 V.

(** Equal but for the statistics. *)
Definition stats_only h h' : Prop :=
  exists pr lk, h' = h <| probes_ := pr |> <| lookups_ := lk |>.

Lemma stats_only_refl h : stats_only h h.
Proof. exists (probes_ h), (lookups_ h). by destruct h. Qed.
Lemma stats_only_trans h1 h2 h3 : stats_only h1 h2 -> stats_only h2 h3 -> stats_only h1 h3.
Proof. intros (? & ? & ->) (? & ? & ->). eexists _, _. reflexivity. Qed.
Lemma stats_only_probes h f : stats_only h (h <| probes_ ::= f |>).
Proof. exists (f (probes_ h)), (lookups_ h). by destruct h. Qed.
Lemma stats_only_lookups h f : stats_only h (h <| lookups_ ::= f |>).
Proof. exists (probes_ h), (f (lookups_ h)). by destruct h. Qed.

(** How a probe sequence from position [s] with [n] slots left ends. *)
Inductive probe_end (keys : list Z) (b key s : Z) (n : nat) : option Z -> Prop :=
| pe_hit p : 0 <= p < Z.of_nat n -> hit keys b key (s + p) ->
    (forall e, 0 <= e < p -> ~ hit keys b key (s + e)) -> probe_end keys b key s n (Some p)
| pe_none : (forall p, 0 <= p < Z.of_nat n -> ~ hit keys b key (s + p)) ->
    probe_end keys b key s n None.

Lemma probe_end_here keys b key s n : hit keys b key s -> probe_end keys b key s (S n) (Some 0).
Proof. intros. constructor; [lia|by rewrite Z.add_0_r|lia]. Qed.

Lemma probe_end_next keys b key s n o : ~ hit keys b key s -> probe_end keys b key (s + 1) n o ->
  probe_end keys b key s (S n) (option_map (Z.add 1) o).
Proof.
  intros Hs [p Hp Hh Hf|Hf]; cbn [option_map]; constructor; try lia.
  - by replace (s + (1 + p)) with (s + 1 + p) by lia.
  - intros e He. destruct (decide (e = 0)) as [->|]; [by rewrite Z.add_0_r|].
    replace (s + e) with (s + 1 + (e - 1)) by lia. apply Hf. lia.
  - intros p Hp. destruct (decide (p = 0)) as [->|]; [by rewrite Z.add_0_r|].
    replace (s + p) with (s + 1 + (p - 1)) by lia. apply Hf. lia.
Qed.

Lemma probe_end_Some keys b key s n p : probe_end keys b key s n (Some p) ->
  0 <= p < Z.of_nat n /\ hit keys b key (s + p) /\ (forall e, 0 <= e < p -> ~ hit keys b key (s + e)).
Proof. by inversion 1. Qed.

(** What the invariant says about the masks of a table. *)
Lemma step_index h b s : table_wf h b ->
  Z.land (add64 (s mod 2 ^ b) 1) (fh_mask_ h) = (s + 1) mod 2 ^ b.
Proof.
  intros []. unfold add64. rewrite tw_mask0, land_cap by lia. by apply mod_succ.
Qed.

Lemma find_loop_spec b key : forall n h s, table_wf h b ->
  ensures (find_loop n h key (s mod 2 ^ b)) (fun '(o, h') => stats_only h h' /\
    exists e, probe_end (keys_ h) b key s n e /\
      o = match e with
          | Some p => if kat (keys_ h) (2 ^ b) (s + p) =? key
                      then Some (PSlot ((s + p) mod 2 ^ b)) else None
          | None => None
          end).
Proof.
  induction n as [|n IH]; intros h s Hwf; cbn [find_loop].
  { apply ensures_Ok. split; [apply stats_only_refl|]. exists None. split; [constructor; lia|done]. }
  set (h1 := h <| probes_ ::= _ |>). assert (table_wf h1 b) as Hwf1 by (destruct Hwf; by constructor).
  change (keys_ h1) with (keys_ h).
  rewrite kat_at by apply Hwf. cbn [res_bind].
  destruct (Z.eqb_spec (kat (keys_ h) (2 ^ b) s) key) as [E|E].
  { apply ensures_Ok. split; [apply stats_only_probes|]. exists (Some 0).
    rewrite Z.add_0_r, (proj2 (Z.eqb_eq _ _) E). split; [apply probe_end_here; by left|done]. }
  destruct (Z.eqb_spec (kat (keys_ h) (2 ^ b) s) kEmptyKey) as [E'|E'].
  { apply ensures_Ok. split; [apply stats_only_probes|]. exists (Some 0).
    rewrite Z.add_0_r, (proj2 (Z.eqb_neq _ _) E). split; [apply probe_end_here; by right|done]. }
  rewrite (step_index h1 b s Hwf1).
  eapply ensures_mono; [apply (IH h1 (s + 1) Hwf1)|]. intros [o h'] (Hst & e & Hpe & ->).
  split; [eapply stats_only_trans; [apply stats_only_probes|done]|].
  exists (option_map (Z.add 1) e). split; [apply probe_end_next; [by intros [?|?]|done]|].
  destruct e as [p|]; [|done]. cbn [option_map]. by replace (s + (1 + p)) with (s + 1 + p) by lia.
Qed.

Lemma erase_loop_spec b key fuel : forall n h s, table_wf h b -> key <> kEmptyKey ->
  exists e, probe_end (keys_ h) b key s n e /\
    erase_loop n fuel h key (s mod 2 ^ b) =
      match e with
      | Some p => if kat (keys_ h) (2 ^ b) (s + p) =? key
                  then let* h := remove_at fuel h ((s + p) mod 2 ^ b) in
                       Ok (true, h <| fh_size_ ::= fun s => sub64 s 1 |>)
                  else Ok (false, h)
      | None => Ok (false, h)
      end.
Proof.
  induction n as [|n IH]; intros h s Hwf Hk; cbn [erase_loop].
  { exists None. split; [constructor; lia|done]. }
  rewrite kat_at by apply Hwf. cbn [res_bind].
  destruct (Z.eqb_spec (kat (keys_ h) (2 ^ b) s) kEmptyKey) as [E'|E'].
  { exists (Some 0). rewrite Z.add_0_r, E', (proj2 (Z.eqb_neq _ _)) by done.
    split; [apply probe_end_here; by right|done]. }
  destruct (Z.eqb_spec (kat (keys_ h) (2 ^ b) s) key) as [E|E].
  { exists (Some 0). rewrite Z.add_0_r, (proj2 (Z.eqb_eq _ _) E).
    split; [apply probe_end_here; by left|done]. }
  rewrite (step_index h b s Hwf). destruct (IH h (s + 1) Hwf Hk) as (e & Hpe & ->).
  exists (option_map (Z.add 1) e). split; [apply probe_end_next; [by intros [?|?]|done]|].
  destruct e as [p|]; [|done]. cbn [option_map]. by replace (s + (1 + p)) with (s + 1 + p) by lia.
Qed.

(** What [insert] does to the arrays at position [j]. *)
Definition put h (key : Z) (value : V) (j : Z) : FlatHashU32 V :=
  let i := Z.to_nat (j mod fh_capacity_ h) in
  if kat (keys_ h) (fh_capacity_ h) j =? kEmptyKey
  then h <| keys_ := <[i := key]> (keys_ h) |> <| values_ := <[i := value]> (values_ h) |>
         <| fh_size_ ::= fun s => add64 s 1 |>
  else h <| values_ := <[i := value]> (values_ h) |>.

Lemma insert_loop_spec b key value : forall n h s, table_wf h b -> key <> kEmptyKey ->
  exists e h0, probe_end (keys_ h) b key s n e /\ stats_only h h0 /\
    insert_loop n h key value (s mod 2 ^ b) =
      match e with
      | Some p => Ok (true, put h0 key value (s + p))
      | None => Ok (false, h0)
      end.
Proof.
  induction n as [|n IH]; intros h s Hwf Hk; cbn [insert_loop].
  { exists None, h. split_and!; [constructor; lia|apply stats_only_refl|done]. }
  set (h1 := h <| probes_ ::= _ |>). assert (table_wf h1 b) as Hwf1 by (destruct Hwf; by constructor).
  pose proof (cap_bounds b (tw_b _ _ Hwf)) as Hcb. pose proof (Z.mod_pos_bound s (2 ^ b) ltac:(lia)).
  pose proof (tw_cap _ _ Hwf) as Hcap.
  change (keys_ h1) with (keys_ h). change (values_ h1) with (values_ h).
  rewrite kat_at by apply Hwf. cbn [res_bind].
  assert (stats_only h h1) as Hs1 by apply stats_only_probes.
  destruct (Z.eqb_spec (kat (keys_ h) (2 ^ b) s) kEmptyKey) as [E'|E'].
  { exists (Some 0), h1. split_and!; [apply probe_end_here; by right|done|].
    rewrite !set_Ok by (rewrite ?(tw_keys _ _ Hwf), ?(tw_values _ _ Hwf); lia). cbn [res_bind].
    unfold put. rewrite Z.add_0_r. change (fh_capacity_ h1) with (fh_capacity_ h). rewrite Hcap.
    change (keys_ h1) with (keys_ h). by rewrite E'. }
  destruct (Z.eqb_spec (kat (keys_ h) (2 ^ b) s) key) as [E|E].
  { exists (Some 0), h1. split_and!; [apply probe_end_here; by left|done|].
    rewrite !set_Ok by (rewrite ?(tw_keys _ _ Hwf), ?(tw_values _ _ Hwf); lia). cbn [res_bind].
    unfold put. rewrite Z.add_0_r. change (fh_capacity_ h1) with (fh_capacity_ h). rewrite Hcap.
    change (keys_ h1) with (keys_ h). by rewrite (proj2 (Z.eqb_neq _ _) E'). }
  rewrite (step_index h1 b s Hwf1). destruct (IH h1 (s + 1) Hwf1 Hk) as (e & h0 & Hpe & Hst & ->).
  exists (option_map (Z.add 1) e), h0.
  split_and!; [apply probe_end_next; [by intros [?|?]|done]|by apply (stats_only_trans _ h1)|].
  destruct e as [p|]; [|done]. cbn [option_map]. by replace (s + (1 + p)) with (s + 1 + p) by lia.
Qed.
End Loops.

(** ** Lookup and insertion *)

Section Ops.
Context {V : Type}.
Implicit Types h : FlatHashU32 V.

Lemma stats_only_wf h h' b : stats_only h h' -> table_wf h b -> table_wf h' b.
Proof. intros (? & ? & ->) []. by constructor. Qed.
Lemma stats_only_entry h h' k v : stats_only h h' -> entry h' k v <-> entry h k v.
Proof. intros (? & ? & ->). done. Qed.
Lemma stats_only_repr h h' m : stats_only h h' -> table_repr h m -> table_repr h' m.
Proof.
  intros Hs [[b Hb] He]. split; [exists b; by eapply stats_only_wf|].
  intros k v. rewrite He. symmetry. by apply stats_only_entry.
Qed.

(** A gap (or nothing) as the first hit means that the key is absent. *)
Lemma absent_if h b key e : table_wf h b -> key <> kEmptyKey ->
  probe_end (keys_ h) b key (hash_u32 key mod 2 ^ b) (Z.to_nat (2 ^ b)) e ->
  match e with
  | Some p => kat (keys_ h) (2 ^ b) (hash_u32 key mod 2 ^ b + p) <> key
  | None => True
  end -> forall j, kat (keys_ h) (2 ^ b) j <> key.
Proof.
  intros Hwf Hk Hpe He j Hj. pose proof (cap_bounds b (tw_b _ _ Hwf)).
  destruct (present_first_hit (keys_ h) b (tw_b _ _ Hwf) key j) as (p & Hp & Hpj & Hbefore);
    [apply Hwf..|done|done|].
  assert (kat (keys_ h) (2 ^ b) (hash_u32 key mod 2 ^ b + p) = key) as Hkp
    by (transitivity (kat (keys_ h) (2 ^ b) j); [apply kat_eq; [apply Hwf|done]|done]).
  destruct Hpe as [q Hq Hh Hf|Hf].
  - destruct (Z.lt_trichotomy p q) as [Hlt|[<-|Hlt]].
    + apply (Hf p); [lia|]. by left.
    + done.
    + by apply (Hbefore q); [lia|].
  - apply (Hf p); [lia|]. by left.
Qed.

Lemma find_spec h b key : table_wf h b -> key <> kEmptyKey ->
  ensures (find h key) (fun '(o, h') => stats_only h h' /\
    match o with
    | Some (PSlot i) => 0 <= i < 2 ^ b /\ kat (keys_ h) (2 ^ b) i = key
    | Some PSentinel => False
    | None => forall j, kat (keys_ h) (2 ^ b) j <> key
    end).
Proof.
  intros Hwf Hk. unfold find. rewrite (proj2 (Z.eqb_neq _ _) Hk).
  pose proof (cap_bounds b (tw_b _ _ Hwf)).
  set (h1 := h <| lookups_ ::= _ |>). change (fh_mask_ h1) with (fh_mask_ h).
  rewrite (tw_mask _ _ Hwf), land_hash by apply Hwf.
  replace (2 ^ b - 1 + 1) with (2 ^ b) by lia.
  rewrite <- (Z.mod_mod (hash_u32 key)) by lia.
  assert (table_wf h1 b) as Hwf1 by (eapply stats_only_wf; [apply stats_only_lookups|done]).
  eapply ensures_mono; [by apply (find_loop_spec b key)|].
  intros [o h'] (Hst & e & Hpe & ->).
  split; [eapply stats_only_trans; [apply stats_only_lookups|done]|].
  change (keys_ h1) with (keys_ h) in *. pose proof (absent_if h b key e Hwf Hk Hpe) as Habs.
  destruct e as [p|]; [|auto]. case_if; [|auto].
  rewrite kat_mod by apply Hwf. split; [apply Z.mod_pos_bound; lia|done].
Qed.

Lemma at_Ok_lookup {A} (l : list A) i : 0 <= i < size l ->
  exists a, at_ l i = Ok a /\ l !! Z.to_nat i = Some a.
Proof.
  intros Hi. destruct (lookup_lt_is_Some_2 l (Z.to_nat i)) as [a Ha]; [unfold size in *; lia|].
  exists a. split; [|done]. apply at_lookup; [lia|done].
Qed.

Lemma find_value_repr h m key : table_repr h m ->
  ensures (find_value h key) (fun '(o, h') => o = m !! key /\ stats_only h h').
Proof.
  intros [[b Hwf] He]. unfold find_value. destruct (decide (key = kEmptyKey)) as [->|Hk].
  - unfold find. rewrite Z.eqb_refl.
    destruct (sentinel_used_ h) eqn:Hu; cbn [res_bind deref]; apply ensures_Ok; (split; [|apply stats_only_refl]).
    + symmetry. apply He. left. auto.
    + symmetry. apply eq_None_not_Some. intros [v Hv]. apply He in Hv as [(_ & ? & _)|[? _]]; congruence.
  - eapply ensures_bind; [by apply (find_spec h b key)|]. intros [o h'] [Hst Ho].
    destruct o as [[i|]|]; [|done|].
    + destruct Ho as [Hi Hki]. cbn [deref]. destruct Hst as (pr & lk & ->).
      destruct (at_Ok_lookup (values_ h) i) as (v & Hat & Hv); [rewrite (tw_values _ _ Hwf); lia|].
      cbn [values_ setf]. rewrite Hat. cbn [res_bind]. apply ensures_Ok.
      split; [|by exists pr, lk]. symmetry. apply He. right. split; [done|]. exists i. unfold entry_at.
      rewrite (tw_cap _ _ Hwf), Z.mod_small by lia. done.
    + apply ensures_Ok. split; [|done]. symmetry. apply eq_None_not_Some. intros [v Hv].
      apply He in Hv as [[? _]|[_ [j [Hj _]]]]; [done|]. rewrite (tw_cap _ _ Hwf) in Hj. by apply (Ho j).
Qed.

Lemma nlive_bounds (keys : list Z) : 0 <= nlive keys <= size keys.
Proof. unfold nlive, size. split; [lia|]. pose proof (List.filter_length_le live keys). lia. Qed.

(** Putting a key at its first hit keeps the invariant. *)
Lemma put_wf h b key v p : let s := hash_u32 key mod 2 ^ b in
  table_wf h b -> key <> kEmptyKey ->
  probe_end (keys_ h) b key s (Z.to_nat (2 ^ b)) (Some p) ->
  table_wf (put h key v (s + p)) b.
Proof.
  intros s Hwf Hk Hpe. pose proof (cap_bounds b (tw_b _ _ Hwf)) as Hcb. pose proof Hwf as [].
  unfold put. rewrite tw_cap0. destruct (Z.eqb_spec (kat (keys_ h) (2 ^ b) (s + p)) kEmptyKey) as [E|E].
  2: { constructor; cbn; auto. by rewrite size_insert. }
  pose proof (absent_if h b key (Some p) Hwf Hk Hpe ltac:(fold s; congruence)) as Habs.
  destruct (probe_end_Some _ _ _ _ _ _ Hpe) as (Hp & Hh & Hf).
  assert (forall j, kat (<[Z.to_nat ((s + p) mod 2 ^ b) := key]> (keys_ h)) (2 ^ b) j =
    if decide ((s + p) mod 2 ^ b = j mod 2 ^ b) then key else kat (keys_ h) (2 ^ b) j) as Hki
    by (intros; by apply kat_insert).
  assert (keys_ h !! Z.to_nat ((s + p) mod 2 ^ b) = Some kEmptyKey) as Hlk.
  { pose proof (Z.mod_pos_bound (s + p) (2 ^ b) ltac:(lia)).
    destruct (at_Ok_lookup (keys_ h) ((s + p) mod 2 ^ b)) as (k0 & Hat & Hl); [lia|].
    rewrite kat_at in Hat by done. rewrite E in Hat. by injection Hat as <-. }
  constructor; cbn; auto; try by rewrite size_insert.
  - intros i j. rewrite !Hki. pose proof (Habs i). pose proof (Habs j).
    repeat case_decide; try congruence. apply tw_distinct0.
  - intros j e. rewrite !Hki. case_decide as Hj.
    + intros _ He. case_decide; [done|]. intros Hemp.
      rewrite (dist_unique b key j p) in He; [|lia|].
      2: { rewrite Zminus_mod, <- Hj, <- Zminus_mod. replace (s + p - p) with s by lia.
        unfold s. apply Z.mod_mod. lia. }
      apply (Hf (p - e)); [lia|]. right. rewrite <- Hemp. apply kat_eq; [done|].
      rewrite (Zminus_mod j), <- Hj, <- Zminus_mod. f_equal. lia.
    + intros Hne He. case_decide; [done|]. by apply tw_probe0.
  - rewrite (nlive_insert _ _ _ _ Hlk), tw_size0. unfold add64, live.
    rewrite Z.eqb_refl, (proj2 (Z.eqb_neq _ _) Hk). cbn [negb].
    pose proof (nlive_bounds (keys_ h)).
    rewrite u64_small; lia.
Qed.

(** The entries after a put. *)
Lemma put_entry h b key v p k' v' : let s := hash_u32 key mod 2 ^ b in
  table_wf h b -> key <> kEmptyKey ->
  probe_end (keys_ h) b key s (Z.to_nat (2 ^ b)) (Some p) ->
  entry (put h key v (s + p)) k' v' <-> if decide (k' = key) then v' = v else entry h k' v'.
Proof.
  intros s Hwf Hk Hpe. pose proof (cap_bounds b (tw_b _ _ Hwf)) as Hcb.
  pose proof (put_wf h b key v p Hwf Hk Hpe) as Hwf'. fold s in Hwf'.
  pose proof (Z.mod_pos_bound (s + p) (2 ^ b) ltac:(lia)) as Hm.
  assert (sentinel_used_ (put h key v (s + p)) = sentinel_used_ h /\
    sentinel_value_ (put h key v (s + p)) = sentinel_value_ h) as [Hsu Hsv] by (unfold put; by case_if).
  assert (values_ (put h key v (s + p)) = <[Z.to_nat ((s + p) mod 2 ^ b) := v]> (values_ h)) as Hvals
    by (unfold put; rewrite (tw_cap _ _ Hwf); by case_if).
  assert (forall j, kat (keys_ (put h key v (s + p))) (2 ^ b) j =
    if decide ((s + p) mod 2 ^ b = j mod 2 ^ b) then key else kat (keys_ h) (2 ^ b) j) as Hki.
  { intros j. unfold put. rewrite (tw_cap _ _ Hwf). case_if; cbn [keys_ setf].
    - apply kat_insert; apply Hwf.
    - case_decide as E; [|done]. destruct (probe_end_Some _ _ _ _ _ _ Hpe) as (_ & [Hh|Hh] & _); [|congruence].
      rewrite <- Hh. apply kat_eq; [apply Hwf|done]. }
  assert (forall j, (s + p) mod 2 ^ b <> j mod 2 ^ b ->
    values_ (put h key v (s + p)) !! Z.to_nat (j mod 2 ^ b) = values_ h !! Z.to_nat (j mod 2 ^ b)) as Hvo.
  { intros j Hj. rewrite Hvals. pose proof (Z.mod_pos_bound j (2 ^ b) ltac:(lia)).
    apply list_lookup_insert_ne. lia. }
  assert (values_ (put h key v (s + p)) !! Z.to_nat ((s + p) mod 2 ^ b) = Some v) as Hvn.
  { rewrite Hvals. apply list_lookup_insert_eq. pose proof (tw_values _ _ Hwf). unfold size in *. lia. }
  unfold entry, entry_at. rewrite Hsu, Hsv, (tw_cap _ _ Hwf'), (tw_cap _ _ Hwf). case_decide as Hkk.
  - subst k'. split.
    + intros [[? _]|[_ (j & Hj & Hv)]]; [done|].
      assert (j mod 2 ^ b = (s + p) mod 2 ^ b) as E.
      { apply (tw_distinct _ _ Hwf'); [|congruence]. rewrite Hj, Hki. by rewrite decide_True. }
      rewrite E, Hvn in Hv. congruence.
    + intros ->. right. split; [done|]. exists (s + p). rewrite Hki, decide_True by done. done.
  - split; intros [?|[? (j & Hj & Hv)]]; [by left|right|by left|right]; (split; [done|]); exists j.
    + rewrite Hki in Hj. case_decide as E; [congruence|]. rewrite Hvo in Hv by done. done.
    + rewrite Hki. case_decide as E; [|by rewrite Hvo].
      exfalso. assert (kat (keys_ h) (2 ^ b) (s + p) = k') as Hkk'
        by (rewrite <- Hj; apply kat_eq; [apply Hwf|done]).
      destruct (probe_end_Some _ _ _ _ _ _ Hpe) as (_ & [Hh|Hh] & _); congruence.
Qed.

Lemma insert_repr h m key v : table_repr h m ->
  ensures (insert h key v) (fun '(ok, h') =>
    if negb ok then fh_capacity_ h <= fh_size_ h /\ key <> kEmptyKey /\ h' = h /\ fh_capacity_ h' = fh_capacity_ h
    else fh_capacity_ h' = fh_capacity_ h /\ table_repr h' (<[key := v]> m)).
Proof.
  intros [[b Hwf] He]. unfold insert. destruct (Z.eqb_spec key kEmptyKey) as [->|Hk].
  { apply ensures_Ok. cbn [negb]. split; [done|]. split; [exists b; destruct Hwf; by constructor|].
    intros k' v'. destruct (decide (k' = kEmptyKey)) as [->|Hne].
    - rewrite lookup_insert_eq. unfold entry; cbn. split; [intros [= ->]; auto|].
      intros [(_ & _ & ->)|[? _]]; [done|congruence].
    - rewrite lookup_insert_ne by done. rewrite He. unfold entry; cbn. intuition congruence. }
  case_if.
  { by apply ensures_Ok. }
  pose proof (cap_bounds b (tw_b _ _ Hwf)) as Hcb. pose proof Hwf as [].
  rewrite tw_mask0, land_hash by done. replace (2 ^ b - 1 + 1) with (2 ^ b) by lia.
  rewrite <- (Z.mod_mod (hash_u32 key)) by lia.
  destruct (insert_loop_spec b key v (Z.to_nat (2 ^ b)) h (hash_u32 key mod 2 ^ b) Hwf Hk)
    as (e & h0 & Hpe & Hst & ->).
  pose proof (stats_only_wf _ _ _ Hst Hwf) as Hwf0.
  assert (keys_ h0 = keys_ h) as Hk0 by (by destruct Hst as (? & ? & ->)).
  destruct e as [p|].
  - apply ensures_Ok. cbn [negb]. rewrite <- Hk0 in Hpe.
    pose proof (put_wf h0 b key v p Hwf0 Hk Hpe) as Hwf'. split; [by rewrite tw_cap0, (tw_cap _ _ Hwf')|].
    split; [by exists b|].
    intros k' v'. rewrite (put_entry h0 b key v p k' v' Hwf0 Hk Hpe). case_decide as E.
    + subst k'. rewrite lookup_insert_eq. split; [by intros [= ->]|by intros ->].
    + rewrite lookup_insert_ne, He by done. symmetry. by apply stats_only_entry.
  - exfalso. inversion Hpe as [|Hnone]; subst.
    destruct (gap_exists (keys_ h) b tw_b0 tw_keys0 (hash_u32 key mod 2 ^ b)) as (p & Hp & Hgap); [lia|].
    apply (Hnone p); [lia|]. by right.
Qed.
End Ops.

(** ** Backward-shift deletion

    [a] is the position of the hole (whose slot still holds a stale key) and
    [nx] the position under test; [f] is the first gap after the hole.  What
    the table contains is what the other slots contain: the pairs [Q]. *)

Section Shift.
Context {V : Type} (b : Z) (Hb : 3 <= b <= 63) (Q : Z -> V -> Prop).
Let cap := 2 ^ b.
Implicit Types h : FlatHashU32 V.

Record shift_inv h (a nx f : Z) : Prop := {
  si_cap : fh_capacity_ h = cap;
  si_mask : fh_mask_ h = cap - 1;
  si_keys : size (keys_ h) = cap;
  si_values : size (values_ h) = cap;
  si_size : fh_size_ h = nlive (keys_ h);
  si_order : a < nx <= f /\ f < a + cap;
  si_run : forall j, a <= j < f -> kat (keys_ h) cap j <> kEmptyKey;
  si_gap : kat (keys_ h) cap f = kEmptyKey;
  si_distinct : forall i j, a < i < a + cap -> a < j < a + cap ->
    kat (keys_ h) cap i = kat (keys_ h) cap j -> kat (keys_ h) cap i <> kEmptyKey -> i = j;
  si_probe : forall j e, a < j < a + cap -> kat (keys_ h) cap j <> kEmptyKey ->
    1 <= e <= dist cap (kat (keys_ h) cap j) j -> kat (keys_ h) cap (j - e) <> kEmptyKey;
  si_done : forall j, a < j < nx -> dist cap (kat (keys_ h) cap j) j < j - a;
  si_pairs : forall k v, k <> kEmptyKey ->
    (exists j, a < j < a + cap /\ entry_at h k v j) <-> Q k v
}.

(** The representative of a position in the window that starts at [a]. *)
Lemma window a j : exists j', a <= j' < a + cap /\ j' mod cap = j mod cap.
Proof.
  pose proof (cap_bounds b Hb) as Hc. fold cap in Hc. exists (a + (j - a) mod cap).
  pose proof (Z.mod_pos_bound (j - a) cap ltac:(lia)). split; [lia|].
  rewrite Zplus_mod_idemp_r. f_equal. lia.
Qed.

Lemma dist_mod k i j : i mod cap = j mod cap -> dist cap k i = dist cap k j.
Proof. intros E. unfold dist. by rewrite Zminus_mod, E, <- Zminus_mod. Qed.

Lemma window_eq a i j : a < i < a + cap -> a < j < a + cap -> i mod cap = j mod cap -> i = j.
Proof. intros. apply (mod_inj_interval cap); [lia|lia|done]. Qed.

(** Elements past the gap do not reach back to the hole. *)
Lemma past_gap h a nx f j : shift_inv h a nx f -> f < j < a + cap ->
  kat (keys_ h) cap j <> kEmptyKey -> dist cap (kat (keys_ h) cap j) j < j - f.
Proof.
  intros [] Hj Hk. destruct (Z.lt_ge_cases (dist cap (kat (keys_ h) cap j) j) (j - f)) as [|Hd]; [done|].
  exfalso. apply (si_probe0 j (j - f)); [lia|done|lia|]. by replace (j - (j - f)) with f by lia.
Qed.

(** Filling the hole with the empty key when the gap is reached. *)
Lemma shift_finish h a f : shift_inv h a f f ->
  let h' := h <| keys_ := <[Z.to_nat (a mod cap) := kEmptyKey]> (keys_ h) |> in
  distinct_keys (keys_ h') cap /\ probe_ok (keys_ h') cap /\ size (keys_ h') = cap /\
  nlive (keys_ h') = fh_size_ h - 1 /\
  (forall k v, k <> kEmptyKey -> (exists j, entry_at h' k v j) <-> Q k v).
Proof.
  intros Hi h'. pose proof (cap_bounds b Hb) as Hc. fold cap in Hc. pose proof Hi as [].
  assert (forall j, kat (keys_ h') cap j =
    if decide (a mod cap = j mod cap) then kEmptyKey else kat (keys_ h) cap j) as Hk'
    by (intros; by apply kat_insert).
  assert (forall j, kat (keys_ h') cap j <> kEmptyKey -> exists j', a < j' < a + cap /\
    j' mod cap = j mod cap /\ kat (keys_ h') cap j = kat (keys_ h) cap j') as Hwin.
  { intros j Hj. rewrite Hk' in *. case_decide; [done|]. destruct (window a j) as (j' & Hj' & E).
    exists j'. split_and!; [|lia|done|symmetry; by apply kat_eq].
    destruct (decide (j' = a)) as [->|]; [congruence|lia]. }
  split_and!.
  - intros i j E Hne. destruct (Hwin i) as (i' & Hi' & Ei & Eki); [done|].
    destruct (Hwin j) as (j' & Hj' & Ej & Ekj); [congruence|].
    rewrite <- Ei, <- Ej. f_equal. apply si_distinct0; congruence.
  - intros j e Hne He. destruct (Hwin j Hne) as (j' & Hj' & Ej & Ek).
    rewrite Ek, <- (dist_mod _ j' j Ej) in He. rewrite Ek in Hne.
    assert (dist cap (kat (keys_ h) cap j') j' < j' - a) as Hd.
    { destruct (Z.lt_trichotomy j' f) as [?|[->|?]]; [apply si_done0; lia|done|].
      pose proof (past_gap h a f f j' Hi ltac:(lia) Hne). lia. }
    assert ((j' - e) mod cap = (j - e) mod cap) as Em by (by rewrite Zminus_mod, Ej, <- Zminus_mod).
    rewrite Hk', decide_False.
    + rewrite <- (kat_eq _ b Hb _ _ Em). apply si_probe0; [lia|done|lia].
    + rewrite <- Em. intros E. apply (mod_inj_interval cap) in E; lia.
  - cbn. by rewrite size_insert.
  - pose proof (Z.mod_pos_bound a cap ltac:(lia)).
    destruct (at_Ok_lookup (keys_ h) (a mod cap)) as (k0 & Hat & Hl); [lia|].
    rewrite (kat_at _ b Hb si_keys0) in Hat. injection Hat as <-.
    cbn [keys_ setf h']. rewrite (nlive_insert _ _ _ _ Hl), si_size0, (live_ne (kat (keys_ h) (2 ^ b) a)) by (apply si_run0; lia).
    change (if live kEmptyKey then 1 else 0) with 0. lia.
  - intros k v Hkne. rewrite <- si_pairs0 by done. unfold entry_at. change (fh_capacity_ h') with (fh_capacity_ h).
    change (values_ h') with (values_ h). rewrite si_cap0. split.
    + intros (j & Hj & Hv). destruct (Hwin j) as (j' & Hj' & Ej & Ek); [congruence|].
      exists j'. rewrite Ej. split_and!; auto; lia || congruence.
    + intros (j & Hj & Hjk & Hv). exists j. rewrite Hk', decide_False; [done|].
      intros E. apply (mod_inj_interval cap) in E; lia.
Qed.

(** Pulling the element at [nx] into the hole. *)
Lemma shift_move h a nx f v : shift_inv h a nx f -> kat (keys_ h) cap nx <> kEmptyKey ->
  nx - a <= dist cap (kat (keys_ h) cap nx) nx ->
  values_ h !! Z.to_nat (nx mod cap) = Some v ->
  shift_inv (h <| keys_ := <[Z.to_nat (a mod cap) := kat (keys_ h) cap nx]> (keys_ h) |>
               <| values_ := <[Z.to_nat (a mod cap) := v]> (values_ h) |>) nx (nx + 1) f.
Proof.
  intros Hi Hne Hd Hv. pose proof (cap_bounds b Hb) as Hc. fold cap in Hc. pose proof Hi as [].
  set (kn := kat (keys_ h) cap nx) in *. set (h' := h <| keys_ := _ |> <| values_ := _ |>).
  pose proof (dist_bounds b Hb kn nx) as Hdb. fold cap in Hdb.
  assert (nx < f) as Hnf by (destruct (decide (nx = f)) as [->|]; [done|lia]).
  assert (forall j, kat (keys_ h') cap j =
    if decide (a mod cap = j mod cap) then kn else kat (keys_ h) cap j) as Hk'
    by (intros; by apply kat_insert).
  assert (forall j, kat (keys_ h') cap j = kEmptyKey <-> kat (keys_ h) cap j = kEmptyKey) as Hemp.
  { intros j. rewrite Hk'. case_decide as E; [|done].
    rewrite <- (kat_eq _ b Hb _ _ E). split; [done|]. intros Ha. by destruct (si_run0 a ltac:(lia)). }
  (* the pull as a renaming of positions: new window position -> old one *)
  assert (forall j, nx < j < nx + cap -> exists i, a < i < a + cap /\ kat (keys_ h') cap j = kat (keys_ h) cap i /\
    values_ h' !! Z.to_nat (j mod cap) = values_ h !! Z.to_nat (i mod cap) /\
    ((j = a + cap /\ i = nx) \/ (j < a + cap /\ i = j) \/ (a + cap < j /\ i = j - cap))) as Hren.
  { intros j Hj. destruct (Z.lt_trichotomy j (a + cap)) as [Hlt|[->|Hgt]].
    - exists j. assert (a mod cap <> j mod cap) as E by (intros E; apply (mod_inj_interval cap) in E; lia).
      rewrite Hk', decide_False by done. cbn [values_ setf h']. pose proof (Z.mod_pos_bound j cap ltac:(lia)).
      pose proof (Z.mod_pos_bound a cap ltac:(lia)). rewrite list_lookup_insert_ne by lia. split_and!; auto; lia.
    - exists nx. assert (a mod cap = (a + cap) mod cap) as E by (by rewrite <- (Z_mod_plus_full a 1 cap), Z.mul_1_l).
      rewrite Hk', decide_True, <- E by done. cbn [values_ setf h'].
      pose proof (Z.mod_pos_bound a cap ltac:(lia)).
      rewrite list_lookup_insert_eq by (unfold size in *; lia). split_and!; auto; lia.
    - exists (j - cap). assert ((j - cap) mod cap = j mod cap) as E
        by (rewrite <- (Z_mod_plus_full (j - cap) 1 cap); f_equal; lia).
      assert (a mod cap <> j mod cap) as E' by (intros E'; rewrite <- E in E'; apply (mod_inj_interval cap) in E'; lia).
      rewrite Hk', decide_False, E, (kat_eq _ b Hb _ _ E) by done. cbn [values_ setf h'].
      pose proof (Z.mod_pos_bound j cap ltac:(lia)). pose proof (Z.mod_pos_bound a cap ltac:(lia)).
      rewrite list_lookup_insert_ne by lia. split_and!; auto; lia. }
  assert (forall i, a < i < a + cap -> exists j, nx < j < nx + cap /\ kat (keys_ h') cap j = kat (keys_ h) cap i /\
    values_ h' !! Z.to_nat (j mod cap) = values_ h !! Z.to_nat (i mod cap)) as Hren'.
  { intros i Hir. set (j := if i =? nx then a + cap else if i <? nx then i + cap else i).
    assert (nx < j < nx + cap) as Hj by (unfold j; repeat case_if; lia).
    destruct (Hren j Hj) as (i' & Hi' & Ek & Ev & Hcase). exists j.
    assert (i' = i) as -> by (revert Hcase Hj; unfold j; repeat case_if; lia). auto. }
  constructor; cbn [fh_capacity_ fh_mask_ fh_size_ setf]; auto; try lia.
  - cbn [keys_ setf h']. by rewrite size_insert.
  - cbn [values_ setf h']. by rewrite size_insert.
  - destruct (at_Ok_lookup (keys_ h) (a mod cap)) as (k0 & Hat & Hl);
      [pose proof (Z.mod_pos_bound a cap ltac:(lia)); lia|].
    rewrite (kat_at _ b Hb si_keys0) in Hat. injection Hat as <-.
    cbn [keys_ setf h']. rewrite (nlive_insert _ _ _ _ Hl), (live_ne kn), (live_ne (kat _ _ a)); [|by apply si_run0; lia|done].
    cbn [fh_size_ setf h']. lia.
  - intros j Hj. rewrite Hemp. apply si_run0. lia.
  - by apply Hemp.
  - intros i j Hir Hjr E Hi0. destruct (Hren i Hir) as (i' & Hi' & Eki & _ & Hci).
    destruct (Hren j Hjr) as (j' & Hj' & Ekj & _ & Hcj).
    assert (i' = j') as Eij by (apply si_distinct0; congruence). lia.
  - intros j e Hj Hj0 He. rewrite Hemp. destruct (Hren j Hj) as (i & Hir & Ek & _ & Hcase). rewrite Ek in *.
    destruct Hcase as [[-> ->]|[[Hlt ->]|[Hgt ->]]].
    + assert (dist cap kn (a + cap) = dist cap kn nx - (nx - a)) as Hdd.
      { apply dist_unique; [fold cap; lia|]. fold cap.
        pose proof (dist_start b Hb kn nx) as Hds. fold cap in Hds. rewrite <- Hds.
        replace (a + cap - (dist cap kn nx - (nx - a))) with (nx - dist cap kn nx + 1 * cap) by lia.
        apply Z_mod_plus_full. }
      fold kn in He. rewrite Hdd in He.
      rewrite <- (kat_eq (keys_ h) b Hb (nx - (nx - a + e))).
      * apply (si_probe0 nx (nx - a + e)); [lia|done|]. fold kn. lia.
      * fold cap. rewrite <- (Z_mod_plus_full (nx - (nx - a + e)) 1 cap). f_equal. lia.
    + apply si_probe0; [lia|done|lia].
    + assert ((j - cap) mod cap = j mod cap) as E
        by (rewrite <- (Z_mod_plus_full (j - cap) 1 cap); f_equal; lia).
      rewrite <- (dist_mod _ _ _ E) in He. rewrite <- (kat_eq (keys_ h) b Hb (j - cap - e)).
      * apply si_probe0; [lia|done|lia].
      * fold cap. by rewrite Zminus_mod, E, <- Zminus_mod.
  - intros k w Hkne. rewrite <- si_pairs0 by done. unfold entry_at.
    change (fh_capacity_ h') with (fh_capacity_ h). rewrite si_cap0. split.
    + intros (j & Hj & Ekj & Evj). destruct (Hren j Hj) as (i & Hir & Ek & Ev & _).
      exists i. split_and!; [lia|lia|congruence|congruence].
    + intros (i & Hir & Eki & Evi). destruct (Hren' i Hir) as (j & Hj & Ek & Ev).
      exists j. split_and!; [lia|lia|congruence|congruence].
Qed.

(** The loop from any state of the invariant; it ends at the gap. *)
Lemma shift_loop_spec f : forall fuel h a nx, shift_inv h a nx f -> f - nx < Z.of_nat fuel ->
  ensures (shift_loop fuel h (a mod cap) (nx mod cap)) (fun h' =>
    exists ks vs, h' = h <| keys_ := ks |> <| values_ := vs |> /\ size vs = cap /\
    distinct_keys ks cap /\ probe_ok ks cap /\ size ks = cap /\ nlive ks = fh_size_ h - 1 /\
    (forall k v, k <> kEmptyKey -> (exists j, entry_at h' k v j) <-> Q k v)).
Proof.
  pose proof (cap_bounds b Hb) as Hc. fold cap in Hc.
  induction fuel as [|fuel IH]; intros h a nx Hi Hf; [destruct Hi; lia|]. cbn [shift_loop].
  pose proof Hi as []. rewrite (kat_at _ b Hb si_keys0). cbn [res_bind]. fold cap.
  pose proof (Z.mod_pos_bound a cap ltac:(lia)). pose proof (Z.mod_pos_bound nx cap ltac:(lia)).
  destruct (Z.eqb_spec (kat (keys_ h) cap nx) kEmptyKey) as [E|E].
  { assert (nx = f) as -> by (destruct (Z.lt_ge_cases nx f); [by destruct (si_run0 nx ltac:(lia))|lia]).
    rewrite set_Ok by lia. cbn [res_bind]. apply ensures_Ok.
    destruct (shift_finish h a f Hi) as (H1 & H2 & H3 & H4 & H5).
    eexists _, (values_ h). split_and!; [|done|exact H1|exact H2|exact H3|exact H4|exact H5].
    by destruct h. }
  assert (nx < f) as Hnf by (destruct (decide (nx = f)) as [->|]; [done|lia]).
  unfold add64, sub64. rewrite si_mask0, !(land_cap b Hb), (land_hash b Hb). fold cap.
  rewrite Zplus_mod_idemp_l, <- !Zminus_mod.
  assert ((nx - a) mod cap = nx - a) as -> by (apply Z.mod_small; lia).
  fold (dist cap (kat (keys_ h) cap nx) nx).
  case_if.
  - destruct (at_Ok_lookup (values_ h) (nx mod cap)) as (v & Hat & Hv); [lia|].
    rewrite !set_Ok by lia. cbn [res_bind]. rewrite Hat. cbn [res_bind]. rewrite set_Ok by lia. cbn [res_bind].
    pose proof (shift_move h a nx f v Hi E Hif Hv) as Hi'.
    eapply ensures_mono; [apply (IH _ nx (nx + 1) Hi'); lia|].
    intros h' (ks & vs & -> & ?). exists ks, vs. by destruct h.
  - apply (IH h a (nx + 1)); [|lia]. constructor; auto; try lia.
    intros j Hj. destruct (decide (j = nx)) as [->|]; [lia|]. apply si_done0. lia.
Qed.
End Shift.

(** ** Deletion *)

Section Erase.
Context {V : Type}.
Implicit Types h : FlatHashU32 V.

(** The state of [remove_at] on entry, for a key found at position [x]. *)
Lemma shift_start h b key x : table_wf h b -> key <> kEmptyKey ->
  kat (keys_ h) (2 ^ b) x = key -> nlive (keys_ h) < 2 ^ b ->
  exists f, shift_inv b (fun k v => k <> key /\ exists j, entry_at h k v j) h x (x + 1) f.
Proof.
  intros Hwf Hk Hx Hn. pose proof (cap_bounds b (tw_b _ _ Hwf)) as Hc. pose proof Hwf as [].
  destruct (gap_exists (keys_ h) b tw_b0 tw_keys0 (x + 1) Hn) as (g & Hg & Hgap).
  destruct (first_hit (keys_ h) b kEmptyKey (x + 1) (Z.to_nat (2 ^ b))) as [(p & Hp & Hh & Hf)|Hf].
  2: { destruct (Hf g); [lia|]. by right. }
  assert (kat (keys_ h) (2 ^ b) (x + 1 + p) = kEmptyKey) as Hpe by (by destruct Hh).
  assert (p <> 2 ^ b - 1) as Hpne.
  { intros ->. replace (x + 1 + (2 ^ b - 1)) with (x + 2 ^ b) in Hpe by lia.
    rewrite kat_add_cap in Hpe by done. congruence. }
  exists (x + 1 + p). constructor; auto; try lia.
  - intros j Hj. destruct (decide (j = x)) as [->|]; [congruence|].
    intros E. apply (Hf (j - x - 1)); [lia|]. right. by replace (x + 1 + (j - x - 1)) with j by lia.
  - intros i j Hi Hj E Hne. apply (window_eq b tw_b0 x); [lia|lia|]. by apply tw_distinct0.
  - intros k v Hkne. unfold entry_at. rewrite tw_cap0. split.
    + intros (j & Hj & Ek & Ev). split; [|by exists j]. intros ->.
      assert (j mod 2 ^ b = x mod 2 ^ b) as E by (apply tw_distinct0; congruence).
      apply (mod_inj_interval (2 ^ b)) in E; lia.
    + intros (Hkk & j & Ek & Ev). destruct (window b tw_b0 x j) as (j' & Hj' & E). exists j'.
      rewrite E. assert (kat (keys_ h) (2 ^ b) j' = k) as Ek' by (rewrite <- Ek; by apply kat_eq).
      split_and!; auto; [|lia]. destruct (decide (j' = x)) as [->|]; [congruence|lia].
Qed.

Lemma remove_at_spec h b key x : table_wf h b -> key <> kEmptyKey ->
  kat (keys_ h) (2 ^ b) x = key -> nlive (keys_ h) < 2 ^ b ->
  ensures (remove_at (Z.to_nat (2 ^ b)) h (x mod 2 ^ b)) (fun h' =>
    exists ks vs, h' = h <| keys_ := ks |> <| values_ := vs |> /\ size vs = 2 ^ b /\
    distinct_keys ks (2 ^ b) /\ probe_ok ks (2 ^ b) /\ size ks = 2 ^ b /\ nlive ks = fh_size_ h - 1 /\
    (forall k v, k <> kEmptyKey ->
       (exists j, entry_at h' k v j) <-> k <> key /\ exists j, entry_at h k v j)).
Proof.
  intros Hwf Hk Hx Hn. pose proof (cap_bounds b (tw_b _ _ Hwf)) as Hc.
  destruct (shift_start h b key x Hwf Hk Hx Hn) as [f Hi]. unfold remove_at.
  rewrite (step_index h b x Hwf). eapply shift_loop_spec; [apply Hwf|exact Hi|].
  destruct Hi. lia.
Qed.

Lemma erase_repr h m key : table_repr h m -> fh_size_ h < fh_capacity_ h ->
  ensures (erase h key) (fun '(ok, h') =>
    ok = bool_decide (is_Some (m !! key)) /\ table_repr h' (delete key m) /\
    fh_capacity_ h' = fh_capacity_ h /\ fh_size_ h' <= fh_size_ h).
Proof.
  intros [[b Hwf] He] Hfull. pose proof (cap_bounds b (tw_b _ _ Hwf)) as Hc. pose proof Hwf as [].
  unfold erase, erase_fuel. destruct (Z.eqb_spec key kEmptyKey) as [->|Hk].
  { apply ensures_Ok. split_and!; [|split; [exists b; by constructor|]|done|done].
    - destruct (sentinel_used_ h) eqn:Hu; symmetry.
      + apply bool_decide_eq_true. exists (sentinel_value_ h). apply He. left. auto.
      + apply bool_decide_eq_false. intros [v Hv]. apply He in Hv as [(_ & ? & _)|[? _]]; congruence.
    - intros k v. rewrite lookup_delete_Some, He. unfold entry; cbn.
      split; [intros [? [?|?]]; [intuition congruence|by right]|].
      intros [(_ & ? & _)|[? ?]]; [done|]. split; [congruence|by right]. }
  rewrite tw_mask0, tw_cap0, land_hash by done. replace (2 ^ b - 1 + 1) with (2 ^ b) by lia.
  rewrite <- (Z.mod_mod (hash_u32 key)) by lia.
  destruct (erase_loop_spec b key (Z.to_nat (2 ^ b)) (Z.to_nat (2 ^ b)) h (hash_u32 key mod 2 ^ b) Hwf Hk)
    as (e & Hpe & ->).
  assert ((forall j, kat (keys_ h) (2 ^ b) j <> key) ->
    ensures (Ok (false, h)) (fun '(ok, h') => ok = bool_decide (is_Some (m !! key)) /\
      table_repr h' (delete key m) /\ fh_capacity_ h' = 2 ^ b /\ fh_size_ h' <= fh_size_ h)) as Habsent.
  { intros Habs. apply ensures_Ok. assert (m !! key = None) as Hnone.
    { apply eq_None_not_Some. intros [v Hv]. apply He in Hv as [[? _]|[_ (j & Ej & _)]]; [done|].
      rewrite tw_cap0 in Ej. by apply (Habs j). }
    rewrite delete_id, Hnone by done. split_and!; auto; [|lia]. by split; [exists b|]. }
  pose proof (absent_if h b key e Hwf Hk Hpe) as Habs.
  destruct e as [p|]; [|auto]. case_if; [|auto].
  destruct (remove_at_spec h b key (hash_u32 key mod 2 ^ b + p) Hwf Hk Hif ltac:(lia))
    as (h' & -> & ks & vs & -> & Hvs & Hd & Hp & Hks & Hnl & Hent).
  cbn [res_bind]. apply ensures_Ok. pose proof (nlive_bounds ks).
  assert (sub64 (fh_size_ h) 1 = fh_size_ h - 1) as Hsz by (apply sub64_small; lia).
  split_and!; [|split|done|cbn; lia].
  - symmetry. apply bool_decide_eq_true. set (x := hash_u32 key mod 2 ^ b + p) in *.
    pose proof (Z.mod_pos_bound x (2 ^ b) ltac:(lia)).
    destruct (at_Ok_lookup (values_ h) (x mod 2 ^ b)) as (v & _ & Hv); [lia|]. exists v. apply He. right.
    split; [done|]. exists x. unfold entry_at. by rewrite tw_cap0.
  - exists b. constructor; cbn; auto. lia.
  - intros k v. rewrite lookup_delete_Some, He. unfold entry. cbn [sentinel_used_ sentinel_value_ setf].
    specialize (Hent k v). unfold entry_at in *. cbn [keys_ values_ fh_capacity_ setf] in *.
    split; [intros [? [?|[? ?]]]; [by left|right; split; [done|apply Hent; auto]]|].
    intros [(-> & ? & ?)|[Hne Hj]]; [split; [done|by left]|]. apply Hent in Hj as [? ?]; [|done].
    split; [done|]. by right.
Qed.

(** A full table: the shift loop never meets a gap. *)
Lemma shift_loop_full b : 3 <= b <= 63 -> forall fuel h a nx,
  fh_mask_ h = 2 ^ b - 1 -> size (keys_ h) = 2 ^ b -> size (values_ h) = 2 ^ b ->
  (forall j, kat (keys_ h) (2 ^ b) j <> kEmptyKey) ->
  shift_loop fuel h (a mod 2 ^ b) (nx mod 2 ^ b) = Fuel.
Proof.
  intros Hb. pose proof (cap_bounds b Hb) as Hc.
  induction fuel as [|fuel IH]; intros h a nx Hm Hk Hv Hfull; [done|]. cbn [shift_loop].
  rewrite kat_at by done. cbn [res_bind]. rewrite (proj2 (Z.eqb_neq _ _)) by done.
  pose proof (Z.mod_pos_bound a (2 ^ b) ltac:(lia)). pose proof (Z.mod_pos_bound nx (2 ^ b) ltac:(lia)).
  unfold add64. rewrite Hm, (land_cap b Hb (nx mod 2 ^ b + 1)), mod_succ.
  case_if; [|by apply IH]. rewrite set_Ok by lia. cbn [res_bind].
  destruct (at_Ok (values_ h) (nx mod 2 ^ b)) as [v ->]; [lia|]. cbn [res_bind].
  rewrite set_Ok by lia. cbn [res_bind].
  apply IH; cbn [fh_mask_ keys_ values_ setf]; rewrite ?size_insert; auto.
  intros j. rewrite kat_insert by done. case_decide; apply Hfull.
Qed.

Lemma full_no_gap h b : table_wf h b -> fh_capacity_ h <= fh_size_ h ->
  forall j, kat (keys_ h) (2 ^ b) j <> kEmptyKey.
Proof.
  intros [] Hfull j E. pose proof (cap_bounds b tw_b0). pose proof (nlive_bounds (keys_ h)).
  destruct (at_Ok_lookup (keys_ h) (j mod 2 ^ b)) as (k & Hat & Hl);
    [pose proof (Z.mod_pos_bound j (2 ^ b)); lia|].
  rewrite kat_at in Hat by done. injection Hat as <-.
  pose proof (nlive_insert (keys_ h) _ 0 _ Hl) as Hn. rewrite E in Hn.
  change (if live 0 then 1 else 0) with 1 in Hn. change (if live kEmptyKey then 1 else 0) with 0 in Hn.
  pose proof (nlive_bounds (<[Z.to_nat (j mod 2 ^ b) := 0]> (keys_ h))) as Hb'. rewrite size_insert in Hb'. lia.
Qed.

Lemma new_repr (dflt : V) cap : cap <= 2 ^ 63 ->
  ensures (FlatHashU32_new dflt cap) (fun h => table_repr h ∅ /\
    Z.max 8 cap <= fh_capacity_ h < 2 * Z.max 8 cap /\ fh_size_ h = 0).
Proof.
  intros Hcap. unfold FlatHashU32_new, fh_round_up_pow2.
  replace (if cap <? 8 then 8 else cap) with (Z.max 8 cap) by (case_if; lia).
  destruct (pow2_ceil_spec (Z.max 8 cap)) as (b & Hb & -> & Hbb); [lia|].
  cbn [res_bind]. apply ensures_Ok. pose proof (pow63 b Hb).
  assert (3 <= b) as Hb3.
  { destruct (Z.lt_ge_cases b 3); [|done]. pose proof (Z.pow_le_mono_r 2 b 2). lia. }
  assert (forall j, kat (replicate (Z.to_nat (2 ^ b)) kEmptyKey) (2 ^ b) j = kEmptyKey) as Hemp.
  { intros j. unfold kat. rewrite nth_lookup. destruct (_ !! _) eqn:E; [|done].
    by apply lookup_replicate in E as [-> _]. }
  split_and!; [|cbn; lia|cbn; lia|done]. split.
  - exists b. constructor; cbn; try done; try lia.
    + rewrite sub64_small; lia.
    + unfold size. rewrite length_replicate. lia.
    + unfold size. rewrite length_replicate. lia.
    + intros i j _ Hne. by rewrite Hemp in Hne.
    + intros j e Hne. by rewrite Hemp in Hne.
    + unfold nlive. clear. induction (Z.to_nat (2 ^ b)); [done|]. cbn. done.
  - intros k v. rewrite lookup_empty. split; [done|]. intros [(_ & ? & _)|[Hne (j & Hj & _)]]; [done|].
    cbn [keys_ fh_capacity_] in Hj. rewrite Hemp in Hj. congruence.
Qed.

(** The live keys of the array are distinct, hence no more than the map has. *)
Lemma NoDup_live (keys : list Z) :
  (forall i j k, keys !! i = Some k -> keys !! j = Some k -> k <> kEmptyKey -> i = j) ->
  NoDup (List.filter live keys).
Proof.
  induction keys as [|k l IH]; intros Hd; cbn [List.filter]; [constructor|].
  assert (NoDup (List.filter live l)) as Hl.
  { apply IH. intros i j x Hi Hj Hx. specialize (Hd (S i) (S j) x Hi Hj Hx). lia. }
  destruct (live k) eqn:E; [|done]. constructor; [|done].
  rewrite list_elem_of_In, filter_In, <- list_elem_of_In. intros [Hin _].
  apply list_elem_of_lookup in Hin as [i Hi].
  assert (k <> kEmptyKey) as Hk by (intros ->; done).
  by specialize (Hd 0%nat (S i) k eq_refl Hi Hk).
Qed.

Lemma nlive_le_size h m : table_repr h m -> fh_size_ h <= Z.of_nat (base.size m).
Proof.
  intros [[b Hwf] He]. pose proof Hwf as []. pose proof (cap_bounds b tw_b0).
  rewrite tw_size0. unfold nlive, size.
  assert (forall i k, keys_ h !! i = Some k -> kat (keys_ h) (2 ^ b) (Z.of_nat i) = k /\
    Z.of_nat i mod 2 ^ b = Z.of_nat i) as Hi.
  { intros i k Hi. pose proof (lookup_lt_Some _ _ _ Hi). unfold size in *. unfold kat.
    rewrite Z.mod_small, Nat2Z.id by lia. split; [by apply nth_lookup_Some|done]. }
  assert (NoDup (List.filter live (keys_ h))) as Hnd.
  { apply NoDup_live. intros i j k Hki Hkj Hk. destruct (Hi _ _ Hki) as [E1 M1], (Hi _ _ Hkj) as [E2 M2].
    assert (Z.of_nat i mod 2 ^ b = Z.of_nat j mod 2 ^ b) by (apply tw_distinct0; congruence). lia. }
  rewrite <- (size_list_to_set (C := gset Z) _ Hnd), <- size_dom. apply inj_le, subseteq_size.
  intros k. rewrite elem_of_list_to_set, elem_of_dom, list_elem_of_In, filter_In, <- list_elem_of_In.
  intros [Hin Hlive]. apply list_elem_of_lookup in Hin as [i Hki].
  assert (k <> kEmptyKey) as Hk by (intros ->; done). destruct (Hi _ _ Hki) as [E1 M1].
  destruct (at_Ok_lookup (values_ h) (Z.of_nat i)) as (v & _ & Hv).
  { pose proof (lookup_lt_Some _ _ _ Hki). unfold size in *. lia. }
  exists v. apply He. right. split; [done|]. exists (Z.of_nat i). unfold entry_at. by rewrite tw_cap0, M1.
Qed.

#[export] Instance FlatHash_table : KeyTable V (FlatHashU32 V).
Proof.
  refine {|
    kt_find := find_value;
    kt_insert := insert;
    kt_erase := erase;
    kt_cap := fh_capacity_;
    kt_size := fh_size;
    kt_repr := table_repr
  |}.
  - intros h m k Hr Hk. eapply ensures_mono; [by apply find_value_repr|]. intros [o h'] [-> Hst].
    split_and!; [done|by eapply stats_only_repr|by destruct Hst as (? & ? & ->)].
  - intros h m k v Hr Hk. eapply ensures_mono; [by apply insert_repr|].
    intros [[] h']; cbn [negb]; [by intros [? ?]|].
    intros (Hf & Hne & -> & _). pose proof (nlive_le_size h m Hr). split_and!; auto. lia.
  - intros h m k Hr Hk Hf. pose proof (nlive_le_size h m Hr).
    eapply ensures_mono; [apply erase_repr; [done|lia]|]. intros [ok h'] (? & ? & Hc & Hs). auto.
Defined.
End Erase.

(** ** Properties *)

Section Properties.
Context {V : Type}.
Implicit Types h : FlatHashU32 V.

Lemma entry_in_zip h b k v : table_wf h b ->
  (exists j, entry_at h k v j) <-> In (k, v) (zip (keys_ h) (values_ h)).
Proof.
  intros []. pose proof (cap_bounds b tw_b0). unfold entry_at. rewrite tw_cap0.
  rewrite <- list_elem_of_In, list_elem_of_lookup. setoid_rewrite lookup_zip_Some. split.
  - intros (j & Hk & Hv). pose proof (Z.mod_pos_bound j (2 ^ b) ltac:(lia)).
    exists (Z.to_nat (j mod 2 ^ b)). split; [|done].
    destruct (at_Ok_lookup (keys_ h) (j mod 2 ^ b)) as (k' & Hat & Hl); [lia|].
    rewrite kat_at in Hat by done. congruence.
  - intros (i & Hk & Hv). pose proof (lookup_lt_Some _ _ _ Hk). unfold size in *.
    exists (Z.of_nat i). unfold kat. rewrite Z.mod_small, Nat2Z.id by lia. split; [|done].
    by apply nth_lookup_Some.
Qed.

(** C8: The TEID table is a finite map of bounded size.  On a well-formed
    table that represents the map [m], for every key: [find] (read through the
    returned pointer) gives [m]'s value and changes only the statistics;
    [insert] succeeds exactly when the key is the reserved one or the table is
    not full, and then represents the updated map, and otherwise changes
    nothing; [erase] on a table that is not full terminates, reports whether
    the key was bound and represents the map without it, backward shift
    included. *)
Theorem flat_hash_refines_map h m key v :
  table_repr h m ->
  ensures (find_value h key) (fun '(o, h') => o = m !! key /\ table_repr h' m /\ stats_only h h') /\
  ensures (insert h key v) (fun '(ok, h') =>
    ok = (key =? kEmptyKey) || (fh_size_ h <? fh_capacity_ h) /\
    if negb ok then h' = h else table_repr h' (<[key := v]> m)) /\
  (fh_size_ h < fh_capacity_ h ->
   ensures (erase h key) (fun '(ok, h') =>
     ok = bool_decide (is_Some (m !! key)) /\ table_repr h' (delete key m) /\
     fh_size_ h' < fh_capacity_ h')).
Proof.
  intros Hr. split_and!.
  - eapply ensures_mono; [by apply find_value_repr|]. intros [o h'] [-> Hst].
    split_and!; [done|by eapply stats_only_repr|done].
  - pose proof (insert_repr h m key v Hr) as (r & Hin & Hpost).
    exists r. split; [done|]. destruct r as [[] h']; cbn [negb] in *.
    + split; [|by destruct Hpost]. unfold insert in Hin. destruct (key =? kEmptyKey); [done|]. cbn [orb].
      case_if_in Hin; [done|]. symmetry. by apply Z.ltb_lt.
    + destruct Hpost as (Hf & Hne & -> & _). split; [|done].
      rewrite (proj2 (Z.eqb_neq _ _) Hne), (proj2 (Z.ltb_ge _ _)) by lia. done.
  - intros Hf. eapply ensures_mono; [by apply erase_repr|]. intros [ok h'] (? & ? & ? & ?).
    split_and!; auto. lia.
Qed.

(** C29: Erasing from a completely full table never returns: [insert] fills
    the table up to its capacity, and then the backward-shift loop of
    [remove_at], which runs until it meets an empty slot, meets none; no
    number of iterations is enough. *)
Theorem erase_full_diverges h m key v :
  table_repr h m -> fh_capacity_ h <= fh_size_ h -> key <> kEmptyKey -> m !! key = Some v ->
  forall fuel, erase_fuel fuel h key = Fuel.
Proof.
  intros [[b Hwf] He] Hfull Hk Hm fuel. pose proof (full_no_gap h b Hwf Hfull) as Hng.
  pose proof (cap_bounds b (tw_b _ _ Hwf)) as Hc. pose proof Hwf as [].
  unfold erase_fuel. rewrite (proj2 (Z.eqb_neq _ _) Hk), tw_mask0, land_hash by done.
  replace (2 ^ b - 1 + 1) with (2 ^ b) by lia. rewrite <- (Z.mod_mod (hash_u32 key)) by lia.
  destruct (erase_loop_spec b key fuel (Z.to_nat (2 ^ b)) h (hash_u32 key mod 2 ^ b) Hwf Hk)
    as (e & Hpe & ->).
  apply He in Hm as [[? _]|[_ (j & Hj & _)]]; [done|]. rewrite tw_cap0 in Hj.
  pose proof (absent_if h b key e Hwf Hk Hpe) as Habs. destruct e as [p|]; [|by destruct (Habs I j)].
  case_if; [|by destruct (Habs Hif j)].
  unfold remove_at. rewrite (step_index h b _ Hwf), (shift_loop_full b) by done. done.
Qed.

(** Iteration and clearing agree with the map: [for_each] visits exactly
    the bound pairs, the reserved key's included, and [clear] leaves a
    well-formed empty table. *)
Lemma for_each_clear_spec h m :
  table_repr h m ->
  (forall k v, In (k, v) (for_each_entries h) <-> m !! k = Some v) /\ table_repr (clear h) ∅.
Proof.
  intros [[b Hwf] He]. split.
  - intros k v. rewrite He. unfold for_each_entries, entry. rewrite in_app_iff, filter_In.
    rewrite <- (entry_in_zip h b k v Hwf). cbn [fst]. rewrite negb_true_iff, Z.eqb_neq.
    destruct (sentinel_used_ h); cbn [In]; intuition congruence.
  - pose proof Hwf as []. pose proof (cap_bounds b tw_b0).
    assert (forall j, kat (replicate (length (keys_ h)) kEmptyKey) (2 ^ b) j = kEmptyKey) as Hemp.
    { intros j. unfold kat. rewrite nth_lookup. destruct (_ !! _) eqn:E; [|done].
      by apply lookup_replicate in E as [-> _]. }
    split.
    + exists b. constructor; cbn; auto.
      * unfold size in *. by rewrite length_replicate.
      * intros i j _ Hne. by rewrite Hemp in Hne.
      * intros j e Hne. by rewrite Hemp in Hne.
      * unfold nlive. clear. induction (length (keys_ h)); [done|]. cbn. done.
    + intros k v. rewrite lookup_empty. split; [done|]. intros [(_ & ? & _)|[Hne (j & Hj & _)]]; [done|].
      unfold entry_at in Hj. cbn [clear keys_ fh_capacity_ setf] in Hj. rewrite tw_cap0, Hemp in Hj. congruence.
Qed.
End Properties.

(** ** Witnesses: an 8-slot table holding the keys 0 to n-1 *)

Fixpoint insert_upto (n : nat) (h : FlatHashU32 Z) : option (FlatHashU32 Z) :=
  match n with
  | O => Some h
  | S n =>
      match insert_upto n h with
      | Some h =>
          match insert h (Z.of_nat n) (Z.of_nat n * 10) with Ok (true, h) => Some h | _ => None end
      | None => None
      end
  end.

Fixpoint sample_map (n : nat) : gmap Z Z :=
  match n with O => ∅ | S n => <[Z.of_nat n := Z.of_nat n * 10]> (sample_map n) end.

Lemma insert_upto_repr h n : table_repr h ∅ -> forall h', insert_upto n h = Some h' ->
  table_repr h' (sample_map n).
Proof.
  intros Hr. induction n as [|n IH]; intros h' Hi; cbn [insert_upto sample_map] in *.
  { by injection Hi as <-. }
  destruct (insert_upto n h) as [h0|]; [|done]. specialize (IH h0 eq_refl).
  destruct (insert_repr h0 (sample_map n) (Z.of_nat n) (Z.of_nat n * 10) IH) as ([ok h1] & E & Hp).
  rewrite E in Hi. destruct ok; [|done]. injection Hi as <-. by destruct Hp.
Qed.

Definition sample_empty : FlatHashU32 Z :=
  match FlatHashU32_new 0 8 with Ok h => h | _ => mkFlatHash 0 0 [] [] 0 0 0 0 false end.
Definition sample_table (n : nat) : FlatHashU32 Z :=
  match insert_upto n sample_empty with Some h => h | None => sample_empty end.

Lemma sample_table_repr n : insert_upto n sample_empty = Some (sample_table n) ->
  table_repr (sample_table n) (sample_map n).
Proof.
  apply insert_upto_repr. destruct (new_repr 0 8) as (h & E & Hr & _); [lia|].
  unfold sample_empty. by rewrite E.
Qed.

Lemma flat_hash_refines_map_witness :
  ensures (find_value (sample_table 5) 3) (fun '(o, h') =>
    o = sample_map 5 !! 3 /\ table_repr h' (sample_map 5) /\ stats_only (sample_table 5) h') /\
  ensures (insert (sample_table 5) 3 77) (fun '(ok, h') =>
    ok = (3 =? kEmptyKey) || (fh_size_ (sample_table 5) <? fh_capacity_ (sample_table 5)) /\
    if negb ok then h' = sample_table 5 else table_repr h' (<[3 := 77]> (sample_map 5))) /\
  (fh_size_ (sample_table 5) < fh_capacity_ (sample_table 5) ->
   ensures (erase (sample_table 5) 3) (fun '(ok, h') =>
     ok = bool_decide (is_Some (sample_map 5 !! 3)) /\ table_repr h' (delete 3 (sample_map 5)) /\
     fh_size_ h' < fh_capacity_ h')).
Proof.
  apply (flat_hash_refines_map (sample_table 5) (sample_map 5) 3 77).
  apply sample_table_repr. vm_compute. reflexivity.
Defined.

Lemma erase_full_diverges_witness :
  erase_fuel 1000 (sample_table 8) 3 = Fuel.
Proof.
  apply (erase_full_diverges (sample_table 8) (sample_map 8) 3 30).
  - apply sample_table_repr. vm_compute. reflexivity.
  - vm_compute. congruence.
  - unfold kEmptyKey. lia.
  - vm_compute. reflexivity.
Defined.

Lemma for_each_clear_spec_witness :
  (forall k v, In (k, v) (for_each_entries (sample_table 5)) <-> sample_map 5 !! k = Some v) /\
  table_repr (clear (sample_table 5)) ∅.
Proof.
  apply (for_each_clear_spec (sample_table 5) (sample_map 5)).
  apply sample_table_repr. vm_compute. reflexivity.
Defined.
