(* ===== verification/MeterEvent.v ===== *)
(** * include/gtpm/meter_event.hpp: what crosses the rings to the metering thread *)

From S2P Require Import Prelude.

Module Direction.
Definition kUplink : Z := 0.
Definition kDownlink : Z := 1.
Definition kUnknown : Z := 2.

Definition to_string (d : Z) : string :=
  if d =? kUplink then "uplink" else if d =? kDownlink then "downlink" else "unknown".
End Direction.

(** [MeterFlags]: bits of [MeterEvent::flags]. *)
Definition kFlagHasQfi : Z := Z.shiftl 1 0.
Definition kFlagFragmented : Z := Z.shiftl 1 1.
Definition kFlagInnerParsed : Z := Z.shiftl 1 2.
Definition kFlagControlPdu : Z := Z.shiftl 1 3.

Record MeterEvent := mkMeterEvent {
  ev_ts_ns : Z;
  ev_flow_key : Z;
  ev_teid : Z;
  ev_bytes : Z;
  ev_src_ip : Z;
  ev_dst_ip : Z;
  ev_src_port : Z;
  ev_dst_port : Z;
  ev_wire_bytes : Z;
  ev_proto : Z;
  ev_qfi : Z;
  ev_dir : Z;
  ev_msg_type : Z;
  ev_ip_version : Z;
  ev_flags : Z
}.
#[export] Instance MeterEvent_eta : Eta MeterEvent := fun e =>
  mkMeterEvent (ev_ts_ns e) (ev_flow_key e) (ev_teid e) (ev_bytes e) (ev_src_ip e) (ev_dst_ip e)
    (ev_src_port e) (ev_dst_port e) (ev_wire_bytes e) (ev_proto e) (ev_qfi e) (ev_dir e)
    (ev_msg_type e) (ev_ip_version e) (ev_flags e).
Definition MeterEvent_init : MeterEvent :=
  mkMeterEvent 0 0 0 0 0 0 0 0 0 0 0 Direction.kUnknown 0 0 0.

Definition flag_set (flags bit : Z) : bool := negb (Z.land flags bit =? 0).
Definition ev_has_qfi (e : MeterEvent) : bool := flag_set (ev_flags e) kFlagHasQfi.
Definition ev_inner_parsed (e : MeterEvent) : bool := flag_set (ev_flags e) kFlagInnerParsed.

Record GyEvent := mkGyEvent {
  gy_ts_ns : Z;
  gy_imsi : Z;
  gy_used_input_octets : Z;
  gy_used_output_octets : Z;
  gy_used_total_octets : Z;
  gy_granted_total_octets : Z;
  gy_rating_group : Z;
  gy_cc_request_type : Z;
  gy_cc_request_number : Z;
  gy_result_code : Z;
  gy_is_request : bool;
  gy_has_used : bool;
  gy_has_granted : bool;
  gy_has_imsi : bool
}.
#[export] Instance GyEvent_eta : Eta GyEvent := fun g =>
  mkGyEvent (gy_ts_ns g) (gy_imsi g) (gy_used_input_octets g) (gy_used_output_octets g)
    (gy_used_total_octets g) (gy_granted_total_octets g) (gy_rating_group g)
    (gy_cc_request_type g) (gy_cc_request_number g) (gy_result_code g) (gy_is_request g)
    (gy_has_used g) (gy_has_granted g) (gy_has_imsi g).
Definition GyEvent_init : GyEvent := mkGyEvent 0 0 0 0 0 0 0 0 0 0 false false false false.

(** The widths of the fields the metering engine uses as indices or keys. *)
Definition event_ok (e : MeterEvent) : Prop :=
  0 <= ev_teid e < 2 ^ 32 /\ 0 <= ev_bytes e < 2 ^ 32 /\ 0 <= ev_qfi e < 256 /\
  0 <= ev_ts_ns e < 2 ^ 64 /\ 0 <= ev_dir e < 256 /\ 0 <= ev_flow_key e < 2 ^ 64.
