(* ===== verification/UsageRecord.v ===== *)
(** * include/gtpm/usage_record.hpp: CDR-style usage records *)

From S2P Require Import Prelude.

Definition kBucketSlots : Z := 3.
Definition kAggregateSlot : Z := 2.
Definition kQfiBucketTag : Z := 0x80000000.
Definition kUnsetBucket : Z := 0xFFFFFFFF.

Module RecordReason.
Definition kInterval : Z := 0.
Definition kVolume : Z := 1.
Definition kRelease : Z := 2.
Definition kShutdown : Z := 3.
Definition kGyTrigger : Z := 4.

Definition to_string (r : Z) : string :=
  if r =? kInterval then "interval" else if r =? kVolume then "volume" else
  if r =? kRelease then "release" else if r =? kShutdown then "shutdown" else
  if r =? kGyTrigger then "gy-trigger" else "unknown".
End RecordReason.

Record UsageRecord := mkUsageRecord {
  r_record_wall_ns : Z;
  r_interval_start_ns : Z;
  r_interval_end_ns : Z;
  r_imsi : Z;
  r_ul_bytes : Z;
  r_dl_bytes : Z;
  r_ul_packets : Z;
  r_dl_packets : Z;
  r_bucket_bytes : list Z;
  r_bucket_ids : list Z;
  r_subscriber_index : Z;
  r_record_seq : Z;
  r_reason : Z;
  r_bucket_aggregated : bool
}.
#[export] Instance UsageRecord_eta : Eta UsageRecord := fun r =>
  mkUsageRecord (r_record_wall_ns r) (r_interval_start_ns r) (r_interval_end_ns r) (r_imsi r)
    (r_ul_bytes r) (r_dl_bytes r) (r_ul_packets r) (r_dl_packets r) (r_bucket_bytes r)
    (r_bucket_ids r) (r_subscriber_index r) (r_record_seq r) (r_reason r) (r_bucket_aggregated r).
Definition UsageRecord_init : UsageRecord :=
  mkUsageRecord 0 0 0 0 0 0 0 0 [0; 0; 0] [kUnsetBucket; kUnsetBucket; kUnsetBucket] 0 0 0 false.

Definition r_total_bytes (r : UsageRecord) : Z := add64 (r_ul_bytes r) (r_dl_bytes r).
