(* ===== verification/Session.v ===== *)
(** * include/gtpm/session.hpp: the session table *)

From S2P Require Import Prelude.

Record SessionSpec := mkSessionSpec {
  s_imsi : Z;
  s_ul_teid : Z;
  s_dl_teid : Z;
  s_rating_group : Z;
  s_msisdn : Bytes;
  s_apn : Bytes
}.
#[export] Instance SessionSpec_eta : Eta SessionSpec := fun s =>
  mkSessionSpec (s_imsi s) (s_ul_teid s) (s_dl_teid s) (s_rating_group s) (s_msisdn s) (s_apn s).
Definition SessionSpec_init : SessionSpec := mkSessionSpec 0 0 0 0 [] [].

Definition session_valid (s : SessionSpec) : bool :=
  negb (s_imsi s =? 0) && (negb (s_ul_teid s =? 0) || negb (s_dl_teid s =? 0)).

(** Field widths of a session. *)
Definition session_ok (s : SessionSpec) : Prop :=
  0 <= s_imsi s < 2 ^ 64 /\ 0 <= s_ul_teid s < 2 ^ 32 /\ 0 <= s_dl_teid s < 2 ^ 32 /\
  0 <= s_rating_group s < 2 ^ 32.
