(* ===== verification/Meter.v ===== *)
(** * include/gtpm/meter.hpp: the metering engine

    The engine's data members are one record; each method is a function on it.
    The TEID table and the record sink are used through the interfaces
    [KeyTable] and [BoundedQueue], which the flat hash table and the SPSC ring
    implement.  [wall_ns n] is the result of the [n]-th read of the wall
    clock.  A vector access outside the vector and the dereference of a null
    pointer are [UB]. *)

From S2P Require Import Prelude MeterEvent UsageRecord Session SpscRing FlatHash.

(** ** Data *)

Record SubscriberCounters := mkCounters {
  c_ul_bytes : Z;
  c_dl_bytes : Z;
  c_ul_packets : Z;
  c_dl_packets : Z;
  c_bucket_bytes : list Z;
  c_last_seen_ns : Z
}.
#[export] Instance SubscriberCounters_eta : Eta SubscriberCounters := fun c =>
  mkCounters (c_ul_bytes c) (c_dl_bytes c) (c_ul_packets c) (c_dl_packets c) (c_bucket_bytes c)
    (c_last_seen_ns c).
Definition SubscriberCounters_init : SubscriberCounters := mkCounters 0 0 0 0 [0; 0; 0] 0.

Definition total_bytes (c : SubscriberCounters) : Z := add64 (c_ul_bytes c) (c_dl_bytes c).
Definition total_packets (c : SubscriberCounters) : Z := add64 (c_ul_packets c) (c_dl_packets c).

Record SubscriberInfo := mkInfo {
  i_imsi : Z;
  i_first_seen_ns : Z;
  i_interval_start_ns : Z;
  i_emitted_ul_bytes : Z;
  i_emitted_dl_bytes : Z;
  i_emitted_ul_packets : Z;
  i_emitted_dl_packets : Z;
  i_emitted_bucket_bytes : list Z;
  i_gy_reported_octets : Z;
  i_gy_last_ns : Z;
  i_gy_reports : Z;
  i_bucket_ids : list Z;
  i_record_seq : Z;
  i_default_rating_group : Z;
  i_ul_teid : Z;
  i_dl_teid : Z;
  i_active : bool;
  i_bucket_aggregated : bool;
  i_learned : bool
}.
#[export] Instance SubscriberInfo_eta : Eta SubscriberInfo := fun i =>
  mkInfo (i_imsi i) (i_first_seen_ns i) (i_interval_start_ns i) (i_emitted_ul_bytes i)
    (i_emitted_dl_bytes i) (i_emitted_ul_packets i) (i_emitted_dl_packets i)
    (i_emitted_bucket_bytes i) (i_gy_reported_octets i) (i_gy_last_ns i) (i_gy_reports i)
    (i_bucket_ids i) (i_record_seq i) (i_default_rating_group i) (i_ul_teid i) (i_dl_teid i)
    (i_active i) (i_bucket_aggregated i) (i_learned i).
Definition SubscriberInfo_init : SubscriberInfo :=
  mkInfo 0 0 0 0 0 0 0 [0; 0; 0] 0 0 0 [kUnsetBucket; kUnsetBucket; kUnsetBucket] 0 0 0 0
    false false false.

Record TeidBinding := mkBinding { sub_idx : Z; b_dir : Z; b_slot : Z }.
#[export] Instance TeidBinding_eta : Eta TeidBinding := fun b =>
  mkBinding (sub_idx b) (b_dir b) (b_slot b).
Definition TeidBinding_init : TeidBinding := mkBinding 0 Direction.kUnknown 0.

Record FlowEntry := mkFlow {
  f_key : Z;
  f_bytes : Z;
  f_packets : Z;
  f_last_seen_ns : Z;
  f_src_ip : Z;
  f_dst_ip : Z;
  f_sub_idx : Z;
  f_teid : Z;
  f_src_port : Z;
  f_dst_port : Z;
  f_proto : Z;
  f_ip_version : Z;
  f_qfi : Z;
  f_dir : Z
}.
#[export] Instance FlowEntry_eta : Eta FlowEntry := fun f =>
  mkFlow (f_key f) (f_bytes f) (f_packets f) (f_last_seen_ns f) (f_src_ip f) (f_dst_ip f)
    (f_sub_idx f) (f_teid f) (f_src_port f) (f_dst_port f) (f_proto f) (f_ip_version f)
    (f_qfi f) (f_dir f).
Definition FlowEntry_init : FlowEntry := mkFlow 0 0 0 0 0 0 0 0 0 0 0 0 0 0.

Record PipelineStats := mkStats {
  st_events : Z;
  st_bytes : Z;
  st_ul_bytes : Z;
  st_dl_bytes : Z;
  st_ul_packets : Z;
  st_dl_packets : Z;
  st_control_pdus : Z;
  st_unknown_teid_events : Z;
  st_unknown_teid_bytes : Z;
  st_flows_active : Z;
  st_flow_inserts : Z;
  st_flow_evictions : Z;
  st_records_emitted : Z;
  st_records_dropped : Z;
  st_gy_events : Z;
  st_gy_reported_octets : Z;
  st_subscribers_installed : Z;
  st_teid_bind_failures : Z;
  st_subscribers_learned : Z;
  st_sessions_released : Z;
  st_last_event_ns : Z
}.
#[export] Instance PipelineStats_eta : Eta PipelineStats := fun s =>
  mkStats (st_events s) (st_bytes s) (st_ul_bytes s) (st_dl_bytes s) (st_ul_packets s)
    (st_dl_packets s) (st_control_pdus s) (st_unknown_teid_events s) (st_unknown_teid_bytes s)
    (st_flows_active s) (st_flow_inserts s) (st_flow_evictions s) (st_records_emitted s)
    (st_records_dropped s) (st_gy_events s) (st_gy_reported_octets s) (st_subscribers_installed s)
    (st_teid_bind_failures s) (st_subscribers_learned s) (st_sessions_released s)
    (st_last_event_ns s).
Definition PipelineStats_init : PipelineStats :=
  mkStats 0 0 0 0 0 0 0 0 0 0 0 0 0 0 0 0 0 0 0 0 0.

Record MeterConfig := mkConfig {
  max_subscribers : Z;
  teid_table_capacity : Z;
  flow_table_capacity : Z;
  flow_probe_window : Z;
  report_interval_ns : Z;
  volume_threshold_bytes : Z;
  sweep_period_ns : Z;
  sweep_fraction : Z;
  track_flows : bool;
  learn_unknown_teids : bool
}.
Definition MeterConfig_init : MeterConfig :=
  mkConfig (2 ^ 20) (2 ^ 22) (2 ^ 20) 8 10000000000 (Z.shiftl 100 20) 100000000 16 true false.

(** The data members of the engine, and [built_], a history variable: the
    records [emit_record] has built since construction, oldest first.  No
    operation branches on it; its length numbers the reads of the wall clock,
    one per record built. *)
Record MeterEngine (M R : Type) := mkEngine {
  cfg_ : MeterConfig;
  counters_ : list SubscriberCounters;
  info_ : list SubscriberInfo;
  teid_map_ : M;
  flows_ : list FlowEntry;
  flow_mask_ : Z;
  imsi_index_ : gmap Z Z;
  record_sink_ : option R;
  stats_ : PipelineStats;
  next_sub_ : Z;
  sweep_cursor_ : Z;
  last_sweep_ns_ : Z;
  built_ : list UsageRecord
}.
Arguments mkEngine {M R}.
Arguments cfg_ {M R}.
Arguments counters_ {M R}.
Arguments info_ {M R}.
Arguments teid_map_ {M R}.
Arguments flows_ {M R}.
Arguments flow_mask_ {M R}.
Arguments imsi_index_ {M R}.
Arguments record_sink_ {M R}.
Arguments stats_ {M R}.
Arguments next_sub_ {M R}.
Arguments sweep_cursor_ {M R}.
Arguments last_sweep_ns_ {M R}.
Arguments built_ {M R}.
#[export] Instance MeterEngine_eta M R : Eta (MeterEngine M R) := fun e =>
  mkEngine (cfg_ e) (counters_ e) (info_ e) (teid_map_ e) (flows_ e) (flow_mask_ e)
    (imsi_index_ e) (record_sink_ e) (stats_ e) (next_sub_ e) (sweep_cursor_ e)
    (last_sweep_ns_ e) (built_ e).

(** How often the wall clock was read. *)
Definition clock_reads_ {M R} (e : MeterEngine M R) : nat := length (built_ e).

(** [++x] and [x += n] on a 64-bit counter. *)
Definition incr64 (x : Z) : Z := add64 x 1.

(** ** Accounting slots *)

(** [for (i = i0; i < i0 + n; ++i) if (bucket_ids[i] == id) return i]. *)
Fixpoint slot_search (n : nat) (ids : list Z) (i id : Z) : res (option Z) :=
  match n with
  | O => Ok None
  | S n => let* x := at_ ids i in
           if x =? id then Ok (Some i) else slot_search n ids (i + 1) id
  end.

Definition assign_slot (info : SubscriberInfo) (bucket_id : Z) : res (Z * SubscriberInfo) :=
  let* o := slot_search (Z.to_nat kBucketSlots) (i_bucket_ids info) 0 bucket_id in
  match o with
  | Some i => Ok (u8 i, info)
  | None =>
    let* o := slot_search (Z.to_nat kAggregateSlot) (i_bucket_ids info) 0 kUnsetBucket in
    match o with
    | Some i =>
        let* ids := set_ (i_bucket_ids info) i bucket_id in
        Ok (u8 i, info <| i_bucket_ids := ids |>)
    | None =>
        let* x := at_ (i_bucket_ids info) kAggregateSlot in
        let* info :=
          (if x =? kUnsetBucket then
             let* ids := set_ (i_bucket_ids info) kAggregateSlot bucket_id in
             Ok (info <| i_bucket_ids := ids |>)
           else if negb (x =? bucket_id) then Ok (info <| i_bucket_aggregated := true |>)
           else Ok info) in
        Ok (u8 kAggregateSlot, info)
    end
  end.

Definition resolve_slot (info : SubscriberInfo) (bucket_id : Z) : res (Z * SubscriberInfo) :=
  assign_slot info bucket_id.

(** ** Flows *)

Definition init_flow (ev : MeterEvent) (sub dir key : Z) (f : FlowEntry) : FlowEntry :=
  f <| f_key := key |> <| f_bytes := ev_bytes ev |> <| f_packets := 1 |>
    <| f_last_seen_ns := ev_ts_ns ev |> <| f_src_ip := ev_src_ip ev |> <| f_dst_ip := ev_dst_ip ev |>
    <| f_sub_idx := sub |> <| f_teid := ev_teid ev |> <| f_src_port := ev_src_port ev |>
    <| f_dst_port := ev_dst_port ev |> <| f_proto := ev_proto ev |>
    <| f_ip_version := ev_ip_version ev |> <| f_qfi := ev_qfi ev |> <| f_dir := dir |>.

(** [key ? key : 1], and the first slot of its probe window. *)
Definition flow_norm (key : Z) : Z := if negb (key =? 0) then key else 1.
Definition flow_start (k mask : Z) : Z := Z.land (Z.lxor k (Z.shiftr k 32)) mask.

Definition round_pow2 (v : Z) : res Z :=
  if v <? 2 then Ok 2 else if has_single_bit v then Ok v else bit_ceil v.

(** What [update_flow]'s window scan decides. *)
Inductive flow_action := FlowHit (idx : Z) | FlowNew (idx : Z) | FlowEvict (victim : option Z).

(** The probe loop: [n] probes left; [oldest], [victim] as in the source. *)
Fixpoint flow_scan (n : nat) (flows : list FlowEntry) (mask key idx oldest : Z) (victim : option Z)
  : res flow_action :=
  match n with
  | O => Ok (FlowEvict victim)
  | S n =>
      let* f := at_ flows idx in
      if f_key f =? key then Ok (FlowHit idx) else
      if f_key f =? 0 then Ok (FlowNew idx) else
      let '(oldest, victim) :=
        if f_last_seen_ns f <? oldest then (f_last_seen_ns f, Some idx) else (oldest, victim) in
      flow_scan n flows mask key (Z.land (add64 idx 1) mask) oldest victim
  end.

Section Engine.
Context {M R : Type} {KT : KeyTable TeidBinding M} {BQ : BoundedQueue UsageRecord R}.
Context (wall_ns : nat -> Z).
Abbreviation engine := (MeterEngine M R).

(** The constructor, given the constructed TEID table. *)
Definition MeterEngine_new (cfg : MeterConfig) (teids : M) : res engine :=
  let* n := (if track_flows cfg then round_pow2 (flow_table_capacity cfg) else Ok 0) in
  let flows := replicate (Z.to_nat n) FlowEntry_init in
  Ok (mkEngine cfg (replicate (Z.to_nat (max_subscribers cfg)) SubscriberCounters_init)
        (replicate (Z.to_nat (max_subscribers cfg)) SubscriberInfo_init) teids flows
        (if size flows =? 0 then 0 else sub64 (size flows) 1)
        ∅ None PipelineStats_init 0 0 0 []).

Definition set_record_sink (sink : option R) (e : engine) : engine := e <| record_sink_ := sink |>.

(** [counters_[i]] and [info_[i]] assigned. *)
Definition set_counters (i : Z) (c : SubscriberCounters) (e : engine) : res engine :=
  let* l := set_ (counters_ e) i c in Ok (e <| counters_ := l |>).
Definition set_info (i : Z) (x : SubscriberInfo) (e : engine) : res engine :=
  let* l := set_ (info_ e) i x in Ok (e <| info_ := l |>).

(** ** Control plane *)

Definition bind_teid (e : engine) (teid sub dir slot : Z) : res (bool * engine) :=
  let b := TeidBinding_init <| sub_idx := u32 sub |> <| b_dir := u8 dir |> <| b_slot := slot |> in
  let* (ok, t) := kt_insert (teid_map_ e) teid b in
  let e := e <| teid_map_ := t |> in
  if (ok : bool) then Ok (true, e) else
  Ok (false, e <| stats_ ::= fun s => s <| st_teid_bind_failures ::= incr64 |> |>).

Definition erase_teid (e : engine) (teid : Z) : res engine :=
  let* (_, t) := kt_erase (teid_map_ e) teid in Ok (e <| teid_map_ := t |>).

Definition emit_record (e : engine) (idx reason now : Z) : res engine :=
  let* c := at_ (counters_ e) idx in
  let* info := at_ (info_ e) idx in
  let r := mkUsageRecord (wall_ns (clock_reads_ e)) (i_interval_start_ns info) now (i_imsi info)
    (sub64 (c_ul_bytes c) (i_emitted_ul_bytes info)) (sub64 (c_dl_bytes c) (i_emitted_dl_bytes info))
    (sub64 (c_ul_packets c) (i_emitted_ul_packets info))
    (sub64 (c_dl_packets c) (i_emitted_dl_packets info))
    (zip_with sub64 (c_bucket_bytes c) (i_emitted_bucket_bytes info)) (i_bucket_ids info)
    (u32 idx) (i_record_seq info) (u8 reason) (i_bucket_aggregated info) in
  let info := info
    <| i_record_seq ::= fun s => u32 (s + 1) |>
    <| i_emitted_ul_bytes := c_ul_bytes c |> <| i_emitted_dl_bytes := c_dl_bytes c |>
    <| i_emitted_ul_packets := c_ul_packets c |> <| i_emitted_dl_packets := c_dl_packets c |>
    <| i_emitted_bucket_bytes := c_bucket_bytes c |> <| i_interval_start_ns := now |> in
  let* e := set_info idx info e in
  let e := e <| built_ ::= fun l => l ++ [r] |> in
  match record_sink_ e with
  | Some q =>
      let* (ok, q) := q_push q r in
      let e := e <| record_sink_ := Some q |> in
      Ok (if (ok : bool)
          then e <| stats_ ::= fun s => s <| st_records_emitted ::= incr64 |> |>
          else e <| stats_ ::= fun s => s <| st_records_dropped ::= incr64 |> |>)
  | None => Ok (e <| stats_ ::= fun s => s <| st_records_emitted ::= incr64 |> |>)
  end.

(** The tail of [install_session], for the subscriber slot [idx]. *)
Definition install_at (e : engine) (spec : SessionSpec) (now idx : Z) : res (Z * engine) :=
  let* info := at_ (info_ e) idx in
  let reinstall := i_active info in
  let* e := (if negb reinstall then set_counters idx SubscriberCounters_init e else Ok e) in
  let info := if negb reinstall then SubscriberInfo_init else info in
  let info := info <| i_imsi := s_imsi spec |> <| i_active := true |> in
  let info := if negb reinstall
              then info <| i_first_seen_ns := now |> <| i_interval_start_ns := now |> else info in
  let info := info <| i_default_rating_group := s_rating_group spec |> in
  let* e := (if negb (i_ul_teid info =? 0) && negb (i_ul_teid info =? s_ul_teid spec)
             then erase_teid e (i_ul_teid info) else Ok e) in
  let* e := (if negb (i_dl_teid info =? 0) && negb (i_dl_teid info =? s_dl_teid spec)
             then erase_teid e (i_dl_teid info) else Ok e) in
  let info := info <| i_ul_teid := s_ul_teid spec |> <| i_dl_teid := s_dl_teid spec |> in
  let* (slot, info) := assign_slot info (s_rating_group spec) in
  let* e := set_info idx info e in
  let* (b1, e) := (if negb (s_ul_teid spec =? 0)
                   then bind_teid e (s_ul_teid spec) idx Direction.kUplink slot else Ok (true, e)) in
  let* (b2, e) := (if negb (s_dl_teid spec =? 0)
                   then bind_teid e (s_dl_teid spec) idx Direction.kDownlink slot else Ok (true, e)) in
  Ok (if negb ((b1 : bool) && b2) then SIZE_MAX else idx, e).

Definition install_session (e : engine) (spec : SessionSpec) (now : Z) : res (Z * engine) :=
  if negb (session_valid spec) then Ok (SIZE_MAX, e) else
  match imsi_index_ e !! s_imsi spec with
  | Some idx => install_at e spec now idx
  | None =>
      if size (counters_ e) <=? next_sub_ e then Ok (SIZE_MAX, e) else
      let idx := next_sub_ e in
      let e := e <| next_sub_ ::= incr64 |> <| imsi_index_ ::= <[s_imsi spec := idx]> |>
                 <| stats_ ::= fun s => s <| st_subscribers_installed ::= incr64 |> |> in
      install_at e spec now idx
  end.

Fixpoint install_sessions (e : engine) (specs : list SessionSpec) (now installed : Z) : res (Z * engine) :=
  match specs with
  | [] => Ok (installed, e)
  | s :: specs =>
      let* (r, e) := install_session e s now in
      install_sessions e specs now (if negb (r =? SIZE_MAX) then incr64 installed else installed)
  end.

Definition release_session (e : engine) (imsi now : Z) : res (bool * engine) :=
  match imsi_index_ e !! imsi with
  | None => Ok (false, e)
  | Some idx =>
      let* info := at_ (info_ e) idx in
      if negb (i_active info) then Ok (false, e) else
      let* e := emit_record e idx RecordReason.kRelease now in
      let* info := at_ (info_ e) idx in
      let* e := (if negb (i_ul_teid info =? 0) then erase_teid e (i_ul_teid info) else Ok e) in
      let* e := (if negb (i_dl_teid info =? 0) then erase_teid e (i_dl_teid info) else Ok e) in
      let* e := set_info idx (info <| i_active := false |>) e in
      Ok (true, e <| stats_ ::= fun s => s <| st_sessions_released ::= incr64 |> |>)
  end.

(** ** Data plane *)

Definition learn_teid (e : engine) (ev : MeterEvent) : res (option TeidBinding * engine) :=
  if size (counters_ e) <=? next_sub_ e then Ok (None, e) else
  let idx := next_sub_ e in
  let e := e <| next_sub_ ::= incr64 |> in
  let* e := set_counters idx SubscriberCounters_init e in
  let info := SubscriberInfo_init <| i_active := true |> <| i_learned := true |> <| i_imsi := 0 |>
    <| i_first_seen_ns := ev_ts_ns ev |> <| i_interval_start_ns := ev_ts_ns ev |> in
  let e := e <| stats_ ::= fun s => s <| st_subscribers_learned ::= incr64 |> |> in
  let* (slot, info) := assign_slot info 0 in
  let info := if ev_dir ev =? Direction.kDownlink
              then info <| i_dl_teid := ev_teid ev |> else info <| i_ul_teid := ev_teid ev |> in
  let* e := set_info idx info e in
  let* (ok, e) := bind_teid e (ev_teid ev) idx (ev_dir ev) slot in
  if negb ok then Ok (None, e) else
  let* (b, t) := kt_find (teid_map_ e) (ev_teid ev) in
  Ok (b, e <| teid_map_ := t |>).

Definition update_flow (e : engine) (ev : MeterEvent) (sub dir : Z) : res engine :=
  let key := flow_norm (ev_flow_key ev) in
  let* a := flow_scan (Z.to_nat (flow_probe_window (cfg_ e))) (flows_ e) (flow_mask_ e) key
              (flow_start key (flow_mask_ e)) UINT64_MAX None in
  match a with
  | FlowHit idx =>
      let* f := at_ (flows_ e) idx in
      let f := f <| f_bytes ::= fun b => add64 b (ev_bytes ev) |> <| f_packets ::= incr64 |>
                 <| f_last_seen_ns := ev_ts_ns ev |> in
      let* l := set_ (flows_ e) idx f in
      Ok (e <| flows_ := l |>)
  | FlowNew idx =>
      let* f := at_ (flows_ e) idx in
      let* l := set_ (flows_ e) idx (init_flow ev sub dir key f) in
      Ok (e <| flows_ := l |>
            <| stats_ ::= fun s => s <| st_flow_inserts ::= incr64 |> <| st_flows_active ::= incr64 |> |>)
  | FlowEvict victim =>
      let e := e <| stats_ ::= fun s => s <| st_flow_evictions ::= incr64 |> |> in
      match victim with
      | None => UB
      | Some idx =>
          let* f := at_ (flows_ e) idx in
          let* l := set_ (flows_ e) idx (init_flow ev sub dir key f) in
          Ok (e <| flows_ := l |>)
      end
  end.

(** [++stats_.unknown_teid_events; stats_.unknown_teid_bytes += ev.bytes]. *)
Definition count_unknown (ev : MeterEvent) (e : engine) : engine :=
  e <| stats_ ::= fun s => s <| st_unknown_teid_events ::= incr64 |>
                             <| st_unknown_teid_bytes ::= fun b => add64 b (ev_bytes ev) |> |>.

(** The part of [apply] after the binding is known. *)
Definition account (e : engine) (ev : MeterEvent) (binding : TeidBinding) : res engine :=
  let sub := sub_idx binding in
  let* c := at_ (counters_ e) sub in
  let dir := if b_dir binding =? Direction.kUnknown then ev_dir ev else b_dir binding in
  let '(c, e) :=
    if dir =? Direction.kDownlink then
      (c <| c_dl_bytes ::= fun b => add64 b (ev_bytes ev) |> <| c_dl_packets ::= incr64 |>,
       e <| stats_ ::= fun s => s <| st_dl_bytes ::= fun b => add64 b (ev_bytes ev) |>
                                  <| st_dl_packets ::= incr64 |> |>)
    else
      (c <| c_ul_bytes ::= fun b => add64 b (ev_bytes ev) |> <| c_ul_packets ::= incr64 |>,
       e <| stats_ ::= fun s => s <| st_ul_bytes ::= fun b => add64 b (ev_bytes ev) |>
                                  <| st_ul_packets ::= incr64 |> |>) in
  let c := c <| c_last_seen_ns := ev_ts_ns ev |> in
  let* (slot, e) :=
    (if ev_has_qfi ev then
       let* info := at_ (info_ e) sub in
       let* (slot, info) := resolve_slot info (Z.lor kQfiBucketTag (ev_qfi ev)) in
       let* e := set_info sub info e in
       Ok (slot, e)
     else Ok (b_slot binding, e)) in
  let* old := at_ (c_bucket_bytes c) slot in
  let* bb := set_ (c_bucket_bytes c) slot (add64 old (ev_bytes ev)) in
  let* e := set_counters sub (c <| c_bucket_bytes := bb |>) e in
  if negb (size (flows_ e) =? 0) then update_flow e ev sub dir else Ok e.

Definition apply (e : engine) (ev : MeterEvent) : res engine :=
  let e := e <| stats_ ::= fun s => s <| st_events ::= incr64 |>
                 <| st_bytes ::= fun b => add64 b (ev_bytes ev) |>
                 <| st_last_event_ns := ev_ts_ns ev |> |> in
  if flag_set (ev_flags ev) kFlagControlPdu then
    Ok (e <| stats_ ::= fun s => s <| st_control_pdus ::= incr64 |> |>)
  else
  let* (b, t) := kt_find (teid_map_ e) (ev_teid ev) in
  let e := e <| teid_map_ := t |> in
  match b with
  | Some b => account e ev b
  | None =>
      if negb (learn_unknown_teids (cfg_ e)) then Ok (count_unknown ev e) else
      let* (b, e) := learn_teid e ev in
      match b with
      | None => Ok (count_unknown ev e)
      | Some b => account e ev b
      end
  end.

Definition apply_gy (e : engine) (ev : GyEvent) : res engine :=
  let e := e <| stats_ ::= fun s => s <| st_gy_events ::= incr64 |> |> in
  if negb (gy_has_imsi ev) || negb (gy_has_used ev) then Ok e else
  match imsi_index_ e !! gy_imsi ev with
  | None => Ok e
  | Some idx =>
      let* info := at_ (info_ e) idx in
      let info := info <| i_gy_reported_octets ::= fun o => add64 o (gy_used_total_octets ev) |>
                       <| i_gy_last_ns := gy_ts_ns ev |>
                       <| i_gy_reports ::= fun n => u32 (n + 1) |> in
      let* e := set_info idx info e in
      Ok (e <| stats_ ::= fun s => s <| st_gy_reported_octets ::= fun o => add64 o (gy_used_total_octets ev) |> |>)
  end.

(** One iteration of [poll]'s sweep. *)
Definition sweep_one (e : engine) (live now : Z) : res engine :=
  let e := if live <=? sweep_cursor_ e then e <| sweep_cursor_ := 0 |> else e in
  let idx := sweep_cursor_ e in
  let e := e <| sweep_cursor_ ::= incr64 |> in
  let* info := at_ (info_ e) idx in
  if negb (i_active info) then Ok e else
  let* c := at_ (counters_ e) idx in
  let pending := add64 (sub64 (c_ul_bytes c) (i_emitted_ul_bytes info))
                       (sub64 (c_dl_bytes c) (i_emitted_dl_bytes info)) in
  if pending =? 0 then Ok e else
  if negb (volume_threshold_bytes (cfg_ e) =? 0) && (volume_threshold_bytes (cfg_ e) <=? pending)
  then emit_record e idx RecordReason.kVolume now
  else if negb (report_interval_ns (cfg_ e) =? 0)
          && (report_interval_ns (cfg_ e) <=? sub64 now (i_interval_start_ns info))
  then emit_record e idx RecordReason.kInterval now
  else Ok e.

Fixpoint sweep (n : nat) (e : engine) (live now : Z) : res engine :=
  match n with O => Ok e | S n => let* e := sweep_one e live now in sweep n e live now end.

Definition poll_chunk (cfg : MeterConfig) (live : Z) : Z :=
  Z.max 1 (live / Z.max 1 (sweep_fraction cfg)).

Definition poll (e : engine) (now : Z) : res engine :=
  if sub64 now (last_sweep_ns_ e) <? sweep_period_ns (cfg_ e) then Ok e else
  let e := e <| last_sweep_ns_ := now |> in
  let live := next_sub_ e in
  if live =? 0 then Ok e else
  sweep (Z.to_nat (poll_chunk (cfg_ e) live)) e live now.

(** [drain] from index [idx], [n] subscribers left. *)
Fixpoint drain_loop (n : nat) (e : engine) (idx now emitted : Z) : res (Z * engine) :=
  match n with
  | O => Ok (emitted, e)
  | S n =>
      let* info := at_ (info_ e) idx in
      if negb (i_active info) then drain_loop n e (idx + 1) now emitted else
      let* c := at_ (counters_ e) idx in
      if (c_ul_bytes c =? i_emitted_ul_bytes info) && (c_dl_bytes c =? i_emitted_dl_bytes info)
      then drain_loop n e (idx + 1) now emitted else
      let* e := emit_record e idx RecordReason.kShutdown now in
      drain_loop n e (idx + 1) now (incr64 emitted)
  end.

Definition drain (e : engine) (now : Z) : res (Z * engine) :=
  drain_loop (Z.to_nat (next_sub_ e)) e 0 now 0.

(** ** Read side *)

Definition subscriber_count (e : engine) : Z := next_sub_ e.

Definition find_by_imsi (e : engine) (imsi : Z) : Z :=
  match imsi_index_ e !! imsi with Some idx => idx | None => SIZE_MAX end.

Fixpoint find_flow_loop (n : nat) (flows : list FlowEntry) (mask k idx : Z) : res (option FlowEntry) :=
  match n with
  | O => Ok None
  | S n =>
      let* f := at_ flows idx in
      if f_key f =? k then Ok (Some f) else
      if f_key f =? 0 then Ok None else
      find_flow_loop n flows mask k (Z.land (add64 idx 1) mask)
  end.

Definition find_flow (e : engine) (key : Z) : res (option FlowEntry) :=
  if size (flows_ e) =? 0 then Ok None else
  let k := flow_norm key in
  find_flow_loop (Z.to_nat (flow_probe_window (cfg_ e))) (flows_ e) (flow_mask_ e) k
    (flow_start k (flow_mask_ e)).

Record GyDelta := mkGyDelta {
  gd_imsi : Z;
  gd_metered_octets : Z;
  gd_reported_octets : Z;
  gd_difference : Z;
  gd_reports : Z
}.

(** [static_cast<int64_t>], and [int64_t] subtraction (overflow is undefined). *)
Definition to_i64 (v : Z) : Z := if v <? 2 ^ 63 then v else v - 2 ^ 64.
Definition sub_i64 (a b : Z) : res Z :=
  if decide (- 2 ^ 63 <= a - b < 2 ^ 63) then Ok (a - b) else UB.

Fixpoint gy_crosscheck_loop (n : nat) (e : engine) (idx : Z) : res (list GyDelta) :=
  match n with
  | O => Ok []
  | S n =>
      let* info := at_ (info_ e) idx in
      if negb (i_active info) || (i_gy_reports info =? 0) then gy_crosscheck_loop n e (idx + 1) else
      let* c := at_ (counters_ e) idx in
      let metered := total_bytes c in
      let* d := sub_i64 (to_i64 metered) (to_i64 (i_gy_reported_octets info)) in
      let* rest := gy_crosscheck_loop n e (idx + 1) in
      Ok (mkGyDelta (i_imsi info) metered (i_gy_reported_octets info) d (i_gy_reports info) :: rest)
  end.

Definition gy_crosscheck (e : engine) : res (list GyDelta) :=
  gy_crosscheck_loop (Z.to_nat (next_sub_ e)) e 0.

End Engine.
