(* ===== verification/MeterProps.v ===== *)
(** * Correctness of the metering engine

    [engine_inv] is the invariant of the engine against the TEID map [m] that
    its table represents; every operation returns and preserves it.  The
    theorems are proved against the interfaces [KeyTable] and [BoundedQueue]
    and instantiated with the flat hash table and the SPSC ring at the end. *)

From S2P Require Import Prelude MeterEvent UsageRecord Session SpscRing FlatHash Meter.

(** ** Invariant *)

Definition sum_list (l : list Z) : Z := foldr Z.add 0 l.

(** The per-bucket split always adds up to the total, modulo the counter width. *)
Definition counters_ok (c : SubscriberCounters) : Prop :=
  size (c_bucket_bytes c) = 3 /\ u64 (sum_list (c_bucket_bytes c)) = total_bytes c.

Definition info_ok (i : SubscriberInfo) : Prop :=
  size (i_bucket_ids i) = 3 /\ size (i_emitted_bucket_bytes i) = 3 /\
  0 <= i_ul_teid i < 2 ^ 32 /\ 0 <= i_dl_teid i < 2 ^ 32 /\
  u64 (sum_list (i_emitted_bucket_bytes i)) = add64 (i_emitted_ul_bytes i) (i_emitted_dl_bytes i).

(** A binding of TEID [k] leads to an active subscriber that owns [k]. *)
Definition binding_ok (infos : list SubscriberInfo) (next k : Z) (b : TeidBinding) : Prop :=
  0 <= sub_idx b < next /\ 0 <= b_slot b < 3 /\
  exists info, infos !! Z.to_nat (sub_idx b) = Some info /\ i_active info = true /\
    (i_ul_teid info = k \/ i_dl_teid info = k) /\ (k <> 0 \/ i_learned info = true).

Definition flows_ok (cfg : MeterConfig) (flows : list FlowEntry) (mask : Z) : Prop :=
  flows = [] \/
  (exists k, 1 <= k <= 63 /\ size flows = 2 ^ k /\ mask = 2 ^ k - 1) /\
  1 <= flow_probe_window cfg /\ Forall (fun f => f_last_seen_ns f < UINT64_MAX) flows.

Section Invariant.
Context {M R : Type} {KT : KeyTable TeidBinding M} {BQ : BoundedQueue UsageRecord R}.
Context (wall_ns : nat -> Z).
Abbreviation engine := (MeterEngine M R).

Definition sink_ok (s : option R) : Prop :=
  match s with Some q => exists l, q_repr q l | None => True end.

Record engine_inv (e : engine) (m : gmap Z TeidBinding) : Prop := {
  ei_sizes : size (info_ e) = size (counters_ e) /\ size (counters_ e) <= 2 ^ 32;
  ei_next : 0 <= next_sub_ e <= size (counters_ e);
  ei_cursor : 0 <= sweep_cursor_ e <= next_sub_ e;
  ei_cap : 2 * size (counters_ e) < kt_cap (teid_map_ e);
  ei_table : kt_repr (teid_map_ e) m;
  ei_keys : forall k b, m !! k = Some b -> 0 <= k < 2 ^ 32;
  ei_bind : forall k b, m !! k = Some b -> binding_ok (info_ e) (next_sub_ e) k b;
  ei_imsi : forall k i, imsi_index_ e !! k = Some i -> 0 <= i < next_sub_ e /\
    exists info, info_ e !! Z.to_nat i = Some info /\ i_learned info = false;
  ei_fresh : forall i info, next_sub_ e <= i -> info_ e !! Z.to_nat i = Some info ->
    i_active info = false /\ i_learned info = false;
  ei_counters : Forall counters_ok (counters_ e);
  ei_info : Forall info_ok (info_ e);
  ei_flows : flows_ok (cfg_ e) (flows_ e) (flow_mask_ e);
  ei_sink : sink_ok (record_sink_ e)
}.

(** Updates that the invariant does not see. *)
Lemma inv_stats e m f : engine_inv e m -> engine_inv (e <| stats_ ::= f |>) m.
Proof. intros []. by constructor. Qed.
Lemma inv_built e m f : engine_inv e m -> engine_inv (e <| built_ ::= f |>) m.
Proof. intros []. by constructor. Qed.
Lemma inv_last_sweep e m f : engine_inv e m -> engine_inv (e <| last_sweep_ns_ ::= f |>) m.
Proof. intros []. by constructor. Qed.
Lemma inv_cursor e m n : engine_inv e m -> 0 <= n <= next_sub_ e ->
  engine_inv (e <| sweep_cursor_ := n |>) m.
Proof. intros [] ?. by constructor. Qed.
Lemma inv_sink e m s : engine_inv e m -> sink_ok s -> engine_inv (e <| record_sink_ := s |>) m.
Proof. intros [] ?. by constructor. Qed.
Lemma inv_table e m t m' : engine_inv e m -> kt_repr t m' -> kt_cap t = kt_cap (teid_map_ e) ->
  (forall k b, m' !! k = Some b -> 0 <= k < 2 ^ 32 /\ binding_ok (info_ e) (next_sub_ e) k b) ->
  engine_inv (e <| teid_map_ := t |>) m'.
Proof.
  intros [] Ht Hc Hb. constructor; cbn; auto; [by rewrite Hc|..]; intros k b Hk; by apply (Hb k b).
Qed.

(** The number of bound TEIDs is at most two per subscriber. *)
Lemma size_list_to_set_le (l : list Z) : (base.size (list_to_set l : gset Z) <= length l)%nat.
Proof.
  induction l as [|x l IH]; [done|]. cbn [length]. rewrite list_to_set_cons.
  destruct (decide (x ∈ (list_to_set l : gset Z))).
  - assert ({[x]} ∪ list_to_set l = (list_to_set l : gset Z)) as -> by (apply subseteq_union_1_L; set_solver). lia.
  - rewrite size_union by set_solver. rewrite size_singleton. lia.
Qed.

Definition teids_of (i : SubscriberInfo) : list Z := [i_ul_teid i; i_dl_teid i].

Lemma map_size_bound e m : engine_inv e m -> Z.of_nat (base.size m) <= 2 * next_sub_ e.
Proof.
  intros []. set (L := concat (map teids_of (take (Z.to_nat (next_sub_ e)) (info_ e)))).
  assert (dom m ⊆ (list_to_set L : gset Z)) as Hsub.
  { intros k. rewrite elem_of_dom, elem_of_list_to_set. intros [b Hb].
    destruct (ei_bind0 k b Hb) as (Hi & _ & info & Hinfo & _ & Hk & _).
    unfold L. rewrite list_elem_of_In, in_concat. exists (teids_of info). split.
    - apply in_map, list_elem_of_In, list_elem_of_lookup. exists (Z.to_nat (sub_idx b)).
      rewrite lookup_take_lt by lia. done.
    - unfold teids_of. cbn. tauto. }
  apply subseteq_size in Hsub. rewrite size_dom in Hsub. pose proof (size_list_to_set_le L).
  assert (length L = 2 * length (take (Z.to_nat (next_sub_ e)) (info_ e)))%nat as HL.
  { unfold L. clear. induction (take _ _) as [|x l IH]; [done|]. cbn [map concat]. rewrite length_app, IH. cbn. lia. }
  rewrite length_take in HL. lia.
Qed.

(** Replacing the counters or the info of one subscriber. *)
Lemma set_counters_Ok e m i c : engine_inv e m -> 0 <= i < size (counters_ e) -> counters_ok c ->
  ensures (set_counters i c e) (fun e' =>
    engine_inv e' m /\ e' = e <| counters_ := <[Z.to_nat i := c]> (counters_ e) |>).
Proof.
  intros [] Hi Hc. unfold set_counters. rewrite set_Ok by done. cbn [res_bind]. apply ensures_Ok.
  split; [|done]. constructor; cbn; rewrite ?size_insert; auto. by apply Forall_insert.
Qed.

(** The new info may only replace the old one if no binding loses its owner. *)
Definition info_compat (m : gmap Z TeidBinding) (i : Z) (x : SubscriberInfo) : Prop :=
  forall k b, m !! k = Some b -> sub_idx b = i ->
    i_active x = true /\ (i_ul_teid x = k \/ i_dl_teid x = k) /\ (k <> 0 \/ i_learned x = true).

Lemma set_info_Ok e m i x : engine_inv e m -> 0 <= i < next_sub_ e -> info_ok x ->
  info_compat m i x ->
  (forall k, imsi_index_ e !! k = Some i -> i_learned x = false) ->
  ensures (set_info i x e) (fun e' =>
    engine_inv e' m /\ e' = e <| info_ := <[Z.to_nat i := x]> (info_ e) |>).
Proof.
  intros [] Hi Hx Hcompat Hl. unfold set_info. rewrite set_Ok by lia. cbn [res_bind]. apply ensures_Ok.
  split; [|done].
  assert (forall j y, 0 <= j -> info_ e !! Z.to_nat j = Some y ->
    <[Z.to_nat i := x]> (info_ e) !! Z.to_nat j = Some (if decide (i = j) then x else y)) as Hlk.
  { intros j y Hj Hy. pose proof (lookup_lt_Some _ _ _ Hy). case_decide as E.
    - subst j. by rewrite list_lookup_insert_eq.
    - rewrite list_lookup_insert_ne by lia. done. }
  constructor; cbn; rewrite ?size_insert; auto.
  - intros k b Hb. destruct (ei_bind0 k b Hb) as (H1 & H2 & info & H3 & H4 & H5 & H6).
    split_and!; auto; [lia..|]. exists (if decide (i = sub_idx b) then x else info).
    split; [apply Hlk; [lia|done]|]. case_decide as E; [|auto]. by apply (Hcompat k b).
  - intros k j Hk. destruct (ei_imsi0 k j Hk) as (H1 & info & H2 & H3). split; [done|].
    exists (if decide (i = j) then x else info). split; [apply Hlk; [lia|done]|].
    case_decide as E; [subst; by eapply Hl|done].
  - intros j info Hj Hinfo. rewrite list_lookup_insert_ne in Hinfo by lia. by apply (ei_fresh0 j).
  - by apply Forall_insert.
Qed.

(** Reads of a subscriber's parts. *)
Lemma at_counters e m i : engine_inv e m -> 0 <= i < size (counters_ e) ->
  exists c, at_ (counters_ e) i = Ok c /\ counters_ e !! Z.to_nat i = Some c /\ counters_ok c.
Proof.
  intros [] Hi. destruct (at_Ok_lookup (counters_ e) i Hi) as (c & H1 & H2). exists c.
  split_and!; auto. by eapply Forall_lookup_1.
Qed.
Lemma at_info e m i : engine_inv e m -> 0 <= i < size (counters_ e) ->
  exists x, at_ (info_ e) i = Ok x /\ info_ e !! Z.to_nat i = Some x /\ info_ok x.
Proof.
  intros [] Hi. destruct (at_Ok_lookup (info_ e) i) as (x & H1 & H2); [lia|]. exists x.
  split_and!; auto. by eapply Forall_lookup_1.
Qed.
End Invariant.

(** ** Accounting slots *)

Lemma slot_search_spec ids id : forall n i, 0 <= i -> i + Z.of_nat n <= size ids ->
  ensures (slot_search n ids i id) (fun o =>
    match o with
    | Some j => i <= j < i + Z.of_nat n /\ ids !! Z.to_nat j = Some id
    | None => forall j, i <= j < i + Z.of_nat n -> ids !! Z.to_nat j <> Some id
    end).
Proof.
  induction n as [|n IH]; intros i Hi Hs; cbn [slot_search].
  { apply ensures_Ok. intros j Hj. lia. }
  destruct (at_Ok_lookup ids i) as (x & -> & Hx); [lia|]. cbn [res_bind].
  case_if; [apply ensures_Ok; split; [lia|congruence]|].
  eapply ensures_mono; [apply IH; lia|]. intros [j|]; [intros [? ?]; split; [lia|done]|].
  intros Hn j Hj. destruct (decide (j = i)) as [->|]; [congruence|]. apply Hn. lia.
Qed.

(** What [assign_slot] returns: a slot labelled with the bucket (or the
    flagged aggregate slot), no label of another bucket changed. *)
Definition slot_assigned (info info' : SubscriberInfo) (bucket_id slot : Z) : Prop :=
  0 <= slot < 3 /\
  (exists ids agg, info' = info <| i_bucket_ids := ids |> <| i_bucket_aggregated := agg |> /\
     size ids = 3 /\ (i_bucket_aggregated info = true -> agg = true)) /\
  (i_bucket_ids info' !! Z.to_nat slot = Some bucket_id \/
   (slot = kAggregateSlot /\ i_bucket_aggregated info' = true)) /\
  (forall j x, i_bucket_ids info !! j = Some x -> x <> kUnsetBucket -> i_bucket_ids info' !! j = Some x).

Lemma set_ids_assigned info slot bucket_id : size (i_bucket_ids info) = 3 -> 0 <= slot < 3 ->
  i_bucket_ids info !! Z.to_nat slot = Some kUnsetBucket ->
  slot_assigned info (info <| i_bucket_ids := <[Z.to_nat slot := bucket_id]> (i_bucket_ids info) |>)
    bucket_id slot.
Proof.
  intros H3 Hs Hu. unfold slot_assigned. split_and!; [lia|lia| |left|].
  - exists (<[Z.to_nat slot := bucket_id]> (i_bucket_ids info)), (i_bucket_aggregated info). split_and!; [by destruct info|by rewrite size_insert|done].
  - cbn. apply list_lookup_insert_eq. unfold size in H3. lia.
  - intros j x Hj Hx. cbn. rewrite list_lookup_insert_ne; [done|]. intros <-. congruence.
Qed.

Lemma assign_slot_spec info bucket_id : size (i_bucket_ids info) = 3 ->
  ensures (assign_slot info bucket_id) (fun '(slot, info') => slot_assigned info info' bucket_id slot).
Proof.
  intros H3. unfold assign_slot. change (Z.to_nat kBucketSlots) with 3%nat.
  change (Z.to_nat kAggregateSlot) with 2%nat.
  eapply ensures_bind; [apply (slot_search_spec _ _ 3 0); lia|]. intros [i|].
  { intros [Hi Hl]. apply ensures_Ok. rewrite u8_small by lia. unfold slot_assigned.
    split_and!; [lia|lia| |by left|done]. exists (i_bucket_ids info), (i_bucket_aggregated info).
    by destruct info. }
  intros Hnone.
  eapply ensures_bind; [apply (slot_search_spec _ _ 2 0); lia|]. intros [i|].
  { intros [Hi Hl]. rewrite set_Ok by lia. cbn [res_bind]. apply ensures_Ok. rewrite u8_small by lia.
    apply set_ids_assigned; [done|lia|done]. }
  intros _. destruct (at_Ok_lookup (i_bucket_ids info) kAggregateSlot) as (x & -> & Hx);
    [unfold kAggregateSlot; lia|]. cbn [res_bind]. change (u8 kAggregateSlot) with 2.
  case_if; [|case_if]; cbn [res_bind].
  - rewrite set_Ok by (unfold kAggregateSlot; lia). cbn [res_bind]. apply ensures_Ok.
    apply (set_ids_assigned info 2); [done|lia|]. by rewrite <- Hif.
  - apply ensures_Ok. unfold slot_assigned. split_and!; [lia|lia| |by right|done].
    exists (i_bucket_ids info), true. by destruct info.
  - exfalso. apply (Hnone kAggregateSlot); [unfold kAggregateSlot; lia|]. rewrite Hx. by rewrite Hif0.
Qed.

(** ** Flow table *)

Lemma flow_scan_spec k flows mask key : 1 <= k <= 63 -> size flows = 2 ^ k -> mask = 2 ^ k - 1 ->
  Forall (fun f => f_last_seen_ns f < UINT64_MAX) flows ->
  forall n idx oldest victim, 0 <= idx < 2 ^ k ->
  (victim = None -> oldest = UINT64_MAX) ->
  (forall v, victim = Some v -> 0 <= v < 2 ^ k) ->
  (n = O -> victim <> None) ->
  ensures (flow_scan n flows mask key idx oldest victim) (fun a =>
    match a with
    | FlowHit i => 0 <= i < 2 ^ k /\ exists f, flows !! Z.to_nat i = Some f /\ f_key f = key
    | FlowNew i => 0 <= i < 2 ^ k /\ exists f, flows !! Z.to_nat i = Some f /\ f_key f = 0 /\ key <> 0
    | FlowEvict v => exists i, v = Some i /\ 0 <= i < 2 ^ k
    end).
Proof.
  intros Hk Hs Hm Hts. pose proof (pow63 k Hk) as Hpk.
  induction n as [|n IH]; intros idx oldest victim Hidx Hold Hv Hn; cbn [flow_scan].
  { apply ensures_Ok. destruct victim as [v|]; [|by destruct Hn]. exists v. auto. }
  destruct (at_Ok_lookup flows idx) as (f & -> & Hf); [lia|]. cbn [res_bind].
  destruct (Z.eqb_spec (f_key f) key); [apply ensures_Ok; split; [lia|by exists f]|].
  destruct (Z.eqb_spec (f_key f) 0); [apply ensures_Ok; split; [lia|]; exists f; split_and!; congruence|].
  assert (f_last_seen_ns f < UINT64_MAX) as Hfts
    by (apply (Forall_lookup_1 (fun f => f_last_seen_ns f < UINT64_MAX) _ _ _ Hts Hf)).
  assert (0 <= Z.land (add64 idx 1) mask < 2 ^ k) as Hnext.
  { rewrite Hm. unfold add64. rewrite land_mask by lia. apply Z.mod_pos_bound. lia. }
  destruct (Z.ltb_spec (f_last_seen_ns f) oldest).
  - apply IH; [done|done|by intros v [= <-]|done].
  - destruct victim as [v|]; [by apply IH|]. specialize (Hold eq_refl). lia.
Qed.

Section Data.
Context {M R : Type} {KT : KeyTable TeidBinding M} {BQ : BoundedQueue UsageRecord R}.
Context (wall_ns : nat -> Z).
Abbreviation engine := (MeterEngine M R).

(** Everything but the flow table and the flow statistics. *)
Definition core_stats (s : PipelineStats) :=
  (st_events s, st_bytes s, st_ul_bytes s, st_dl_bytes s, st_ul_packets s, st_dl_packets s,
   st_control_pdus s, st_unknown_teid_events s, st_unknown_teid_bytes s, st_records_emitted s,
   st_records_dropped s).
Definition core (e : engine) :=
  (cfg_ e, counters_ e, info_ e, teid_map_ e, flow_mask_ e, imsi_index_ e, record_sink_ e,
   core_stats (stats_ e), next_sub_ e, sweep_cursor_ e, built_ e).

Lemma inv_core (e e' : engine) m : engine_inv e m -> core e' = core e ->
  flows_ok (cfg_ e) (flows_ e') (flow_mask_ e) -> engine_inv e' m.
Proof.
  intros [] Hc Hf. injection Hc; clear Hc; intros.
  constructor; repeat (match goal with H : _ = _ |- _ => rewrite H end); auto.
Qed.

Lemma flows_ok_insert cfg flows mask i f : flows_ok cfg flows mask -> f_last_seen_ns f < UINT64_MAX ->
  flows_ok cfg (<[i := f]> flows) mask.
Proof.
  intros [->|((k & Hk & Hs & Hm) & Hw & Hf)] Hts; [by left|]. right. split_and!; auto.
  - exists k. by rewrite size_insert.
  - by apply Forall_insert.
Qed.

Lemma update_flow_spec (e : engine) m ev sub dir : engine_inv e m -> size (flows_ e) <> 0 ->
  ev_ts_ns ev < UINT64_MAX ->
  ensures (update_flow e ev sub dir) (fun e' => engine_inv e' m /\ core e' = core e).
Proof.
  intros Hinv Hne Hts. pose proof (ei_flows _ _ Hinv) as Hfo.
  destruct Hfo as [E|((k & Hk & Hs & Hm) & Hw & Hf)]; [by rewrite E in Hne|].
  pose proof (pow63 k Hk). set (key := flow_norm (ev_flow_key ev)).
  assert (0 <= flow_start key (flow_mask_ e) < 2 ^ k) as Hst.
  { unfold flow_start. rewrite Hm. replace (2 ^ k - 1) with (Z.ones k) by (rewrite Z.ones_equiv; lia).
    rewrite Z.land_ones by lia. apply Z.mod_pos_bound. lia. }
  assert (forall e' i g, core e' = core e -> flows_ e' = <[i := g]> (flows_ e) ->
    f_last_seen_ns g < UINT64_MAX -> engine_inv e' m /\ core e' = core e) as Hput.
  { intros e' i g Hc Hfl Hg. split; [|done]. apply (inv_core e); [done|done|]. rewrite Hfl.
    apply flows_ok_insert; [|done]. apply Hinv. }
  unfold update_flow. fold key. eapply ensures_bind.
  { apply (flow_scan_spec k (flows_ e) (flow_mask_ e) key Hk Hs Hm Hf); auto; try done. lia. }
  intros [i|i|v].
  - intros (Hi & f & Hfl & Hkey). rewrite (at_lookup (flows_ e) i f) by (done || lia). cbn [res_bind].
    rewrite set_Ok by lia. cbn [res_bind]. apply ensures_Ok. eapply Hput; [reflexivity|reflexivity|done].
  - intros (Hi & f & Hfl & _). rewrite (at_lookup (flows_ e) i f) by (done || lia). cbn [res_bind].
    rewrite set_Ok by lia. cbn [res_bind]. apply ensures_Ok. eapply Hput; [reflexivity|reflexivity|done].
  - intros (i & -> & Hi). destruct (at_Ok (flows_ e) i) as [f Hat]; [lia|].
    cbn [flows_ setf]. rewrite Hat. cbn [res_bind].
    rewrite set_Ok by lia. cbn [res_bind]. apply ensures_Ok. eapply Hput; [reflexivity|reflexivity|done].
Qed.

(** ** Charging one packet *)

Definition is_downlink (ev : MeterEvent) (b : TeidBinding) : bool :=
  (if b_dir b =? Direction.kUnknown then ev_dir ev else b_dir b) =? Direction.kDownlink.

(** [c'] is [c] with the packet [ev] charged to one direction and one slot. *)
Definition credited (dl : bool) (ev : MeterEvent) (slot : Z) (c c' : SubscriberCounters) : Prop :=
  c_ul_bytes c' = (if dl then c_ul_bytes c else add64 (c_ul_bytes c) (ev_bytes ev)) /\
  c_dl_bytes c' = (if dl then add64 (c_dl_bytes c) (ev_bytes ev) else c_dl_bytes c) /\
  c_ul_packets c' = (if dl then c_ul_packets c else add64 (c_ul_packets c) 1) /\
  c_dl_packets c' = (if dl then add64 (c_dl_packets c) 1 else c_dl_packets c) /\
  c_last_seen_ns c' = ev_ts_ns ev /\
  exists old, c_bucket_bytes c !! Z.to_nat slot = Some old /\
    c_bucket_bytes c' = <[Z.to_nat slot := add64 old (ev_bytes ev)]> (c_bucket_bytes c).

(** The statistics of a charged packet. *)
Definition stats_credited (dl : bool) (ev : MeterEvent) (s s' : PipelineStats) : Prop :=
  core_stats s' =
    (st_events s, st_bytes s,
     (if dl then st_ul_bytes s else add64 (st_ul_bytes s) (ev_bytes ev)),
     (if dl then add64 (st_dl_bytes s) (ev_bytes ev) else st_dl_bytes s),
     (if dl then st_ul_packets s else add64 (st_ul_packets s) 1),
     (if dl then add64 (st_dl_packets s) 1 else st_dl_packets s),
     st_control_pdus s, st_unknown_teid_events s, st_unknown_teid_bytes s, st_records_emitted s,
     st_records_dropped s).

(** The slot a packet is charged to: its tunnel's, or the one of its QFI. *)
Definition slot_for (ev : MeterEvent) (b : TeidBinding) (x x' : SubscriberInfo) (slot : Z) : Prop :=
  0 <= slot < 3 /\
  if ev_has_qfi ev then slot_assigned x x' (Z.lor kQfiBucketTag (ev_qfi ev)) slot
  else slot = b_slot b /\ x' = x.

Record accounted (e e' : engine) (ev : MeterEvent) (b : TeidBinding) : Prop := {
  ac_charge : exists c c' x x' slot,
    counters_ e !! Z.to_nat (sub_idx b) = Some c /\ info_ e !! Z.to_nat (sub_idx b) = Some x /\
    counters_ e' = <[Z.to_nat (sub_idx b) := c']> (counters_ e) /\
    info_ e' = <[Z.to_nat (sub_idx b) := x']> (info_ e) /\
    credited (is_downlink ev b) ev slot c c' /\ slot_for ev b x x' slot;
  ac_stats : stats_credited (is_downlink ev b) ev (stats_ e) (stats_ e');
  ac_rest : next_sub_ e' = next_sub_ e /\ imsi_index_ e' = imsi_index_ e /\ cfg_ e' = cfg_ e /\
    (record_sink_ e', built_ e') = (record_sink_ e, built_ e)
}.

Lemma sum_insert (l : list Z) i old y : l !! i = Some old ->
  sum_list (<[i := y]> l) = sum_list l - old + y.
Proof.
  revert i. induction l as [|x l IH]; intros [|i] Hi; try done.
  - injection Hi as ->. change (<[0%nat := y]> (old :: l)) with (y :: l).
    unfold sum_list. cbn [foldr]. lia.
  - change (<[S i := y]> (x :: l)) with (x :: <[i := y]> l). specialize (IH i Hi).
    unfold sum_list in *. cbn [foldr]. lia.
Qed.

Lemma credited_ok dl ev slot c c' : counters_ok c -> credited dl ev slot c c' -> counters_ok c'.
Proof.
  intros [H3 Hsum] (E1 & E2 & _ & _ & _ & old & Ho & E3). unfold counters_ok, total_bytes in *.
  rewrite E1, E2, E3, size_insert. split; [done|]. rewrite (sum_insert _ _ _ _ Ho).
  replace (sum_list (c_bucket_bytes c) - old + add64 old (ev_bytes ev))
    with (sum_list (c_bucket_bytes c) + (add64 old (ev_bytes ev) - old)) by lia.
  rewrite <- u64_add_u64_l, Hsum. unfold add64.
  assert (forall a b x, u64 (u64 (a + b) + (u64 (old + x) - old)) = u64 (a + b + x)) as Hm.
  { intros a d x. rewrite u64_add_u64_l.
    replace (a + d + (u64 (old + x) - old)) with (u64 (old + x) + (a + d - old)) by lia.
    rewrite u64_add_u64_l. f_equal. lia. }
  rewrite Hm. destruct dl; rewrite ?u64_add_u64_l, ?u64_add_u64_r; f_equal; lia.
Qed.

(** Only the bucket labels of an info change. *)
Lemma labels_info_ok x ids agg : info_ok x -> size ids = 3 ->
  info_ok (x <| i_bucket_ids := ids |> <| i_bucket_aggregated := agg |>).
Proof. intros (_ & ? & ? & ? & ?) ?. done. Qed.

(** The slot for a packet: the tunnel's, or the one of its QFI. *)
Lemma packet_slot_spec (e : engine) m k b ev : engine_inv e m -> m !! k = Some b ->
  ensures (if ev_has_qfi ev then
       let* info := at_ (info_ e) (sub_idx b) in
       let* (slot, info) := resolve_slot info (Z.lor kQfiBucketTag (ev_qfi ev)) in
       let* e := set_info (sub_idx b) info e in
       Ok (slot, e)
     else Ok (b_slot b, e))
    (fun '(slot, e') => engine_inv e' m /\
       exists x x', info_ e !! Z.to_nat (sub_idx b) = Some x /\ slot_for ev b x x' slot /\
         e' = e <| info_ := <[Z.to_nat (sub_idx b) := x']> (info_ e) |>).
Proof.
  intros Hinv Hk. pose proof (ei_bind _ _ Hinv k b Hk) as (Hi & Hslot & info & Hinfo & Hact & Hown & Hz).
  pose proof (ei_next _ _ Hinv). unfold slot_for. destruct (ev_has_qfi ev).
  - destruct (at_info e m (sub_idx b) Hinv) as (x & -> & Hx & Hok); [lia|]. cbn [res_bind].
    assert (x = info) as -> by congruence.
    unfold resolve_slot. eapply ensures_bind; [apply (assign_slot_spec info); apply Hok|].
    intros [slot x'] Hsa. pose proof Hsa as (Hs & (ids & agg & -> & Hids & _) & _ & _).
    assert (info_compat m (sub_idx b) (info <| i_bucket_ids := ids |> <| i_bucket_aggregated := agg |>)) as Hcompat.
    { intros k' b' Hk' Hb'. destruct (ei_bind _ _ Hinv k' b' Hk') as (_ & _ & info' & Hi' & Ha' & Ho' & Hz').
      rewrite Hb' in Hi'. by assert (info' = info) as -> by congruence. }
    assert (forall q, imsi_index_ e !! q = Some (sub_idx b) ->
      i_learned (info <| i_bucket_ids := ids |> <| i_bucket_aggregated := agg |>) = false) as Hl.
    { intros q Hq. destruct (ei_imsi _ _ Hinv q _ Hq) as (_ & y & Hy & Hly). cbn. congruence. }
    assert (info_ok (info <| i_bucket_ids := ids |> <| i_bucket_aggregated := agg |>)) as Hok'
      by (by apply labels_info_ok).
    eapply ensures_bind; [by apply (set_info_Ok e m (sub_idx b))|].
    intros e' [Hinv' ->]. apply ensures_Ok. split; [done|].
    exists info. eexists. split_and!; [done|lia|lia|exact Hsa|done].
  - apply ensures_Ok. split; [done|]. exists info, info. split_and!; [done|lia|lia|done|done|].
    rewrite list_insert_id by done. by destruct e.
Qed.

Lemma account_spec (e : engine) m k b ev : engine_inv e m -> m !! k = Some b ->
  ev_ts_ns ev < UINT64_MAX ->
  ensures (account e ev b) (fun e' => engine_inv e' m /\ accounted e e' ev b).
Proof.
  intros Hinv Hk Hts. pose proof (ei_bind _ _ Hinv k b Hk) as (Hi & Hslot & _).
  pose proof (ei_next _ _ Hinv). unfold account.
  destruct (at_counters e m (sub_idx b) Hinv) as (c & -> & Hc & Hcok); [lia|]. cbn [res_bind].
  set (dir := if b_dir b =? Direction.kUnknown then _ else _).
  set (p := if dir =? Direction.kDownlink then _ else _).
  assert (exists c1 s1, p = (c1, e <| stats_ := s1 |>) /\ c_bucket_bytes c1 = c_bucket_bytes c /\
    stats_credited (is_downlink ev b) ev (stats_ e) s1 /\
    c_ul_bytes c1 = (if is_downlink ev b then c_ul_bytes c else add64 (c_ul_bytes c) (ev_bytes ev)) /\
    c_dl_bytes c1 = (if is_downlink ev b then add64 (c_dl_bytes c) (ev_bytes ev) else c_dl_bytes c) /\
    c_ul_packets c1 = (if is_downlink ev b then c_ul_packets c else add64 (c_ul_packets c) 1) /\
    c_dl_packets c1 = (if is_downlink ev b then add64 (c_dl_packets c) 1 else c_dl_packets c))
    as (c1 & s1 & -> & Hb1 & Hs1 & Hu1 & Hd1 & Hup1 & Hdp1).
  { unfold p, is_downlink. fold dir. destruct (dir =? Direction.kDownlink);
      eexists _, _; split_and!; reflexivity. }
  set (e1 := e <| stats_ := s1 |>).
  assert (engine_inv e1 m) as Hinv1 by (by apply inv_stats).
  eapply ensures_bind; [by apply (packet_slot_spec e1 m k b ev)|].
  intros [slot e2] (Hinv2 & x & x' & Hx & Hsl & ->). pose proof Hsl as [Hs _].
  cbn [c_bucket_bytes setf]. rewrite Hb1. destruct Hcok as [H3 Hsum].
  destruct (at_Ok_lookup (c_bucket_bytes c) slot) as (old & -> & Hold); [lia|]. cbn [res_bind].
  rewrite set_Ok by lia. cbn [res_bind]. set (c2 := setf c_bucket_bytes _ _).
  assert (credited (is_downlink ev b) ev slot c c2) as Hcr.
  { unfold credited, c2; cbn. split_and!; auto. exists old. auto. }
  pose proof (credited_ok _ _ _ _ _ (conj H3 Hsum) Hcr) as Hok2.
  eapply ensures_bind; [by apply (set_counters_Ok _ m (sub_idx b) c2 Hinv2); [cbn; lia|]|].
  intros e3 [Hinv3 ->]. set (e3 := setf counters_ _ _) in *.
  assert (forall e', core e' = core e3 -> accounted e e' ev b) as Hacc.
  { intros e' Hcore. pose proof (f_equal (fun t => t.1.1.1.2) Hcore) as Hst.
    injection Hcore; intros. constructor.
    - exists c, c2, x, x', slot. split_and!; auto.
    - unfold stats_credited. cbn in Hst. rewrite Hst. exact Hs1.
    - split_and!; congruence. }
  case_if; [|by apply ensures_Ok; split; [|apply Hacc]].
  eapply ensures_mono; [by apply (update_flow_spec e3 m)|]. intros e' [Hinv' Hcore]. auto.
Qed.

(** ** Binding, learning, applying *)

Lemma bind_teid_spec (e : engine) m teid sub dir slot info :
  engine_inv e m -> 0 <= teid < 2 ^ 32 -> 0 <= sub < next_sub_ e -> 0 <= slot < 3 -> 0 <= dir < 256 ->
  info_ e !! Z.to_nat sub = Some info -> i_active info = true ->
  (i_ul_teid info = teid \/ i_dl_teid info = teid) -> (teid <> 0 \/ i_learned info = true) ->
  ensures (bind_teid e teid sub dir slot) (fun '(ok, e') =>
    ok = true /\ engine_inv e' (<[teid := mkBinding sub dir slot]> m) /\
    exists t, e' = e <| teid_map_ := t |>).
Proof.
  intros Hinv Ht Hs Hsl Hd Hinfo Hact Hown Hz. unfold bind_teid.
  pose proof (ei_next _ _ Hinv). pose proof (ei_sizes _ _ Hinv) as [_ H32].
  replace (setf b_slot _ _) with (mkBinding sub dir slot).
  2: { unfold setf, TeidBinding_init; cbn. by rewrite u32_small, u8_small by lia. }
  eapply ensures_bind; [apply (kt_insert_spec (teid_map_ e) m teid (mkBinding sub dir slot)); [apply Hinv|done]|].
  intros [ok t] [Hc Hok]. pose proof (map_size_bound _ _ Hinv). pose proof (ei_cap _ _ Hinv).
  destruct ok; cbn [negb] in Hok; [|lia]. apply ensures_Ok. split_and!; [done| |by exists t].
  apply (inv_table e m); [done|done|done|]. intros k b Hk.
  apply lookup_insert_Some in Hk as [[<- <-]|[Hne Hk]].
  - split; [done|]. split_and!; cbn; try lia. exists info. auto.
  - split; [by eapply (ei_keys _ _ Hinv)|by apply (ei_bind _ _ Hinv)].
Qed.

Lemma binding_ok_mono infos n n' k b : n <= n' -> binding_ok infos n k b -> binding_ok infos n' k b.
Proof. intros Hn (? & ? & ?). split_and!; auto; lia. Qed.

Lemma inv_next (e : engine) m : engine_inv e m -> next_sub_ e < size (counters_ e) ->
  engine_inv (e <| next_sub_ ::= incr64 |>) m /\ incr64 (next_sub_ e) = next_sub_ e + 1.
Proof.
  intros [] Hn. assert (incr64 (next_sub_ e) = next_sub_ e + 1) as E by (apply u64_small; lia).
  split; [|done]. constructor; cbn; rewrite ?E; auto; try lia.
  - intros k b Hk. apply (binding_ok_mono _ (next_sub_ e)); [lia|]. by apply ei_bind0.
  - intros k i Hk. destruct (ei_imsi0 k i Hk) as [? ?]. split; [lia|done].
  - intros i info Hi. apply ei_fresh0. lia.
Qed.

(** An active subscriber for which nothing has been reported yet. *)
Definition unbilled (x : SubscriberInfo) : Prop :=
  i_active x = true /\ i_emitted_ul_bytes x = 0 /\ i_emitted_dl_bytes x = 0 /\
  i_emitted_ul_packets x = 0 /\ i_emitted_dl_packets x = 0.

Lemma learn_teid_spec (e : engine) m ev : engine_inv e m -> event_ok ev ->
  ensures (learn_teid e ev) (fun '(o, e') =>
    if size (counters_ e) <=? next_sub_ e then o = None /\ e' = e
    else exists b m', o = Some b /\ m' = <[ev_teid ev := b]> m /\ engine_inv e' m' /\
      sub_idx b = next_sub_ e /\ b_dir b = ev_dir ev /\
      counters_ e' = <[Z.to_nat (next_sub_ e) := SubscriberCounters_init]> (counters_ e) /\
      (exists x, info_ e' = <[Z.to_nat (next_sub_ e) := x]> (info_ e) /\ unbilled x) /\
      core_stats (stats_ e') = core_stats (stats_ e) /\ cfg_ e' = cfg_ e /\
      imsi_index_ e' = imsi_index_ e /\ (record_sink_ e', built_ e') = (record_sink_ e, built_ e) /\
      next_sub_ e' = next_sub_ e + 1).
Proof.
  intros Hinv (Ht & Hb & Hq & Hts & Hd & Hf). unfold learn_teid. case_if; [by apply ensures_Ok|].
  pose proof (ei_next _ _ Hinv). destruct (inv_next e m Hinv Hif) as [Hinv1 Hn].
  set (idx := next_sub_ e) in *. set (e1 := e <| next_sub_ ::= incr64 |>) in *.
  eapply ensures_bind; [apply (set_counters_Ok e1 m idx SubscriberCounters_init Hinv1); [cbn; lia|done]|].
  intros e2 [Hinv2 ->]. set (e2 := setf stats_ _ _).
  assert (engine_inv e2 m) as Hinv2' by (by apply inv_stats).
  eapply ensures_bind; [by apply assign_slot_spec|].
  intros [slot x] (Hsl & (ids & agg & -> & Hids & _) & _ & _).
  set (x1 := if ev_dir ev =? Direction.kDownlink then _ else _).
  assert (i_active x1 = true /\ i_learned x1 = true /\ (i_ul_teid x1 = ev_teid ev \/ i_dl_teid x1 = ev_teid ev) /\
    info_ok x1 /\ unbilled x1) as (Hxa & Hxl & Hxt & Hxok & Hxu).
  { unfold x1. case_if; cbn; split_and!; auto; unfold info_ok; cbn; split_and!; auto; lia || done. }
  assert (0 <= idx < next_sub_ e2) as Hidx by (cbn; fold idx; lia).
  eapply ensures_bind; [apply (set_info_Ok e2 m idx x1 Hinv2' Hidx Hxok)|].
  { intros k b Hk Hbk. destruct (ei_bind _ _ Hinv k b Hk) as (Hlt & _). fold idx in Hlt. lia. }
  { intros k Hk. destruct (ei_imsi _ _ Hinv k idx Hk) as (Hlt & _). fold idx in Hlt. lia. }
  intros e3 [Hinv3 ->]. set (e3 := setf info_ _ _) in *.
  eapply ensures_bind; [apply (bind_teid_spec e3 m (ev_teid ev) idx (ev_dir ev) slot x1); auto|].
  { cbn. apply list_lookup_insert_eq. pose proof (ei_sizes _ _ Hinv) as [? _]. unfold size in *. lia. }
  intros [ok e4] (-> & Hinv4 & t & ->). cbn [negb].
  eapply ensures_bind; [apply (kt_find_spec _ _ (ev_teid ev) (ei_table _ _ Hinv4) Ht)|].
  intros [o t'] (-> & Hrt & Hct). rewrite lookup_insert_eq. apply ensures_Ok.
  exists (mkBinding idx (ev_dir ev) slot), (<[ev_teid ev := mkBinding idx (ev_dir ev) slot]> m).
  split_and!; auto; try done; [|by exists x1].
  apply (inv_table _ (<[ev_teid ev := mkBinding idx (ev_dir ev) slot]> m) t'); auto.
  intros k b Hk. split; [by eapply (ei_keys _ _ Hinv4)|by apply (ei_bind _ _ Hinv4)].
Qed.

(** The state [apply] works on after counting the event. *)
Definition counted (ev : MeterEvent) (e : engine) : engine :=
  e <| stats_ ::= fun s => s <| st_events ::= incr64 |>
         <| st_bytes ::= fun b => add64 b (ev_bytes ev) |> <| st_last_event_ns := ev_ts_ns ev |> |>.

(** How [apply] ends. *)
Inductive apply_post (e : engine) (m : gmap Z TeidBinding) (ev : MeterEvent) (e' : engine) (m' : gmap Z TeidBinding) : Prop :=
| ap_control : flag_set (ev_flags ev) kFlagControlPdu = true -> m' = m ->
    e' = (counted ev e) <| stats_ ::= fun s => s <| st_control_pdus ::= incr64 |> |> ->
    apply_post e m ev e' m'
| ap_bound b t : flag_set (ev_flags ev) kFlagControlPdu = false -> m !! ev_teid ev = Some b -> m' = m ->
    accounted ((counted ev e) <| teid_map_ := t |>) e' ev b -> apply_post e m ev e' m'
| ap_unknown t : flag_set (ev_flags ev) kFlagControlPdu = false -> m !! ev_teid ev = None -> m' = m ->
    (learn_unknown_teids (cfg_ e) = false \/ size (counters_ e) <= next_sub_ e) ->
    e' = count_unknown ev ((counted ev e) <| teid_map_ := t |>) -> apply_post e m ev e' m'
| ap_learned b e1 : flag_set (ev_flags ev) kFlagControlPdu = false -> m !! ev_teid ev = None ->
    learn_unknown_teids (cfg_ e) = true -> next_sub_ e < size (counters_ e) ->
    m' = <[ev_teid ev := b]> m -> sub_idx b = next_sub_ e -> b_dir b = ev_dir ev ->
    counters_ e1 = <[Z.to_nat (next_sub_ e) := SubscriberCounters_init]> (counters_ e) ->
    (exists x, info_ e1 = <[Z.to_nat (next_sub_ e) := x]> (info_ e) /\ unbilled x) ->
    (record_sink_ e1, built_ e1) = (record_sink_ e, built_ e) -> next_sub_ e1 = next_sub_ e + 1 ->
    core_stats (stats_ e1) = core_stats (stats_ (counted ev e)) ->
    accounted e1 e' ev b -> apply_post e m ev e' m'.

Lemma apply_spec (e : engine) m ev : engine_inv e m -> event_ok ev -> ev_ts_ns ev < UINT64_MAX ->
  ensures (apply e ev) (fun e' => exists m', engine_inv e' m' /\ apply_post e m ev e' m').
Proof.
  intros Hinv Hev Hts. unfold apply. fold (counted ev e).
  assert (engine_inv (counted ev e) m) as Hinv0 by (by apply inv_stats).
  case_if.
  { apply ensures_Ok. exists m. split; [by apply inv_stats|]. by apply ap_control. }
  eapply ensures_bind; [apply (kt_find_spec _ m (ev_teid ev) (ei_table _ _ Hinv0)); apply Hev|].
  intros [o t] (-> & Hrt & Hct).
  set (e1 := (counted ev e) <| teid_map_ := t |>).
  assert (engine_inv e1 m) as Hinv1.
  { apply (inv_table _ m); auto. intros k b Hk. split; [by eapply (ei_keys _ _ Hinv)|by apply (ei_bind _ _ Hinv)]. }
  destruct (m !! ev_teid ev) as [b|] eqn:Hm.
  { eapply ensures_mono; [by apply (account_spec e1 m (ev_teid ev) b ev)|]. intros e' [Hinv' Hacc].
    exists m. split; [done|]. by eapply ap_bound. }
  change (cfg_ e1) with (cfg_ e). destruct (learn_unknown_teids (cfg_ e)) eqn:Hl; cbn [negb].
  2: { apply ensures_Ok. exists m. split; [by apply inv_stats|]. eapply ap_unknown; auto. }
  eapply ensures_bind; [by apply (learn_teid_spec e1 m ev)|]. intros [o e2].
  change (size (counters_ e1)) with (size (counters_ e)). change (next_sub_ e1) with (next_sub_ e).
  case_if.
  { intros [-> ->]. apply ensures_Ok. exists m. split; [by apply inv_stats|]. eapply ap_unknown; auto. }
  intros (b & m' & -> & -> & Hinv2 & Hsub & Hdir & Hcnt & Hinfo & Hcore & Hcfg & Himsi & Hsink & Hnx).
  eapply ensures_mono; [apply (account_spec e2 _ (ev_teid ev) b ev Hinv2); [apply lookup_insert_eq|done]|].
  intros e' [Hinv' Hacc]. exists (<[ev_teid ev := b]> m). split; [done|]. by eapply (ap_learned e m ev e' _ b e2).
Qed.
End Data.

(** [assign_slot] on its three slots, as one decision. *)
Lemma assign_slot3 info id a b c : i_bucket_ids info = [a; b; c] ->
  assign_slot info id =
  Ok (if a =? id then (0, info) else if b =? id then (1, info) else if c =? id then (2, info) else
      if a =? kUnsetBucket then (0, info <| i_bucket_ids := [id; b; c] |>) else
      if b =? kUnsetBucket then (1, info <| i_bucket_ids := [a; id; c] |>) else
      if c =? kUnsetBucket then (2, info <| i_bucket_ids := [a; b; id] |>) else
      (2, info <| i_bucket_aggregated := true |>)).
Proof.
  intros Hids. unfold assign_slot. rewrite Hids.
  change (Z.to_nat kBucketSlots) with 3%nat. change (Z.to_nat kAggregateSlot) with 2%nat. cbn [slot_search].
  change (at_ [a; b; c] 0) with (@Ok Z a). change (at_ [a; b; c] (0 + 1)) with (@Ok Z b).
  change (at_ [a; b; c] (0 + 1 + 1)) with (@Ok Z c). change (at_ [a; b; c] kAggregateSlot) with (@Ok Z c). cbn [res_bind].
  destruct (a =? id) eqn:Ea; [done|]. destruct (b =? id) eqn:Eb; [done|]. destruct (c =? id) eqn:Ec; [done|]. cbn [res_bind].
  destruct (a =? kUnsetBucket); [done|]. destruct (b =? kUnsetBucket); [done|]. cbn [res_bind].
  by destruct (c =? kUnsetBucket).
Qed.

(** Slot assignment labels its slots soundly.  The slot returned for a bucket
    carries that bucket's label, or is the aggregate slot with the aggregated
    flag set; no label already given changes; and asking again for the same
    bucket returns the same slot and changes nothing. *)
Lemma assign_slot_labels info bucket_id : size (i_bucket_ids info) = 3 ->
  ensures (assign_slot info bucket_id) (fun '(slot, info') =>
    slot_assigned info info' bucket_id slot /\ assign_slot info' bucket_id = Ok (slot, info')).
Proof.
  intros H3. destruct (assign_slot_spec info bucket_id H3) as ([slot info'] & E & Hs).
  exists (slot, info'). split; [done|]. split; [done|]. clear Hs.
  destruct (i_bucket_ids info) as [|a [|b [|c [|]]]] eqn:Hids; try (cbn in H3; discriminate).
  2: { unfold size in H3. cbn in H3. lia. }
  rewrite (assign_slot3 _ _ _ _ _ Hids) in E. injection E as E. revert E.
  destruct (a =? bucket_id) eqn:Ea; [intros [= <- <-]; by rewrite (assign_slot3 _ _ _ _ _ Hids), Ea|].
  destruct (b =? bucket_id) eqn:Eb; [intros [= <- <-]; by rewrite (assign_slot3 _ _ _ _ _ Hids), Ea, Eb|].
  destruct (c =? bucket_id) eqn:Ec; [intros [= <- <-]; by rewrite (assign_slot3 _ _ _ _ _ Hids), Ea, Eb, Ec|].
  destruct (a =? kUnsetBucket) eqn:Ua; [intros [= <- <-]; by rewrite (assign_slot3 _ _ bucket_id b c), Z.eqb_refl|].
  destruct (b =? kUnsetBucket) eqn:Ub; [intros [= <- <-]; by rewrite (assign_slot3 _ _ a bucket_id c), Ea, Z.eqb_refl|].
  destruct (c =? kUnsetBucket) eqn:Uc; [intros [= <- <-]; by rewrite (assign_slot3 _ _ a b bucket_id), Ea, Eb, Z.eqb_refl|].
  intros [= <- <-]. rewrite (assign_slot3 _ _ a b c) by done. rewrite Ea, Eb, Ec, Ua, Ub, Uc. done.
Qed.

Lemma assign_slot_labels_witness :
  ensures (assign_slot (SubscriberInfo_init <| i_bucket_ids := [7; kUnsetBucket; kUnsetBucket] |>) 9)
    (fun '(slot, info') => assign_slot info' 9 = Ok (slot, info')).
Proof.
  eapply ensures_mono.
  - apply (assign_slot_labels (SubscriberInfo_init <| i_bucket_ids := [7; kUnsetBucket; kUnsetBucket] |>) 9). reflexivity.
  - intros [slot info'] [_ H]. exact H.
Defined.
