(* ===== verification/MeterControl.v ===== *)
(** * The metering engine's control plane, reports and ledger

    Sessions installed and released, usage records emitted, the sweep and the
    drain, over [engine_inv].  The ledger follows, per subscriber and metric,
    what packets charged, what records billed and what is still pending. *)

From S2P Require Import Prelude MeterEvent UsageRecord Session SpscRing FlatHash Meter MeterProps.

(** ** Metrics *)

Inductive metric := UlBytes | DlBytes | UlPackets | DlPackets.

Definition c_metric (mt : metric) (c : SubscriberCounters) : Z :=
  match mt with
  | UlBytes => c_ul_bytes c | DlBytes => c_dl_bytes c
  | UlPackets => c_ul_packets c | DlPackets => c_dl_packets c
  end.
Definition x_metric (mt : metric) (x : SubscriberInfo) : Z :=
  match mt with
  | UlBytes => i_emitted_ul_bytes x | DlBytes => i_emitted_dl_bytes x
  | UlPackets => i_emitted_ul_packets x | DlPackets => i_emitted_dl_packets x
  end.
Definition r_metric (mt : metric) (r : UsageRecord) : Z :=
  match mt with
  | UlBytes => r_ul_bytes r | DlBytes => r_dl_bytes r
  | UlPackets => r_ul_packets r | DlPackets => r_dl_packets r
  end.

(** What the records bill to subscriber [i]. *)
Definition billed (mt : metric) (i : nat) (recs : list UsageRecord) : Z :=
  sum_list (map (r_metric mt) (filter (fun r => r_subscriber_index r = Z.of_nat i) recs)).

Lemma sum_list_app l1 l2 : sum_list (l1 ++ l2) = sum_list l1 + sum_list l2.
Proof. induction l1 as [|x l IH]; unfold sum_list in *; cbn [app foldr]; lia. Qed.

Lemma billed_app mt i l1 l2 : billed mt i (l1 ++ l2) = billed mt i l1 + billed mt i l2.
Proof. unfold billed. by rewrite list.filter_app, map_app, sum_list_app. Qed.

(** The record [emit_record] builds, and the info it leaves. *)
Definition usage_record (wall now idx reason : Z) (c : SubscriberCounters) (x : SubscriberInfo) : UsageRecord :=
  mkUsageRecord wall (i_interval_start_ns x) now (i_imsi x)
    (sub64 (c_ul_bytes c) (i_emitted_ul_bytes x)) (sub64 (c_dl_bytes c) (i_emitted_dl_bytes x))
    (sub64 (c_ul_packets c) (i_emitted_ul_packets x)) (sub64 (c_dl_packets c) (i_emitted_dl_packets x))
    (zip_with sub64 (c_bucket_bytes c) (i_emitted_bucket_bytes x)) (i_bucket_ids x)
    (u32 idx) (i_record_seq x) (u8 reason) (i_bucket_aggregated x).

Definition reported (now : Z) (c : SubscriberCounters) (x x' : SubscriberInfo) : Prop :=
  (forall mt, x_metric mt x' = c_metric mt c) /\ i_emitted_bucket_bytes x' = c_bucket_bytes c /\
  i_interval_start_ns x' = now /\ i_record_seq x' = u32 (i_record_seq x + 1) /\
  i_imsi x' = i_imsi x /\ i_bucket_ids x' = i_bucket_ids x /\ i_ul_teid x' = i_ul_teid x /\
  i_dl_teid x' = i_dl_teid x /\ i_active x' = i_active x /\ i_learned x' = i_learned x.

Section Control.
Context {M R : Type} {KT : KeyTable TeidBinding M} {BQ : BoundedQueue UsageRecord R}.
Context (wall_ns : nat -> Z).
Abbreviation engine := (MeterEngine M R).

(** ** Small steps *)

Lemma erase_teid_spec (e : engine) m k : engine_inv e m -> 0 <= k < 2 ^ 32 ->
  ensures (erase_teid e k) (fun e' => engine_inv e' (delete k m) /\ exists t, e' = e <| teid_map_ := t |>).
Proof.
  intros Hinv Hk. unfold erase_teid. pose proof (map_size_bound _ _ Hinv). pose proof (ei_cap _ _ Hinv).
  pose proof (ei_next _ _ Hinv).
  eapply ensures_bind; [apply (kt_erase_spec _ m k (ei_table _ _ Hinv) Hk); lia|].
  intros [ok t] (Hc & _ & Hr). apply ensures_Ok. split; [|by exists t].
  apply (inv_table e m); [done|done|done|]. intros k' b [_ Hb]%lookup_delete_Some.
  split; [by eapply (ei_keys _ _ Hinv)|by apply (ei_bind _ _ Hinv)].
Qed.

(** Writing an info with the same owner fields. *)
Lemma set_info_keep (e : engine) m i x x' : engine_inv e m -> 0 <= i < next_sub_ e ->
  info_ e !! Z.to_nat i = Some x -> info_ok x' ->
  (i_active x', i_ul_teid x', i_dl_teid x', i_learned x') = (i_active x, i_ul_teid x, i_dl_teid x, i_learned x) ->
  ensures (set_info i x' e) (fun e' =>
    engine_inv e' m /\ e' = e <| info_ := <[Z.to_nat i := x']> (info_ e) |>).
Proof.
  intros Hinv Hi Hx Hok [= Ha Hu Hd Hl]. apply set_info_Ok; auto.
  - intros k b Hk Hb. destruct (ei_bind _ _ Hinv k b Hk) as (_ & _ & y & Hy & Hay & Hoy & Hzy).
    rewrite Hb in Hy. assert (y = x) as -> by congruence. by rewrite Ha, Hu, Hd, Hl.
  - intros k Hk. destruct (ei_imsi _ _ Hinv k i Hk) as (_ & y & Hy & Hly). congruence.
Qed.

(** ** Emitting records *)

(** The sink [s] received the records [kept], in order. *)
Definition sink_pushed (s s' : option R) (kept : list UsageRecord) : Prop :=
  match s, s' with
  | Some q, Some q' => q_cap q' = q_cap q /\ forall l, q_repr q l -> q_repr q' (l ++ kept)
  | None, None => True
  | _, _ => False
  end.

(** [pend mt e i]: what subscriber [i] was charged and not billed yet. *)
Definition pend (mt : metric) (e : engine) (i : nat) : Z :=
  match counters_ e !! i, info_ e !! i with
  | Some c, Some x => sub64 (c_metric mt c) (x_metric mt x)
  | _, _ => 0
  end.
Definition active (e : engine) (i : nat) : bool :=
  match info_ e !! i with Some x => i_active x | None => false end.

(** The books from [e] to [e']: per metric and subscriber, what [charge] added
    and what the records [recs], which are those built in between, billed; the
    sink took [kept] of the records. *)
Record ledger (e e' : engine) (charge : metric -> nat -> Z) (recs kept : list UsageRecord) : Prop := {
  lg_built : built_ e' = built_ e ++ recs;
  lg_sublist : kept `sublist_of` recs;
  lg_sink : sink_pushed (record_sink_ e) (record_sink_ e') kept;
  lg_emitted : u64 (st_records_emitted (stats_ e')) = u64 (st_records_emitted (stats_ e) + size kept);
  lg_dropped : u64 (st_records_dropped (stats_ e')) = u64 (st_records_dropped (stats_ e) + (size recs - size kept));
  lg_pend : forall mt i, pend mt e' i = u64 (pend mt e i + charge mt i - billed mt i recs)
}.
Definition no_charge (_ : metric) (_ : nat) : Z := 0.

(** A subscriber that is not active has nothing pending. *)
Definition idle_ok (e : engine) : Prop := forall mt i, active e i = false -> pend mt e i = 0.

Definition traffic (s : PipelineStats) :=
  (st_events s, st_control_pdus s, st_unknown_teid_events s, st_ul_packets s, st_dl_packets s, st_bytes s).

(** Going from [e] to [e'] only emits the records [recs]. *)
Record emits (e e' : engine) (recs kept : list UsageRecord) : Prop := {
  em_same : (cfg_ e', counters_ e', teid_map_ e', imsi_index_ e', next_sub_ e', traffic (stats_ e')) =
            (cfg_ e, counters_ e, teid_map_ e, imsi_index_ e, next_sub_ e, traffic (stats_ e));
  em_ledger : ledger e e' no_charge recs kept;
  em_active : forall i, active e' i = active e i;
  em_idle : forall mt i, pend mt e i = 0 -> pend mt e' i = 0
}.

Lemma u64_pend mt (e : engine) i : u64 (pend mt e i) = pend mt e i.
Proof. unfold pend. repeat case_match; try done. unfold sub64. apply u64_idem. Qed.

Definition records_of (e : engine) :=
  (record_sink_ e, st_records_emitted (stats_ e), st_records_dropped (stats_ e), built_ e).

(** A step that emits nothing. *)
Lemma ledger_quiet (e e' : engine) charge : records_of e' = records_of e ->
  (forall mt i, pend mt e' i = u64 (pend mt e i + charge mt i)) -> ledger e e' charge [] [].
Proof.
  intros [= Hs H1 H2 Hb] Hp. constructor; rewrite ?(@size_nil UsageRecord).
  - by rewrite app_nil_r.
  - constructor.
  - unfold sink_pushed. rewrite Hs. destruct (record_sink_ e); [|done].
    split; [done|]. intros l. by rewrite app_nil_r.
  - f_equal. lia.
  - f_equal. lia.
  - intros mt i. rewrite Hp. f_equal. cbn. lia.
Qed.

Lemma ledger_refl (e e' : engine) : records_of e' = records_of e -> counters_ e' = counters_ e ->
  info_ e' = info_ e -> ledger e e' no_charge [] [].
Proof.
  intros Hr Hc Hi. apply ledger_quiet; [done|]. intros mt i. rewrite Z.add_0_r, u64_pend.
  unfold pend. by rewrite Hc, Hi.
Qed.

Lemma sink_pushed_trans s1 s2 s3 k1 k2 : sink_pushed s1 s2 k1 -> sink_pushed s2 s3 k2 ->
  sink_pushed s1 s3 (k1 ++ k2).
Proof.
  destruct s1, s2, s3; try done. intros [Hc1 H1] [Hc2 H2]. split; [congruence|].
  intros l Hl. rewrite app_assoc. auto.
Qed.

Lemma ledger_trans (e1 e2 e3 : engine) ch1 r1 k1 ch2 r2 k2 :
  ledger e1 e2 ch1 r1 k1 -> ledger e2 e3 ch2 r2 k2 ->
  ledger e1 e3 (fun mt i => ch1 mt i + ch2 mt i) (r1 ++ r2) (k1 ++ k2).
Proof.
  intros [] []. constructor; [by rewrite lg_built1, lg_built0, app_assoc|by apply sublist_app|by eapply sink_pushed_trans|..].
  - rewrite lg_emitted1, <- u64_add_u64_l, lg_emitted0, u64_add_u64_l, size_app. f_equal. lia.
  - rewrite lg_dropped1, <- u64_add_u64_l, lg_dropped0, u64_add_u64_l, !size_app. f_equal. lia.
  - intros mt i. rewrite lg_pend1, lg_pend0, billed_app, <- !Z.add_opp_r.
    rewrite <- (Z.add_assoc (u64 _)), u64_add_u64_l. f_equal. lia.
Qed.

Lemma ledger_ext (e e' : engine) ch ch' r k : ledger e e' ch r k ->
  (forall mt i, ch' mt i = ch mt i) -> ledger e e' ch' r k.
Proof. intros [] H. constructor; auto. intros mt i. by rewrite H. Qed.

Lemma ledger_then_quiet (e e1 e' : engine) ch r k : ledger e e1 ch r k -> records_of e' = records_of e1 ->
  (forall mt i, pend mt e' i = pend mt e1 i) -> ledger e e' ch r k.
Proof. intros [] [= Hs H1 H2 Hb] Hp. constructor; rewrite ?Hs, ?H1, ?H2, ?Hb; auto. intros mt i. by rewrite Hp. Qed.

Lemma emits_refl (e e' : engine) :
  (cfg_ e', counters_ e', teid_map_ e', imsi_index_ e', next_sub_ e', traffic (stats_ e')) =
  (cfg_ e, counters_ e, teid_map_ e, imsi_index_ e, next_sub_ e, traffic (stats_ e)) ->
  info_ e' = info_ e -> records_of e' = records_of e -> emits e e' [] [].
Proof.
  intros H1 Hi Hr. assert (counters_ e' = counters_ e) as Hc by congruence.
  constructor; [done|by apply ledger_refl|..].
  - intros i. unfold active. by rewrite Hi.
  - intros mt i. unfold pend. by rewrite Hi, Hc.
Qed.

Lemma emits_trans (e1 e2 e3 : engine) r1 k1 r2 k2 : emits e1 e2 r1 k1 -> emits e2 e3 r2 k2 ->
  emits e1 e3 (r1 ++ r2) (k1 ++ k2).
Proof.
  intros [] []. constructor; [congruence| |intros i; congruence|auto].
  eapply ledger_ext; [by eapply ledger_trans|]. done.
Qed.

Lemma idle_emits (e e' : engine) r k : emits e e' r k -> idle_ok e -> idle_ok e'.
Proof. intros [] Hi mt i. rewrite em_active0. auto. Qed.

(** A write of one info, seen through [pend] and [active]. *)
Lemma pend_insert mt (e e' : engine) i c x : counters_ e' = counters_ e ->
  info_ e' = <[i := x]> (info_ e) -> counters_ e !! i = Some c -> (i < length (info_ e))%nat ->
  forall j, pend mt e' j = if decide (j = i) then sub64 (c_metric mt c) (x_metric mt x) else pend mt e j.
Proof.
  intros Hc Hx Hl Hlt j. unfold pend. rewrite Hc, Hx. case_decide as E.
  - subst j. by rewrite Hl, list_lookup_insert_eq.
  - by rewrite list_lookup_insert_ne.
Qed.

Lemma active_insert (e e' : engine) i x x' : info_ e' = <[i := x']> (info_ e) -> info_ e !! i = Some x ->
  i_active x' = i_active x -> forall j, active e' j = active e j.
Proof.
  intros Hx Hl Ha j. unfold active. rewrite Hx. destruct (decide (j = i)) as [->|].
  - rewrite Hl, list_lookup_insert_eq by (by eapply lookup_lt_Some). done.
  - by rewrite list_lookup_insert_ne.
Qed.

Lemma sub64_same x : sub64 x x = 0.
Proof. unfold sub64. by rewrite Z.sub_diag. Qed.

Lemma sub64_eq x y : x = y -> sub64 x y = 0.
Proof. intros ->. apply sub64_same. Qed.

Lemma usage_record_metric mt wall now idx reason c x :
  r_metric mt (usage_record wall now idx reason c x) = sub64 (c_metric mt c) (x_metric mt x).
Proof. by destruct mt. Qed.

(** What the sink and the record statistics do with one record. *)
Definition push_record (e : engine) (r : UsageRecord) : res engine :=
  match record_sink_ e with
  | Some q =>
      let* (ok, q) := q_push q r in
      let e := e <| record_sink_ := Some q |> in
      Ok (if (ok : bool)
          then e <| stats_ ::= fun s => s <| st_records_emitted ::= incr64 |> |>
          else e <| stats_ ::= fun s => s <| st_records_dropped ::= incr64 |> |>)
  | None => Ok (e <| stats_ ::= fun s => s <| st_records_emitted ::= incr64 |> |>)
  end.

Lemma push_record_spec (e : engine) m r : engine_inv e m ->
  ensures (push_record e r) (fun e' => engine_inv e' m /\ exists kept, kept `sublist_of` [r] /\
    sink_pushed (record_sink_ e) (record_sink_ e') kept /\
    (forall q l, record_sink_ e = Some q -> q_repr q l -> kept = if size l <? q_cap q then [r] else []) /\
    u64 (st_records_emitted (stats_ e')) = u64 (st_records_emitted (stats_ e) + size kept) /\
    u64 (st_records_dropped (stats_ e')) = u64 (st_records_dropped (stats_ e) + (1 - size kept)) /\
    (info_ e', counters_ e', cfg_ e', teid_map_ e', imsi_index_ e', next_sub_ e', sweep_cursor_ e', built_ e') =
    (info_ e, counters_ e, cfg_ e, teid_map_ e, imsi_index_ e, next_sub_ e, sweep_cursor_ e, built_ e) /\
    exists a b, stats_ e' = (stats_ e) <| st_records_emitted := a |> <| st_records_dropped := b |>).
Proof.
  intros Hinv. unfold push_record. pose proof (ei_sink _ _ Hinv) as Hs.
  destruct (record_sink_ e) as [q|] eqn:Hq.
  - destruct Hs as [l Hl]. destruct (q_push_spec q l r Hl) as ([ok q'] & Hpush & Hcap & Hok).
    rewrite Hpush. cbn [res_bind]. apply ensures_Ok.
    assert (forall l', q_repr q l' -> ok = (size l' <? q_cap q) /\ q_repr q' (l' ++ if ok then [r] else [])) as Hall.
    { intros l' Hl'. destruct (q_push_spec q l' r Hl') as ([ok2 q2] & Hp2 & _ & Hr2).
      rewrite Hpush in Hp2. injection Hp2 as <- <-.
      destruct (size l' <? q_cap q); destruct Hr2 as [-> Hr2]; [done|by rewrite app_nil_r]. }
    assert (sink_ok (Some q')) as Hs' by (destruct (Hall l Hl) as [_ ?]; eexists; done).
    split; [destruct ok; apply inv_stats, inv_sink; done|]. exists (if ok then [r] else []).
    destruct (Hall l Hl) as [Hok' _].
    split_and!; [destruct ok; [done|by constructor]| | |..].
    + destruct ok; cbn; (split; [done|]; intros l' Hl'; apply Hall, Hl').
    + intros q0 l' [= <-] Hl'. destruct (Hall l' Hl') as [<- _]. done.
    + destruct ok; cbn; unfold incr64, add64, size; rewrite ?u64_idem; f_equal; cbn; lia.
    + destruct ok; cbn; unfold incr64, add64, size; rewrite ?u64_idem; f_equal; cbn; lia.
    + by destruct ok.
    + destruct ok; eexists _, _; cbn; unfold setf; reflexivity.
  - apply ensures_Ok. split; [by apply inv_stats|]. exists [r].
    split_and!; [done| |done|..]; cbn.
    + by rewrite Hq.
    + unfold incr64, add64, size. rewrite u64_idem. f_equal.
    + unfold size. cbn. f_equal. lia.
    + done.
    + eexists _, _. unfold setf. reflexivity.
Qed.

Lemma billed_one mt i r : billed mt i [r] = if decide (r_subscriber_index r = Z.of_nat i) then r_metric mt r else 0.
Proof.
  unfold billed. rewrite list.filter_cons. case_decide; unfold sum_list; cbn; lia.
Qed.

(** [emit_record] reports exactly what is pending and leaves nothing pending. *)
Record emitted_record (e e' : engine) (idx reason now : Z) (c : SubscriberCounters) (x : SubscriberInfo)
    (kept : list UsageRecord) : Prop := {
  er_counters : counters_ e !! Z.to_nat idx = Some c;
  er_info : info_ e !! Z.to_nat idx = Some x;
  er_info' : exists x', info_ e' = <[Z.to_nat idx := x']> (info_ e) /\ reported now c x x';
  er_emits : emits e e' [usage_record (wall_ns (clock_reads_ e)) now idx reason c x] kept;
  er_kept : forall q l, record_sink_ e = Some q -> q_repr q l ->
    kept = if size l <? q_cap q then [usage_record (wall_ns (clock_reads_ e)) now idx reason c x] else [];
  er_cursor : sweep_cursor_ e' = sweep_cursor_ e
}.

Lemma emit_record_spec (e : engine) m idx reason now : engine_inv e m -> 0 <= idx < next_sub_ e ->
  ensures (emit_record wall_ns e idx reason now) (fun e' => engine_inv e' m /\
    exists c x kept, emitted_record e e' idx reason now c x kept).
Proof.
  intros Hinv Hi. pose proof (ei_next _ _ Hinv). pose proof (ei_sizes _ _ Hinv) as [Hsz H32]. unfold emit_record.
  destruct (at_counters e m idx Hinv) as (c & -> & Hc & Hcok); [lia|]. cbn [res_bind].
  destruct (at_info e m idx Hinv) as (x & -> & Hx & Hxok); [lia|]. cbn [res_bind].
  set (x' := setf i_interval_start_ns _ _).
  assert (reported now c x x') as Hrep by (unfold reported; split_and!; try done; by intros []).
  assert (info_ok x') as Hok'.
  { destruct Hxok as (? & ? & ? & ? & ?), Hcok as [? ?]. unfold info_ok; cbn. split_and!; done || lia. }
  eapply ensures_bind; [by apply (set_info_keep e m idx x x')|].
  intros e1 [Hinv1 ->]. set (e1 := setf built_ _ _).
  assert (engine_inv e1 m) as Hinv1' by (by apply inv_built).
  set (r := mkUsageRecord _ _ _ _ _ _ _ _ _ _ _ _ _ _).
  change r with (usage_record (wall_ns (clock_reads_ e)) now idx reason c x). clear r.
  set (r := usage_record _ _ _ _ _ _).
  eapply ensures_mono; [apply (push_record_spec e1 m r Hinv1')|].
  intros e2 (Hinv2 & kept & Hsub & Hpush & Hkept & Hem & Hdr & Hsame & a & b & Hst).
  split; [done|]. injection Hsame as Hi2 Hc2 Hcf2 Ht2 Him2 Hn2 Hcur2 Hbt2. exists c, x, kept.
  assert (info_ e2 = <[Z.to_nat idx := x']> (info_ e)) as Hinfo2 by done.
  assert (forall mt j, pend mt e2 j = if decide (j = Z.to_nat idx) then 0 else pend mt e j) as Hpend.
  { intros mt j. rewrite (pend_insert mt e e2 (Z.to_nat idx) c x' Hc2 Hinfo2 Hc) by (unfold size in *; lia).
    destruct Hrep as [Hm _]. by rewrite Hm, sub64_same. }
  constructor; [done|done|by exists x'| |done|done]. constructor.
  - rewrite Hcf2, Hc2, Ht2, Him2, Hn2, Hst. done.
  - constructor; [done..|]. intros mt j. rewrite Hpend, billed_one. change (r_subscriber_index _) with (u32 idx). rewrite u32_small by lia.
    rewrite usage_record_metric, Z.add_0_r.
    case_decide as E1; case_decide as E2; try lia.
    + subst j. unfold pend. by rewrite Hc, Hx, Z.sub_diag.
    + by rewrite Z.sub_0_r, u64_pend.
  - apply (active_insert e e2 _ x x' Hinfo2 Hx). by apply Hrep.
  - intros mt j Hj. rewrite Hpend. by case_decide.
Qed.

(** ** The sweep *)

(** A subscriber whose record is due at [now]: usage is pending and the volume
    threshold or the report interval is reached. *)
Definition due (cfg : MeterConfig) (now : Z) (c : SubscriberCounters) (x : SubscriberInfo) : bool :=
  let pending := add64 (sub64 (c_ul_bytes c) (i_emitted_ul_bytes x)) (sub64 (c_dl_bytes c) (i_emitted_dl_bytes x)) in
  i_active x && negb (pending =? 0) &&
  ((negb (volume_threshold_bytes cfg =? 0) && (volume_threshold_bytes cfg <=? pending)) ||
   (negb (report_interval_ns cfg =? 0) && (report_interval_ns cfg <=? sub64 now (i_interval_start_ns x)))).
Definition overdue (e : engine) (now : Z) (i : nat) : bool :=
  match counters_ e !! i, info_ e !! i with Some c, Some x => due (cfg_ e) now c x | _, _ => false end.

Lemma reported_not_due cfg now c x x' : reported now c x x' -> due cfg now c x' = false.
Proof.
  intros [Hm _]. unfold due. pose proof (Hm UlBytes) as Hu. pose proof (Hm DlBytes) as Hd. cbn in Hu, Hd.
  rewrite Hu, Hd, !sub64_same. by rewrite andb_false_r.
Qed.

Lemma emitted_overdue (e e' : engine) idx reason now c x kept j :
  emitted_record e e' idx reason now c x kept ->
  overdue e' now j = if decide (j = Z.to_nat idx) then false else overdue e now j.
Proof.
  intros [Hc Hx (x' & Hx' & Hrep) [Hsame _ _ _] _ _]. injection Hsame as Hcf Hcn.
  unfold overdue. rewrite Hcf, Hcn, Hx'. case_decide as E.
  - subst j. rewrite Hc, list_lookup_insert_eq by (by eapply lookup_lt_Some).
    by eapply reported_not_due.
  - by rewrite list_lookup_insert_ne.
Qed.

(** The effect of one visit to [idx]: afterwards it is not due. *)
Definition visited (e e' : engine) m (idx now : Z) : Prop :=
  engine_inv e' m /\ sweep_cursor_ e' = idx + 1 /\ (exists recs kept, emits e e' recs kept) /\
  forall j, overdue e' now j = if decide (j = Z.to_nat idx) then false else overdue e now j.

Lemma emit_visited (e e1 : engine) m idx reason now : engine_inv e1 m -> 0 <= idx < next_sub_ e1 ->
  emits e e1 [] [] -> sweep_cursor_ e1 = idx + 1 -> (forall j, overdue e1 now j = overdue e now j) ->
  ensures (emit_record wall_ns e1 idx reason now) (fun e' => visited e e' m idx now).
Proof.
  intros Hinv Hi Hem Hcur Hov. eapply ensures_mono; [by apply (emit_record_spec e1 m idx reason now Hinv)|].
  intros e' (Hinv' & c & x & kept & Her). split_and!; [done| | |].
  - by rewrite (er_cursor _ _ _ _ _ _ _ _ Her).
  - eexists _, _. eapply emits_trans; [exact Hem|apply Her].
  - intros j. rewrite (emitted_overdue e1 e' _ _ _ _ _ _ j Her). case_decide; auto.
Qed.

Lemma sweep_one_spec (e : engine) m live now : engine_inv e m -> live = next_sub_ e -> 0 < live ->
  ensures (sweep_one wall_ns e live now) (fun e' => visited e e' m (sweep_cursor_ e mod live) now).
Proof.
  intros Hinv Hl H0. pose proof (ei_cursor _ _ Hinv). pose proof (ei_next _ _ Hinv).
  pose proof (ei_sizes _ _ Hinv) as [Hsz H32]. set (idx := _ mod live).
  assert (0 <= idx < live) as Hidx by (apply Z.mod_pos_bound; lia).
  assert (idx = if live <=? sweep_cursor_ e then 0 else sweep_cursor_ e) as Hif.
  { unfold idx. case_if; [|apply Z.mod_small; lia].
    replace (sweep_cursor_ e) with live by lia. apply Z.mod_same. lia. }
  unfold sweep_one. set (e1 := if live <=? sweep_cursor_ e then _ else _).
  assert (e1 = e <| sweep_cursor_ := idx |>) as -> by (unfold e1; rewrite Hif; case_if; by destruct e).
  cbn [sweep_cursor_ setf]. set (e1 := setf sweep_cursor_ incr64 _).
  assert (incr64 idx = idx + 1) as Hinc by (apply u64_small; lia).
  assert (engine_inv e1 m) as Hinv1.
  { replace e1 with (e <| sweep_cursor_ := idx + 1 |>) by (unfold e1, setf; cbn; by rewrite Hinc).
    apply inv_cursor; [done|lia]. }
  assert (emits e e1 [] []) as Hem1 by (by apply emits_refl).
  destruct (at_info e1 m idx Hinv1) as (x & -> & Hx & _); [cbn; lia|]. cbn [res_bind].
  destruct (at_counters e1 m idx Hinv1) as (c & Hatc & Hc & _); [cbn; lia|].
  assert (forall reason, ensures (emit_record wall_ns e1 idx reason now) (fun e' => visited e e' m idx now)) as Hemit.
  { intros reason. apply emit_visited; auto. cbn; lia. }
  assert (due (cfg_ e) now c x = false -> ensures (Ok e1) (fun e' => visited e e' m idx now)) as Hstay.
  { intros Hno. apply ensures_Ok. split_and!; [done|by cbn|by exists [], []|].
    intros j. case_decide; [subst j|done]. unfold overdue. by rewrite Hc, Hx. }
  unfold due in Hstay. destruct (i_active x); cbn [negb andb] in *; [|by apply Hstay].
  rewrite Hatc. cbn [res_bind]. change (cfg_ e1) with (cfg_ e).
  destruct (_ =? 0) eqn:Hp0; cbn [negb andb] in *; [by apply Hstay|].
  destruct (negb (volume_threshold_bytes _ =? 0) && _) eqn:Hv; [apply Hemit|].
  destruct (negb (report_interval_ns _ =? 0) && _) eqn:Hr; [apply Hemit|]. by apply Hstay.
Qed.

Lemma emits_next (e e' : engine) recs kept : emits e e' recs kept -> next_sub_ e' = next_sub_ e.
Proof. intros []. congruence. Qed.

Lemma sweep_spec m live now : 0 < live -> forall n (e : engine), engine_inv e m -> live = next_sub_ e ->
  ensures (sweep wall_ns n e live now) (fun e' => engine_inv e' m /\
    (exists recs kept, emits e e' recs kept) /\
    (forall i, 0 <= i < Z.of_nat n -> overdue e' now (Z.to_nat ((sweep_cursor_ e + i) mod live)) = false) /\
    (forall j, overdue e now j = false -> overdue e' now j = false)).
Proof.
  intros H0. induction n as [|n IH]; intros e Hinv Hl; cbn [sweep].
  { apply ensures_Ok. split_and!; [done|exists [], []; by apply emits_refl|lia|done]. }
  eapply ensures_bind; [by apply (sweep_one_spec e m live now)|].
  intros e1 (Hinv1 & Hcur1 & (r1 & k1 & Hem1) & Hov1).
  eapply ensures_mono; [apply (IH e1 Hinv1); rewrite Hl; symmetry; by eapply emits_next|].
  intros e' (Hinv' & (r2 & k2 & Hem2) & Hvis & Hkeep). split_and!; [done|..].
  - exists (r1 ++ r2), (k1 ++ k2). by eapply emits_trans.
  - intros i Hi. destruct (decide (i = 0)) as [->|].
    + rewrite Z.add_0_r. apply Hkeep. rewrite Hov1. by case_decide.
    + rewrite <- (Hvis (i - 1)) by lia. do 2 f_equal. rewrite Hcur1.
      replace (_ mod live + 1 + (i - 1)) with (sweep_cursor_ e mod live + i) by lia.
      by rewrite Zplus_mod_idemp_l.
  - intros j Hj. apply Hkeep. rewrite Hov1. by case_decide.
Qed.

Lemma poll_spec (e : engine) m now : engine_inv e m ->
  ensures (poll wall_ns e now) (fun e' => engine_inv e' m /\ (exists recs kept, emits e e' recs kept) /\
    (sweep_period_ns (cfg_ e) <= sub64 now (last_sweep_ns_ e) -> forall i,
       0 <= i < poll_chunk (cfg_ e) (next_sub_ e) ->
       overdue e' now (Z.to_nat ((sweep_cursor_ e + i) mod next_sub_ e)) = false)).
Proof.
  intros Hinv. pose proof (ei_next _ _ Hinv). unfold poll. case_if.
  { apply ensures_Ok. split_and!; [done|exists [], []; by apply emits_refl|lia]. }
  set (e1 := setf last_sweep_ns_ _ _). assert (engine_inv e1 m) as Hinv1 by (by apply inv_last_sweep).
  change (next_sub_ e1) with (next_sub_ e). case_if.
  { apply ensures_Ok. split_and!; [done|exists [], []; by apply emits_refl|]. intros _ i Hi.
    unfold overdue. destruct (counters_ e1 !! _); [|done].
    destruct (info_ e1 !! _) as [x|] eqn:Hx; [|done]. unfold due.
    destruct (ei_fresh _ _ Hinv1 ((sweep_cursor_ e + i) mod next_sub_ e) x) as [-> _]; [|done|done].
    cbn. rewrite Hif0, Z.mod_0_r. pose proof (ei_cursor _ _ Hinv). lia. }
  eapply ensures_mono; [by apply (sweep_spec m (next_sub_ e) now ltac:(lia) _ e1)|].
  intros e' (Hinv' & (r & k & Hem) & Hvis & _). split_and!; [done|..].
  - exists r, k. apply (emits_trans e e1 e' [] [] r k); [by apply emits_refl|done].
  - intros _ i Hi. apply (Hvis i). change (cfg_ e1) with (cfg_ e). lia.
Qed.

(** ** Drain *)

Lemma emitted_pend_other (e e' : engine) idx reason now c x kept mt j :
  emitted_record e e' idx reason now c x kept -> 0 <= idx < 2 ^ 32 -> j <> Z.to_nat idx ->
  pend mt e' j = pend mt e j.
Proof.
  intros Her Hi Hj. rewrite (lg_pend _ _ _ _ _ (em_ledger _ _ _ _ (er_emits _ _ _ _ _ _ _ _ Her))), billed_one, Z.add_0_r.
  change (r_subscriber_index _) with (u32 idx). rewrite u32_small by lia. case_decide; [lia|].
  by rewrite Z.sub_0_r, u64_pend.
Qed.

Lemma emitted_pend_self (e e' : engine) idx reason now c x kept mt :
  emitted_record e e' idx reason now c x kept -> pend mt e' (Z.to_nat idx) = 0.
Proof.
  intros [Hc Hx (x' & Hx' & Hrep & _) [Hsame _ _ _] _ _]. unfold pend. injection Hsame as _ ->.
  rewrite Hc, Hx', list_lookup_insert_eq by (by eapply lookup_lt_Some). rewrite Hrep. apply sub64_same.
Qed.

(** The loop from [idx] on leaves no byte pending. *)
Definition drained (e : engine) m (idx emitted : Z) : Z * engine -> Prop := fun '(k, e') =>
  engine_inv e' m /\
  (exists recs kept, emits e e' recs kept /\ u64 k = u64 (emitted + size recs)) /\
  (forall j, (Z.to_nat idx <= j < Z.to_nat (next_sub_ e))%nat -> active e j = true ->
     pend UlBytes e' j = 0 /\ pend DlBytes e' j = 0) /\
  (forall mt j, (j < Z.to_nat idx)%nat -> pend mt e' j = pend mt e j).

Lemma drain_loop_spec m now : forall n (e : engine) idx emitted, engine_inv e m -> 0 <= idx ->
  idx + Z.of_nat n = next_sub_ e ->
  ensures (drain_loop wall_ns n e idx now emitted) (drained e m idx emitted).
Proof.
  induction n as [|n IH]; intros e idx emitted Hinv H0 Hn; cbn [drain_loop].
  { apply ensures_Ok. split_and!; [done| |intros; lia|done]. exists [], []. split; [by apply emits_refl|].
    rewrite (@size_nil UsageRecord). f_equal. lia. }
  pose proof (ei_next _ _ Hinv). pose proof (ei_sizes _ _ Hinv) as [Hsz H32].
  destruct (at_info e m idx Hinv) as (x & -> & Hx & _); [lia|]. cbn [res_bind].
  destruct (at_counters e m idx Hinv) as (c & Hatc & Hc & _); [lia|].
  assert ((active e (Z.to_nat idx) = true -> pend UlBytes e (Z.to_nat idx) = 0 /\ pend DlBytes e (Z.to_nat idx) = 0) ->
    ensures (drain_loop wall_ns n e (idx + 1) now emitted) (drained e m idx emitted)) as Hskip.
  { intros Hz. eapply ensures_mono; [apply (IH e (idx + 1) emitted Hinv); lia|].
    intros [k e'] (Hinv' & Hem & Hd & Hk). split_and!; [done|done| |].
    - intros j Hj Ha. destruct (decide (j = Z.to_nat idx)) as [->|]; [|apply Hd; [lia|done]].
      rewrite !Hk by lia. auto.
    - intros mt j Hj. apply Hk. lia. }
  assert (active e (Z.to_nat idx) = i_active x) as Hact by (unfold active; by rewrite Hx).
  destruct (i_active x); cbn [negb]; [|apply Hskip; congruence].
  rewrite Hatc. cbn [res_bind]. case_if.
  { apply Hskip. intros _. unfold pend. rewrite Hc, Hx. cbn. split; by apply sub64_eq. }
  eapply ensures_bind; [apply (emit_record_spec e m idx _ now Hinv); lia|].
  intros e1 (Hinv1 & c1 & x1 & k1 & Her). pose proof (er_emits _ _ _ _ _ _ _ _ Her) as Hem1.
  pose proof (emits_next _ _ _ _ Hem1) as Hn1.
  eapply ensures_mono; [apply (IH e1 (idx + 1) (incr64 emitted) Hinv1); lia|].
  intros [k e'] (Hinv' & (r2 & k2 & Hem2 & Hk2) & Hd & Hk). split_and!; [done| | |].
  - eexists (_ ++ r2), (k1 ++ k2). split; [by eapply emits_trans|].
    rewrite Hk2, size_app. unfold incr64, add64. rewrite u64_add_u64_l. f_equal. unfold size. cbn. lia.
  - intros j Hj Ha. destruct (decide (j = Z.to_nat idx)) as [->|].
    + rewrite !Hk by lia. split; by eapply emitted_pend_self.
    + apply Hd; [lia|]. by rewrite (em_active _ _ _ _ Hem1).
  - intros mt j Hj. rewrite Hk by lia. eapply emitted_pend_other; [done|lia|lia].
Qed.

(** ** Releasing a session *)

Lemma erase_if_spec (e : engine) m k (c : bool) : engine_inv e m -> 0 <= k < 2 ^ 32 ->
  ensures (if c then erase_teid e k else Ok e) (fun e' =>
    engine_inv e' (if c then delete k m else m) /\ exists t, e' = e <| teid_map_ := t |>).
Proof.
  intros Hinv Hk. destruct c; [by apply erase_teid_spec|]. apply ensures_Ok. split; [done|].
  exists (teid_map_ e). by destruct e.
Qed.

(** The bindings after the TEID [k] of a session is given up. *)
Definition unbind (k : Z) (m : gmap Z TeidBinding) : gmap Z TeidBinding :=
  if negb (k =? 0) then delete k m else m.

Lemma unbind_Some k k' m b : unbind k m !! k' = Some b <-> m !! k' = Some b /\ (k = 0 \/ k' <> k).
Proof.
  unfold unbind. case_if; [rewrite lookup_delete_Some|].
  - split; intros [H1 H2]; split; auto; intros ->; destruct H2; congruence.
  - tauto.
Qed.

(** After a release no TEID leads to the subscriber, its usage is billed and
    nothing of another subscriber changed. *)
Record released (e e' : engine) (m m' : gmap Z TeidBinding) (idx now : Z) : Prop := {
  rl_record : exists e1 c x kept, emitted_record e e1 idx RecordReason.kRelease now c x kept /\
    i_active x = true /\ ledger e e' no_charge [usage_record (wall_ns (clock_reads_ e)) now idx RecordReason.kRelease c x] kept /\
    m' = unbind (i_dl_teid x) (unbind (i_ul_teid x) m) /\
    exists x', reported now c x x' /\ info_ e' = <[Z.to_nat idx := x' <| i_active := false |>]> (info_ e);
  rl_unbound : forall k b, m' !! k = Some b -> sub_idx b <> idx;
  rl_idle : idle_ok e -> idle_ok e';
  rl_same : (cfg_ e', counters_ e', imsi_index_ e', next_sub_ e', traffic (stats_ e')) =
            (cfg_ e, counters_ e, imsi_index_ e, next_sub_ e, traffic (stats_ e))
}.

(** Clearing the active flag right after a report. *)
Lemma deactivate_books (e e1 e' : engine) idx reason now c x x1 kept :
  emitted_record e e1 idx reason now c x kept -> info_ e1 !! Z.to_nat idx = Some x1 ->
  counters_ e' = counters_ e1 -> info_ e' = <[Z.to_nat idx := x1 <| i_active := false |>]> (info_ e1) ->
  records_of e' = records_of e1 ->
  ledger e e' no_charge [usage_record (wall_ns (clock_reads_ e)) now idx reason c x] kept /\
  (idle_ok e -> idle_ok e').
Proof.
  intros Her Hx1 Hc Hi Hr. pose proof (er_emits _ _ _ _ _ _ _ _ Her) as Hem.
  assert (forall mt j, pend mt e' j = pend mt e1 j) as Hp.
  { intros mt j. unfold pend. rewrite Hc, Hi. destruct (decide (j = Z.to_nat idx)) as [->|].
    - rewrite list_lookup_insert_eq by (by eapply lookup_lt_Some). rewrite Hx1. by destruct mt.
    - by rewrite list_lookup_insert_ne. }
  split.
  - apply (ledger_then_quiet e e1); [apply Hem|done|done].
  - intros Hidle mt j Ha. rewrite Hp. destruct (decide (j = Z.to_nat idx)) as [->|Hne].
    { by eapply emitted_pend_self. }
    apply (idle_emits _ _ _ _ Hem Hidle). unfold active in *. by rewrite Hi, list_lookup_insert_ne in Ha.
Qed.

Lemma release_session_spec (e : engine) m imsi now : engine_inv e m ->
  ensures (release_session wall_ns e imsi now) (fun '(ok, e') =>
    if negb ok then e' = e /\ (forall idx, imsi_index_ e !! imsi = Some idx -> active e (Z.to_nat idx) = false)
    else exists idx m', imsi_index_ e !! imsi = Some idx /\ engine_inv e' m' /\ released e e' m m' idx now).
Proof.
  intros Hinv. unfold release_session. destruct (imsi_index_ e !! imsi) as [idx|] eqn:Him.
  2: { apply ensures_Ok. split; [done|]. congruence. }
  destruct (ei_imsi _ _ Hinv imsi idx Him) as (Hi & x0 & Hx0 & Hl0).
  pose proof (ei_next _ _ Hinv). pose proof (ei_sizes _ _ Hinv) as [Hsz H32].
  destruct (at_info e m idx Hinv) as (x & -> & Hx & Hxok); [lia|]. cbn [res_bind].
  assert (x0 = x) as -> by congruence.
  destruct (i_active x) eqn:Ha; cbn [negb].
  2: { apply ensures_Ok. split; [done|]. intros i [= <-]. unfold active. by rewrite Hx. }
  eapply ensures_bind; [by apply (emit_record_spec e m idx RecordReason.kRelease now Hinv)|].
  intros e1 (Hinv1 & c & y & kept & Her). pose proof Her as [Hc Hy (x1 & Hx1 & Hrep) Hem _ _].
  assert (y = x) as -> by congruence. injection (em_same _ _ _ _ Hem) as Hcf Hcn Htm Hix Hnx Htr1 Htr2 Htr3 Htr4 Htr5.
  assert (info_ e1 !! Z.to_nat idx = Some x1) as Hx1'.
  { rewrite Hx1. apply list_lookup_insert_eq. by eapply lookup_lt_Some. }
  destruct (at_info e1 m idx Hinv1) as (y & -> & Hy1 & Hx1ok); [rewrite Hcn; lia|]. cbn [res_bind].
  assert (y = x1) as -> by congruence.
  destruct Hxok as (_ & _ & Hut & Hdt & _).
  pose proof Hrep as (Hrm & _ & _ & _ & _ & _ & Hu & Hd & Hac & Hle).
  eapply ensures_bind; [apply (erase_if_spec e1 m (i_ul_teid x1)); [done|lia]|].
  intros e2 [Hinv2 [t2 ->]].
  eapply ensures_bind; [apply (erase_if_spec _ _ (i_dl_teid x1) _ Hinv2); lia|].
  intros e3 [Hinv3 [t3 ->]].
  set (m' := if negb (i_dl_teid x1 =? 0) then _ else _) in Hinv3.
  assert (m' = unbind (i_dl_teid x) (unbind (i_ul_teid x) m)) as Hm' by (by rewrite <- Hu, <- Hd).
  assert (forall k b, m' !! k = Some b -> sub_idx b <> idx) as Hunb.
  { intros k b Hk Hb. rewrite Hm', !unbind_Some in Hk. destruct Hk as [[Hk Hk1] Hk2].
    destruct (ei_bind _ _ Hinv k b Hk) as (_ & _ & z & Hz & _ & Ho & Hz0). rewrite Hb in Hz.
    assert (z = x) as -> by congruence. rewrite Hl0 in Hz0. destruct Hz0; [|done]. lia. }
  eapply ensures_bind.
  { apply (set_info_Ok _ m' idx (x1 <| i_active := false |>) Hinv3); [cbn; lia|done| |].
    - intros k b Hk Hb. by destruct (Hunb k b Hk).
    - intros k _. cbn. congruence. }
  intros e4 [Hinv4 ->]. apply ensures_Ok. exists idx, m'. split_and!; [done|by apply inv_stats|].
  set (e4 := setf stats_ _ _).
  destruct (deactivate_books e e1 e4 idx _ now c x x1 kept Her Hx1') as [Hb1 Hb2]; [done..|].
  constructor; [|done|exact Hb2|].
  - exists e1, c, x, kept. split_and!; auto. exists x1. split; [done|]. cbn. by rewrite Hx1, list_insert_insert_eq.
  - cbn. unfold traffic. cbn. congruence.
Qed.

(** ** Installing a session *)

(** The bindings after a session's TEID [old] is replaced by [new], and after
    [new] is bound. *)
Definition retire (old new : Z) (m : gmap Z TeidBinding) : gmap Z TeidBinding :=
  if negb (old =? 0) && negb (old =? new) then delete old m else m.
Definition bind_if (k : Z) (b : TeidBinding) (m : gmap Z TeidBinding) : gmap Z TeidBinding :=
  if negb (k =? 0) then <[k := b]> m else m.

Lemma retire_Some old new m k b : retire old new m !! k = Some b ->
  m !! k = Some b /\ (old = 0 \/ old = new \/ k <> old).
Proof.
  unfold retire. case_if.
  - intros [? ?]%lookup_delete_Some. auto.
  - intros ?. split; [done|]. destruct (Z.eqb_spec old 0); [auto|].
    destruct (Z.eqb_spec old new); [auto|done].
Qed.

Lemma bind_if_spec (e : engine) m teid sub dir slot info :
  engine_inv e m -> 0 <= teid < 2 ^ 32 -> 0 <= sub < next_sub_ e -> 0 <= slot < 3 -> 0 <= dir < 256 ->
  info_ e !! Z.to_nat sub = Some info -> i_active info = true ->
  (i_ul_teid info = teid \/ i_dl_teid info = teid) ->
  ensures (if negb (teid =? 0) then bind_teid e teid sub dir slot else Ok (true, e)) (fun '(ok, e') =>
    ok = true /\ engine_inv e' (bind_if teid (mkBinding sub dir slot) m) /\ exists t, e' = e <| teid_map_ := t |>).
Proof.
  intros. unfold bind_if. case_if; [by eapply bind_teid_spec; eauto|]. apply ensures_Ok.
  split_and!; [done|done|]. exists (teid_map_ e). by destruct e.
Qed.

(** The info [install_session] writes, before its slot is assigned. *)
Definition install_base (x : SubscriberInfo) : SubscriberInfo :=
  if negb (i_active x) then SubscriberInfo_init else x.

Record installed (e e' : engine) (m m' : gmap Z TeidBinding) (spec : SessionSpec) (idx : Z) : Prop := {
  in_bindings : exists x slot, info_ e !! Z.to_nat idx = Some x /\ 0 <= slot < 3 /\
    m' = bind_if (s_dl_teid spec) (mkBinding idx Direction.kDownlink slot)
           (bind_if (s_ul_teid spec) (mkBinding idx Direction.kUplink slot)
              (retire (i_dl_teid (install_base x)) (s_dl_teid spec)
                 (retire (i_ul_teid (install_base x)) (s_ul_teid spec) m))) /\
    exists x', info_ e' = <[Z.to_nat idx := x']> (info_ e) /\ i_imsi x' = s_imsi spec /\ i_active x' = true /\
      i_ul_teid x' = s_ul_teid spec /\ i_dl_teid x' = s_dl_teid spec /\
      (i_bucket_ids x' !! Z.to_nat slot = Some (s_rating_group spec) \/
       slot = kAggregateSlot /\ i_bucket_aggregated x' = true) /\
      counters_ e' = (if i_active x then counters_ e else <[Z.to_nat idx := SubscriberCounters_init]> (counters_ e)) /\
      (forall mt, x_metric mt x' = x_metric mt (install_base x));
  in_same : (cfg_ e', imsi_index_ e', next_sub_ e', traffic (stats_ e'), records_of e') =
            (cfg_ e, imsi_index_ e, next_sub_ e, traffic (stats_ e), records_of e)
}.

(** Installing neither loses nor invents pending usage. *)
Lemma installed_books (e e' : engine) m m' spec idx : installed e e' m m' spec idx -> idle_ok e ->
  length (counters_ e) = length (info_ e) ->
  ledger e e' no_charge [] [] /\ idle_ok e'.
Proof.
  intros [(x & slot & Hx & _ & _ & x' & Hx' & _ & Ha' & _ & _ & _ & Hc & Hm) Hsame] Hidle Hlen.
  pose proof (lookup_lt_Some _ _ _ Hx) as Hlt.
  destruct (lookup_lt_is_Some_2 (counters_ e) (Z.to_nat idx)) as [c Hcl]; [lia|].
  assert (forall mt j, pend mt e' j = pend mt e j) as Hp.
  { intros mt j. unfold pend. rewrite Hx'. destruct (decide (j = Z.to_nat idx)) as [->|].
    - rewrite list_lookup_insert_eq by lia. rewrite Hx, Hcl, Hm, Hc. unfold install_base.
      destruct (i_active x) eqn:Ha; cbn [negb]; [by rewrite Hcl|].
      rewrite list_lookup_insert_eq by lia. specialize (Hidle mt (Z.to_nat idx)).
      unfold active, pend in Hidle. rewrite Hx, Hcl in Hidle. rewrite (Hidle Ha). by destruct mt.
    - rewrite list_lookup_insert_ne by done. rewrite Hc. destruct (i_active x); [done|].
      by rewrite list_lookup_insert_ne. }
  split.
  - apply ledger_quiet; [congruence|]. intros mt j. by rewrite Hp, Z.add_0_r, u64_pend.
  - intros mt j Ha. rewrite Hp. apply Hidle. revert Ha. unfold active. rewrite Hx'.
    destruct (decide (j = Z.to_nat idx)) as [->|]; [|by rewrite list_lookup_insert_ne].
    rewrite list_lookup_insert_eq by lia. congruence.
Qed.

(** The info is replaced once the old TEIDs that change are unbound. *)
Lemma retire_compat (e : engine) m idx x x' ul dl : engine_inv e m ->
  info_ e !! Z.to_nat idx = Some x -> i_learned x = false ->
  i_active x' = true -> i_ul_teid x' = ul -> i_dl_teid x' = dl ->
  info_compat (retire (i_dl_teid (install_base x)) dl (retire (i_ul_teid (install_base x)) ul m)) idx x'.
Proof.
  intros Hinv Hx Hl Ha <- <- k b Hk Hb. apply retire_Some in Hk as [[Hk Hk1]%retire_Some Hk2].
  destruct (ei_bind _ _ Hinv k b Hk) as (_ & _ & y & Hy & Hay & Ho & Hz). rewrite Hb in Hy.
  assert (y = x) as -> by congruence. unfold install_base in *. rewrite Hay in *. cbn [negb] in *.
  rewrite Hl in Hz. destruct Hz as [Hz|]; [|done]. split; [done|]. split; [|by left]. lia.
Qed.

Lemma install_at_spec (e : engine) m spec now idx x : engine_inv e m -> session_ok spec ->
  0 <= idx < next_sub_ e -> info_ e !! Z.to_nat idx = Some x -> i_learned x = false ->
  ensures (install_at e spec now idx) (fun '(r, e') => r = idx /\ exists m', engine_inv e' m' /\ installed e e' m m' spec idx).
Proof.
  intros Hinv (_ & Hul & Hdl & Hrg) Hi Hx Hl. pose proof (ei_next _ _ Hinv).
  pose proof (ei_sizes _ _ Hinv) as [Hsz H32]. unfold install_at.
  destruct (at_info e m idx Hinv) as (y & -> & Hy & Hyok); [lia|]. cbn [res_bind].
  assert (y = x) as -> by congruence. fold (install_base x).
  assert (info_ok (install_base x)) as Hbok by (unfold install_base; by case_if).
  assert (i_learned (install_base x) = false) as Hbl by (unfold install_base; by case_if).
  eapply (ensures_bind _ _ (fun e1 => engine_inv e1 m /\ e1 = e <| counters_ :=
    if i_active x then counters_ e else <[Z.to_nat idx := SubscriberCounters_init]> (counters_ e) |>)).
  { destruct (i_active x); cbn [negb]; [apply ensures_Ok; split; [done|by destruct e]|].
    eapply ensures_mono; [by apply (set_counters_Ok e m idx); [|lia|]|]. done. }
  intros e1 [Hinv1 ->]. set (e1 := setf counters_ _ _) in *.
  set (x1 := setf i_default_rating_group _ _).
  assert (i_ul_teid x1 = i_ul_teid (install_base x) /\ i_dl_teid x1 = i_dl_teid (install_base x) /\
    i_learned x1 = false /\ i_active x1 = true /\ i_imsi x1 = s_imsi spec /\ info_ok x1 /\
    (forall mt, x_metric mt x1 = x_metric mt (install_base x))) as (Hu1 & Hd1 & Hl1 & Ha1 & Him1 & Hok1 & Hm1).
  { unfold x1. destruct (i_active x); cbn [negb]; split_and!; try done; by intros []. }
  clearbody x1. rewrite Hu1, Hd1. destruct Hbok as (_ & _ & Hbu & Hbd & _).
  eapply ensures_bind; [by apply (erase_if_spec e1 m (i_ul_teid (install_base x)))|].
  intros e2 [Hinv2 [t2 ->]].
  eapply ensures_bind; [by apply (erase_if_spec _ _ (i_dl_teid (install_base x)) _ Hinv2)|].
  intros e3 [Hinv3 [t3 ->]]. fold (retire (i_ul_teid (install_base x)) (s_ul_teid spec) m) in Hinv3.
  change (if _ && _ then _ else _) with (retire (i_dl_teid (install_base x)) (s_dl_teid spec)
    (retire (i_ul_teid (install_base x)) (s_ul_teid spec) m)) in Hinv3.
  set (m1 := retire _ _ _) in Hinv3. set (x2 := setf i_dl_teid _ _).
  assert (i_ul_teid x2 = s_ul_teid spec /\ i_dl_teid x2 = s_dl_teid spec /\ info_ok x2) as (Hu2 & Hd2 & Hok2).
  { unfold x2. destruct Hok1 as (? & ? & ? & ? & ?). done. }
  eapply ensures_bind; [apply (assign_slot_spec x2 (s_rating_group spec)), Hok2|].
  intros [slot x3] (Hsl & (ids & agg & Hx3 & Hids & _) & Hlab & _).
  assert (info_ok x3 /\ i_active x3 = true /\ i_learned x3 = false /\ i_imsi x3 = s_imsi spec /\
    i_ul_teid x3 = s_ul_teid spec /\ i_dl_teid x3 = s_dl_teid spec /\
    (forall mt, x_metric mt x3 = x_metric mt (install_base x))) as (Hok3 & Ha3 & Hl3 & Him3 & Hu3 & Hd3 & Hm3).
  { rewrite Hx3. split_and!; [by apply labels_info_ok|done..|]. intros mt. rewrite <- Hm1. by destruct mt. }
  eapply ensures_bind.
  { apply (set_info_Ok _ m1 idx x3 Hinv3); [done|done| |done].
    by apply (retire_compat e1 m idx x x3). }
  intros e4 [Hinv4 ->].
  assert (<[Z.to_nat idx := x3]> (info_ e) !! Z.to_nat idx = Some x3) as Hlk.
  { apply list_lookup_insert_eq. by eapply lookup_lt_Some. }
  eapply ensures_bind; [apply (bind_if_spec _ m1 (s_ul_teid spec) idx Direction.kUplink slot x3 Hinv4); auto|].
  { unfold Direction.kUplink. lia. }
  intros [b1 e5] (-> & Hinv5 & t5 & ->).
  eapply ensures_bind; [apply (bind_if_spec _ _ (s_dl_teid spec) idx Direction.kDownlink slot x3 Hinv5); auto|].
  { unfold Direction.kDownlink. lia. }
  intros [b2 e6] (-> & Hinv6 & t6 & ->). apply ensures_Ok. split; [done|]. eexists. split; [exact Hinv6|].
  constructor; [|done]. exists x, slot. split_and!; [done|lia|lia|done|]. exists x3. split_and!; auto.
Qed.

Lemma inv_imsi (e : engine) m imsi idx x : engine_inv e m -> 0 <= idx < next_sub_ e ->
  info_ e !! Z.to_nat idx = Some x -> i_learned x = false ->
  engine_inv (e <| imsi_index_ ::= <[imsi := idx]> |>) m.
Proof.
  intros [] Hi Hx Hl. constructor; cbn; auto.
  intros k i [[<- <-]|[_ Hk]]%lookup_insert_Some; [|by eapply ei_imsi]. split; [done|]. by exists x.
Qed.

(** How [install_session] ends: refused, or installed in the IMSI's slot. *)
Inductive install_post (e : engine) m (spec : SessionSpec) (r : Z) (e' : engine) : Prop :=
| ip_refused : r = SIZE_MAX -> e' = e ->
    (session_valid spec = false \/ imsi_index_ e !! s_imsi spec = None /\ size (counters_ e) <= next_sub_ e) ->
    install_post e m spec r e'
| ip_installed e0 m' : session_valid spec = true -> r <> SIZE_MAX ->
    (imsi_index_ e !! s_imsi spec = Some r \/ imsi_index_ e !! s_imsi spec = None /\ r = next_sub_ e) ->
    (cfg_ e0, counters_ e0, info_ e0, traffic (stats_ e0), records_of e0) =
    (cfg_ e, counters_ e, info_ e, traffic (stats_ e), records_of e) ->
    imsi_index_ e' !! s_imsi spec = Some r -> engine_inv e' m' -> installed e0 e' m m' spec r ->
    install_post e m spec r e'.

Lemma install_session_spec (e : engine) m spec now : engine_inv e m -> session_ok spec ->
  ensures (install_session e spec now) (fun '(r, e') => install_post e m spec r e').
Proof.
  intros Hinv Hok. unfold install_session. pose proof (ei_next _ _ Hinv).
  pose proof (ei_sizes _ _ Hinv) as [Hsz H32].
  destruct (session_valid spec) eqn:Hv; cbn [negb]; [|apply ensures_Ok; apply ip_refused; auto].
  destruct (imsi_index_ e !! s_imsi spec) as [idx|] eqn:Him.
  - destruct (ei_imsi _ _ Hinv _ _ Him) as (Hi & x & Hx & Hl).
    eapply ensures_mono; [by apply (install_at_spec e m spec now idx x)|].
    intros [r e'] (-> & m' & Hinv' & Hins). apply (ip_installed _ _ _ _ _ e m'); auto.
    + unfold SIZE_MAX. lia.
    + pose proof (in_same _ _ _ _ _ _ Hins). congruence.
  - case_if; [apply ensures_Ok; apply ip_refused; auto|].
    destruct (inv_next e m Hinv Hif) as [Hinv1 Hn].
    destruct (at_info e m (next_sub_ e) Hinv) as (x & _ & Hx & _); [lia|].
    destruct (ei_fresh _ _ Hinv (next_sub_ e) x) as [Ha Hl]; [lia|done|].
    set (e0 := setf stats_ _ _).
    assert (engine_inv e0 m) as Hinv0.
    { apply inv_stats. apply (inv_imsi _ m (s_imsi spec) (next_sub_ e) x); [done|cbn; lia|done|done]. }
    eapply ensures_mono; [apply (install_at_spec e0 m spec now (next_sub_ e) x Hinv0 Hok); [cbn; lia|done|done]|].
    intros [r e'] (-> & m' & Hinv' & Hins). apply (ip_installed _ _ _ _ _ e0 m'); auto.
    + unfold SIZE_MAX. lia.
    + assert (imsi_index_ e' = imsi_index_ e0) as -> by (pose proof (in_same _ _ _ _ _ _ Hins); congruence).
      apply lookup_insert_eq.
Qed.

(** ** What a packet charges *)

(** The subscriber (and direction) that pays for a packet. *)
Definition charged_to (e : engine) (ev : MeterEvent) : option (Z * bool) :=
  if flag_set (ev_flags ev) kFlagControlPdu then None else
  match kt_find (teid_map_ e) (ev_teid ev) with
  | Ok (Some b, _) => Some (sub_idx b, is_downlink ev b)
  | Ok (None, _) =>
      if learn_unknown_teids (cfg_ e) && (next_sub_ e <? size (counters_ e))
      then Some (next_sub_ e, ev_dir ev =? Direction.kDownlink) else None
  | _ => None
  end.
Definition amount (mt : metric) (dl : bool) (ev : MeterEvent) : Z :=
  match mt, dl with
  | UlBytes, false | DlBytes, true => ev_bytes ev
  | UlPackets, false | DlPackets, true => 1
  | _, _ => 0
  end.
Definition charge (to : option (Z * bool)) (ev : MeterEvent) (mt : metric) (i : nat) : Z :=
  match to with
  | Some (s, dl) => if decide (Z.of_nat i = s) then amount mt dl ev else 0
  | None => 0
  end.

Lemma credited_metric dl ev slot c c' mt : credited dl ev slot c c' ->
  u64 (c_metric mt c') = u64 (c_metric mt c + amount mt dl ev).
Proof.
  intros (H1 & H2 & H3 & H4 & _).
  destruct mt, dl; cbn; rewrite ?H1, ?H2, ?H3, ?H4, ?Z.add_0_r; unfold add64; by rewrite ?u64_idem.
Qed.

Lemma slot_for_info ev b x x' slot : slot_for ev b x x' slot ->
  i_active x' = i_active x /\ forall mt, x_metric mt x' = x_metric mt x.
Proof.
  intros [_ H]. destruct (ev_has_qfi ev); [|by destruct H as [_ ->]].
  destruct H as (_ & (ids & agg & -> & _) & _). split; [done|]. by intros [].
Qed.

Lemma accounted_books (e e' : engine) ev b : accounted e e' ev b -> 0 <= sub_idx b -> idle_ok e ->
  active e (Z.to_nat (sub_idx b)) = true ->
  ledger e e' (charge (Some (sub_idx b, is_downlink ev b)) ev) [] [] /\ idle_ok e'.
Proof.
  intros [(c & c' & x & x' & slot & Hc & Hx & Hc' & Hx' & Hcr & Hsl) Hst (_ & _ & _ & Hsink)] H0 Hidle Hact.
  destruct (slot_for_info _ _ _ _ _ Hsl) as [Ha' Hm'].
  assert (forall mt j, j <> Z.to_nat (sub_idx b) -> pend mt e' j = pend mt e j) as Hother.
  { intros mt j Hj. unfold pend. rewrite Hc', Hx', !list_lookup_insert_ne by done. done. }
  split.
  - apply ledger_quiet. { unfold records_of. injection Hsink as -> ->. injection Hst. intros. congruence. }
    intros mt j. cbn [charge]. case_decide as E; [|rewrite Hother by lia; by rewrite Z.add_0_r, u64_pend].
    assert (j = Z.to_nat (sub_idx b)) as -> by lia. unfold pend. rewrite Hc, Hx, Hc', Hx'.
    rewrite !list_lookup_insert_eq by (by eapply lookup_lt_Some). rewrite Hm'. unfold sub64.
    rewrite u64_add_u64_l, <- Z.add_opp_r, <- u64_add_u64_l, (credited_metric _ _ _ _ _ _ Hcr), u64_add_u64_l.
    f_equal. lia.
  - intros mt j Ha. destruct (decide (j = Z.to_nat (sub_idx b))) as [->|Hne].
    + exfalso. revert Ha. unfold active in *. rewrite Hx', list_lookup_insert_eq by (by eapply lookup_lt_Some).
      rewrite Hx in Hact. congruence.
    + rewrite Hother by done. apply Hidle. unfold active in *. by rewrite Hx', list_lookup_insert_ne in Ha.
Qed.

(** A fresh slot becomes a learned subscriber: nothing pending before or after. *)
Lemma learned_books (e e1 : engine) m x : engine_inv e m -> idle_ok e -> next_sub_ e < size (counters_ e) ->
  counters_ e1 = <[Z.to_nat (next_sub_ e) := SubscriberCounters_init]> (counters_ e) ->
  info_ e1 = <[Z.to_nat (next_sub_ e) := x]> (info_ e) -> unbilled x ->
  (forall mt j, pend mt e1 j = pend mt e j) /\ idle_ok e1 /\ active e1 (Z.to_nat (next_sub_ e)) = true.
Proof.
  intros Hinv Hidle Hn Hc Hx (Ha & Hu). pose proof (ei_next _ _ Hinv). pose proof (ei_sizes _ _ Hinv) as [Hsz _].
  set (k := Z.to_nat (next_sub_ e)) in *.
  assert (k < length (info_ e) /\ k < length (counters_ e))%nat as [? ?] by (unfold size, k in *; lia).
  assert (active e k = false) as Hf.
  { unfold active. destruct (info_ e !! k) as [y|] eqn:Hy; [|done]. by apply (ei_fresh _ _ Hinv (next_sub_ e) y). }
  assert (forall mt j, pend mt e1 j = pend mt e j) as Hp.
  { intros mt j. destruct (decide (j = k)) as [->|]; [|unfold pend; by rewrite Hc, Hx, !list_lookup_insert_ne].
    rewrite (Hidle mt k Hf). unfold pend. rewrite Hc, Hx, !list_lookup_insert_eq by done.
    destruct Hu as (Hu1 & Hu2 & Hu3 & Hu4). destruct mt; cbn; by rewrite ?Hu1, ?Hu2, ?Hu3, ?Hu4. }
  split_and!; [done| |unfold active; by rewrite Hx, list_lookup_insert_eq].
  intros mt j Haj. rewrite Hp. apply Hidle. unfold active in *. rewrite Hx in Haj.
  destruct (decide (j = k)) as [->|]; [done|]. by rewrite list_lookup_insert_ne in Haj.
Qed.

Lemma ledger_left (e0 e e' : engine) ch r k : records_of e0 = records_of e ->
  (forall mt i, pend mt e0 i = pend mt e i) -> ledger e0 e' ch r k -> ledger e e' ch r k.
Proof.
  intros [= Hs H1 H2 Hb] Hp []. constructor; auto; [by rewrite <- Hb|by rewrite <- Hs|by rewrite <- H1|by rewrite <- H2|].
  intros mt i. by rewrite <- Hp.
Qed.

(** Every packet is in exactly one of the packet counters. *)
Definition balanced (s : PipelineStats) : Prop :=
  u64 (st_events s) = u64 (st_control_pdus s + st_unknown_teid_events s + st_ul_packets s + st_dl_packets s).

Lemma traffic_balanced s s' : traffic s' = traffic s -> balanced s -> balanced s'.
Proof. unfold traffic, balanced. intros [= -> -> -> -> -> _]. done. Qed.

Lemma balanced_step s s' a b c d : balanced s -> a + b + c + d = 1 -> u64 (st_events s') = u64 (st_events s + 1) ->
  u64 (st_control_pdus s') = u64 (st_control_pdus s + a) ->
  u64 (st_unknown_teid_events s') = u64 (st_unknown_teid_events s + b) ->
  u64 (st_ul_packets s') = u64 (st_ul_packets s + c) -> u64 (st_dl_packets s') = u64 (st_dl_packets s + d) ->
  balanced s'.
Proof.
  unfold balanced. intros Hb H1 He Hc Hu Hp Hd.
  rewrite He, <- u64_add_u64_l, Hb, u64_add_u64_l.
  rewrite (u64_add_cong _ _ _ _ (u64_add_cong _ _ _ _ (u64_add_cong _ _ _ _ Hc Hu) Hp) Hd). f_equal. lia.
Qed.

Lemma balanced_credited dl ev s s0 s' : balanced s -> stats_credited dl ev s0 s' ->
  core_stats s0 = core_stats (s <| st_events ::= incr64 |> <| st_bytes ::= fun b => add64 b (ev_bytes ev) |>) -> balanced s'.
Proof.
  intros Hb Hcr Hs0. unfold stats_credited in Hcr.
  injection Hs0 as E1 E2 E3 E4 E5 E6 E7 E8 E9 E10 E11.
  rewrite E1, E2, E3, E4, E5, E6, E7, E8, E9, E10, E11 in Hcr. cbn in Hcr.
  injection Hcr as F1 F2 F3 F4 F5 F6 F7 F8 F9 F10 F11.
  apply (balanced_step s s' 0 0 (if dl then 0 else 1) (if dl then 1 else 0)); auto;
    try (destruct dl; rewrite ?F1, ?F5, ?F6, ?F7, ?F8; unfold incr64, add64; rewrite ?u64_idem, ?Z.add_0_r; done).
Qed.

Lemma apply_books (e e' : engine) m m' ev : engine_inv e m -> event_ok ev -> idle_ok e ->
  apply_post e m ev e' m' ->
  ledger e e' (charge (charged_to e ev) ev) [] [] /\ idle_ok e' /\
  (balanced (stats_ e) -> balanced (stats_ e')).
Proof.
  intros Hinv Hev Hidle Hp. unfold charged_to.
  destruct (kt_find_spec _ m (ev_teid ev) (ei_table _ _ Hinv)) as ([o t'] & -> & -> & _ & _); [apply Hev|].
  destruct Hp as [Hf -> ->|b t Hf Hm -> Hacc|t Hf Hm -> Hl ->|b e1 Hf Hm Hl Hn -> Hb Hd Hc1 (x & Hx1 & Hub) Hr1 Hn1 Hcs Hacc];
    rewrite Hf; try rewrite Hm.
  - split_and!; [by apply ledger_refl|done|]. intros Hb. apply (balanced_step (stats_ e) _ 1 0 0 0 Hb); try done;
      cbn; unfold incr64, add64; by rewrite ?u64_idem, ?Z.add_0_r.
  - destruct (ei_bind _ _ Hinv _ _ Hm) as (Hi & _ & x & Hx & Ha & _).
    destruct (accounted_books _ _ _ _ Hacc) as [Hled Hid]; [lia|done|unfold active; cbn; by rewrite Hx|].
    split_and!; [|done|]. { by apply (ledger_left _ e) in Hled. }
    intros Hb. eapply balanced_credited; [done|apply Hacc|done].
  - assert (learn_unknown_teids (cfg_ e) && (next_sub_ e <? size (counters_ e)) = false) as ->.
    { destruct Hl as [->|Hl]; [done|]. apply andb_false_intro2, Z.ltb_ge. lia. }
    split_and!; [by apply ledger_refl|done|]. intros Hb. apply (balanced_step (stats_ e) _ 0 1 0 0 Hb); try done;
      cbn; unfold incr64, add64; by rewrite ?u64_idem, ?Z.add_0_r.
  - rewrite Hl. replace (next_sub_ e <? size (counters_ e)) with true by (symmetry; by apply Z.ltb_lt). cbn [andb].
    destruct (learned_books e e1 m x Hinv Hidle Hn Hc1 Hx1 Hub) as (Hp1 & Hid1 & Hact1).
    pose proof (ei_next _ _ Hinv).
    destruct (accounted_books _ _ _ _ Hacc) as [Hled Hid]; [lia|done|by rewrite Hb|].
    assert (is_downlink ev b = (ev_dir ev =? Direction.kDownlink)) as Hdl.
    { unfold is_downlink. rewrite Hd. by case_if. }
    rewrite Hb, Hdl in Hled. split_and!; [|done|].
    + apply (ledger_left e1 e); [|done|done]. unfold records_of. injection Hr1 as -> ->. injection Hcs; intros; congruence.
    + intros Hbal. eapply balanced_credited; [done|apply Hacc|]. done.
Qed.

(** ** Gy reports *)

Lemma apply_gy_spec (e : engine) m g : engine_inv e m ->
  ensures (apply_gy e g) (fun e' => engine_inv e' m /\ emits e e' [] [] /\
    u64 (st_gy_events (stats_ e')) = u64 (st_gy_events (stats_ e) + 1) /\
    match imsi_index_ e !! gy_imsi g with
    | Some idx =>
        if gy_has_imsi g && gy_has_used g then exists x x', info_ e !! Z.to_nat idx = Some x /\
          info_ e' = <[Z.to_nat idx := x']> (info_ e) /\
          i_gy_reported_octets x' = add64 (i_gy_reported_octets x) (gy_used_total_octets g)
        else info_ e' = info_ e
    | None => info_ e' = info_ e
    end).
Proof.
  intros Hinv. unfold apply_gy. set (e1 := setf stats_ _ e).
  assert (engine_inv e1 m) as Hinv1 by (by apply inv_stats).
  assert (u64 (st_gy_events (stats_ e1)) = u64 (st_gy_events (stats_ e) + 1)) as Hst
    by (cbn; unfold incr64, add64; by rewrite u64_idem).
  destruct (gy_has_imsi g), (gy_has_used g); cbn [negb orb andb];
    try (apply ensures_Ok; split_and!; [done|by apply emits_refl|done|by destruct (imsi_index_ e !! _)]).
  change (imsi_index_ e1) with (imsi_index_ e). destruct (imsi_index_ e !! gy_imsi g) as [idx|] eqn:Him.
  2: { apply ensures_Ok. split_and!; [done|by apply emits_refl|done|done]. }
  destruct (ei_imsi _ _ Hinv _ _ Him) as (Hi & y & Hy & _). pose proof (ei_next _ _ Hinv).
  destruct (at_info e1 m idx Hinv1) as (x & -> & Hx & Hok); [cbn; lia|]. cbn [res_bind].
  set (x' := setf i_gy_reports _ _).
  eapply ensures_bind; [by apply (set_info_keep e1 m idx x x')|]. intros e2 [Hinv2 ->].
  apply ensures_Ok. assert (Z.to_nat idx < length (info_ e))%nat as Hlt by (by eapply lookup_lt_Some).
  assert (forall mt j, pend mt (e1 <| info_ := <[Z.to_nat idx := x']> (info_ e1) |>) j = pend mt e j) as Hp.
  { intros mt j. unfold pend. cbn. destruct (decide (j = Z.to_nat idx)) as [->|]; [|by rewrite list_lookup_insert_ne].
    rewrite list_lookup_insert_eq by done. cbn in Hx. rewrite Hx. by destruct mt. }
  split_and!; [by apply inv_stats| |done|exists x, x'; done].
  constructor; [done| | |].
  - apply ledger_quiet; [done|]. intros mt j. rewrite Z.add_0_r, u64_pend. apply Hp.
  - by apply (active_insert e _ (Z.to_nat idx) x x').
  - intros mt j Hj. rewrite <- Hj. apply Hp.
Qed.

End Control.
