(* ===== verification/MeterLedger.v ===== *)
(** * The metering engine over whole runs

    Sequences of engine operations (packets, Gy reports, polls, drains,
    sessions installed and released, and the reporter popping the record
    sink), from the constructor on: they never fault, they keep the
    invariant, and the books balance. *)

From S2P Require Import Prelude MeterEvent UsageRecord Session SpscRing FlatHash Meter MeterProps MeterControl.

(** The configurations the theorems are about: 32-bit subscriber indices, a
    flow table that fits the address space and a probe window of at least one. *)
Definition config_ok (cfg : MeterConfig) : Prop :=
  0 <= max_subscribers cfg <= 2 ^ 32 /\
  (track_flows cfg = true -> flow_table_capacity cfg <= 2 ^ 63 /\ 1 <= flow_probe_window cfg).

Inductive op :=
| OpApply (ev : MeterEvent)
| OpGy (g : GyEvent)
| OpPoll (now : Z)
| OpDrain (now : Z)
| OpInstall (spec : SessionSpec) (now : Z)
| OpRelease (imsi now : Z)
| OpPop (max : Z)
| OpTake.

(** Operands within their types; a packet's timestamp is not [UINT64_MAX]. *)
Definition op_ok (o : op) : Prop :=
  match o with
  | OpApply ev => event_ok ev /\ ev_ts_ns ev < UINT64_MAX
  | OpInstall spec _ => session_ok spec
  | OpPop max => 0 <= max < 2 ^ 64
  | _ => True
  end.

Lemma u64_sub_0 a b : u64 (0 + a - b) = 0 -> u64 a = u64 b.
Proof.
  intros H. replace a with (b + (0 + a - b)) by lia. by rewrite <- u64_add_u64_r, H, Z.add_0_r.
Qed.

Lemma sublist_eq_size {A} (l k : list A) : l `sublist_of` k -> 0 = size k - size l -> l = k.
Proof.
  intros Hs. induction Hs as [|x l k Hs IH|x l k Hs IH]; rewrite ?size_cons; intros H; [done|..].
  - f_equal. apply IH. lia.
  - pose proof (sublist_length _ _ Hs). unfold size in *. lia.
Qed.

Section Runs.
Context {M R : Type} {KT : KeyTable TeidBinding M} {BQ : BoundedQueue UsageRecord R}.
Context (wall_ns : nat -> Z).
Abbreviation engine := (MeterEngine M R).

(** The constructor establishes the invariant. *)
Lemma round_pow2_spec v : v <= 2 ^ 63 -> exists k, 1 <= k <= 63 /\ round_pow2 v = Ok (2 ^ k).
Proof.
  intros Hv. unfold round_pow2. destruct (Z.ltb_spec v 2); [by exists 1|].
  destruct (pow2_ceil_spec v) as (k & Hk & E & _); [lia|]. by exists k.
Qed.

Lemma engine_new_inv cfg teids sink : config_ok cfg -> kt_repr teids ∅ -> sink_ok sink ->
  2 * max_subscribers cfg < kt_cap teids ->
  ensures (MeterEngine_new cfg teids) (fun e => let e0 := set_record_sink sink e in
    engine_inv e0 ∅ /\ idle_ok e0 /\ balanced (stats_ e0) /\ (forall mt i, pend mt e0 i = 0) /\
    record_sink_ e0 = sink /\ stats_ e0 = PipelineStats_init /\ cfg_ e0 = cfg /\
    size (counters_ e0) = max_subscribers cfg /\ built_ e0 = []).
Proof.
  intros [Hm Hf] Ht Hs Hcap. unfold MeterEngine_new.
  eapply (ensures_bind _ _ (fun n => flows_ok cfg (replicate (Z.to_nat n) FlowEntry_init)
    (if size (replicate (Z.to_nat n) FlowEntry_init) =? 0 then 0 else sub64 (size (replicate (Z.to_nat n) FlowEntry_init)) 1))).
  { destruct (track_flows cfg) eqn:Htf; [|apply ensures_Ok; by left]. destruct (Hf eq_refl) as [Hc Hw].
    destruct (round_pow2_spec _ Hc) as (k & Hk & ->). apply ensures_Ok. pose proof (pow63 k Hk).
    assert (size (replicate (Z.to_nat (2 ^ k)) FlowEntry_init) = 2 ^ k) as Hsz
      by (unfold size; rewrite length_replicate; lia).
    right. rewrite Hsz. replace (2 ^ k =? 0) with false by (symmetry; apply Z.eqb_neq; lia).
    split_and!; [exists k; split_and!; try lia; apply sub64_small; lia|done|].
    apply Forall_replicate. done. }
  intros n Hn. apply ensures_Ok. cbn zeta.
  assert (size (replicate (Z.to_nat (max_subscribers cfg)) SubscriberCounters_init) = max_subscribers cfg) as Hsc
    by (unfold size; rewrite length_replicate; lia).
  assert (size (replicate (Z.to_nat (max_subscribers cfg)) SubscriberInfo_init) = max_subscribers cfg) as Hsi
    by (unfold size; rewrite length_replicate; lia).
  set (e0 := set_record_sink _ _).
  assert (forall mt i, pend mt e0 i = 0) as Hp.
  { intros mt i. unfold pend, e0. cbn. destruct (replicate _ SubscriberCounters_init !! i) eqn:E1; [|done].
    destruct (replicate _ SubscriberInfo_init !! i) eqn:E2; [|done].
    apply lookup_replicate in E1 as [-> _]. apply lookup_replicate in E2 as [-> _]. by destruct mt. }
  split_and!; [|by intros mt i _|done|done|done|done|done|done|done].
  constructor; cbn; rewrite ?Hsc, ?Hsi; auto; try lia; try done.
  - intros i info _ [-> _]%lookup_replicate. done.
  - apply Forall_replicate. done.
  - apply Forall_replicate. by unfold info_ok.
Qed.

(** One operation; the list holds the records the reporter received. *)
Definition exec (e : engine) (o : op) : res (list UsageRecord * engine) :=
  match o with
  | OpApply ev => let* e := apply e ev in Ok ([], e)
  | OpGy g => let* e := apply_gy e g in Ok ([], e)
  | OpPoll now => let* e := poll wall_ns e now in Ok ([], e)
  | OpDrain now => let* (_, e) := drain wall_ns e now in Ok ([], e)
  | OpInstall spec now => let* (_, e) := install_session e spec now in Ok ([], e)
  | OpRelease imsi now => let* (_, e) := release_session wall_ns e imsi now in Ok ([], e)
  | OpPop max =>
      match record_sink_ e with
      | Some q => let* (out, q) := q_pop_bulk q max in Ok (out, e <| record_sink_ := Some q |>)
      | None => Ok ([], e)
      end
  | OpTake =>
      match record_sink_ e with
      | Some q => let* (o, q) := q_pop q in Ok (option_list o, e <| record_sink_ := Some q |>)
      | None => Ok ([], e)
      end
  end.

Fixpoint run (e : engine) (ops : list op) : res (list UsageRecord * engine) :=
  match ops with
  | [] => Ok ([], e)
  | o :: ops =>
      let* (out, e) := exec e o in
      let* (out', e) := run e ops in
      Ok (out ++ out', e)
  end.

(** What the packets of a run charge, per metric and subscriber. *)
Definition op_charge (e : engine) (o : op) : metric -> nat -> Z :=
  match o with OpApply ev => charge (charged_to e ev) ev | _ => no_charge end.
Fixpoint charges (e : engine) (ops : list op) (mt : metric) (i : nat) : Z :=
  match ops with
  | [] => 0
  | o :: ops => op_charge e o mt i + match exec e o with Ok (_, e) => charges e ops mt i | _ => 0 end
  end.

(** [kept] went into the sink behind what was there, [out] came out of its front. *)
Definition sink_moved (s s' : option R) (kept out : list UsageRecord) : Prop :=
  match s, s' with
  | Some q, Some q' => forall l, q_repr q l -> exists l', q_repr q' l' /\ l ++ kept = out ++ l'
  | None, None => out = []
  | _, _ => False
  end.

(** The books from [e] to [e']: [recs] are the records built in between, [kept]
    those that went into the sink and [out] those the reporter took from it. *)
Record books (e e' : engine) (ch : metric -> nat -> Z) (recs kept out : list UsageRecord) : Prop := {
  bk_built : built_ e' = built_ e ++ recs;
  bk_sublist : kept `sublist_of` recs;
  bk_sink : sink_moved (record_sink_ e) (record_sink_ e') kept out;
  bk_emitted : u64 (st_records_emitted (stats_ e')) = u64 (st_records_emitted (stats_ e) + size kept);
  bk_dropped : u64 (st_records_dropped (stats_ e')) = u64 (st_records_dropped (stats_ e) + (size recs - size kept));
  bk_pend : forall mt i, pend mt e' i = u64 (pend mt e i + ch mt i - billed mt i recs)
}.

Lemma ledger_books (e e' : engine) ch recs kept : ledger e e' ch recs kept -> books e e' ch recs kept [].
Proof.
  intros []. constructor; auto. unfold sink_pushed, sink_moved in *.
  destruct (record_sink_ e), (record_sink_ e'); try done. destruct lg_sink as [_ H].
  intros l Hl. exists (l ++ kept). auto.
Qed.

Lemma books_trans (e1 e2 e3 : engine) ch1 r1 k1 o1 ch2 r2 k2 o2 ch :
  books e1 e2 ch1 r1 k1 o1 -> books e2 e3 ch2 r2 k2 o2 -> (forall mt i, ch mt i = ch1 mt i + ch2 mt i) ->
  books e1 e3 ch (r1 ++ r2) (k1 ++ k2) (o1 ++ o2).
Proof.
  intros [] [] Hch. constructor; [by rewrite bk_built1, bk_built0, app_assoc|by apply sublist_app|..].
  - unfold sink_moved in *. destruct (record_sink_ e1), (record_sink_ e2), (record_sink_ e3); try done.
    + intros l Hl. destruct (bk_sink0 l Hl) as (l1 & Hl1 & E1). destruct (bk_sink1 l1 Hl1) as (l2 & Hl2 & E2).
      exists l2. split; [done|]. by rewrite app_assoc, E1, <- app_assoc, E2, app_assoc.
    + by subst.
  - rewrite bk_emitted1, <- u64_add_u64_l, bk_emitted0, u64_add_u64_l, size_app. f_equal. lia.
  - rewrite bk_dropped1, <- u64_add_u64_l, bk_dropped0, u64_add_u64_l, !size_app. f_equal. lia.
  - intros mt i. rewrite bk_pend1, bk_pend0, billed_app, Hch, <- !Z.add_opp_r.
    rewrite <- (Z.add_assoc (u64 _)), u64_add_u64_l. f_equal. lia.
Qed.

(** A good state, and what every operation guarantees from one. *)
Definition good (e : engine) : Prop := (exists m, engine_inv e m) /\ idle_ok e /\ balanced (stats_ e).

Definition exec_post (e : engine) (ch : metric -> nat -> Z) : list UsageRecord * engine -> Prop :=
  fun '(out, e') => good e' /\ exists recs kept, books e e' ch recs kept out.

Lemma post_emits (e e' : engine) m recs kept : good e -> engine_inv e' m -> emits e e' recs kept ->
  ensures (Ok ([], e')) (exec_post e no_charge).
Proof.
  intros (_ & Hi & Hb) Hinv Hem. apply ensures_Ok. split; [|exists recs, kept; apply ledger_books, Hem].
  split_and!; [by exists m|by eapply idle_emits|].
  eapply traffic_balanced; [|done]. pose proof (em_same _ _ _ _ Hem). congruence.
Qed.

Lemma post_same (e : engine) : good e -> ensures (Ok ([], e)) (exec_post e no_charge).
Proof. intros Hg. pose proof Hg as ((m & Hinv) & _). by apply (post_emits e e m [] [] Hg Hinv), emits_refl. Qed.

Lemma post_install (e e' : engine) m spec r : good e -> engine_inv e m -> install_post e m spec r e' ->
  ensures (Ok ([], e')) (exec_post e no_charge).
Proof.
  intros Hg Hinv [_ -> _|e0 m' _ _ _ Hsame _ Hinv' Hins]; [by apply post_same|].
  destruct Hg as (_ & Hidle & Hbal).
  injection Hsame as Hcf Hcn Hin Ht1 Ht2 Ht3 Ht4 Ht5 Hr1 Hr2 Hr3 Hr4.
  assert (forall mt i, pend mt e0 i = pend mt e i) as Hp by (intros mt i; unfold pend; by rewrite Hcn, Hin).
  destruct (installed_books e0 e' m m' spec r Hins) as [Hled Hid].
  - intros mt i. rewrite Hp. unfold active. rewrite Hin. apply Hidle.
  - rewrite Hcn, Hin. pose proof (ei_sizes _ _ Hinv) as [? _]. unfold size in *. lia.
  - apply ensures_Ok. split; [split_and!; [by exists m'|done|]|].
    + eapply traffic_balanced; [|exact Hbal]. pose proof (in_same _ _ _ _ _ _ Hins). unfold traffic in *. congruence.
    + exists [], []. apply ledger_books. apply (ledger_left e0 e); [unfold records_of; congruence|done|done].
Qed.

Lemma post_release (e e' : engine) m m' idx now : good e -> engine_inv e' m' -> released wall_ns e e' m m' idx now ->
  ensures (Ok ([], e')) (exec_post e no_charge).
Proof.
  intros (_ & Hidle & Hbal) Hinv' [(e1 & c & x & kept & _ & _ & Hled & _) _ Hid Hsame]. apply ensures_Ok.
  split; [split_and!; [by exists m'|auto|eapply traffic_balanced; [|exact Hbal]; congruence]|].
  eexists _, kept. by apply ledger_books.
Qed.

(** The reporter's side of the ring: [out] leaves the front of what was queued. *)
Lemma post_popped (e : engine) q q' out : good e -> record_sink_ e = Some q ->
  (forall l, q_repr q l -> exists l', q_repr q' l' /\ l = out ++ l') ->
  ensures (Ok (out, e <| record_sink_ := Some q' |>)) (exec_post e no_charge).
Proof.
  intros ((m & Hinv) & Hidle & Hbal) Hq Hout. pose proof (ei_sink _ _ Hinv) as Hs. rewrite Hq in Hs. destruct Hs as [l Hl].
  destruct (Hout l Hl) as (l' & Hl' & _). apply ensures_Ok. split.
  { split_and!; [exists m; apply inv_sink; [done|by exists l']|done|done]. }
  exists [], []. constructor; rewrite ?(@size_nil UsageRecord); [by rewrite app_nil_r|done| |cbn; f_equal; lia..|].
  - unfold sink_moved. rewrite Hq. cbn. intros l2 Hl2. destruct (Hout l2 Hl2) as (r & Hr & ->). exists r. by rewrite app_nil_r.
  - intros mt i. change (pend mt e i = u64 (pend mt e i + 0 - 0)).
    by rewrite Z.add_0_r, Z.sub_0_r, u64_pend.
Qed.

Lemma exec_pop (e : engine) max : good e -> 0 <= max < 2 ^ 64 ->
  ensures (exec e (OpPop max)) (exec_post e no_charge).
Proof.
  intros Hg Hmax. cbn [exec]. destruct (record_sink_ e) as [q|] eqn:Hq; [|by apply post_same].
  pose proof Hg as ((m & Hinv) & _). pose proof (ei_sink _ _ Hinv) as Hs. rewrite Hq in Hs. destruct Hs as [l Hl].
  destruct (q_pop_bulk_spec q l max Hl Hmax) as ([out q'] & Hpop & _). rewrite Hpop, bind_Ok.
  apply (post_popped e q); [done|done|]. intros l2 Hl2.
  destruct (q_pop_bulk_spec q l2 max Hl2 Hmax) as ([out2 q2] & Hpop2 & _ & rest2 & -> & Hrest2 & _).
  rewrite Hpop in Hpop2. injection Hpop2 as <- <-. by exists rest2.
Qed.

Lemma exec_take (e : engine) : good e -> ensures (exec e OpTake) (exec_post e no_charge).
Proof.
  intros Hg. cbn [exec]. destruct (record_sink_ e) as [q|] eqn:Hq; [|by apply post_same].
  pose proof Hg as ((m & Hinv) & _). pose proof (ei_sink _ _ Hinv) as Hs. rewrite Hq in Hs. destruct Hs as [l Hl].
  destruct (q_pop_spec q l Hl) as ([o q'] & Hpop & _). rewrite Hpop, bind_Ok.
  apply (post_popped e q); [done|done|]. intros l2 Hl2.
  destruct (q_pop_spec q l2 Hl2) as ([o2 q2] & Hpop2 & _ & Hl2'). rewrite Hpop in Hpop2. injection Hpop2 as <- <-.
  destruct l2 as [|r l2]; destruct Hl2' as [-> Hr]; eexists; split; done.
Qed.

Lemma exec_spec (e : engine) o : good e -> op_ok o -> ensures (exec e o) (exec_post e (op_charge e o)).
Proof.
  intros Hg Ho. pose proof Hg as ((m & Hinv) & Hidle & Hbal). pose proof (ei_next _ _ Hinv).
  destruct o as [ev|g|now|now|spec now|imsi now|max|]; cbn [exec op_charge].
  - destruct Ho as [Hev Hts]. eapply ensures_bind; [by apply (apply_spec e m ev)|].
    intros e' (m' & Hinv' & Hp). apply ensures_Ok.
    destruct (apply_books e e' m m' ev Hinv Hev Hidle Hp) as (Hled & Hid & Hb).
    split; [split_and!; [by exists m'|done|auto]|]. exists [], []. by apply ledger_books.
  - eapply ensures_bind; [by apply (apply_gy_spec e m g)|]. intros e' (Hinv' & Hem & _).
    by eapply post_emits.
  - eapply ensures_bind; [by apply (poll_spec wall_ns e m now)|]. intros e' (Hinv' & (r & k & Hem) & _).
    by eapply post_emits.
  - eapply ensures_bind; [apply (drain_loop_spec wall_ns m now (Z.to_nat (next_sub_ e)) e 0 0 Hinv); lia|].
    intros [k' e'] (Hinv' & (r & k & Hem & _) & _). by eapply post_emits.
  - eapply ensures_bind; [by apply (install_session_spec e m spec now)|]. intros [r e'] Hp.
    by eapply post_install.
  - eapply ensures_bind; [by apply (release_session_spec wall_ns e m imsi now)|]. intros [[] e']; cbn [negb].
    + intros (idx & m' & _ & Hinv' & Hr). by eapply post_release.
    + intros [-> _]. by apply post_same.
  - by apply exec_pop.
  - by apply exec_take.
Qed.

Lemma run_spec ops : forall e, good e -> Forall op_ok ops -> ensures (run e ops) (exec_post e (charges e ops)).
Proof.
  induction ops as [|o ops IH]; intros e Hg Hops; cbn [run charges].
  { eapply ensures_mono; [by apply post_same|]. by intros [out e']. }
  apply Forall_cons_iff in Hops as [Ho Hops].
  destruct (exec_spec e o Hg Ho) as ([out e1] & Hex & Hg1 & r1 & k1 & Hb1). rewrite Hex. cbn [res_bind].
  eapply ensures_bind; [by apply (IH e1)|]. intros [out2 e2] (Hg2 & r2 & k2 & Hb2). apply ensures_Ok.
  split; [done|]. exists (r1 ++ r2), (k1 ++ k2). by eapply books_trans.
Qed.

Lemma run_app ops1 ops2 : forall e, run e (ops1 ++ ops2) =
  let* (o1, e1) := run e ops1 in let* (o2, e2) := run e1 ops2 in Ok (o1 ++ o2, e2).
Proof.
  induction ops1 as [|o ops1 IH]; intros e; cbn [run app].
  { cbn [res_bind]. by destruct (run e ops2) as [[]| |]. }
  destruct (exec e o) as [[out e1]| |]; cbn [res_bind]; [|done|done]. rewrite IH.
  destruct (run e1 ops1) as [[out1 e2]| |]; cbn [res_bind]; [|done|done].
  destruct (run e2 ops2) as [[out2 e3]| |]; cbn [res_bind]; [|done|done]. by rewrite app_assoc.
Qed.

Lemma drain_all (e : engine) now : good e ->
  ensures (exec e (OpDrain now)) (fun '(_, e') => forall i, pend UlBytes e' i = 0 /\ pend DlBytes e' i = 0).
Proof.
  intros ((m & Hinv) & Hidle & _). cbn [exec]. pose proof (ei_next _ _ Hinv).
  eapply ensures_bind; [apply (drain_loop_spec wall_ns m now (Z.to_nat (next_sub_ e)) e 0 0 Hinv); lia|].
  intros [k' e'] (Hinv' & (r & k & Hem & _) & Hz & _). apply ensures_Ok. intros i.
  destruct (active e i) eqn:Ha.
  - apply Hz; [|done]. split; [lia|]. destruct (decide (i < Z.to_nat (next_sub_ e))%nat); [done|].
    exfalso. unfold active in Ha. destruct (info_ e !! i) as [x|] eqn:Hx; [|done].
    destruct (ei_fresh _ _ Hinv (Z.of_nat i) x) as [? _]; [lia|by rewrite Nat2Z.id|congruence].
  - rewrite (em_idle _ _ _ _ Hem UlBytes), (em_idle _ _ _ _ Hem DlBytes); auto.
Qed.

(** Engines as the program builds them. *)
Definition fresh_engine (cfg : MeterConfig) (teids : M) (sink : option R) : res engine :=
  let* e := MeterEngine_new cfg teids in Ok (set_record_sink sink e).

Record fresh_ok (cfg : MeterConfig) (teids : M) (sink : option R) : Prop := {
  fo_cfg : config_ok cfg;
  fo_teids : kt_repr teids ∅;
  fo_cap : 2 * max_subscribers cfg < kt_cap teids;
  fo_sink : match sink with Some q => q_repr q [] | None => True end
}.

Lemma fresh_good cfg teids sink : fresh_ok cfg teids sink ->
  ensures (fresh_engine cfg teids sink) (fun e => good e /\ (forall mt i, pend mt e i = 0) /\
    record_sink_ e = sink /\ stats_ e = PipelineStats_init /\ built_ e = []).
Proof.
  intros []. unfold fresh_engine. eapply ensures_bind; [apply (engine_new_inv cfg teids sink); auto|].
  { destruct sink; [by eexists|done]. }
  intros e (Hinv & Hid & Hb & Hp & Hs & Hst & _ & _ & Hbt). apply ensures_Ok. split; [split_and!; [by eexists|done|done]|auto].
Qed.

(** ** Whole-run theorems *)

(** C1: conservation of usage.  Every run of well-typed operations from a newly
    built engine returns.  Afterwards, for every subscriber and each of the four
    metrics (bytes and packets, uplink and downlink), what the packets charged
    minus what the records [emit_record] built bill is exactly what is still
    pending, modulo 2^64; [built_ e'] is the history of those records, so none
    is chosen by the statement.  The sink took a sublist of them in order: the
    reporter received a prefix of it and the rest is queued, and the two record
    counters count the records kept and dropped. *)
Theorem billing_conservation cfg teids sink ops : fresh_ok cfg teids sink -> Forall op_ok ops ->
  ensures (fresh_engine cfg teids sink) (fun e =>
  ensures (run e ops) (fun '(out, e') =>
    (forall mt i, pend mt e' i = u64 (charges e ops mt i - billed mt i (built_ e'))) /\
    exists kept, kept `sublist_of` built_ e' /\
      match sink, record_sink_ e' with
      | Some _, Some q => exists queued, q_repr q queued /\ kept = out ++ queued
      | None, None => out = []
      | _, _ => False
      end /\
      u64 (st_records_emitted (stats_ e')) = u64 (size kept) /\
      u64 (st_records_dropped (stats_ e')) = u64 (size (built_ e') - size kept))).
Proof.
  intros Hf Hops. eapply ensures_mono; [by apply fresh_good|]. intros e (Hg & Hp & Hs & Hst & Hbt).
  eapply ensures_mono; [by apply run_spec|]. intros [out e'] (_ & recs & kept & [Hbt' Hsub Hsink Hem Hdr Hpend]).
  rewrite Hbt in Hbt'. cbn in Hbt'. rewrite Hbt'. rewrite Hs in Hsink. rewrite Hst in Hem, Hdr.
  split; [intros mt i; by rewrite Hpend, Hp|]. exists kept. split_and!; auto.
  - unfold sink_moved in Hsink. destruct sink as [q|], (record_sink_ e') as [q'|]; try done.
    destruct (Hsink [] (fo_sink _ _ _ Hf)) as (l' & Hl' & E). by exists l'.
Qed.

(** What a run from a state without pending usage leaves when no byte is pending:
    the bytes of the built records are the bytes charged, and the sink lost
    nothing the drop counter does not count. *)
Lemma settled_books (e e' : engine) q0 ch recs kept out : books e e' ch recs kept out ->
  (forall mt i, pend mt e i = 0) -> record_sink_ e = Some q0 -> q_repr q0 [] ->
  stats_ e = PipelineStats_init -> built_ e = [] -> (forall i, pend UlBytes e' i = 0 /\ pend DlBytes e' i = 0) ->
  exists q queued, record_sink_ e' = Some q /\ q_repr q queued /\ out ++ queued `sublist_of` built_ e' /\
    (forall i, u64 (billed UlBytes i (built_ e')) = u64 (ch UlBytes i) /\
               u64 (billed DlBytes i (built_ e')) = u64 (ch DlBytes i)) /\
    u64 (st_records_dropped (stats_ e')) = u64 (size (built_ e') - size (out ++ queued)).
Proof.
  intros [Hbt Hsub Hsink _ Hdr Hpend] Hp Hs Hq0 Hst Hb0 Hz. rewrite Hb0 in Hbt. cbn in Hbt. subst recs.
  rewrite Hs in Hsink. unfold sink_moved in Hsink. destruct (record_sink_ e') as [q|]; [|done].
  destruct (Hsink [] Hq0) as (queued & Hl & E). cbn in E. exists q, queued. rewrite <- E.
  split_and!; [done|done|done| |by rewrite Hdr, Hst].
  intros i. destruct (Hz i) as [Hu Hd]. rewrite Hpend, Hp in Hu, Hd. split; symmetry; by apply u64_sub_0.
Qed.

(** No record dropped: the sink's records are all that were built. *)
Lemma nothing_dropped (built kept : list UsageRecord) dropped : kept `sublist_of` built ->
  u64 dropped = u64 (size built - size kept) -> size built < 2 ^ 64 -> dropped = 0 -> kept = built.
Proof.
  intros Hsub Hd Hlt ->. apply sublist_eq_size; [done|]. pose proof (sublist_length _ _ Hsub).
  change (u64 0) with 0 in Hd. rewrite u64_small in Hd by (unfold size in *; lia). done.
Qed.

(** The state after a run that ends with a drain. *)
Lemma run_drain e ops now : good e -> Forall op_ok ops ->
  ensures (run e (ops ++ [OpDrain now])) (fun '(out, e') => good e' /\
    (forall i, pend UlBytes e' i = 0 /\ pend DlBytes e' i = 0) /\
    exists recs kept, books e e' (charges e (ops ++ [OpDrain now])) recs kept out).
Proof.
  intros Hg Hops. destruct (run_spec (ops ++ [OpDrain now]) e Hg) as ([out e'] & Hrun & Hg' & Hb).
  { apply Forall_app. split; [done|]. by constructor. }
  exists (out, e'). split_and!; [done|done| |done]. intros i.
  rewrite run_app in Hrun. destruct (run_spec ops e Hg Hops) as ([o1 e1] & E1 & Hg1 & _). rewrite E1 in Hrun.
  cbn [res_bind] in Hrun. destruct (drain_all e1 now Hg1) as ([o2 e2] & E2 & Hz).
  unfold run in Hrun. rewrite E2 in Hrun. cbn [res_bind] in Hrun. injection Hrun as _ <-. done.
Qed.

(** The books after such a run. *)
Definition settled_run (e : engine) (ops : list op) : list UsageRecord * engine -> Prop := fun '(out, e') =>
  exists q queued, record_sink_ e' = Some q /\ q_repr q queued /\ out ++ queued `sublist_of` built_ e' /\
    (forall i, pend UlBytes e' i = 0 /\ pend DlBytes e' i = 0) /\
    (forall i, u64 (billed UlBytes i (built_ e')) = u64 (charges e ops UlBytes i) /\
               u64 (billed DlBytes i (built_ e')) = u64 (charges e ops DlBytes i)) /\
    u64 (st_records_dropped (stats_ e')) = u64 (size (built_ e') - size (out ++ queued)) /\
    (size (built_ e') < 2 ^ 64 -> st_records_dropped (stats_ e') = 0 -> out ++ queued = built_ e').

Lemma drain_run e q0 ops now : good e -> (forall mt i, pend mt e i = 0) -> record_sink_ e = Some q0 -> q_repr q0 [] ->
  stats_ e = PipelineStats_init -> built_ e = [] -> Forall op_ok ops ->
  ensures (run e (ops ++ [OpDrain now])) (settled_run e (ops ++ [OpDrain now])).
Proof.
  intros Hg Hp Hs Hq0 Hst Hb0 Hops. eapply ensures_mono; [by apply run_drain|].
  intros [out e'] (_ & Hz & recs & kept & Hbk).
  destruct (settled_books e e' q0 _ recs kept out Hbk) as (q & queued & Hq & Hl & Hsub & Hbill & Hdr); auto.
  exists q, queued. split_and!; auto. intros Hlt H0. by eapply nothing_dropped.
Qed.

(** A run that ends with a drain has billed every byte it charged: for every
    subscriber the uplink and downlink bytes of the records [emit_record] built
    add up to the packets' bytes, modulo 2^64; the reporter's records followed
    by those still queued are a sublist of them, and all of them if no record
    was dropped. *)
Theorem drain_settles cfg teids q0 ops now : fresh_ok cfg teids (Some q0) -> Forall op_ok ops ->
  ensures (fresh_engine cfg teids (Some q0)) (fun e =>
  ensures (run e (ops ++ [OpDrain now])) (settled_run e (ops ++ [OpDrain now]))).
Proof.
  intros Hf Hops. eapply ensures_mono; [by apply fresh_good|]. intros e (Hg & Hp & Hs & Hst & Hbt).
  apply (drain_run e q0); auto. apply (fo_sink _ _ _ Hf).
Qed.

(** The binding the TEID table gives for [k]. *)
Definition owner (e : engine) (k : Z) : option TeidBinding :=
  match kt_find (teid_map_ e) k with Ok (o, _) => o | _ => None end.

Lemma owner_lookup (e : engine) m k : engine_inv e m -> 0 <= k < 2 ^ 32 -> owner e k = m !! k.
Proof.
  intros Hinv Hk. unfold owner.
  by destruct (kt_find_spec _ m k (ei_table _ _ Hinv) Hk) as ([o t] & -> & -> & _).
Qed.

(** C5: safety and routing.  Every run of well-typed operations from a newly
    built engine returns (no access outside a vector, no null dereference, no
    endless probe).  Afterwards every TEID the table knows leads to an active
    subscriber inside the subscriber table that holds this TEID as its uplink
    or downlink TEID, every subscriber's bucket split adds up to its byte
    total modulo 2^64, and the packet statistics account for every packet:
    events = control PDUs + unknown TEIDs + uplink + downlink packets. *)
Theorem engine_run_safe cfg teids sink ops : fresh_ok cfg teids sink -> Forall op_ok ops ->
  ensures (fresh_engine cfg teids sink) (fun e =>
  ensures (run e ops) (fun '(_, e') =>
    (forall k b, 0 <= k < 2 ^ 32 -> owner e' k = Some b -> 0 <= sub_idx b < subscriber_count e' /\
       exists x, info_ e' !! Z.to_nat (sub_idx b) = Some x /\ i_active x = true /\
         (i_ul_teid x = k \/ i_dl_teid x = k)) /\
    (forall i c, counters_ e' !! i = Some c -> u64 (sum_list (c_bucket_bytes c)) = total_bytes c) /\
    balanced (stats_ e'))).
Proof.
  intros Hf Hops. eapply ensures_mono; [by apply fresh_good|]. intros e (Hg & _).
  eapply ensures_mono; [by apply run_spec|]. intros [out e'] (((m & Hinv) & _ & Hbal) & _).
  split_and!; [| |done].
  - intros k b Hk. rewrite (owner_lookup e' m k Hinv Hk). intros Hb.
    destruct (ei_bind _ _ Hinv k b Hb) as (Hi & _ & x & Hx & Ha & Ho & _). split; [done|]. by exists x.
  - intros i c Hc. by apply (Forall_lookup_1 _ _ _ _ (ei_counters _ _ Hinv) Hc).
Qed.

(** ** Single operations, from any state a run reaches *)

(** A user packet on a bound TEID. *)
Lemma apply_bound (e : engine) ev b : good e -> event_ok ev -> ev_ts_ns ev < UINT64_MAX ->
  flag_set (ev_flags ev) kFlagControlPdu = false -> owner e (ev_teid ev) = Some b ->
  ensures (apply e ev) (fun e' => good e' /\
    (exists c c' x x' slot,
       counters_ e !! Z.to_nat (sub_idx b) = Some c /\ counters_ e' !! Z.to_nat (sub_idx b) = Some c' /\
       info_ e !! Z.to_nat (sub_idx b) = Some x /\ info_ e' !! Z.to_nat (sub_idx b) = Some x' /\
       credited (is_downlink ev b) ev slot c c' /\ slot_for ev b x x' slot) /\
    (forall i, i <> Z.to_nat (sub_idx b) -> counters_ e' !! i = counters_ e !! i /\ info_ e' !! i = info_ e !! i) /\
    (forall k, 0 <= k < 2 ^ 32 -> owner e' k = owner e k) /\
    stats_credited (is_downlink ev b) ev (stats_ (counted ev e)) (stats_ e')).
Proof.
  intros ((m & Hinv) & Hidle & Hbal) Hev Hts Hfl Hown. pose proof Hev as (Ht & _).
  rewrite (owner_lookup e m _ Hinv Ht) in Hown.
  eapply ensures_mono; [by apply (apply_spec e m ev)|]. intros e' (m' & Hinv' & Hp).
  destruct (apply_books e e' m m' ev Hinv Hev Hidle Hp) as (_ & Hid & Hb).
  split; [split_and!; [by exists m'|done|auto]|].
  destruct Hp as [|b' t _ Hm -> [(c & c' & x & x' & slot & Hc & Hx & Hc' & Hx' & Hcr & Hsl) Hst _]| |]; [congruence| |congruence..].
  assert (b' = b) as -> by congruence. cbn in Hc', Hx'. split_and!.
  - exists c, c', x, x', slot. rewrite Hc', Hx', !list_lookup_insert_eq by (by eapply lookup_lt_Some). split_and!; done.
  - intros i Hi. by rewrite Hc', Hx', !list_lookup_insert_ne.
  - intros k Hk. by rewrite (owner_lookup e' m), (owner_lookup e m).
  - exact Hst.
Qed.

(** C6: a user packet on a bound TEID charges its owner and nobody else.  One
    direction's byte and packet counters and one bucket slot of the owner grow
    by the packet, its last-seen time is the packet's; the slot is the
    tunnel's, or for a packet with a QFI a slot labelled with that QFI (or the
    flagged aggregate slot).  No other subscriber's counters or info and no
    binding change. *)
Theorem apply_charges_owner (e : engine) ev b : good e -> event_ok ev -> ev_ts_ns ev < UINT64_MAX ->
  flag_set (ev_flags ev) kFlagControlPdu = false -> owner e (ev_teid ev) = Some b ->
  ensures (apply e ev) (fun e' => good e' /\
    (exists c c' x x' slot,
       counters_ e !! Z.to_nat (sub_idx b) = Some c /\ counters_ e' !! Z.to_nat (sub_idx b) = Some c' /\
       info_ e !! Z.to_nat (sub_idx b) = Some x /\ info_ e' !! Z.to_nat (sub_idx b) = Some x' /\
       credited (is_downlink ev b) ev slot c c' /\ slot_for ev b x x' slot) /\
    (forall i, i <> Z.to_nat (sub_idx b) -> counters_ e' !! i = counters_ e !! i /\ info_ e' !! i = info_ e !! i) /\
    (forall k, 0 <= k < 2 ^ 32 -> owner e' k = owner e k) /\
    stats_credited (is_downlink ev b) ev (stats_ (counted ev e)) (stats_ e')).
Proof. apply apply_bound. Qed.

(** A control PDU, or a packet on an unknown TEID while learning is off,
    changes no subscriber, no binding, no flow and no queued record; it is
    counted as such. *)
Lemma apply_uncharged (e : engine) ev : good e -> event_ok ev -> ev_ts_ns ev < UINT64_MAX ->
  flag_set (ev_flags ev) kFlagControlPdu = true \/
  (owner e (ev_teid ev) = None /\ learn_unknown_teids (cfg_ e) = false) ->
  ensures (apply e ev) (fun e' => good e' /\
    counters_ e' = counters_ e /\ info_ e' = info_ e /\ flows_ e' = flows_ e /\
    record_sink_ e' = record_sink_ e /\ next_sub_ e' = next_sub_ e /\
    (forall k, 0 <= k < 2 ^ 32 -> owner e' k = owner e k) /\
    if flag_set (ev_flags ev) kFlagControlPdu
    then st_control_pdus (stats_ e') = incr64 (st_control_pdus (stats_ e))
    else st_unknown_teid_events (stats_ e') = incr64 (st_unknown_teid_events (stats_ e)) /\
         st_unknown_teid_bytes (stats_ e') = add64 (st_unknown_teid_bytes (stats_ e)) (ev_bytes ev)).
Proof.
  intros ((m & Hinv) & Hidle & Hbal) Hev Hts Hcase. pose proof Hev as (Ht & _).
  rewrite (owner_lookup e m _ Hinv Ht) in Hcase.
  eapply ensures_mono; [by apply (apply_spec e m ev)|]. intros e' (m' & Hinv' & Hp).
  destruct (apply_books e e' m m' ev Hinv Hev Hidle Hp) as (_ & Hid & Hb).
  split; [split_and!; [by exists m'|done|auto]|].
  assert (m' = m -> forall k, 0 <= k < 2 ^ 32 -> owner e' k = owner e k) as Hk.
  { intros -> k Hk. by rewrite (owner_lookup e' m), (owner_lookup e m). }
  destruct Hp as [Hf -> ->|b' t Hf Hm -> _|t Hf Hm -> _ ->|b e1 Hf Hm Hl _ _ _ _ _ _ _ _ _ _].
  - rewrite Hf. split_and!; auto.
  - destruct Hcase as [|[]]; congruence.
  - rewrite Hf. split_and!; auto.
  - destruct Hcase as [|[]]; congruence.
Qed.

Lemma bind_if_lookup k b m k' : k' <> k -> bind_if k b m !! k' = m !! k'.
Proof. intros. unfold bind_if. case_if; [by rewrite lookup_insert_ne|done]. Qed.
Lemma bind_if_eq k b m : k <> 0 -> bind_if k b m !! k = Some b.
Proof. intros. unfold bind_if. destruct (Z.eqb_spec k 0); [done|]. apply lookup_insert_eq. Qed.
Lemma retire_lookup old new m k : k <> old -> retire old new m !! k = m !! k.
Proof. intros. unfold retire. case_if; [by rewrite lookup_delete_ne|done]. Qed.

(** C23: installing a session routes its tunnels.  A valid session of a known
    IMSI, or of a new one while there is room, is installed in the IMSI's slot:
    its downlink TEID leads there as downlink, its uplink TEID as uplink, no
    other TEID leads there any more (a re-installed session gives up the TEIDs
    it had), and a TEID that is neither new nor an old TEID of this subscriber
    keeps its binding.  Nothing pending is lost or invented. *)
Theorem install_routes (e : engine) spec now : good e -> session_ok spec -> session_valid spec = true ->
  is_Some (imsi_index_ e !! s_imsi spec) \/ next_sub_ e < size (counters_ e) ->
  ensures (install_session e spec now) (fun '(r, e') => good e' /\
    find_by_imsi e' (s_imsi spec) = r /\ 0 <= r < subscriber_count e' /\
    (s_dl_teid spec <> 0 -> exists slot, owner e' (s_dl_teid spec) = Some (mkBinding r Direction.kDownlink slot)) /\
    (s_ul_teid spec <> 0 -> s_ul_teid spec <> s_dl_teid spec ->
       exists slot, owner e' (s_ul_teid spec) = Some (mkBinding r Direction.kUplink slot)) /\
    (forall k b, 0 <= k < 2 ^ 32 -> owner e' k = Some b -> sub_idx b = r ->
       k = s_ul_teid spec \/ k = s_dl_teid spec) /\
    (forall k x, 0 <= k < 2 ^ 32 -> k <> s_ul_teid spec -> k <> s_dl_teid spec ->
       info_ e !! Z.to_nat r = Some x -> (i_active x = true -> k <> i_ul_teid x /\ k <> i_dl_teid x) -> k <> 0 ->
       owner e' k = owner e k) /\
    (forall mt i, pend mt e' i = pend mt e i)).
Proof.
  intros Hg Hok Hv Hroom. pose proof Hg as ((m & Hinv) & _). pose proof Hok as (_ & Hul & Hdl & _).
  eapply ensures_mono; [by apply (install_session_spec e m spec now)|]. intros [r e'] Hp.
  destruct (post_install e e' m spec r Hg Hinv Hp) as (? & [= <-] & Hg' & _).
  destruct Hp as [_ _ Hbad|e0 m' _ _ _ Hsame Him Hinv' Hins].
  { exfalso. destruct Hbad as [|[Hn Hfull]]; [congruence|]. rewrite Hn in Hroom. destruct Hroom as [[? ?]|]; [done|lia]. }
  split; [done|]. unfold find_by_imsi. rewrite Him. split; [done|].
  split. { by apply (ei_imsi _ _ Hinv' _ _ Him). }
  pose proof Hins as [(x & slot & Hx & Hslot & Hm' & x' & Hx' & _ & _ & Hu' & Hd' & _) _].
  injection Hsame as Hcf Hcn Hin Ht1 Ht2 Ht3 Ht4 Ht5 Hr1 Hr2 Hr3 Hr4. split_and!.
  - intros H0. exists slot. rewrite (owner_lookup e' m') by done. rewrite Hm'. by apply bind_if_eq.
  - intros H0 Hne. exists slot. rewrite (owner_lookup e' m') by done. rewrite Hm', bind_if_lookup by done.
    by apply bind_if_eq.
  - intros k b Hk Hb Hs. rewrite (owner_lookup e' m') in Hb by done.
    destruct (ei_bind _ _ Hinv' k b Hb) as (_ & _ & y & Hy & _ & Ho & _). rewrite Hs, Hx' in Hy.
    rewrite list_lookup_insert_eq in Hy by (by eapply lookup_lt_Some). injection Hy as <-. lia.
  - intros k y Hk Hnu Hnd Hy Hold Hk0. rewrite (owner_lookup e' m'), (owner_lookup e m) by done.
    rewrite Hin in Hx. assert (y = x) as -> by congruence.
    rewrite Hm', !bind_if_lookup, !retire_lookup; try done; unfold install_base;
      destruct (i_active x); cbn; try done; by apply Hold.
  - intros mt i. destruct Hg as (_ & Hidle & _). destruct (installed_books e0 e' m m' spec r Hins) as [Hled _].
    + intros mt' j. unfold active, pend. rewrite Hin, Hcn. apply Hidle.
    + rewrite Hcn, Hin. pose proof (ei_sizes _ _ Hinv) as [? _]. unfold size in *. lia.
    + rewrite (lg_pend _ _ _ _ _ Hled). change (billed mt i []) with 0. unfold no_charge.
      rewrite Z.add_0_r, Z.sub_0_r, u64_pend. unfold pend. by rewrite Hcn, Hin.
Qed.

(** C24: releasing a session settles it.  A release succeeds exactly for an
    active session; then one final record with everything pending goes to the
    sink (or is counted as dropped when the sink is full), nothing is pending
    any more, the subscriber is inactive and no TEID leads to it.  A refused
    release changes nothing. *)
Theorem release_settles (e : engine) imsi now : good e ->
  ensures (release_session wall_ns e imsi now) (fun '(ok, e') => good e' /\
    if negb ok then e' = e /\ (forall idx, imsi_index_ e !! imsi = Some idx -> active e (Z.to_nat idx) = false)
    else exists idx c x, imsi_index_ e !! imsi = Some idx /\ active e (Z.to_nat idx) = true /\
      counters_ e !! Z.to_nat idx = Some c /\ info_ e !! Z.to_nat idx = Some x /\
      active e' (Z.to_nat idx) = false /\ (forall mt, pend mt e' (Z.to_nat idx) = 0) /\
      (forall k b, 0 <= k < 2 ^ 32 -> owner e' k = Some b -> sub_idx b <> idx) /\
      let r := usage_record (wall_ns (clock_reads_ e)) now idx RecordReason.kRelease c x in
      exists kept, books e e' no_charge [r] kept [] /\
        forall q l, record_sink_ e = Some q -> q_repr q l -> kept = if size l <? q_cap q then [r] else []).
Proof.
  intros Hg. pose proof Hg as ((m & Hinv) & _).
  eapply ensures_mono; [by apply (release_session_spec wall_ns e m imsi now)|]. intros [[] e']; cbn [negb].
  2: { intros [-> Hn]. done. }
  intros (idx & m' & Him & Hinv' & Hrel). destruct (post_release e e' m m' idx now Hg Hinv' Hrel) as (? & [= <-] & Hg' & _).
  split; [done|]. pose proof Hrel as [(e1 & c & x & kept & Her & Ha & Hled & _ & x' & _ & Hx') Hunb _ _].
  pose proof Her as [Hc Hx _ _ Hkept _].
  assert (active e' (Z.to_nat idx) = false) as Hina.
  { unfold active. by rewrite Hx', list_lookup_insert_eq by (by eapply lookup_lt_Some). }
  exists idx, c, x. split_and!; auto.
  - unfold active. by rewrite Hx.
  - intros mt. by apply Hg'.
  - intros k b Hk. rewrite (owner_lookup e' m') by done. apply Hunb.
  - cbn zeta. exists kept. split; [by apply ledger_books|done].
Qed.

Lemma sum_zip_sub64 : forall a b : list Z, length a = length b ->
  u64 (sum_list (zip_with sub64 a b)) = u64 (sum_list a - sum_list b).
Proof.
  induction a as [|x a IH]; intros [|y b] Hl; try done. injection Hl as Hl. specialize (IH b Hl).
  change (u64 (sub64 x y + sum_list (zip_with sub64 a b)) = u64 (x + sum_list a - (y + sum_list b))).
  rewrite (u64_add_cong (sub64 x y) (x - y) _ (sum_list a - sum_list b)); [f_equal; lia| |done].
  unfold sub64. apply u64_idem.
Qed.

(** A usage record is the exact delta since the previous one.  It carries the
    subscriber's counters minus what was reported before (modulo 2^64), its
    bucket bytes add up to its total bytes, and afterwards nothing of the
    subscriber is pending and its sequence number is the next one.  The record
    is appended to the sink if there is room and dropped, and counted, if not;
    other subscribers keep what they have pending. *)
Theorem emit_record_exact (e : engine) idx reason now : good e -> 0 <= idx < subscriber_count e ->
  ensures (emit_record wall_ns e idx reason now) (fun e' => good e' /\
    exists c x x' r, counters_ e !! Z.to_nat idx = Some c /\ info_ e !! Z.to_nat idx = Some x /\
      r = usage_record (wall_ns (clock_reads_ e)) now idx reason c x /\
      u64 (sum_list (r_bucket_bytes r)) = r_total_bytes r /\
      info_ e' !! Z.to_nat idx = Some x' /\ reported now c x x' /\
      (forall mt, pend mt e' (Z.to_nat idx) = 0) /\
      (forall mt i, i <> Z.to_nat idx -> pend mt e' i = pend mt e i) /\
      match record_sink_ e with
      | Some q => forall l, q_repr q l -> exists q', record_sink_ e' = Some q' /\
          q_repr q' (if size l <? q_cap q then l ++ [r] else l) /\
          u64 (st_records_dropped (stats_ e')) =
          u64 (st_records_dropped (stats_ e) + if size l <? q_cap q then 0 else 1)
      | None => record_sink_ e' = None
      end).
Proof.
  intros Hg Hi. pose proof Hg as ((m & Hinv) & _). unfold subscriber_count in Hi.
  pose proof (ei_next _ _ Hinv). pose proof (ei_sizes _ _ Hinv) as [Hsz H32].
  eapply ensures_mono; [by apply (emit_record_spec wall_ns e m idx reason now)|].
  intros e' (Hinv' & c & x & kept & Her). pose proof Her as [Hc Hx (x' & Hx' & Hrep) Hem Hkept _].
  destruct (post_emits e e' m _ kept Hg Hinv' Hem) as (? & [= <-] & Hg' & _). split; [done|].
  exists c, x, x', (usage_record (wall_ns (clock_reads_ e)) now idx reason c x).
  pose proof (em_ledger _ _ _ _ Hem) as [_ _ Hsink _ Hdr _].
  destruct (Forall_lookup_1 _ _ _ _ (ei_counters _ _ Hinv) Hc) as [Hc3 Hcs].
  destruct (Forall_lookup_1 _ _ _ _ (ei_info _ _ Hinv) Hx) as (_ & Hx3 & _ & _ & Hxs).
  split_and!; auto.
  - cbn. rewrite sum_zip_sub64 by (unfold size in *; lia). rewrite <- u64_sub_u64, Hcs, Hxs.
    unfold total_bytes, r_total_bytes; cbn; unfold add64, sub64. rewrite u64_sub_u64, u64_add_u64_l, u64_add_u64_r.
    f_equal. lia.
  - rewrite Hx'. apply list_lookup_insert_eq. by eapply lookup_lt_Some.
  - intros mt. by eapply emitted_pend_self.
  - intros mt i Hne. eapply emitted_pend_other; [done|lia|done].
  - unfold sink_pushed in Hsink. destruct (record_sink_ e) as [q|]; [|by destruct (record_sink_ e')].
    destruct (record_sink_ e') as [q'|]; [|done]. destruct Hsink as [_ Hpush]. intros l Hl. exists q'.
    rewrite (Hkept q l eq_refl Hl) in Hpush, Hdr. split; [done|]. specialize (Hpush l Hl).
    destruct (size l <? q_cap q); rewrite ?app_nil_r in Hpush; (split; [done|]); rewrite Hdr; f_equal.
Qed.

(** A poll whose period has elapsed sweeps the next [poll_chunk] subscribers
    behind the cursor, cyclically; afterwards none of them is active with
    pending bytes at or above the volume threshold or older than the report
    interval.  A poll within the period only returns. *)
Theorem poll_sweeps_due (e : engine) now : good e ->
  ensures (poll wall_ns e now) (fun e' => good e' /\
    if sub64 now (last_sweep_ns_ e) <? sweep_period_ns (cfg_ e) then e' = e
    else forall i, 0 <= i < poll_chunk (cfg_ e) (subscriber_count e) ->
      overdue e' now (Z.to_nat ((sweep_cursor_ e + i) mod subscriber_count e)) = false).
Proof.
  intros Hg. pose proof Hg as ((m & Hinv) & _). destruct (poll_spec wall_ns e m now Hinv) as (e' & Hpoll & Hinv' & (r & k & Hem) & Hdue).
  exists e'. split; [done|]. destruct (post_emits e e' m r k Hg Hinv' Hem) as (? & [= <-] & Hg' & _). split; [done|].
  case_if; [|by apply Hdue]. unfold poll in Hpoll. rewrite (proj2 (Z.ltb_lt _ _) Hif) in Hpoll. by injection Hpoll.
Qed.

End Runs.

(** ** A concrete engine: the flat hash table and the SPSC ring *)

Abbreviation meter := (MeterEngine (FlatHashU32 TeidBinding) (SpscRing UsageRecord)).

Definition sample_cfg : MeterConfig := mkConfig 4 16 16 4 10000 1000 100 16 true false.
Definition sample_teids : FlatHashU32 TeidBinding :=
  match FlatHashU32_new TeidBinding_init 16 with
  | Ok h => h | _ => mkFlatHash 0 0 [] [] 0 0 0 TeidBinding_init false end.
Definition sample_sink : SpscRing UsageRecord :=
  match SpscRing_new UsageRecord_init 4 with Ok r => r | _ => mkSpscRing 0 0 [] 0 0 0 0 end.
Definition sample_engine : meter :=
  match fresh_engine sample_cfg sample_teids (Some sample_sink) with
  | Ok e => e
  | _ => mkEngine sample_cfg [] [] sample_teids [] 0 ∅ None PipelineStats_init 0 0 0 []
  end.
Definition sample_wall (n : nat) : Z := 1000 + Z.of_nat n.

Lemma sample_fresh : fresh_ok sample_cfg sample_teids (Some sample_sink).
Proof.
  constructor.
  - unfold config_ok; cbn. split_and!; lia.
  - destruct (new_repr TeidBinding_init 16) as (h & E & Hr & _); [lia|]. unfold sample_teids. by rewrite E.
  - vm_compute. reflexivity.
  - destruct (new_inv UsageRecord_init 4) as (r & E & k & Hk & _); [lia|]. unfold sample_sink. rewrite E.
    exists 0, 0, 0, 0, k. split_and!; [done|done|]. intros i v Hi. by destruct i.
Qed.
Lemma sample_good : good sample_engine.
Proof. destruct (fresh_good _ _ _ sample_fresh) as (e & E & Hg & _). unfold sample_engine. by rewrite E. Qed.

(** Two subscribers, one packet each, as a run. *)
Definition sample_session (imsi ul dl : Z) : SessionSpec := mkSessionSpec imsi ul dl 7 [] [].
Definition sample_packet (teid bytes flags : Z) : MeterEvent :=
  MeterEvent_init <| ev_teid := teid |> <| ev_bytes := bytes |> <| ev_flags := flags |> <| ev_ts_ns := 50 |>.
Definition sample_ops : list op :=
  [OpInstall (sample_session 11 100 101) 0; OpInstall (sample_session 22 200 201) 0;
   OpApply (sample_packet 100 700 0); OpApply (sample_packet 201 1500 0)].

Lemma sample_ops_ok : Forall op_ok sample_ops.
Proof.
  unfold sample_ops. rewrite !Forall_cons_iff, Forall_nil_iff. unfold op_ok, event_ok, session_ok, UINT64_MAX; cbn.
  split_and!; lia || done.
Qed.

Definition sample_running : meter :=
  match run sample_wall sample_engine sample_ops with Ok (_, e) => e | _ => sample_engine end.
Lemma sample_running_good : good sample_running.
Proof.
  destruct (run_spec sample_wall sample_ops sample_engine sample_good sample_ops_ok) as ([out e] & E & Hg & _).
  unfold sample_running. by rewrite E.
Qed.

Lemma billing_conservation_witness :
  ensures (fresh_engine sample_cfg sample_teids (Some sample_sink)) (fun e =>
  ensures (run sample_wall e (sample_ops ++ [OpRelease 22 80])) (fun '(out, e') => length (built_ e') = 1%nat /\
    (forall mt i, pend mt e' i = u64 (charges sample_wall e (sample_ops ++ [OpRelease 22 80]) mt i - billed mt i (built_ e'))))).
Proof.
  assert (Forall op_ok (sample_ops ++ [OpRelease 22 80])) as Hops.
  { apply Forall_app. split; [apply sample_ops_ok|]. by constructor. }
  destruct (billing_conservation sample_wall sample_cfg sample_teids (Some sample_sink) _ sample_fresh Hops)
    as (e & E & [out e'] & Hrun & Hp & _).
  exists e. split; [exact E|]. exists (out, e'). split; [exact Hrun|]. split; [|exact Hp].
  assert (e = sample_engine) as -> by (unfold sample_engine; by rewrite E).
  assert (match run sample_wall sample_engine (sample_ops ++ [OpRelease 22 80]) with
          | Ok (_, e') => length (built_ e') = 1%nat | _ => False end) as Hone by (vm_compute; reflexivity).
  by rewrite Hrun in Hone.
Defined.

Lemma drain_settles_witness :
  ensures (fresh_engine sample_cfg sample_teids (Some sample_sink)) (fun e =>
  ensures (run sample_wall e (sample_ops ++ [OpDrain 90])) (settled_run sample_wall e (sample_ops ++ [OpDrain 90]))).
Proof.
  apply (drain_settles sample_wall sample_cfg sample_teids sample_sink sample_ops 90).
  - apply sample_fresh.
  - apply sample_ops_ok.
Defined.

Lemma engine_run_safe_witness :
  ensures (fresh_engine sample_cfg sample_teids (Some sample_sink)) (fun e =>
  ensures (run sample_wall e sample_ops) (fun '(_, e') =>
    (forall k b, 0 <= k < 2 ^ 32 -> owner e' k = Some b -> 0 <= sub_idx b < subscriber_count e' /\
       exists x, info_ e' !! Z.to_nat (sub_idx b) = Some x /\ i_active x = true /\
         (i_ul_teid x = k \/ i_dl_teid x = k)) /\
    (forall i c, counters_ e' !! i = Some c -> u64 (sum_list (c_bucket_bytes c)) = total_bytes c) /\
    balanced (stats_ e'))).
Proof.
  apply (engine_run_safe sample_wall sample_cfg sample_teids (Some sample_sink) sample_ops).
  - apply sample_fresh.
  - apply sample_ops_ok.
Defined.

Lemma apply_charges_owner_witness :
  owner sample_running 201 = Some (mkBinding 1 Direction.kDownlink 0) /\
  ensures (apply sample_running (sample_packet 201 64 0)) (fun e' => good e').
Proof.
  split; [vm_compute; reflexivity|].
  eapply ensures_mono.
  - apply (apply_charges_owner sample_running (sample_packet 201 64 0) (mkBinding 1 Direction.kDownlink 0)).
    + apply sample_running_good.
    + unfold event_ok; cbn; unfold Direction.kUnknown. lia.
    + vm_compute. reflexivity.
    + vm_compute. reflexivity.
    + vm_compute. reflexivity.
  - intros e' [Hg _]. exact Hg.
Defined.

Lemma apply_uncharged_witness :
  owner sample_running 999 = None /\
  ensures (apply sample_running (sample_packet 999 64 0)) (fun e' => counters_ e' = counters_ sample_running).
Proof.
  split; [vm_compute; reflexivity|].
  eapply ensures_mono.
  - apply (apply_uncharged sample_running (sample_packet 999 64 0)).
    + apply sample_running_good.
    + unfold event_ok; cbn; unfold Direction.kUnknown. lia.
    + vm_compute. reflexivity.
    + right. split; vm_compute; reflexivity.
  - intros e' (_ & Hc & _). exact Hc.
Defined.

Lemma install_routes_witness :
  ensures (install_session sample_running (sample_session 11 300 101) 60) (fun '(r, e') => good e' /\ find_by_imsi e' 11 = r).
Proof.
  eapply ensures_mono.
  - apply (install_routes sample_running (sample_session 11 300 101) 60).
    + apply sample_running_good.
    + unfold session_ok; cbn. lia.
    + vm_compute. reflexivity.
    + right. vm_compute. reflexivity.
  - intros [r e'] (Hg & Hf & _). split; [exact Hg|exact Hf].
Defined.

Lemma release_settles_witness :
  ensures (release_session sample_wall sample_running 22 80) (fun '(_, e') => good e').
Proof.
  eapply ensures_mono.
  - apply (release_settles sample_wall sample_running 22 80). apply sample_running_good.
  - intros [ok e'] [Hg _]. exact Hg.
Defined.

Lemma emit_record_exact_witness :
  ensures (emit_record sample_wall sample_running 1 RecordReason.kVolume 80) (fun e' => good e').
Proof.
  eapply ensures_mono.
  - apply (emit_record_exact sample_wall sample_running 1 RecordReason.kVolume 80).
    + apply sample_running_good.
    + vm_compute. split; [intros H; discriminate H|reflexivity].
  - intros e' [Hg _]. exact Hg.
Defined.

Lemma poll_sweeps_due_witness :
  overdue sample_running 500 1 = true /\ ensures (poll sample_wall sample_running 500) (fun e' => good e').
Proof.
  split; [vm_compute; reflexivity|]. eapply ensures_mono.
  - apply (poll_sweeps_due sample_wall sample_running 500). apply sample_running_good.
  - intros e' [Hg _]. exact Hg.
Defined.

(** ** TEIDs shared by two sessions *)

(** Subscribers 11 and 22 are installed with the same uplink TEID 100; the later
    installation owns it.  Then 11 is released. *)
Definition shared_teid_ops : list op :=
  [OpInstall (sample_session 11 100 101) 0; OpInstall (sample_session 22 100 201) 0; OpRelease 11 5].

(** Releasing a session unbinds its TEIDs without looking at who owns them.
    After subscriber 22 took over uplink TEID 100 from subscriber 11, releasing
    11 removes 22's binding: 22 is still active with uplink TEID 100, but its
    uplink packets are charged to nobody. *)
Theorem release_unbinds_foreign_teid :
  match run sample_wall sample_engine shared_teid_ops with
  | Ok (_, e) =>
      owner e 100 = None /\ charged_to e (sample_packet 100 64 0) = None /\
      match info_ e !! 1%nat with
      | Some x => i_imsi x = 22 /\ i_active x = true /\ i_ul_teid x = 100
      | None => False
      end
  | _ => False
  end.
Proof. vm_compute. repeat split. Qed.
