(* ===== verification/MeterFlows.v ===== *)
(** * The flow table of the metering engine

    [update_flow] scans a bounded window of an open-addressed table; the
    theorems say what [find_flow] then sees, on a hit, on a new entry and on
    an eviction. *)

From S2P Require Import Prelude MeterEvent UsageRecord Session SpscRing FlatHash Meter MeterProps.

Lemma at_insert {A} (l : list A) i j x : 0 <= i < size l -> 0 <= j < size l ->
  at_ (<[Z.to_nat i := x]> l) j = if i =? j then Ok x else at_ l j.
Proof.
  intros Hi Hj. destruct (at_Ok_lookup l j Hj) as (y & -> & Hy).
  destruct (Z.eqb_spec i j) as [->|Hne].
  - apply at_lookup; [lia|]. apply list_lookup_insert_eq. unfold size in *. lia.
  - apply at_lookup; [lia|]. rewrite list_lookup_insert_ne by lia. done.
Qed.

Section Scan.
Context (k : Z) (flows : list FlowEntry) (mask key : Z).
Hypothesis Hk : 1 <= k <= 63.
Hypothesis Hsize : size flows = 2 ^ k.
Hypothesis Hmask : mask = 2 ^ k - 1.

Lemma next_slot idx : 0 <= idx < 2 ^ k -> 0 <= Z.land (add64 idx 1) mask < 2 ^ k.
Proof.
  intros Hi. pose proof (pow63 k Hk). rewrite Hmask. unfold add64. rewrite land_mask by lia.
  apply Z.mod_pos_bound. lia.
Qed.

(** A scan and a later lookup from the same slot agree. *)
Lemma scan_find : forall n idx oldest victim a, 0 <= idx < 2 ^ k ->
  flow_scan n flows mask key idx oldest victim = Ok a ->
  match a with
  | FlowHit i => 0 <= i < 2 ^ k /\ exists f, at_ flows i = Ok f /\ f_key f = key /\
      find_flow_loop n flows mask key idx = Ok (Some f) /\
      forall g, f_key g = key -> find_flow_loop n (<[Z.to_nat i := g]> flows) mask key idx = Ok (Some g)
  | FlowNew i => 0 <= i < 2 ^ k /\ (exists f, at_ flows i = Ok f /\ f_key f = 0) /\
      find_flow_loop n flows mask key idx = Ok None /\
      forall g, f_key g = key -> find_flow_loop n (<[Z.to_nat i := g]> flows) mask key idx = Ok (Some g)
  | FlowEvict v => find_flow_loop n flows mask key idx = Ok None /\
      forall i g, v = Some i -> victim <> Some i -> f_key g = key -> 0 <= i < 2 ^ k /\
        find_flow_loop n (<[Z.to_nat i := g]> flows) mask key idx = Ok (Some g)
  end.
Proof.
  induction n as [|n IH]; intros idx oldest victim a Hidx; cbn [flow_scan find_flow_loop].
  { intros [= <-]. split; [done|]. intros i g -> Hv. done. }
  destruct (at_Ok flows idx) as [f Hf]; [lia|]. rewrite Hf. cbn [res_bind].
  pose proof (next_slot idx Hidx) as Hnext.
  assert (forall g, f_key g = key -> (let* f := at_ (<[Z.to_nat idx := g]> flows) idx in
    if f_key f =? key then Ok (Some f) else if f_key f =? 0 then Ok None else
    find_flow_loop n (<[Z.to_nat idx := g]> flows) mask key (Z.land (add64 idx 1) mask)) = Ok (Some g)) as Hhere.
  { intros g Hg. rewrite at_insert, Z.eqb_refl by lia. cbn [res_bind]. by rewrite Hg, Z.eqb_refl. }
  destruct (Z.eqb_spec (f_key f) key) as [Hkey|Hkey].
  { intros [= <-]. split; [done|]. exists f. auto. }
  destruct (Z.eqb_spec (f_key f) 0) as [H0|H0].
  { intros [= <-]. split_and!; [lia|lia|by exists f|done|done]. }
  assert (forall i g, 0 <= i < 2 ^ k -> i <> idx -> 
    find_flow_loop n (<[Z.to_nat i := g]> flows) mask key (Z.land (add64 idx 1) mask) = Ok (Some g) ->
    (let* f := at_ (<[Z.to_nat i := g]> flows) idx in
     if f_key f =? key then Ok (Some f) else if f_key f =? 0 then Ok None else
     find_flow_loop n (<[Z.to_nat i := g]> flows) mask key (Z.land (add64 idx 1) mask)) = Ok (Some g)) as Hskip.
  { intros i g Hi Hne Hrec. rewrite at_insert by lia. destruct (Z.eqb_spec i idx); [done|]. rewrite Hf. cbn [res_bind].
    destruct (Z.eqb_spec (f_key f) key); [done|]. by destruct (Z.eqb_spec (f_key f) 0). }
  set (ov := if f_last_seen_ns f <? oldest then _ else _). destruct ov as [oldest' victim'] eqn:Hov.
  intros Hscan. specialize (IH _ _ _ _ Hnext Hscan). destruct a as [i|i|v].
  - destruct IH as (Hi & f' & Hf' & Hk' & Hfind & Hput). split; [done|]. exists f'. split_and!; [done..|].
    intros g Hg. apply Hskip; auto. congruence.
  - destruct IH as (Hi & (f' & Hf' & Hk') & Hfind & Hput). split_and!; [lia|lia|by exists f'|done|].
    intros g Hg. apply Hskip; auto. congruence.
  - destruct IH as (Hfind & Hput). split; [done|]. intros i g Hv Hne Hg.
    destruct (decide (i = idx)) as [->|Hni]; [auto|].
    assert (victim' <> Some i) as Hne'.
    { unfold ov in Hov. destruct (_ <? oldest); injection Hov as _ <-; congruence. }
    destruct (Hput i g Hv Hne' Hg) as [Hi Hrec]. auto.
Qed.
End Scan.

Section Flows.
Context {M R : Type} {KT : KeyTable TeidBinding M} {BQ : BoundedQueue UsageRecord R}.
Abbreviation engine := (MeterEngine M R).

(** The entry [f] after the packet [ev] of a subscriber, given the entry it had. *)
Definition flow_credited (ev : MeterEvent) (sub dir : Z) (old : option FlowEntry) (f : FlowEntry) : Prop :=
  f_key f = flow_norm (ev_flow_key ev) /\ f_last_seen_ns f = ev_ts_ns ev /\
  match old with
  | Some f0 => f_bytes f = add64 (f_bytes f0) (ev_bytes ev) /\ f_packets f = add64 (f_packets f0) 1 /\
               f_sub_idx f = f_sub_idx f0
  | None => f_bytes f = ev_bytes ev /\ f_packets f = 1 /\ f_sub_idx f = sub /\ f_dir f = dir /\
            f_teid f = ev_teid ev /\ f_src_ip f = ev_src_ip ev /\ f_dst_ip f = ev_dst_ip ev
  end.

Lemma find_flow_put (e : engine) i g s ev : flows_ e <> [] ->
  find_flow_loop (Z.to_nat (flow_probe_window (cfg_ e))) (<[i := g]> (flows_ e)) (flow_mask_ e)
    (flow_norm (ev_flow_key ev)) (flow_start (flow_norm (ev_flow_key ev)) (flow_mask_ e)) = Ok (Some g) ->
  find_flow (e <| flows_ := <[i := g]> (flows_ e) |> <| stats_ := s |>) (ev_flow_key ev) = Ok (Some g).
Proof.
  intros Hne Hl. unfold find_flow. cbn. rewrite size_insert.
  destruct (Z.eqb_spec (size (flows_ e)) 0) as [E|]; [|done].
  destruct (flows_ e); [done|]. rewrite size_cons in E. pose proof (size_nonneg l). lia.
Qed.

Lemma stats_id (e : engine) : e = e <| stats_ := stats_ e |>.
Proof. by destruct e. Qed.

(** Updating a flow and looking it up agree.  With a flow table as the
    constructor builds it, [update_flow] returns and changes one slot; then
    [find_flow] on the packet's key finds the entry it wrote: the entry that was
    there before with the packet added, or, when the key had none, a new entry
    with exactly this packet (in an empty slot, or in place of an evicted one). *)
Theorem flow_update_find (e : engine) ev sub dir : flows_ok (cfg_ e) (flows_ e) (flow_mask_ e) ->
  flows_ e <> [] -> ev_ts_ns ev < UINT64_MAX ->
  exists old, find_flow e (ev_flow_key ev) = Ok old /\
  ensures (update_flow e ev sub dir) (fun e' => exists i f,
    flow_credited ev sub dir old f /\ find_flow e' (ev_flow_key ev) = Ok (Some f) /\
    flows_ e' = <[i := f]> (flows_ e) /\ flows_ok (cfg_ e') (flows_ e') (flow_mask_ e')).
Proof.
  intros Hok Hne Hts. pose proof Hok as [E|((k & Hk & Hs & Hm) & Hw & Hf)]; [done|].
  pose proof (pow63 k Hk). set (key := flow_norm (ev_flow_key ev)). set (start := flow_start key (flow_mask_ e)).
  assert (0 <= start < 2 ^ k) as Hst.
  { unfold start, flow_start. rewrite Hm. replace (2 ^ k - 1) with (Z.ones k) by (rewrite Z.ones_equiv; lia).
    rewrite Z.land_ones by lia. apply Z.mod_pos_bound. lia. }
  set (w := Z.to_nat (flow_probe_window (cfg_ e))).
  destruct (flow_scan_spec k (flows_ e) (flow_mask_ e) key Hk Hs Hm Hf w start UINT64_MAX None) as (a & Hscan & Ha);
    auto; try done; [lia|].
  pose proof (scan_find k (flows_ e) (flow_mask_ e) key Hk Hs Hm w start UINT64_MAX None a Hst Hscan) as Hsf.
  assert (find_flow e (ev_flow_key ev) = find_flow_loop w (flows_ e) (flow_mask_ e) key start) as ->.
  { unfold find_flow. by destruct (Z.eqb_spec (size (flows_ e)) 0); [lia|]. }
  assert (forall i g, f_last_seen_ns g = ev_ts_ns ev -> flows_ok (cfg_ e) (<[Z.to_nat i := g]> (flows_ e)) (flow_mask_ e)) as Hfo.
  { intros i g Hg. apply flows_ok_insert; [done|lia]. }
  unfold update_flow. fold key start w. rewrite Hscan. cbn [res_bind]. destruct a as [i|i|v].
  - destruct Hsf as (Hi & f & Hfi & Hkf & Hfind & Hput). exists (Some f). split; [done|].
    rewrite Hfi. cbn [res_bind]. rewrite set_Ok by lia. cbn [res_bind]. apply ensures_Ok.
    set (g := setf f_last_seen_ns _ _). exists (Z.to_nat i), g. split_and!; [by unfold flow_credited| |done|by eapply Hfo].
    rewrite (stats_id (e <| flows_ := _ |>)). apply find_flow_put; [done|]. by apply Hput.
  - destruct Hsf as (Hi & (f & Hfi & _) & Hfind & Hput). exists None. split; [done|].
    rewrite Hfi. cbn [res_bind]. rewrite set_Ok by lia. cbn [res_bind]. apply ensures_Ok.
    exists (Z.to_nat i), (init_flow ev sub dir key f). split_and!; [by unfold flow_credited| |done|by eapply Hfo].
    apply find_flow_put; [done|]. by apply Hput.
  - destruct Hsf as (Hfind & Hput). exists None. split; [done|]. destruct Ha as (i & -> & Hi).
    destruct (at_Ok (flows_ e) i) as [f Hat]; [lia|].
    cbn [flows_ setf]. rewrite Hat. cbn [res_bind]. rewrite set_Ok by lia. cbn [res_bind]. apply ensures_Ok.
    exists (Z.to_nat i), (init_flow ev sub dir key f). split_and!; [by unfold flow_credited| |done|by eapply Hfo].
    apply find_flow_put; [done|]. by apply Hput.
Qed.
End Flows.

Definition sample_flow_engine : MeterEngine unit unit :=
  mkEngine (mkConfig 0 0 4 2 0 0 0 0 true false) [] [] tt (replicate 4 FlowEntry_init) 3 ∅ None
    PipelineStats_init 0 0 0 [].

Lemma flow_update_find_witness :
  ensures (update_flow sample_flow_engine (MeterEvent_init <| ev_flow_key := 77 |> <| ev_bytes := 9 |>) 0 1)
    (fun e' => exists f, find_flow e' 77 = Ok (Some f) /\ f_key f = 77).
Proof.
  destruct (flow_update_find sample_flow_engine (MeterEvent_init <| ev_flow_key := 77 |> <| ev_bytes := 9 |>) 0 1)
    as (old & _ & Hu).
  - right. split; [exists 2; split; [lia|split; reflexivity]|]. split; [cbn; lia|]. apply Forall_replicate. reflexivity.
  - cbn. congruence.
  - reflexivity.
  - eapply ensures_mono; [exact Hu|]. intros e' (i & f & (Hk & _) & Hf & _). exists f. split; [exact Hf|exact Hk].
Defined.
