(* ===== verification/MeterGy.v ===== *)
(** * Gy reports and the cross-check against metered usage *)

From S2P Require Import Prelude MeterEvent UsageRecord Session SpscRing FlatHash Meter MeterProps MeterControl MeterLedger.

Section Gy.
Context {M R : Type} {KT : KeyTable TeidBinding M} {BQ : BoundedQueue UsageRecord R}.
Abbreviation engine := (MeterEngine M R).

(** The entry of the cross-check for one subscriber, with exact arithmetic. *)
Definition gy_delta (p : SubscriberInfo * SubscriberCounters) : option GyDelta :=
  let '(x, c) := p in
  if i_active x && negb (i_gy_reports x =? 0)
  then Some (mkGyDelta (i_imsi x) (total_bytes c) (i_gy_reported_octets x)
               (total_bytes c - i_gy_reported_octets x) (i_gy_reports x))
  else None.

Lemma to_i64_small v : v < 2 ^ 63 -> to_i64 v = v.
Proof. intros. unfold to_i64. by case_if; [|lia]. Qed.

Lemma gy_crosscheck_loop_spec (e : engine) : 
  (forall i c x, counters_ e !! i = Some c -> info_ e !! i = Some x ->
     0 <= total_bytes c < 2 ^ 63 /\ 0 <= i_gy_reported_octets x < 2 ^ 63) ->
  forall n idx, 0 <= idx -> idx + Z.of_nat n <= size (counters_ e) -> size (info_ e) = size (counters_ e) ->
  gy_crosscheck_loop n e idx =
  Ok (omap gy_delta (take n (drop (Z.to_nat idx) (zip (info_ e) (counters_ e))))).
Proof.
  intros Hr. induction n as [|n IH]; intros idx H0 Hn Hsz; [done|]. cbn [gy_crosscheck_loop].
  destruct (at_Ok_lookup (info_ e) idx) as (x & -> & Hx); [lia|]. cbn [res_bind].
  destruct (at_Ok_lookup (counters_ e) idx) as (c & Hc' & Hc); [lia|].
  assert (zip (info_ e) (counters_ e) !! Z.to_nat idx = Some (x, c)) as Hz.
  { apply lookup_zip_Some. done. }
  rewrite (drop_S _ _ _ Hz). replace (S (Z.to_nat idx)) with (Z.to_nat (idx + 1)) by lia.
  cbn [take omap list_omap gy_delta]. destruct (Hr _ _ _ Hc Hx) as [Hm Hg].
  change (list_omap _ _ gy_delta) with (omap (M := list) gy_delta).
  destruct (i_active x), (i_gy_reports x =? 0); cbn [negb orb andb]; try (apply IH; lia).
  rewrite Hc'. cbn [res_bind]. rewrite !to_i64_small by lia. unfold sub_i64.
  rewrite decide_True by lia. cbn [res_bind]. rewrite IH by lia. done.
Qed.

(** The cross-check is exact.  While metered totals and reported octets stay
    below 2^63, [gy_crosscheck] returns, in subscriber order, one entry for each
    active subscriber with at least one Gy report, whose difference is metered
    minus reported as a signed integer (no overflow), and no other entry. *)
Theorem gy_crosscheck_exact (e : engine) : good e ->
  (forall i c x, counters_ e !! i = Some c -> info_ e !! i = Some x ->
     0 <= total_bytes c < 2 ^ 63 /\ 0 <= i_gy_reported_octets x < 2 ^ 63) ->
  gy_crosscheck e = Ok (omap gy_delta (take (Z.to_nat (subscriber_count e)) (zip (info_ e) (counters_ e)))).
Proof.
  intros ((m & Hinv) & _) Hr. pose proof (ei_next _ _ Hinv). pose proof (ei_sizes _ _ Hinv) as [Hsz _].
  unfold gy_crosscheck. rewrite (gy_crosscheck_loop_spec e Hr) by lia. done.
Qed.

(** A Gy report with an IMSI and used units is added to that subscriber's
    reported octets and to nobody else's; it never touches the metered side
    (counters, pending usage, queued records, packet statistics). *)
Lemma apply_gy_isolated (e : engine) g : good e ->
  ensures (apply_gy e g) (fun e' => good e' /\ counters_ e' = counters_ e /\
    (forall mt i, pend mt e' i = pend mt e i) /\ traffic (stats_ e') = traffic (stats_ e) /\
    forall i x, info_ e !! i = Some x -> exists x', info_ e' !! i = Some x' /\
      i_gy_reported_octets x' =
        if gy_has_imsi g && gy_has_used g && bool_decide (imsi_index_ e !! gy_imsi g = Some (Z.of_nat i))
        then add64 (i_gy_reported_octets x) (gy_used_total_octets g) else i_gy_reported_octets x).
Proof.
  intros Hg. pose proof Hg as ((m & Hinv) & _).
  eapply ensures_mono; [by apply (apply_gy_spec e m g)|]. intros e' (Hinv' & Hem & _ & Hinfo).
  destruct (post_emits e e' m [] [] Hg Hinv' Hem) as (? & [= <-] & Hg' & _).
  injection (em_same _ _ _ _ Hem) as Hcf Hcn Htm Hix Hnx Ht1 Ht2 Ht3 Ht4 Ht5.
  split_and!; [done|done| |unfold traffic; congruence|].
  { intros mt i. rewrite (lg_pend _ _ _ _ _ (em_ledger _ _ _ _ Hem)). unfold no_charge.
    change (billed mt i []) with 0. by rewrite Z.add_0_r, Z.sub_0_r, u64_pend. }
  intros i x Hx. destruct (imsi_index_ e !! gy_imsi g) as [idx|] eqn:Him.
  - destruct (ei_imsi _ _ Hinv _ _ Him) as (Hi & _). destruct (gy_has_imsi g && gy_has_used g); cbn [andb].
    + destruct Hinfo as (y & y' & Hy & He' & Hadd). destruct (decide (i = Z.to_nat idx)) as [->|Hne].
      * exists y'. rewrite He', list_lookup_insert_eq by (by eapply lookup_lt_Some). split; [done|].
        rewrite bool_decide_eq_true_2 by (f_equal; lia). congruence.
      * exists x. rewrite He', list_lookup_insert_ne by done. split; [done|].
        rewrite bool_decide_eq_false_2; [done|]. intros [= ->]. lia.
    + exists x. by rewrite Hinfo.
  - exists x. rewrite Hinfo, andb_false_r. done.
Qed.
End Gy.

Definition sample_gy : GyEvent :=
  GyEvent_init <| gy_imsi := 22 |> <| gy_has_imsi := true |> <| gy_has_used := true |>
    <| gy_used_total_octets := 1400 |>.

Lemma apply_gy_isolated_witness :
  ensures (apply_gy sample_running sample_gy) (fun e' => good e' /\ counters_ e' = counters_ sample_running).
Proof.
  eapply ensures_mono.
  - apply (apply_gy_isolated sample_running sample_gy). apply sample_running_good.
  - intros e' (Hg & Hc & _). split; [exact Hg|exact Hc].
Defined.

Lemma forallb_zip {A B} (P : A -> B -> bool) (l1 : list A) (l2 : list B) i a b :
  forallb (fun p => P p.1 p.2) (zip l1 l2) = true -> l1 !! i = Some a -> l2 !! i = Some b -> P a b = true.
Proof.
  rewrite forallb_forall. intros Hall H1 H2. apply (Hall (a, b)).
  apply list_elem_of_In, list_elem_of_lookup. exists i. by apply lookup_zip_Some.
Qed.

Definition sample_small (c : SubscriberCounters) (x : SubscriberInfo) : bool :=
  (0 <=? total_bytes c) && (total_bytes c <? 2 ^ 63) && (0 <=? i_gy_reported_octets x) && (i_gy_reported_octets x <? 2 ^ 63).

Lemma gy_crosscheck_exact_witness :
  gy_crosscheck sample_running =
  Ok (omap gy_delta (take (Z.to_nat (subscriber_count sample_running)) (zip (info_ sample_running) (counters_ sample_running)))).
Proof.
  apply (gy_crosscheck_exact sample_running).
  - apply sample_running_good.
  - intros i c x Hc Hx.
    assert (sample_small c x = true) as Hsmall.
    { refine (forallb_zip sample_small _ _ i c x _ Hc Hx). vm_compute. reflexivity. }
    unfold sample_small in Hsmall. bool_to_prop. split; split; assumption.
Defined.
