(* ===== verification/Pipeline.v ===== *)
(** * include/gtpm/pipeline.hpp: the ingest side

    One frame in, at most one metering event (or a few Gy events) onto the
    rings.  [Ingest] is the class's data members; the rings are used through
    [BoundedQueue], [None] being the null pointer. *)

From S2P Require Import Prelude ByteOrder Gtpu Net Diameter SpscRing MeterEvent.

Record IngestStats := mkIngestStats {
  in_frames : Z;
  in_frames_bytes : Z;
  in_non_ip : Z;
  in_not_gtpu_port : Z;
  in_gtpu_parse_errors : Z;
  in_gtpu_gpdus : Z;
  in_gtpu_control : Z;
  in_inner_parse_errors : Z;
  in_diameter_messages : Z;
  in_diameter_parse_errors : Z;
  in_gy_events : Z;
  in_events_pushed : Z;
  in_events_dropped : Z;
  in_gy_events_dropped : Z;
  in_truncated_frames : Z
}.
#[export] Instance IngestStats_eta : Eta IngestStats := fun s =>
  mkIngestStats (in_frames s) (in_frames_bytes s) (in_non_ip s) (in_not_gtpu_port s)
    (in_gtpu_parse_errors s) (in_gtpu_gpdus s) (in_gtpu_control s) (in_inner_parse_errors s)
    (in_diameter_messages s) (in_diameter_parse_errors s) (in_gy_events s) (in_events_pushed s)
    (in_events_dropped s) (in_gy_events_dropped s) (in_truncated_frames s).
Definition IngestStats_init : IngestStats := mkIngestStats 0 0 0 0 0 0 0 0 0 0 0 0 0 0 0.

Module FrameOutcome.
Inductive t := kMetered | kGyControl | kGtpuControl | kNotOurTraffic | kParseError | kDropped.
#[global] Instance t_eq_dec : EqDecision t.
Proof. solve_decision. Defined.
End FrameOutcome.

Record IngestConfig := mkIngestConfig {
  gtpu_port : Z;
  diameter_port : Z;
  parse_diameter : bool;
  count_wire_bytes : bool;
  meter_inner_ip_length : bool
}.
Definition IngestConfig_init : IngestConfig := mkIngestConfig kGtpuPort kDiameterPort true true true.

Record Ingest (R1 R2 : Type) := mkIngest {
  in_cfg_ : IngestConfig;
  meter_ring_ : option R1;
  gy_ring_ : option R2;
  in_stats_ : IngestStats
}.
Arguments mkIngest {R1 R2}.
Arguments in_cfg_ {R1 R2}.
Arguments meter_ring_ {R1 R2}.
Arguments gy_ring_ {R1 R2}.
Arguments in_stats_ {R1 R2}.
#[export] Instance Ingest_eta R1 R2 : Eta (Ingest R1 R2) := fun i =>
  mkIngest (in_cfg_ i) (meter_ring_ i) (gy_ring_ i) (in_stats_ i).

Definition incr (x : Z) : Z := add64 x 1.

Section Pipeline.
Context {HE : HostEndian} {R1 R2 : Type}.
Context {Q1 : BoundedQueue MeterEvent R1} {Q2 : BoundedQueue GyEvent R2}.
Abbreviation ingest := (Ingest R1 R2).

Definition Ingest_new (meter : option R1) (gy : option R2) (cfg : IngestConfig) : ingest :=
  mkIngest cfg meter gy IngestStats_init.
Definition reset_stats (s : ingest) : ingest := s <| in_stats_ := IngestStats_init |>.

Definition push_event (s : ingest) (ev : MeterEvent) : res (bool * ingest) :=
  match meter_ring_ s with
  | None => Ok (true, s <| in_stats_ ::= fun t => t <| in_events_pushed ::= incr |> |>)
  | Some q =>
      let* (ok, q) := q_push q ev in
      let s := s <| meter_ring_ := Some q |> in
      if (ok : bool) then Ok (true, s <| in_stats_ ::= fun t => t <| in_events_pushed ::= incr |> |>)
      else Ok (false, s <| in_stats_ ::= fun t => t <| in_events_dropped ::= incr |> |>)
  end.

(** The event of one MSCC block (or of a message without any). *)
Definition gy_event (gy : GyMessage) (ts_ns i : Z) : res GyEvent :=
  let ev := GyEvent_init <| gy_ts_ns := ts_ns |> <| gy_imsi := imsi gy |> <| gy_has_imsi := has_imsi gy |>
    <| gy_is_request := is_request gy |> <| gy_cc_request_type := cc_request_type gy |>
    <| gy_cc_request_number := cc_request_number gy |> <| gy_result_code := result_code gy |> in
  if negb (mscc_count gy =? 0) then
    let* m := at_ (mscc gy) i in
    Ok (ev <| gy_rating_group := rating_group m |> <| gy_used_input_octets := used_input_octets m |>
           <| gy_used_output_octets := used_output_octets m |> <| gy_used_total_octets := used_total_octets m |>
           <| gy_granted_total_octets := granted_total_octets m |> <| gy_has_used := has_used m |>
           <| gy_has_granted := has_granted m |>)
  else Ok ev.

(** [emit_gy_events] from block [i], [n] blocks left. *)
Fixpoint gy_loop (n : nat) (s : ingest) (gy : GyMessage) (ts_ns i : Z) (any : bool) : res (bool * ingest) :=
  match n with
  | O => Ok (any, s)
  | S n =>
      let* ev := gy_event gy ts_ns i in
      let s := s <| in_stats_ ::= fun t => t <| in_gy_events ::= incr |> |> in
      match gy_ring_ s with
      | None => gy_loop n s gy ts_ns (i + 1) true
      | Some q =>
          let* (ok, q) := q_push q ev in
          let s := s <| gy_ring_ := Some q |> in
          if (ok : bool) then gy_loop n s gy ts_ns (i + 1) true
          else gy_loop n (s <| in_stats_ ::= fun t => t <| in_gy_events_dropped ::= incr |> |>) gy ts_ns (i + 1) any
      end
  end.

Definition emit_gy_events (s : ingest) (gy : GyMessage) (ts_ns : Z) : res (bool * ingest) :=
  let blocks := if mscc_count gy =? 0 then 1 else mscc_count gy in
  gy_loop (Z.to_nat blocks) s gy ts_ns 0 false.

(** [process_diameter]'s loop: each iteration consumes at least the 20 bytes of
    a header, so the payload's length is fuel enough. *)
Fixpoint diameter_loop (fuel : nat) (s : ingest) (payload : Bytes) (ts_ns offset : Z) (produced : bool)
  : res (FrameOutcome.t * ingest) :=
  let done := if produced then FrameOutcome.kGyControl else FrameOutcome.kNotOurTraffic in
  match fuel with
  | O => Fuel
  | S fuel =>
      if negb (add64 offset kDiameterHeaderLen <=? size payload) then Ok (done, s) else
      let* rest := subspan_from payload offset in
      let* (st, hdr, gy) := parse_diameter_gy rest GyMessage_init in
      if negb (bool_decide (st = DiameterStatus.kOk)) then
        Ok (if produced then FrameOutcome.kGyControl else FrameOutcome.kParseError,
            s <| in_stats_ ::= fun t => t <| in_diameter_parse_errors ::= incr |> |>)
      else
      let s := s <| in_stats_ ::= fun t => t <| in_diameter_messages ::= incr |> |> in
      let offset := add64 offset (msg_length hdr) in
      let* (produced, s) :=
        (if is_credit_control hdr then
           let* (any, s) := emit_gy_events s gy ts_ns in Ok ((any : bool) || produced, s)
         else Ok (produced, s)) in
      if msg_length hdr =? 0
      then Ok (if (produced : bool) then FrameOutcome.kGyControl else FrameOutcome.kNotOurTraffic, s)
      else diameter_loop fuel s payload ts_ns offset produced
  end.

Definition process_diameter (s : ingest) (payload : Bytes) (ts_ns : Z) : res (FrameOutcome.t * ingest) :=
  if size payload =? 0 then Ok (FrameOutcome.kNotOurTraffic, s) else
  diameter_loop (S (length payload)) s payload ts_ns 0 false.

(** The event before the payload is looked at. *)
Definition base_event (cfg : IngestConfig) (h : GtpuHeader) (ts_ns wire_bytes : Z) : MeterEvent :=
  let ev := MeterEvent_init <| ev_ts_ns := ts_ns |> <| ev_teid := teid h |> <| ev_msg_type := msg_type h |>
    <| ev_wire_bytes := if count_wire_bytes cfg then wire_bytes else 0 |> in
  if has_qfi h then
    ev <| ev_qfi := qfi h |> <| ev_flags ::= fun f => Z.lor f kFlagHasQfi |>
       <| ev_dir := if pdu_type h =? 1 then Direction.kUplink else Direction.kDownlink |>
  else ev.

(** The fields taken from a decoded inner packet. *)
Definition inner_event (cfg : IngestConfig) (h : GtpuHeader) (inner : IpPacket) (ev : MeterEvent) : res MeterEvent :=
  let t := tuple inner in
  let ev := ev <| ev_flags ::= fun f => Z.lor f kFlagInnerParsed |>
    <| ev_bytes := if meter_inner_ip_length cfg then ip_total_len inner else u32 (size (payload h)) |>
    <| ev_ip_version := ip_version t |> <| ev_proto := proto t |> <| ev_src_port := src_port t |>
    <| ev_dst_port := dst_port t |> <| ev_flow_key := flow_key t |> in
  let* ev := (if ip_version t =? 4 then
                let* a := src_v4 t in let* b := dst_v4 t in
                Ok (ev <| ev_src_ip := a |> <| ev_dst_ip := b |>)
              else Ok ev) in
  Ok (if fragmented t then ev <| ev_flags ::= fun f => Z.lor f kFlagFragmented |> else ev).

Definition process_gtpu (s : ingest) (gtpu_pdu : Bytes) (ts_ns wire_bytes : Z) : res (FrameOutcome.t * ingest) :=
  let* (st, h) := parse_gtpu gtpu_pdu in
  if negb (bool_decide (st = GtpuStatus.kOk)) then
    let s := s <| in_stats_ ::= fun t => t <| in_gtpu_parse_errors ::= incr |> |> in
    Ok (FrameOutcome.kParseError,
        if bool_decide (st = GtpuStatus.kTruncated)
        then s <| in_stats_ ::= fun t => t <| in_truncated_frames ::= incr |> |> else s)
  else
  let ev := base_event (in_cfg_ s) h ts_ns wire_bytes in
  if negb (is_gpdu h) then
    let s := s <| in_stats_ ::= fun t => t <| in_gtpu_control ::= incr |> |> in
    let ev := ev <| ev_flags ::= fun f => Z.lor f kFlagControlPdu |> <| ev_bytes := 0 |> in
    let* (ok, s) := push_event s ev in
    Ok (if (ok : bool) then FrameOutcome.kGtpuControl else FrameOutcome.kDropped, s)
  else
  let s := s <| in_stats_ ::= fun t => t <| in_gtpu_gpdus ::= incr |> |> in
  let* inner := parse_ip (payload h) in
  let* (ev, s) :=
    (if valid inner then let* ev := inner_event (in_cfg_ s) h inner ev in Ok (ev, s)
     else Ok (ev <| ev_bytes := u32 (size (payload h)) |>,
              s <| in_stats_ ::= fun t => t <| in_inner_parse_errors ::= incr |> |>)) in
  let* (ok, s) := push_event s ev in
  Ok (if (ok : bool) then FrameOutcome.kMetered else FrameOutcome.kDropped, s).

Definition process_ip (s : ingest) (ip_packet : Bytes) (ts_ns wire_bytes : Z) : res (FrameOutcome.t * ingest) :=
  let* outer := parse_ip ip_packet in
  if negb (valid outer) then
    Ok (FrameOutcome.kNotOurTraffic, s <| in_stats_ ::= fun t => t <| in_non_ip ::= incr |> |>)
  else
  let t := tuple outer in
  if (proto t =? IpProto.kUdp) && ((dst_port t =? gtpu_port (in_cfg_ s)) || (src_port t =? gtpu_port (in_cfg_ s)))
  then process_gtpu s (l4_payload outer) ts_ns wire_bytes else
  if parse_diameter (in_cfg_ s) && ((proto t =? IpProto.kTcp) || (proto t =? IpProto.kSctp))
     && ((dst_port t =? diameter_port (in_cfg_ s)) || (src_port t =? diameter_port (in_cfg_ s)))
  then process_diameter s (l4_payload outer) ts_ns else
  Ok (FrameOutcome.kNotOurTraffic, s <| in_stats_ ::= fun t => t <| in_not_gtpu_port ::= incr |> |>).

Definition process_frame (s : ingest) (frame : Bytes) (ts_ns : Z) : res (FrameOutcome.t * ingest) :=
  let s := s <| in_stats_ ::= fun t => t <| in_frames ::= incr |>
                 <| in_frames_bytes ::= fun b => add64 b (size frame) |> |> in
  let* eth := parse_ethernet frame in
  if negb (eth_valid eth) then
    Ok (FrameOutcome.kNotOurTraffic, s <| in_stats_ ::= fun t => t <| in_non_ip ::= incr |> |>)
  else process_ip s (eth_payload eth) ts_ns (u16 (size frame)).
End Pipeline.
