(* ===== verification/PipelineProps.v ===== *)
(** * Correctness of the ingest side

    [process_frame] returns for every byte string, pushes only well-typed
    events, and accounts for every frame; a G-PDU that reaches the ring is
    charged to the owner of its TEID. *)

From S2P Require Import Prelude ByteOrder Gtpu Net Diameter SpscRing MeterEvent Pipeline.

(** ** Rings *)

Section Rings.
Context {T R : Type} {BQ : BoundedQueue T R}.

Definition ring_ok (o : option R) : Prop := match o with Some q => exists l, q_repr q l | None => True end.

(** [kept] was appended to the ring. *)
Definition ring_pushed (o o' : option R) (kept : list T) : Prop :=
  match o, o' with
  | Some q, Some q' => q_cap q' = q_cap q /\ forall l, q_repr q l -> q_repr q' (l ++ kept)
  | None, None => True
  | _, _ => False
  end.

Lemma ring_pushed_refl o : ring_pushed o o [].
Proof. destruct o; [|done]. split; [done|]. intros l. by rewrite app_nil_r. Qed.

Lemma ring_pushed_trans o1 o2 o3 k1 k2 : ring_pushed o1 o2 k1 -> ring_pushed o2 o3 k2 ->
  ring_pushed o1 o3 (k1 ++ k2).
Proof.
  destruct o1, o2, o3; try done. intros [Hc1 H1] [Hc2 H2]. split; [congruence|].
  intros l Hl. rewrite app_assoc. auto.
Qed.

Lemma ring_pushed_ok o o' k : ring_pushed o o' k -> ring_ok o -> ring_ok o'.
Proof. destruct o, o'; try done. intros [_ H] [l Hl]. exists (l ++ k). auto. Qed.

(** Room for one more element. *)
Definition has_room (o : option R) (ok : bool) : Prop :=
  match o with Some q => forall l, q_repr q l -> ok = (size l <? q_cap q) | None => ok = true end.

(** A push on a ring in use. *)
Lemma push_ring q v : ring_ok (Some q) ->
  ensures (q_push q v) (fun '(ok, q') => has_room (Some q) ok /\
    ring_pushed (Some q) (Some q') (if (ok : bool) then [v] else [])).
Proof.
  intros [l Hl]. destruct (q_push_spec q l v Hl) as ([ok q'] & Hpush & Hcap & _).
  exists (ok, q'). split; [done|].
  assert (forall l', q_repr q l' -> ok = (size l' <? q_cap q) /\ q_repr q' (l' ++ if ok then [v] else [])) as Hall.
  { intros l' Hl'. destruct (q_push_spec q l' v Hl') as ([ok2 q2] & Hp2 & _ & Hr2).
    rewrite Hpush in Hp2. injection Hp2 as <- <-.
    destruct (size l' <? q_cap q); destruct Hr2 as [-> Hr2]; [done|by rewrite app_nil_r]. }
  split; [intros l' Hl'; by apply Hall|]. split; [done|]. intros l' Hl'. by apply Hall.
Qed.
End Rings.

Section Ingest.
Context {HE : HostEndian} {R1 R2 : Type}.
Context {Q1 : BoundedQueue MeterEvent R1} {Q2 : BoundedQueue GyEvent R2}.
Abbreviation ingest := (Ingest R1 R2).

Definition rings_ok (s : ingest) : Prop := ring_ok (meter_ring_ s) /\ ring_ok (gy_ring_ s).

(** [s'] is [s] with events pushed and the statistics changed. *)
Record pushes (s s' : ingest) (evs : list MeterEvent) (gys : list GyEvent) : Prop := {
  pu_cfg : in_cfg_ s' = in_cfg_ s;
  pu_meter : ring_pushed (meter_ring_ s) (meter_ring_ s') evs;
  pu_gy : ring_pushed (gy_ring_ s) (gy_ring_ s') gys
}.

Lemma pushes_refl (s : ingest) : pushes s s [] [].
Proof. constructor; [done|apply ring_pushed_refl..]. Qed.
Lemma pushes_stats (s : ingest) f : pushes s (s <| in_stats_ ::= f |>) [] [].
Proof. constructor; [done|apply ring_pushed_refl..]. Qed.

Lemma pushes_trans (s1 s2 s3 : ingest) e1 g1 e2 g2 : pushes s1 s2 e1 g1 -> pushes s2 s3 e2 g2 ->
  pushes s1 s3 (e1 ++ e2) (g1 ++ g2).
Proof. intros [] []. constructor; [congruence|by eapply ring_pushed_trans..]. Qed.

Lemma pushes_ok (s s' : ingest) e g : pushes s s' e g -> rings_ok s -> rings_ok s'.
Proof. intros [] [? ?]. split; by eapply ring_pushed_ok. Qed.

Lemma push_event_spec (s : ingest) ev : rings_ok s ->
  ensures (push_event s ev) (fun '(ok, s') => has_room (meter_ring_ s) ok /\
    pushes s s' (if (ok : bool) then [ev] else []) [] /\
    in_stats_ s' = if (ok : bool) then (in_stats_ s) <| in_events_pushed ::= incr |>
                   else (in_stats_ s) <| in_events_dropped ::= incr |>).
Proof.
  intros [Hm _]. unfold push_event. destruct (meter_ring_ s) as [q|] eqn:Hq.
  - eapply ensures_bind; [by apply (push_ring q ev)|]. intros [ok q'] [Hroom Hp].
    destruct ok; apply ensures_Ok; (split_and!; [done| |done]);
      (constructor; [done|cbn; by rewrite Hq|apply ring_pushed_refl]).
  - apply ensures_Ok. split_and!; [done| |done]. constructor; [done|cbn; by rewrite Hq|apply ring_pushed_refl].
Qed.

(** ** Gy events *)

Definition gy_msg_ok (gy : GyMessage) : Prop := 0 <= mscc_count gy <= 8 /\ size (mscc gy) = 8.

Definition gy_blocks (gy : GyMessage) : Z := if mscc_count gy =? 0 then 1 else mscc_count gy.

(** Statistics of [n] Gy events of which [d] were dropped. *)
Definition gy_counted (t t' : IngestStats) (n d : Z) : Prop :=
  u64 (in_gy_events t') = u64 (in_gy_events t + n) /\
  u64 (in_gy_events_dropped t') = u64 (in_gy_events_dropped t + d) /\
  (in_frames t', in_frames_bytes t', in_non_ip t', in_not_gtpu_port t', in_gtpu_parse_errors t', in_gtpu_gpdus t',
   in_gtpu_control t', in_events_pushed t', in_events_dropped t') =
  (in_frames t, in_frames_bytes t, in_non_ip t, in_not_gtpu_port t, in_gtpu_parse_errors t, in_gtpu_gpdus t,
   in_gtpu_control t, in_events_pushed t, in_events_dropped t).

Lemma gy_event_Ok gy ts i : gy_msg_ok gy -> 0 <= i < gy_blocks gy -> returns (gy_event gy ts i).
Proof.
  intros [Hc Hs] Hi. unfold gy_event, gy_blocks in *. destruct (Z.eqb_spec (mscc_count gy) 0); cbn [negb]; [eexists; done|].
  destruct (at_Ok (mscc gy) i) as [m ->]; [lia|]. eexists. done.
Qed.

(** What the loop over the blocks does: one event per block, in order; [kept] are
    those delivered (all of them when there is no ring). *)
Definition gy_emitted (s s' : ingest) (gy : GyMessage) (ts i : Z) (n : nat) (kept : list GyEvent) : Prop :=
  exists evs, length evs = n /\
    (forall j ev, evs !! j = Some ev -> gy_event gy ts (i + Z.of_nat j) = Ok ev) /\
    kept `sublist_of` evs /\ pushes s s' [] kept /\
    gy_counted (in_stats_ s) (in_stats_ s') (Z.of_nat n) (Z.of_nat n - size kept).

Lemma gy_emitted_cons (s s1 s' : ingest) gy ts i n ev kept1 kept :
  gy_event gy ts i = Ok ev -> kept1 = [ev] \/ kept1 = [] -> pushes s s1 [] kept1 ->
  gy_counted (in_stats_ s) (in_stats_ s1) 1 (1 - size kept1) -> gy_emitted s1 s' gy ts (i + 1) n kept ->
  gy_emitted s s' gy ts i (S n) (kept1 ++ kept).
Proof.
  intros Hev Hk Hp1 (H1 & H2 & H3) (evs & Hl & Hall & Hsub & Hp & (G1 & G2 & G3)). exists (ev :: evs). split_and!.
  - cbn. by rewrite Hl.
  - intros [|j] e; cbn [lookup list_lookup]; [intros [= <-]; by rewrite Z.add_0_r|]. intros Hj.
    rewrite <- (Hall j e Hj). f_equal. lia.
  - destruct Hk as [->| ->]; [by apply sublist_skip|by apply sublist_cons].
  - apply (pushes_trans s s1 s' [] kept1 [] kept Hp1 Hp).
  - unfold gy_counted. rewrite G1, G2, G3, H3, size_app.
    rewrite <- u64_add_u64_l, H1, u64_add_u64_l, <- (u64_add_u64_l (in_gy_events_dropped _)), H2, u64_add_u64_l.
    split_and!; [f_equal; lia|f_equal; lia|done].
Qed.

Lemma gy_loop_spec gy ts : gy_msg_ok gy -> forall n s i any, rings_ok s -> 0 <= i ->
  i + Z.of_nat n <= gy_blocks gy ->
  ensures (gy_loop n s gy ts i any) (fun '(any', s') => exists kept,
    gy_emitted s s' gy ts i n kept /\ any' = any || negb (size kept =? 0)).
Proof.
  intros Hgy. induction n as [|n IH]; intros s i any Hr Hi Hn; cbn [gy_loop].
  { apply ensures_Ok. exists []. rewrite (@size_nil GyEvent), orb_false_r. split; [|done]. exists [].
    split_and!; [done|done|done|apply pushes_refl|].
    rewrite (@size_nil GyEvent). split_and!; [f_equal; lia|f_equal; lia|done]. }
  destruct (gy_event_Ok gy ts i Hgy) as [ev Hev]; [lia|]. rewrite Hev. cbn [res_bind].
  set (s1 := setf in_stats_ _ s). change (gy_ring_ s1) with (gy_ring_ s).
  assert (forall (s2 : ingest) any2 kept1, kept1 = [ev] \/ kept1 = [] -> pushes s s2 [] kept1 ->
    gy_counted (in_stats_ s) (in_stats_ s2) 1 (1 - size kept1) -> any2 = any || negb (size kept1 =? 0) ->
    ensures (gy_loop n s2 gy ts (i + 1) any2) (fun '(any', s') => exists kept,
      gy_emitted s s' gy ts i (S n) kept /\ any' = any || negb (size kept =? 0))) as Hgo.
  { intros s2 any2 kept1 Hk Hp Hc ->. eapply ensures_mono; [apply (IH s2); [by eapply pushes_ok|lia..]|].
    intros [any' s'] (kept & Hem & ->). exists (kept1 ++ kept). split; [by eapply gy_emitted_cons|].
    rewrite size_app, <- orb_assoc. f_equal. pose proof (size_nonneg kept1). pose proof (size_nonneg kept).
    destruct (Z.eqb_spec (size kept1) 0), (Z.eqb_spec (size kept) 0), (Z.eqb_spec (size kept1 + size kept) 0); cbn; lia || done. }
  assert (gy_counted (in_stats_ s) (in_stats_ s1) 1 0) as Hc1.
  { split_and!; [cbn; unfold incr, add64; by rewrite u64_idem|cbn; f_equal; lia|done]. }
  destruct Hr as [Hrm Hrg]. destruct (gy_ring_ s) as [q|] eqn:Hq.
  2: { apply (Hgo s1 true [ev]); [by left| |done|by rewrite orb_true_r].
       constructor; [done|apply ring_pushed_refl|cbn; by rewrite Hq]. }
  eapply ensures_bind; [by apply (push_ring q ev)|]. intros [[] q'] [_ Hp].
  - apply (Hgo _ true [ev]); [by left| |done|by rewrite orb_true_r].
    constructor; [done|apply ring_pushed_refl|cbn; by rewrite Hq].
  - apply (Hgo _ any []); [by right| | |by rewrite orb_false_r].
    + constructor; [done|apply ring_pushed_refl|cbn; by rewrite Hq].
    + destruct Hc1 as (Hc1 & Hc2 & Hc3). split_and!; [done|cbn; unfold incr, add64; by rewrite u64_idem|done].
Qed.

(** ** Diameter messages in a segment *)

Lemma parse_diameter_gy_ok buf :
  ensures (parse_diameter_gy buf GyMessage_init) (fun '(st, hdr, gy) => st = DiameterStatus.kOk ->
    20 <= msg_length hdr <= size buf /\ (is_credit_control hdr = true -> gy_msg_ok gy)).
Proof.
  unfold parse_diameter_gy.
  eapply ensures_bind; [apply parse_diameter_header_spec|]. intros [st hdr] Hh. cbn [fst snd] in Hh.
  case_bool_decide as Hst; cbn [negb]; [|by apply ensures_Ok].
  destruct (Hh Hst) as (Hl & Hmax & _ & _ & _ & _ & _ & _ & _ & _ & Ha). unfold kDiameterMaxMsgLen in *.
  destruct (is_credit_control hdr) eqn:Hcc; cbn [negb]; [|by apply ensures_Ok].
  destruct (parse_gy_spec hdr) as (st' & l & g & _ & -> & _ & Hs & Hc & _).
  { rewrite Ha, size_slice; lia. }
  apply ensures_Ok. intros _. split; [done|]. intros _. unfold gy_msg_ok, kMaxMsccPerMessage in *.
  pose proof (size_nonneg (List.filter is_mscc l)) as Hnn. unfold count_mscc in Hc. split; lia.
Qed.

(** The counters of frames and metering events. *)
Definition frame_counts (t : IngestStats) :=
  (in_frames t, in_frames_bytes t, in_non_ip t, in_not_gtpu_port t, in_gtpu_parse_errors t, in_gtpu_gpdus t,
   in_gtpu_control t, in_events_pushed t, in_events_dropped t).

(** A segment only adds Gy events. *)
Definition gy_only (s : ingest) (r : FrameOutcome.t * ingest) : Prop :=
  (exists gys, pushes s r.2 [] gys) /\ frame_counts (in_stats_ r.2) = frame_counts (in_stats_ s) /\
  (r.1 = FrameOutcome.kGyControl \/ r.1 = FrameOutcome.kNotOurTraffic \/ r.1 = FrameOutcome.kParseError).

Lemma gy_only_step (s s1 : ingest) gys r : pushes s s1 [] gys ->
  frame_counts (in_stats_ s1) = frame_counts (in_stats_ s) -> gy_only s1 r -> gy_only s r.
Proof.
  intros Hp Hc ([gys2 Hp2] & Hc2 & Ho). split_and!; [|congruence|done].
  exists (gys ++ gys2). by apply (pushes_trans s s1 r.2 [] gys [] gys2).
Qed.

Lemma gy_only_end (s : ingest) o f : (forall t, frame_counts (f t) = frame_counts t) ->
  (o = FrameOutcome.kGyControl \/ o = FrameOutcome.kNotOurTraffic \/ o = FrameOutcome.kParseError) ->
  gy_only s (o, s <| in_stats_ ::= f |>).
Proof. intros Hf Ho. split_and!; [exists []; apply pushes_stats|apply Hf|done]. Qed.

Lemma emit_gy_events_spec (s : ingest) gy ts : rings_ok s -> gy_msg_ok gy ->
  ensures (emit_gy_events s gy ts) (fun '(any, s') => exists kept,
    gy_emitted s s' gy ts 0 (Z.to_nat (gy_blocks gy)) kept /\ any = negb (size kept =? 0)).
Proof.
  intros Hr Hgy. unfold emit_gy_events. fold (gy_blocks gy).
  assert (0 <= gy_blocks gy) by (destruct Hgy; unfold gy_blocks; case_if; lia).
  eapply ensures_mono; [apply (gy_loop_spec gy ts Hgy); [done|lia|lia]|]. done.
Qed.

Lemma diameter_loop_spec payload ts : size payload < 2 ^ 63 -> forall fuel s offset produced, rings_ok s ->
  0 <= offset <= size payload -> size payload - offset < Z.of_nat fuel ->
  ensures (diameter_loop fuel s payload ts offset produced) (gy_only s).
Proof.
  intros H63. induction fuel as [|fuel IH]; intros s offset produced Hr Ho Hf; [lia|]. cbn [diameter_loop].
  assert (add64 offset kDiameterHeaderLen = offset + 20) as -> by (apply u64_small; unfold kDiameterHeaderLen; lia).
  assert (forall (b : bool) s', gy_only s' (if b then FrameOutcome.kGyControl else FrameOutcome.kNotOurTraffic, s')) as Hend.
  { intros b s'. split_and!; [exists []; apply pushes_refl|done|destruct b; auto]. }
  case_if; [by apply ensures_Ok|]. rewrite subspan_from_Ok by lia. cbn [res_bind].
  eapply ensures_bind; [apply parse_diameter_gy_ok|]. intros [[st hdr] gy] Hp.
  case_bool_decide as Hst; cbn [negb].
  2: { apply ensures_Ok. apply gy_only_end; [done|destruct produced; auto]. }
  destruct (Hp Hst) as [Hl Hgy]. rewrite size_drop in Hl by lia.
  assert (add64 offset (msg_length hdr) = offset + msg_length hdr) as -> by (apply u64_small; lia).
  set (s1 := setf in_stats_ _ s). assert (pushes s s1 [] []) as Hp1 by apply pushes_stats.
  assert (rings_ok s1) as Hr1 by (by eapply pushes_ok).
  eapply (ensures_bind _ _ (fun '(_, s2) => (exists gys, pushes s s2 [] gys) /\
    frame_counts (in_stats_ s2) = frame_counts (in_stats_ s))).
  { destruct (is_credit_control hdr); [|apply ensures_Ok; by split; [exists []|]].
    eapply ensures_bind; [by apply (emit_gy_events_spec s1 gy ts); auto|].
    intros [any s2] (kept & (evs & _ & _ & _ & Hp2 & (_ & _ & Hc)) & _). apply ensures_Ok. split; [|exact Hc].
    exists kept. by apply (pushes_trans s s1 s2 [] [] [] kept). }
  intros [produced' s2] [[gys Hp2] Hc2]. destruct (Z.eqb_spec (msg_length hdr) 0); [lia|].
  eapply ensures_mono; [apply (IH s2); [by eapply pushes_ok|lia..]|]. intros r. by apply (gy_only_step s s2 gys).
Qed.

(** ** G-PDUs *)

Lemma fnv_mix_range h b : 0 <= fnv_mix h b < 2 ^ 64.
Proof. apply u64_range. Qed.
Lemma flow_key_range t : 0 <= flow_key t < 2 ^ 64.
Proof. unfold flow_key. apply fnv_mix_range. Qed.

(** The event a PDU with header [h] and decoded payload [inner] must produce. *)
Record event_of (cfg : IngestConfig) (h : GtpuHeader) (inner : IpPacket) (ts wire : Z) (ev : MeterEvent) : Prop := {
  eo_ids : ev_ts_ns ev = ts /\ ev_teid ev = teid h /\ ev_msg_type ev = msg_type h;
  eo_wire : ev_wire_bytes ev = if count_wire_bytes cfg then wire else 0;
  eo_bytes : ev_bytes ev =
    if negb (is_gpdu h) then 0 else
    if valid inner && meter_inner_ip_length cfg then ip_total_len inner else size (payload h);
  eo_control : flag_set (ev_flags ev) kFlagControlPdu = negb (is_gpdu h);
  eo_qfi : ev_has_qfi ev = has_qfi h /\ ev_qfi ev = if has_qfi h then qfi h else 0;
  eo_dir : ev_dir ev = if has_qfi h then (if pdu_type h =? 1 then Direction.kUplink else Direction.kDownlink)
                       else Direction.kUnknown;
  eo_inner : ev_inner_parsed ev = is_gpdu h && valid inner;
  eo_flow : ev_flow_key ev = if is_gpdu h && valid inner then flow_key (tuple inner) else 0;
  eo_ok : 0 <= ts < 2 ^ 64 -> event_ok ev
}.

(** The flags are a sum of distinct bits, whichever are set. *)
Lemma event_flags (a b c d : bool) :
  let f := Z.lor (Z.lor (Z.lor (if a then kFlagHasQfi else 0) (if b then kFlagInnerParsed else 0))
             (if c then kFlagFragmented else 0)) (if d then kFlagControlPdu else 0) in
  flag_set f kFlagHasQfi = a /\ flag_set f kFlagInnerParsed = b /\ flag_set f kFlagControlPdu = d.
Proof. by destruct a, b, c, d. Qed.

Lemma base_event_fields cfg h ts wire : let ev := base_event cfg h ts wire in
  ev_ts_ns ev = ts /\ ev_teid ev = teid h /\ ev_msg_type ev = msg_type h /\
  ev_wire_bytes ev = (if count_wire_bytes cfg then wire else 0) /\ ev_bytes ev = 0 /\ ev_flow_key ev = 0 /\
  ev_flags ev = (if has_qfi h then kFlagHasQfi else 0) /\ ev_qfi ev = (if has_qfi h then qfi h else 0) /\
  ev_dir ev = (if has_qfi h then (if pdu_type h =? 1 then Direction.kUplink else Direction.kDownlink)
               else Direction.kUnknown).
Proof. unfold base_event. by destruct (has_qfi h). Qed.

(** From the fields to the specification: what is left per kind of PDU. *)
Lemma event_of_intro cfg h inner ts wire ev (b c : bool) pdu : gtpu_extent pdu h ->
  let ev0 := base_event cfg h ts wire in
  ev_ts_ns ev = ts -> ev_teid ev = ev_teid ev0 -> ev_msg_type ev = ev_msg_type ev0 ->
  ev_wire_bytes ev = ev_wire_bytes ev0 -> ev_qfi ev = ev_qfi ev0 -> ev_dir ev = ev_dir ev0 ->
  ev_flags ev = Z.lor (Z.lor (Z.lor (ev_flags ev0) (if b then kFlagInnerParsed else 0))
                        (if c then kFlagFragmented else 0)) (if negb (is_gpdu h) then kFlagControlPdu else 0) ->
  b = is_gpdu h && valid inner ->
  ev_bytes ev = (if negb (is_gpdu h) then 0 else
    if valid inner && meter_inner_ip_length cfg then ip_total_len inner else size (payload h)) ->
  0 <= ev_bytes ev < 2 ^ 32 ->
  ev_flow_key ev = (if is_gpdu h && valid inner then flow_key (tuple inner) else 0) ->
  event_of cfg h inner ts wire ev.
Proof.
  intros (_ & _ & _ & _ & _ & Hteid & Hqfi & _). cbn zeta.
  destruct (base_event_fields cfg h ts wire) as (_ & -> & -> & -> & _ & _ & -> & -> & ->).
  intros Hts Ht Hm Hw Hq Hd Hf Hb Hby Hbr Hfk.
  destruct (event_flags (has_qfi h) b c (negb (is_gpdu h))) as (F1 & F2 & F3).
  constructor; [done|done|done|by rewrite Hf|by unfold ev_has_qfi; rewrite Hf|done|
    by unfold ev_inner_parsed; rewrite Hf, F2|done|].
  intros Hr. unfold event_ok. rewrite Ht, Hteid, Hq, Hts, Hd, Hfk. split_and!; try lia.
  - apply be32_at_range. - apply be32_at_range.
  - destruct (has_qfi h); lia. - destruct (has_qfi h); lia.
  - by destruct (has_qfi h), (pdu_type h =? 1).
  - by destruct (has_qfi h), (pdu_type h =? 1).
  - destruct (_ && _); [apply flow_key_range|lia].
  - destruct (_ && _); [apply flow_key_range|lia].
Qed.

Lemma payload_small pdu h : gtpu_extent pdu h -> 0 <= size (payload h) <= 65535.
Proof.
  intros (Hh & Hs & -> & _ & Hd & _). pose proof (be16_at_range pdu 2). rewrite size_slice by lia. lia.
Qed.

(** The fields [inner_event] sets, and those it leaves alone. *)
Lemma inner_event_fields cfg h inner ev : size (src (tuple inner)) = 16 -> size (dst (tuple inner)) = 16 ->
  ensures (inner_event cfg h inner ev) (fun ev' =>
    (ev_ts_ns ev', ev_teid ev', ev_msg_type ev', ev_wire_bytes ev', ev_qfi ev', ev_dir ev') =
    (ev_ts_ns ev, ev_teid ev, ev_msg_type ev, ev_wire_bytes ev, ev_qfi ev, ev_dir ev) /\
    ev_bytes ev' = (if meter_inner_ip_length cfg then ip_total_len inner else u32 (size (payload h))) /\
    ev_flow_key ev' = flow_key (tuple inner) /\
    ev_flags ev' = Z.lor (Z.lor (ev_flags ev) kFlagInnerParsed)
                     (if fragmented (tuple inner) then kFlagFragmented else 0)).
Proof.
  intros Hs Hd. unfold inner_event. generalize (flow_key (tuple inner)) as fk.
  generalize (if meter_inner_ip_length cfg then ip_total_len inner else u32 (size (payload h))) as nb.
  intros nb fk. unfold src_v4, dst_v4. rewrite !load_be32_Ok by lia.
  generalize (be32_at (src (tuple inner)) 0) (be32_at (dst (tuple inner)) 0). intros a b.
  generalize kFlagInnerParsed kFlagFragmented. intros fi ff.
  destruct (ip_version (tuple inner) =? 4); cbn [res_bind]; apply ensures_Ok;
    destruct (fragmented (tuple inner)); split_and!; try reflexivity; symmetry; apply Z.lor_0_r.
Qed.

Lemma inner_event_spec cfg h inner ts wire pdu : gtpu_extent pdu h -> is_gpdu h = true -> valid inner = true ->
  ip_ok (payload h) inner ->
  ensures (inner_event cfg h inner (base_event cfg h ts wire)) (event_of cfg h inner ts wire).
Proof.
  intros Hl Hg Hv (Ht & _ & _ & _ & _ & Hlen & _). pose proof (payload_small pdu h Hl) as Hp.
  destruct Ht as (Hs & Hd & _). destruct (base_event_fields cfg h ts wire) as (Hts & _).
  eapply ensures_mono; [by apply inner_event_fields|]. intros ev ([= E1 E2 E3 E4 E5 E6] & Hb & Hf & Hfl).
  rewrite u32_small in Hb by lia.
  apply (event_of_intro cfg h inner ts wire ev true (fragmented (tuple inner)) pdu); auto;
    rewrite ?Hg, ?Hv; cbn [negb andb]; auto.
  - congruence.
  - by rewrite Hfl, Z.lor_0_r.
  - rewrite Hb. destruct (meter_inner_ip_length cfg); lia.
Qed.

(** Congruences of the frame counters, modulo 2^64. *)
Record counts_add (t t' : IngestStats) (frames non_ip port perr gpdu ctl pushed dropped : Z) : Prop := {
  ca_frames : u64 (in_frames t') = u64 (in_frames t + frames);
  ca_non_ip : u64 (in_non_ip t') = u64 (in_non_ip t + non_ip);
  ca_port : u64 (in_not_gtpu_port t') = u64 (in_not_gtpu_port t + port);
  ca_perr : u64 (in_gtpu_parse_errors t') = u64 (in_gtpu_parse_errors t + perr);
  ca_gpdu : u64 (in_gtpu_gpdus t') = u64 (in_gtpu_gpdus t + gpdu);
  ca_ctl : u64 (in_gtpu_control t') = u64 (in_gtpu_control t + ctl);
  ca_pushed : u64 (in_events_pushed t') = u64 (in_events_pushed t + pushed);
  ca_dropped : u64 (in_events_dropped t') = u64 (in_events_dropped t + dropped)
}.

Lemma counts_same t t' : frame_counts t' = frame_counts t -> counts_add t t' 0 0 0 0 0 0 0 0.
Proof. intros H. injection H; intros. constructor; rewrite Z.add_0_r; congruence. Qed.

Lemma u64_incr x : u64 (incr x) = u64 (x + 1).
Proof. unfold incr, add64. apply u64_idem. Qed.

Lemma counts_trans t1 t2 t3 a b c d e f g h a' b' c' d' e' f' g' h' :
  counts_add t1 t2 a b c d e f g h -> counts_add t2 t3 a' b' c' d' e' f' g' h' ->
  counts_add t1 t3 (a + a') (b + b') (c + c') (d + d') (e + e') (f + f') (g + g') (h + h').
Proof.
  intros [] []. constructor; rewrite Z.add_assoc;
    (etransitivity; [eassumption|]); apply u64_add_cong; done.
Qed.

(** One G-PDU or control PDU: either refused by the parser, or its event offered
    to the metering ring exactly once. *)
Inductive gtpu_post (s : ingest) (pdu : Bytes) (ts wire : Z) (o : FrameOutcome.t) (s' : ingest) : Prop :=
| gp_refused st h : parse_gtpu pdu = Ok (st, h) -> st <> GtpuStatus.kOk -> o = FrameOutcome.kParseError ->
    pushes s s' [] [] -> counts_add (in_stats_ s) (in_stats_ s') 0 0 0 1 0 0 0 0 ->
    gtpu_post s pdu ts wire o s'
| gp_event h inner ev (ok : bool) : parse_gtpu pdu = Ok (GtpuStatus.kOk, h) ->
    (is_gpdu h = true -> parse_ip (payload h) = Ok inner) -> event_of (in_cfg_ s) h inner ts wire ev ->
    has_room (meter_ring_ s) ok -> pushes s s' (if ok then [ev] else []) [] ->
    o = (if ok then (if is_gpdu h then FrameOutcome.kMetered else FrameOutcome.kGtpuControl)
         else FrameOutcome.kDropped) ->
    counts_add (in_stats_ s) (in_stats_ s') 0 0 0 0 (if is_gpdu h then 1 else 0) (if is_gpdu h then 0 else 1)
      (if ok then 1 else 0) (if ok then 0 else 1) ->
    gtpu_post s pdu ts wire o s'.

Ltac count_tac := constructor; cbn; rewrite ?u64_incr, ?Z.add_0_r; reflexivity.

(** The end of [process_gtpu]: the event is pushed from a state [s1] in which
    the PDU was counted. *)
Lemma gtpu_push (s s1 : ingest) pdu h inner ev ts wire :
  parse_gtpu pdu = Ok (GtpuStatus.kOk, h) -> (is_gpdu h = true -> parse_ip (payload h) = Ok inner) ->
  event_of (in_cfg_ s) h inner ts wire ev -> rings_ok s -> pushes s s1 [] [] -> meter_ring_ s1 = meter_ring_ s ->
  counts_add (in_stats_ s) (in_stats_ s1) 0 0 0 0 (if is_gpdu h then 1 else 0) (if is_gpdu h then 0 else 1) 0 0 ->
  ensures (let* (ok, s) := push_event s1 ev in
           Ok (if (ok : bool) then (if is_gpdu h then FrameOutcome.kMetered else FrameOutcome.kGtpuControl)
               else FrameOutcome.kDropped, s)) (fun '(o, s') => gtpu_post s pdu ts wire o s').
Proof.
  intros Hparse Hip Hev Hr Hp Hm Hc. eapply ensures_bind; [apply (push_event_spec s1 ev); by eapply pushes_ok|].
  intros [ok s2] (Hroom & Hp2 & Hst). apply ensures_Ok. rewrite Hm in Hroom.
  apply (gp_event s pdu ts wire _ s2 h inner ev ok); auto.
  - by apply (pushes_trans s s1 s2 [] [] (if ok then [ev] else []) []).
  - assert (counts_add (in_stats_ s1) (in_stats_ s2) 0 0 0 0 0 0 (if ok then 1 else 0) (if ok then 0 else 1)) as Hc2
      by (rewrite Hst; destruct ok; count_tac).
    pose proof (counts_trans _ _ _ _ _ _ _ _ _ _ _ _ _ _ _ _ _ _ _ Hc Hc2) as Hc3.
    rewrite !Z.add_0_r, !Z.add_0_l in Hc3. done.
Qed.

Lemma process_gtpu_spec (s : ingest) pdu ts wire : rings_ok s ->
  ensures (process_gtpu s pdu ts wire) (fun '(o, s') => gtpu_post s pdu ts wire o s').
Proof.
  intros Hr. unfold process_gtpu. destruct (parse_gtpu_spec pdu) as ([st h] & Hparse & Hl). rewrite Hparse. cbn [res_bind].
  case_bool_decide as Hst; cbn [negb].
  2: { apply ensures_Ok. apply (gp_refused s pdu ts wire _ _ st h); auto; [|by case_match; count_tac].
       case_match; [|apply pushes_stats]. apply (pushes_trans _ (s <| in_stats_ ::= fun t => t <| in_gtpu_parse_errors ::= incr |> |>) _ [] [] [] []);
         apply pushes_stats. }
  subst st. specialize (Hl eq_refl). pose proof (payload_small pdu h Hl) as Hpl.
  destruct (base_event_fields (in_cfg_ s) h ts wire) as (Hts & _ & _ & _ & Hb0 & Hf0 & _).
  destruct (is_gpdu h) eqn:Hg; cbn [negb].
  - destruct (parse_ip_spec (payload h)) as (inner & Hip & Hv). rewrite Hip. cbn [res_bind].
    set (s1 := setf in_stats_ _ s).
    eapply (ensures_bind _ _ (fun '(ev, s2) => event_of (in_cfg_ s) h inner ts wire ev /\ pushes s s2 [] [] /\
      meter_ring_ s2 = meter_ring_ s /\ counts_add (in_stats_ s) (in_stats_ s2) 0 0 0 0 1 0 0 0)).
    + destruct (valid inner) eqn:Hval.
      * destruct Hv as [->|[_ Hok]]; [done|].
        eapply ensures_bind; [by apply (inner_event_spec (in_cfg_ s) h inner ts wire pdu)|].
        intros ev Hev. apply ensures_Ok. split_and!; [done|apply pushes_stats|done|count_tac].
      * apply ensures_Ok. split_and!; [|apply (pushes_trans s s1 _ [] [] [] []); apply pushes_stats|done|count_tac].
        apply (event_of_intro (in_cfg_ s) h inner ts wire _ false false pdu); auto; rewrite ?Hg, ?Hval; cbn [negb andb]; auto.
        -- cbn. by rewrite !Z.lor_0_r.
        -- apply u32_small. lia.
        -- apply u32_range.
    + intros [ev s2] (Hev & Hp & Hm & Hc).
      pose proof (gtpu_push s s2 pdu h inner ev ts wire Hparse (fun _ => Hip) Hev Hr Hp Hm) as Hpush.
      rewrite Hg in Hpush. by apply Hpush.
  - set (s1 := setf in_stats_ _ s). set (ev := setf ev_bytes _ _).
    pose proof (gtpu_push s s1 pdu h IpPacket_init ev ts wire Hparse) as Hpush. rewrite Hg in Hpush. apply Hpush; auto.
    + done.
    + apply (event_of_intro (in_cfg_ s) h IpPacket_init ts wire ev false false pdu); auto; rewrite ?Hg; cbn [negb andb]; auto.
      * cbn. by rewrite !Z.lor_0_r.
      * cbn. lia.
    + apply pushes_stats.
    + count_tac.
Qed.

(** ** Frames *)

Lemma vlan_loop_payload frame : forall n et off out p,
  vlan_loop n frame et off out = Ok (Return p) -> eth_payload p = eth_payload out.
Proof.
  induction n as [|n IH]; intros et off out p; cbn [vlan_loop]; [done|].
  case_if; [done|]. case_if; [by intros [= <-]|]. destruct (load_be16 frame (off + 2)); cbn [res_bind]; [|done|done].
  intros H. by apply IH in H.
Qed.

Lemma parse_ethernet_size frame : ensures (parse_ethernet frame) (fun e => size (eth_payload e) <= size frame).
Proof.
  pose proof (size_nonneg frame). unfold parse_ethernet, kEthHeaderLen, kMaxVlanTags.
  case_if; [by apply ensures_Ok|]. rewrite (load_be16_Ok frame 12) by lia. cbn [res_bind].
  destruct (vlan_loop_spec frame 2 (be16_at frame 12) (12 + 2) EthFrame_init)
    as (e & He0 & He); [lia|cbn; lia|apply be16_at_range|].
  rewrite He0. destruct e as [p|[[et' off] p]]; cbn [res_bind].
  - apply ensures_Ok. apply vlan_loop_payload in He0. rewrite He0. done.
  - destruct He as (Ho & _). rewrite subspan_from_Ok by lia. cbn [res_bind]. apply ensures_Ok. cbn.
    rewrite size_drop; lia.
Qed.

(** What one IP packet leads to. *)
Inductive ip_post (s : ingest) (pkt : Bytes) (ts wire : Z) (o : FrameOutcome.t) (s' : ingest) : Prop :=
| ip_other (ni np : Z) : o = FrameOutcome.kNotOurTraffic -> ni + np = 1 -> pushes s s' [] [] ->
    counts_add (in_stats_ s) (in_stats_ s') 0 ni np 0 0 0 0 0 -> ip_post s pkt ts wire o s'
| ip_gtpu outer : parse_ip pkt = Ok outer -> valid outer = true -> proto (tuple outer) = IpProto.kUdp ->
    (dst_port (tuple outer) = gtpu_port (in_cfg_ s) \/ src_port (tuple outer) = gtpu_port (in_cfg_ s)) ->
    gtpu_post s (l4_payload outer) ts wire o s' -> ip_post s pkt ts wire o s'
| ip_diameter : parse_diameter (in_cfg_ s) = true -> gy_only s (o, s') -> ip_post s pkt ts wire o s'.

Lemma process_ip_spec (s : ingest) pkt ts wire : rings_ok s -> size pkt < 2 ^ 63 ->
  ensures (process_ip s pkt ts wire) (fun '(o, s') => ip_post s pkt ts wire o s').
Proof.
  intros Hr H63. unfold process_ip. destruct (parse_ip_spec pkt) as (outer & Hip & Hv). rewrite Hip. cbn [res_bind].
  destruct (valid outer) eqn:Hval; cbn [negb].
  2: { apply ensures_Ok. apply (ip_other _ _ _ _ _ _ 1 0); [done|done|apply pushes_stats|count_tac]. }
  destruct Hv as [->|[_ Hok]]; [done|]. case_if.
  { eapply ensures_mono; [by apply process_gtpu_spec|]. intros [o s'] Hp.
    apply (ip_gtpu s pkt ts wire o s' outer); auto. apply orb_true_iff in H0. rewrite !Z.eqb_eq in H0. done. }
  destruct (parse_diameter (in_cfg_ s) && _ && _) eqn:Hd.
  { apply andb_true_iff in Hd as [[Hd _]%andb_true_iff _]. unfold process_diameter.
    assert (size (l4_payload outer) <= size pkt) as Hle by (apply view_of_size, Hok).
    pose proof (size_nonneg (l4_payload outer)).
    destruct (Z.eqb_spec (size (l4_payload outer)) 0).
    - apply ensures_Ok. apply ip_diameter; [done|]. split_and!; [exists []; apply pushes_refl|done|auto].
    - eapply ensures_mono; [apply (diameter_loop_spec (l4_payload outer) ts); [lia|done|lia|unfold size; lia]|].
      intros [o s']. by apply ip_diameter. }
  apply ensures_Ok. apply (ip_other _ _ _ _ _ _ 0 1); [done|done|apply pushes_stats|count_tac].
Qed.

(** A frame is counted, then its packet processed; what is not IP is counted. *)
Inductive frame_post (s : ingest) (frame : Bytes) (ts : Z) (o : FrameOutcome.t) (s' : ingest) : Prop :=
| fr_non_ip : o = FrameOutcome.kNotOurTraffic -> pushes s s' [] [] ->
    counts_add (in_stats_ s) (in_stats_ s') 1 1 0 0 0 0 0 0 -> frame_post s frame ts o s'
| fr_ip eth s0 : parse_ethernet frame = Ok eth -> eth_valid eth = true ->
    (in_cfg_ s0, meter_ring_ s0, gy_ring_ s0) = (in_cfg_ s, meter_ring_ s, gy_ring_ s) ->
    counts_add (in_stats_ s) (in_stats_ s0) 1 0 0 0 0 0 0 0 ->
    ip_post s0 (eth_payload eth) ts (u16 (size frame)) o s' -> frame_post s frame ts o s'.

Lemma process_frame_spec (s : ingest) frame ts : rings_ok s -> size frame < 2 ^ 63 ->
  ensures (process_frame s frame ts) (fun '(o, s') => frame_post s frame ts o s').
Proof.
  intros Hr H63. unfold process_frame. destruct (parse_ethernet_size frame) as (eth & He & Hsz).
  rewrite He. cbn [res_bind]. set (s0 := setf in_stats_ _ s).
  destruct (eth_valid eth) eqn:Hv; cbn [negb].
  - eapply ensures_mono; [apply (process_ip_spec s0); [done|lia]|]. intros [o s'] Hp.
    apply (fr_ip _ _ _ _ _ eth s0); auto. count_tac.
  - apply ensures_Ok. apply fr_non_ip; [done| |count_tac].
    apply (pushes_trans s s0 _ [] [] [] []); apply pushes_stats.
Qed.

Lemma pushes_rings (s0 s s' : ingest) e g :
  (in_cfg_ s0, meter_ring_ s0, gy_ring_ s0) = (in_cfg_ s, meter_ring_ s, gy_ring_ s) ->
  pushes s0 s' e g -> pushes s s' e g.
Proof. intros [= H1 H2 H3] []. constructor; congruence. Qed.

Lemma counts_after (t t0 t' : IngestStats) b c d e f g h : counts_add t t0 1 0 0 0 0 0 0 0 ->
  counts_add t0 t' 0 b c d e f g h -> counts_add t t' 1 b c d e f g h.
Proof.
  intros H1 H2. pose proof (counts_trans _ _ _ _ _ _ _ _ _ _ _ _ _ _ _ _ _ _ _ H1 H2) as H.
  by rewrite !Z.add_0_l, Z.add_0_r in H.
Qed.

(** The common consequence of every way a frame can go. *)
Lemma frame_summary (s s' : ingest) frame ts o : frame_post s frame ts o s' ->
  exists evs gys ni np pe gp ct pu dr, pushes s s' evs gys /\
    counts_add (in_stats_ s) (in_stats_ s') 1 ni np pe gp ct pu dr /\
    size evs <= 1 /\ size evs = pu /\ (0 <= ts < 2 ^ 64 -> Forall (fun ev => event_ok ev /\ ev_ts_ns ev = ts) evs) /\
    pu + dr = gp + ct /\ pu + dr <= 1 /\ 0 <= dr /\
    (parse_diameter (in_cfg_ s) = false -> ni + np + pe + gp + ct = 1) /\
    match o with
    | FrameOutcome.kMetered => gp = 1 /\ pu = 1 /\ size evs = match meter_ring_ s with Some _ => 1 | None => size evs end
    | FrameOutcome.kGtpuControl => ct = 1 /\ pu = 1
    | FrameOutcome.kDropped => dr = 1 /\ pu = 0
    | _ => pu = 0 /\ dr = 0 /\ evs = []
    end.
Proof.
  intros [-> Hp Hc|eth s0 _ _ Hs0 Hc0 Hip].
  { exists [], [], 1, 0, 0, 0, 0, 0, 0. split_and!; auto; try lia. done. }
  assert (in_cfg_ s0 = in_cfg_ s) as Hcfg by congruence.
  assert (forall e g, pushes s0 s' e g -> pushes s s' e g) as Hpu by (intros e g; by apply pushes_rings).
  destruct Hip as [ni np -> Hsum Hp Hc|outer _ _ _ _ Hg|Hpd (Hgy & Hfc & Ho)].
  - exists [], [], ni, np, 0, 0, 0, 0, 0. split_and!; auto; try lia; [by eapply counts_after|done].
  - destruct Hg as [st h _ _ -> Hp Hc|h inner ev ok _ _ Hev Hroom Hp -> Hc].
    + exists [], [], 0, 0, 1, 0, 0, 0, 0. split_and!; auto; try lia; [by eapply counts_after|done].
    + exists (if ok then [ev] else []), [], 0, 0, 0, (if is_gpdu h then 1 else 0), (if is_gpdu h then 0 else 1),
        (if ok then 1 else 0), (if ok then 0 else 1).
      split_and!; auto; try (by eapply counts_after); try (by destruct ok, (is_gpdu h)).
      * intros Hts. destruct ok; [|constructor]. constructor; [|constructor].
        split; [by apply (eo_ok _ _ _ _ _ _ Hev)|apply (eo_ids _ _ _ _ _ _ Hev)].
      * destruct ok, (is_gpdu h); split_and!; try done. by destruct (meter_ring_ s).
  - destruct Hgy as [gys Hp]. exists [], gys, 0, 0, 0, 0, 0, 0, 0. split_and!; auto; try lia; try done.
    + eapply counts_after; [exact Hc0|]. by apply counts_same.
    + intros Hn. congruence.
    + cbn in Ho. destruct Ho as [->|[->| ->]]; done.
Qed.

(** ** Sequences of frames *)

Fixpoint ingest_all (s : ingest) (frames : list (Bytes * Z)) : res (list FrameOutcome.t * ingest) :=
  match frames with
  | [] => Ok ([], s)
  | (f, ts) :: frames =>
      let* (o, s) := process_frame s f ts in
      let* (os, s) := ingest_all s frames in
      Ok (o :: os, s)
  end.

Definition count_outcome (o : FrameOutcome.t) (os : list FrameOutcome.t) : Z :=
  size (filter (fun x => x = o) os).

Lemma count_outcome_cons o x os : count_outcome o (x :: os) = (if decide (x = o) then 1 else 0) + count_outcome o os.
Proof. unfold count_outcome. rewrite list.filter_cons. case_decide; rewrite ?size_cons; lia. Qed.

(** The statistics against the outcomes reported for the frames: how many frames
    went each way, and that the counters say so. *)
Definition ingest_tally (t t' : IngestStats) (cfg : IngestConfig) (os : list FrameOutcome.t) : Prop :=
  exists ni np pe gp ct pu dr, counts_add t t' (size os) ni np pe gp ct pu dr /\ pu + dr = gp + ct /\
    pu = count_outcome FrameOutcome.kMetered os + count_outcome FrameOutcome.kGtpuControl os /\
    dr = count_outcome FrameOutcome.kDropped os /\
    (parse_diameter cfg = false -> ni + np + pe + gp + ct = size os).

(** The guarantee for a sequence of frames. *)
Definition frames_post (s : ingest) (frames : list (Bytes * Z)) : list FrameOutcome.t * ingest -> Prop :=
  fun '(os, s') => length os = length frames /\ rings_ok s' /\
    (exists evs gys, pushes s s' evs gys /\ size evs <= size frames /\
       size evs = count_outcome FrameOutcome.kMetered os + count_outcome FrameOutcome.kGtpuControl os /\
       (forall b, b <= 2 ^ 64 -> Forall (fun p => 0 <= p.2 < b) frames ->
          Forall (fun ev => event_ok ev /\ ev_ts_ns ev < b) evs)) /\
    ingest_tally (in_stats_ s) (in_stats_ s') (in_cfg_ s) os.

Lemma ingest_all_spec frames : forall s, rings_ok s -> Forall (fun p => size p.1 < 2 ^ 63) frames ->
  ensures (ingest_all s frames) (frames_post s frames).
Proof.
  induction frames as [|[f ts] frames IH]; intros s Hr Hf; cbn [ingest_all].
  { apply ensures_Ok. split_and!; [done|done|exists [], []; split_and!; [apply pushes_refl|done|done|constructor]|].
    exists 0, 0, 0, 0, 0, 0, 0. split_and!; [by apply counts_same|done..]. }
  apply Forall_cons_iff in Hf as [Hf1 Hf]. cbn in Hf1.
  eapply ensures_bind; [by apply (process_frame_spec s f ts)|]. intros [o s1] Hp.
  apply frame_summary in Hp as (ev1 & gy1 & ni & np & pe & gp & ct & pu & dr & Hpu & Hc & Hs1 & Hs1' & Hok & Hsum & Hpu0 & Hdr0 & Hcl & Ho).
  eapply ensures_bind; [apply (IH s1); [by eapply pushes_ok|done]|].
  intros [os s2] (Hlen & Hr2 & (ev2 & gy2 & Hp2 & Hs2 & Hs2' & Hok2) & (ni2 & np2 & pe2 & gp2 & ct2 & pu2 & dr2 & Hc2 & Hsum2 & Hpu2 & Hdr2 & Hcl2)).
  apply ensures_Ok. split_and!; [cbn; by rewrite Hlen|done| |].
  - exists (ev1 ++ ev2), (gy1 ++ gy2). split_and!; [by eapply pushes_trans|rewrite size_app, size_cons; lia| |].
    { rewrite size_app, !count_outcome_cons, Hs1', Hs2'. destruct o; repeat case_decide; try done; lia. }
    intros b Hb [Hts Hrest]%Forall_cons_iff. apply Forall_app. split; [|auto]. cbn in Hts.
    specialize (Hok ltac:(lia)). revert Hok. apply Forall_impl. intros ev [? <-]. split; [done|lia].
  - exists (ni + ni2), (np + np2), (pe + pe2), (gp + gp2), (ct + ct2), (pu + pu2), (dr + dr2).
    rewrite size_cons, !count_outcome_cons. rewrite (pu_cfg _ _ _ _ Hpu) in Hcl2. split_and!.
    + by eapply counts_trans.
    + lia.
    + destruct o; cbn [decide]; repeat case_decide; try done; lia.
    + destruct o; repeat case_decide; try done; lia.
    + intros Hn. specialize (Hcl2 Hn). specialize (Hcl Hn). lia.
Qed.

(** C22: the ingest path survives every input.  For every sequence of frames (any
    bytes, any lengths a buffer can have) [process_frame] returns each time: no
    parser reads outside its buffer and no loop runs away.  At most one metering
    event per frame enters the metering ring, every one of them well-typed, and
    both rings remain queues. *)
Theorem ingest_never_faults (s : ingest) frames : rings_ok s -> Forall (fun p => size p.1 < 2 ^ 63) frames ->
  ensures (ingest_all s frames) (fun '(os, s') => length os = length frames /\ rings_ok s' /\
    exists evs gys, pushes s s' evs gys /\ size evs <= size frames /\
      (Forall (fun p => 0 <= p.2 < 2 ^ 64) frames -> Forall event_ok evs)).
Proof.
  intros Hr Hf. eapply ensures_mono; [by apply ingest_all_spec|]. intros [os s'] (H1 & H2 & (evs & gys & Hp & Hs & _ & Hok) & _).
  split; [done|]. split; [done|]. exists evs, gys. split; [done|]. split; [done|]. intros Hts.
  specialize (Hok _ (Z.le_refl _) Hts). revert Hok. apply Forall_impl. by intros ev [? _].
Qed.

(** Every frame is accounted for.  From fresh statistics, after any sequence of
    frames: [frames] counts them; each G-PDU or control PDU offered exactly one
    event to the ring, which was either pushed or counted as dropped; the pushed
    and dropped counters are the numbers of frames with those outcomes; and with
    Diameter parsing off every frame is in exactly one of the five classes
    (non-IP, other port, GTP-U error, G-PDU, control).  All counters modulo 2^64. *)
Theorem ingest_accounts meter gy cfg frames : ring_ok meter -> ring_ok gy ->
  Forall (fun p => size p.1 < 2 ^ 63) frames ->
  ensures (ingest_all (Ingest_new meter gy cfg) frames) (fun '(os, s') =>
    exists ni np pe gp ct pu dr, counts_add IngestStats_init (in_stats_ s') (size frames) ni np pe gp ct pu dr /\
      pu + dr = gp + ct /\
      pu = count_outcome FrameOutcome.kMetered os + count_outcome FrameOutcome.kGtpuControl os /\
      dr = count_outcome FrameOutcome.kDropped os /\
      (parse_diameter cfg = false -> ni + np + pe + gp + ct = size frames)).
Proof.
  intros Hm Hg Hf. eapply ensures_mono; [apply (ingest_all_spec frames (Ingest_new meter gy cfg)); [by split|done]|].
  intros [os s'] (Hlen & _ & _ & Ht). assert (size frames = size os) as -> by (unfold size; by rewrite Hlen).
  exact Ht.
Qed.

(** A frame that leads to an accepted G-PDU. *)
Lemma gpdu_frame_post (s : ingest) frame ts eth outer h : rings_ok s -> size frame < 2 ^ 63 ->
  parse_ethernet frame = Ok eth -> eth_valid eth = true ->
  parse_ip (eth_payload eth) = Ok outer -> valid outer = true -> proto (tuple outer) = IpProto.kUdp ->
  dst_port (tuple outer) = gtpu_port (in_cfg_ s) ->
  parse_gtpu (l4_payload outer) = Ok (GtpuStatus.kOk, h) -> is_gpdu h = true ->
  ensures (process_frame s frame ts) (fun '(o, s') => exists inner ev (ok : bool),
    parse_ip (payload h) = Ok inner /\ event_of (in_cfg_ s) h inner ts (u16 (size frame)) ev /\ has_room (meter_ring_ s) ok /\
    pushes s s' (if ok then [ev] else []) [] /\ o = (if ok then FrameOutcome.kMetered else FrameOutcome.kDropped) /\
    counts_add (in_stats_ s) (in_stats_ s') 1 0 0 0 1 0 (if ok then 1 else 0) (if ok then 0 else 1)).
Proof.
  intros Hr H63 He Hev Hip Hv Hpr Hport Hg Hgp. unfold process_frame. rewrite He. cbn [res_bind].
  rewrite Hev. cbn [negb]. unfold process_ip. rewrite Hip. cbn [res_bind]. rewrite Hv. cbn [negb].
  set (s0 := setf in_stats_ _ s). change (in_cfg_ s0) with (in_cfg_ s).
  rewrite (proj2 (Z.eqb_eq _ _) Hpr), (proj2 (Z.eqb_eq _ _) Hport). cbn [andb orb].
  eapply ensures_mono; [by apply (process_gtpu_spec s0)|]. intros [o s'] Hp.
  destruct Hp as [st h' Hg' Hst|h' inner ev ok Hg' Hin Hevo Hroom Hpush -> Hc]; [congruence|].
  assert (h' = h) as -> by congruence. exists inner, ev, ok. rewrite Hgp in *. split_and!; auto.
  - by eapply (pushes_rings s0 s).
  - eapply counts_after; [|exact Hc]. count_tac.
Qed.

Lemma gpdu_frame (s : ingest) frame ts eth outer h q l : rings_ok s -> size frame < 2 ^ 63 ->
  parse_ethernet frame = Ok eth -> eth_valid eth = true ->
  parse_ip (eth_payload eth) = Ok outer -> valid outer = true -> proto (tuple outer) = IpProto.kUdp ->
  dst_port (tuple outer) = gtpu_port (in_cfg_ s) ->
  parse_gtpu (l4_payload outer) = Ok (GtpuStatus.kOk, h) -> is_gpdu h = true ->
  meter_ring_ s = Some q -> q_repr q l ->
  ensures (process_frame s frame ts) (fun '(o, s') => exists inner ev q',
    parse_ip (payload h) = Ok inner /\ event_of (in_cfg_ s) h inner ts (u16 (size frame)) ev /\
    meter_ring_ s' = Some q' /\
    if size l <? q_cap q then o = FrameOutcome.kMetered /\ q_repr q' (l ++ [ev])
    else o = FrameOutcome.kDropped /\ q_repr q' l).
Proof.
  intros Hr H63 He Hev Hip Hv Hpr Hport Hg Hgp Hq Hl. eapply ensures_mono; [by apply (gpdu_frame_post s frame ts eth outer h)|].
  intros [o s'] (inner & ev & ok & Hin & Hevo & Hroom & [_ Hpm _] & -> & _). rewrite Hq in Hroom, Hpm. rewrite (Hroom l Hl) in *.
  unfold ring_pushed in Hpm. destruct (meter_ring_ s') as [q'|]; [|done]. destruct Hpm as [_ Hpm]. specialize (Hpm l Hl).
  exists inner, ev, q'. split_and!; auto. destruct (size l <? q_cap q); [done|]. by rewrite app_nil_r in Hpm.
Qed.

(** C13: a G-PDU is metered exactly.  For a frame whose Ethernet and IP layers lead
    to UDP on the GTP-U port and whose GTP-U PDU is an accepted G-PDU, with room
    in the metering ring exactly one event is appended: its TEID, QFI and
    direction are the header's, its byte count is the inner packet's IP length
    (or the tunnelled bytes when the payload is not IP), it is not marked as
    control, and the outcome is [kMetered].  With the ring full nothing is
    appended and the outcome is [kDropped]. *)
Theorem gpdu_event_exact (s : ingest) frame ts eth outer h q l : rings_ok s -> size frame < 2 ^ 63 ->
  parse_ethernet frame = Ok eth -> eth_valid eth = true ->
  parse_ip (eth_payload eth) = Ok outer -> valid outer = true -> proto (tuple outer) = IpProto.kUdp ->
  dst_port (tuple outer) = gtpu_port (in_cfg_ s) ->
  parse_gtpu (l4_payload outer) = Ok (GtpuStatus.kOk, h) -> is_gpdu h = true ->
  meter_ring_ s = Some q -> q_repr q l ->
  ensures (process_frame s frame ts) (fun '(o, s') => exists inner ev q',
    parse_ip (payload h) = Ok inner /\ event_of (in_cfg_ s) h inner ts (u16 (size frame)) ev /\
    meter_ring_ s' = Some q' /\
    if size l <? q_cap q then o = FrameOutcome.kMetered /\ q_repr q' (l ++ [ev])
    else o = FrameOutcome.kDropped /\ q_repr q' l).
Proof. apply gpdu_frame. Qed.

(** The Gy events of a credit-control message come out in order, one per MSCC
    block (one if there is none): those the ring accepts are a sublist of the
    blocks' events in block order, the others are counted as dropped, and the
    result says whether at least one was delivered. *)
Lemma gy_events_in_order (s : ingest) gy ts : rings_ok s -> 0 <= mscc_count gy <= 8 -> size (mscc gy) = 8 ->
  ensures (emit_gy_events s gy ts) (fun '(any, s') => exists evs kept,
    size evs = (if mscc_count gy =? 0 then 1 else mscc_count gy) /\
    (forall i ev, evs !! i = Some ev -> gy_event gy ts (Z.of_nat i) = Ok ev) /\
    kept `sublist_of` evs /\ pushes s s' [] kept /\ any = negb (size kept =? 0) /\
    u64 (in_gy_events (in_stats_ s')) = u64 (in_gy_events (in_stats_ s) + size evs) /\
    u64 (in_gy_events_dropped (in_stats_ s')) = u64 (in_gy_events_dropped (in_stats_ s) + (size evs - size kept))).
Proof.
  intros Hr Hc Hs. eapply ensures_mono; [by apply emit_gy_events_spec; [|split]|].
  intros [any s'] (kept & (evs & Hlen & Hev & Hsub & Hp & (Hg1 & Hg2 & _)) & ->). exists evs, kept.
  assert (Z.of_nat (Z.to_nat (gy_blocks gy)) = size evs) as Hsz by (unfold size; by rewrite Hlen).
  rewrite Hsz in Hg1, Hg2. split_and!; auto.
  rewrite <- Hsz. unfold gy_blocks. case_if; lia.
Qed.
End Ingest.

(** ** A concrete frame *)

Definition sample_inner : Bytes :=
  map to_byte [0x45; 0; 0; 30; 0; 0; 0x40; 0; 64; 17; 0; 0; 10; 0; 0; 1; 10; 0; 0; 2; 3; 232; 7; 208; 0; 10; 0; 0; 1; 2].
Definition sample_gpdu : Bytes := map to_byte [0x30; 255; 0; 30; 0; 0; 0x10; 0x01] ++ sample_inner.
Definition sample_frame : Bytes :=
  map to_byte ([2; 3; 4; 5; 6; 7; 10; 11; 12; 13; 14; 15; 8; 0] ++
    [0x45; 0; 0; 66; 0; 0; 0x40; 0; 64; 17; 0; 0; 192; 168; 1; 1; 192; 168; 1; 2; 8; 104; 8; 104; 0; 46; 0; 0]) ++ sample_gpdu.

Definition sample_ring {T} (d : T) : SpscRing T :=
  match SpscRing_new d 4 with Ok r => r | _ => mkSpscRing 0 0 [] 0 0 0 0 end.
Definition sample_ingest : Ingest (SpscRing MeterEvent) (SpscRing GyEvent) :=
  Ingest_new (Some (sample_ring MeterEvent_init)) (Some (sample_ring GyEvent_init)) IngestConfig_init.

Lemma sample_ring_empty {T} (d : T) : q_repr (sample_ring d) [].
Proof.
  destruct (new_inv d 4) as (r & E & k & Hk & _); [lia|]. unfold sample_ring. rewrite E.
  exists 0, 0, 0, 0, k. split_and!; [done|done|]. intros i v Hi. by destruct i.
Qed.
Lemma sample_rings_ok : rings_ok sample_ingest.
Proof. split; exists []; apply sample_ring_empty. Qed.

Lemma ingest_never_faults_witness :
  ensures (@ingest_all little _ _ _ _ sample_ingest [(sample_frame, 5); ([], 6)]) (fun '(os, s') => length os = 2%nat /\ rings_ok s').
Proof.
  eapply ensures_mono.
  - apply (@ingest_never_faults little _ _ _ _ sample_ingest [(sample_frame, 5); ([], 6)]).
    + apply sample_rings_ok.
    + repeat constructor.
  - intros [os s'] (Hl & Hr & _). split; [exact Hl|exact Hr].
Defined.

Lemma ingest_accounts_witness :
  ensures (@ingest_all little _ _ _ _ sample_ingest [(sample_frame, 5); ([], 6)]) (fun '(os, s') => u64 (in_frames (in_stats_ s')) = u64 2).
Proof.
  eapply ensures_mono.
  - apply (@ingest_accounts little _ _ _ _ (Some (sample_ring MeterEvent_init)) (Some (sample_ring GyEvent_init)) IngestConfig_init
             [(sample_frame, 5); ([], 6)]).
    + exists []. apply sample_ring_empty.
    + exists []. apply sample_ring_empty.
    + repeat constructor.
  - intros [os s'] (ni & np & pe & gp & ct & pu & dr & Hc & _). exact (ca_frames _ _ _ _ _ _ _ _ _ _ Hc).
Defined.

Definition sample_eth : EthFrame :=
  match @parse_ethernet little sample_frame with Ok e => e | _ => EthFrame_init end.
Definition sample_outer : IpPacket :=
  match @parse_ip little (eth_payload sample_eth) with Ok p => p | _ => IpPacket_init end.
Definition sample_gtpu_header : GtpuHeader :=
  match @parse_gtpu little (l4_payload sample_outer) with Ok (_, h) => h | _ => GtpuHeader_init end.

Lemma gpdu_event_exact_witness :
  teid sample_gtpu_header = 0x1001 /\
  ensures (@process_frame little _ _ _ _ sample_ingest sample_frame 5) (fun '(o, s') => o = FrameOutcome.kMetered).
Proof.
  split; [vm_compute; reflexivity|]. eapply ensures_mono.
  - apply (@gpdu_event_exact little _ _ _ _ sample_ingest sample_frame 5 sample_eth sample_outer sample_gtpu_header
             (sample_ring MeterEvent_init) []).
    + apply sample_rings_ok.
    + vm_compute. reflexivity.
    + vm_compute. reflexivity.
    + vm_compute. reflexivity.
    + vm_compute. reflexivity.
    + vm_compute. reflexivity.
    + vm_compute. reflexivity.
    + vm_compute. reflexivity.
    + vm_compute. reflexivity.
    + vm_compute. reflexivity.
    + reflexivity.
    + apply sample_ring_empty.
  - intros [o s'] (inner & ev & q' & _ & _ & _ & Hif). exact (proj1 Hif).
Defined.

Lemma gy_events_in_order_witness :
  ensures (emit_gy_events sample_ingest GyMessage_init 5) (fun '(any, s') => exists kept : list GyEvent, any = negb (size kept =? 0)).
Proof.
  eapply ensures_mono.
  - apply (gy_events_in_order sample_ingest GyMessage_init 5).
    + apply sample_rings_ok.
    + cbn. lia.
    + reflexivity.
  - intros [any s'] (evs & kept & _ & _ & _ & _ & Ha & _). exists kept. exact Ha.
Defined.
