(* ===== verification/Synth.v ===== *)
(** * include/gtpm/synth.hpp: building packets

    The builders the tests, benchmarks and the capture generator share.  A
    [Buf] is a byte list; [put_*] append to it.  Loops that pad are given the
    iterations they can need as fuel. *)

From S2P Require Import Prelude ByteOrder Gtpu Net Diameter.

Abbreviation Buf := (list byte) (only parsing).

Definition push_back (b : Buf) (v : Z) : Buf := b ++ [to_byte v].
Definition put_be16 (b : Buf) (v : Z) : Buf := push_back (push_back b (Z.shiftr v 8)) v.
Definition put_be24 (b : Buf) (v : Z) : Buf :=
  push_back (push_back (push_back b (Z.shiftr v 16)) (Z.shiftr v 8)) v.
Definition put_be32 (b : Buf) (v : Z) : Buf :=
  push_back (push_back (push_back (push_back b (Z.shiftr v 24)) (Z.shiftr v 16)) (Z.shiftr v 8)) v.
Definition put_be64 (b : Buf) (v : Z) : Buf :=
  foldl (fun b i => push_back b (Z.shiftr v (i * 8))) b [7; 6; 5; 4; 3; 2; 1; 0].
Definition put_bytes (b : Buf) (s : Bytes) : Buf := b ++ s.

Section Checksum.
Context {HE : HostEndian}.

(** The loop over 16-bit words, [n] of them left, then the odd byte. *)
Fixpoint sum_words (n : nat) (data : Bytes) (i sum : Z) : res Z :=
  match n with
  | O => Ok sum
  | S n => let* w := load_be16 data i in sum_words n data (i + 2) (u32 (sum + w))
  end.

(** [while (sum >> 16) sum = (sum & 0xFFFF) + (sum >> 16)]. *)
Fixpoint fold16 (fuel : nat) (sum : Z) : res Z :=
  match fuel with
  | O => Fuel
  | S fuel =>
      if Z.shiftr sum 16 =? 0 then Ok sum
      else fold16 fuel (u32 (Z.land sum 0xFFFF + Z.shiftr sum 16))
  end.

(** Two folds bring a 32-bit sum below 2^16. *)
Definition checksum16 (data : Bytes) (seed : Z) : res Z :=
  let len := size data in
  let* sum := sum_words (Z.to_nat (len / 2)) data 0 seed in
  let i := len / 2 * 2 in
  let* sum := (if i <? len then let* b := rd data i in Ok (u32 (sum + Z.shiftl b 8)) else Ok sum) in
  let* sum := fold16 3 sum in
  Ok (u16 (Z.land (Z.lnot sum) 0xFFFF)).
End Checksum.

Definition ipv4 (a b c d : Z) : Z := Z.lor (Z.lor (Z.lor (Z.shiftl a 24) (Z.shiftl b 16)) (Z.shiftl c 8)) d.

(** ** L3 / L4 *)

Record UdpSpec := mkUdpSpec { us_src_ip : Z; us_dst_ip : Z; us_src_port : Z; us_dst_port : Z; us_ttl : Z }.
Definition UdpSpec_init : UdpSpec := mkUdpSpec (ipv4 10 0 0 1) (ipv4 10 0 0 2) 1000 2000 64.

Record Udp6Spec := mkUdp6Spec {
  u6_src : IpAddr; u6_dst : IpAddr; u6_src_port : Z; u6_dst_port : Z; u6_hop_limit : Z }.

Section L3.
Context {HE : HostEndian}.

Definition ipv4_header (src dst proto total_len ttl frag_flags : Z) : res Bytes :=
  let h := replicate 20 x00 in
  let* h := store8 h 0 0x45 in
  let* h := store8 h 1 0x00 in
  let* h := store_be16 h 2 total_len in
  let* h := store_be16 h 4 0 in
  let* h := store_be16 h 6 frag_flags in
  let* h := store8 h 8 ttl in
  let* h := store8 h 9 proto in
  let* h := store_be16 h 10 0 in
  let* h := store_be32 h 12 src in
  let* h := store_be32 h 16 dst in
  let* ck := checksum16 h 0 in
  store_be16 h 10 ck.

Definition build_ipv4_udp (s : UdpSpec) (payload : Bytes) : res Buf :=
  let udp_len := u16 (8 + size payload) in
  let total_len := u16 (20 + udp_len) in
  let* header := ipv4_header (us_src_ip s) (us_dst_ip s) IpProto.kUdp total_len (us_ttl s) 0x4000 in
  let ip := [] ++ header in
  let ip := put_be16 ip (us_src_port s) in
  let ip := put_be16 ip (us_dst_port s) in
  let ip := put_be16 ip udp_len in
  let ip := put_be16 ip 0 in
  Ok (put_bytes ip payload).

Definition build_ipv4_tcp (s : UdpSpec) (payload : Bytes) (seq tcp_flags : Z) : res Buf :=
  let tcp_len := u16 (20 + size payload) in
  let total_len := u16 (20 + tcp_len) in
  let* header := ipv4_header (us_src_ip s) (us_dst_ip s) IpProto.kTcp total_len (us_ttl s) 0x4000 in
  let ip := [] ++ header in
  let ip := put_be16 ip (us_src_port s) in
  let ip := put_be16 ip (us_dst_port s) in
  let ip := put_be32 ip seq in
  let ip := put_be32 ip 0 in
  let ip := push_back ip 0x50 in
  let ip := push_back ip tcp_flags in
  let ip := put_be16 ip 0xFFFF in
  let ip := put_be16 ip 0 in
  let ip := put_be16 ip 0 in
  Ok (put_bytes ip payload).

(** [ipv6_from] from byte [i] on; the loop stops when two bytes no longer fit. *)
Fixpoint ipv6_from_loop (groups : list Z) (a : Bytes) (i : Z) : res IpAddr :=
  match groups with
  | [] => Ok a
  | g :: groups =>
      if size a <=? i + 1 then Ok a else
      let* a := store_be16 a i g in
      ipv6_from_loop groups a (i + 2)
  end.
Definition ipv6_from (groups : list Z) : res IpAddr := ipv6_from_loop groups IpAddr_zero 0.

Definition build_ipv6_udp (s : Udp6Spec) (payload : Bytes) : Buf :=
  let udp_len := u16 (8 + size payload) in
  let ip := put_be32 [] 0x60000000 in
  let ip := put_be16 ip udp_len in
  let ip := push_back ip IpProto.kUdp in
  let ip := push_back ip (u6_hop_limit s) in
  let ip := ip ++ u6_src s in
  let ip := ip ++ u6_dst s in
  let ip := put_be16 ip (u6_src_port s) in
  let ip := put_be16 ip (u6_dst_port s) in
  let ip := put_be16 ip udp_len in
  let ip := put_be16 ip 0 in
  put_bytes ip payload.

(** The loop over the VLAN tags, [n] left. *)
Fixpoint put_tags (n : nat) (f : Buf) (vlan_id : Z) : Buf :=
  match n with O => f | S n => put_tags n (put_be16 (put_be16 f kEtherTypeVlan) vlan_id) vlan_id end.

Definition build_ethernet (ip_packet : Bytes) (ethertype vlan_tags vlan_id : Z) : Buf :=
  let f := foldl (fun f i => push_back f (0x02 + i)) [] [0; 1; 2; 3; 4; 5] in
  let f := foldl (fun f i => push_back f (0x0A + i)) f [0; 1; 2; 3; 4; 5] in
  let f := put_tags (Z.to_nat vlan_tags) f vlan_id in
  let f := put_be16 f ethertype in
  put_bytes f ip_packet.
End L3.

(** ** GTP-U *)

Record GtpuSpec := mkGtpuSpec {
  gs_teid : Z;
  gs_msg_type : Z;
  gs_with_seq : bool;
  gs_seq : Z;
  gs_with_npdu : bool;
  gs_npdu : Z;
  gs_with_qfi : bool;
  gs_qfi : Z;
  gs_pdu_type : Z;
  gs_rqi : bool;
  gs_extra_ext : list (Z * Buf)
}.
Definition GtpuSpec_init : GtpuSpec :=
  mkGtpuSpec 0x1000 GtpuMsgType.kGpdu false 0 false 0 false 0 0 false [].

(** [while ((content.size() + 2) % 4 != 0) content.push_back(0)]: at most three. *)
Fixpoint pad_content (fuel : nat) (content : Buf) : res Buf :=
  match fuel with
  | O => Fuel
  | S fuel => if (size content + 2) mod 4 =? 0 then Ok content else pad_content fuel (push_back content 0)
  end.

(** The loop over the chain. *)
Fixpoint put_chain (chain : list (Z * Buf)) (ext : Buf) : res Buf :=
  match chain with
  | [] => Ok ext
  | (_, content) :: rest =>
      let* content := pad_content 4 content in
      let total := size content + 2 in
      let ext := push_back ext (total / 4) in
      let ext := put_bytes ext content in
      let ext := push_back ext (match rest with (t, _) :: _ => t | [] => GtpuExtType.kNone end) in
      put_chain rest ext
  end.

Definition build_gtpu (s : GtpuSpec) (payload : Bytes) : res Buf :=
  let chain :=
    if gs_with_qfi s then
      let content := push_back [] (Z.shiftl (gs_pdu_type s) 4) in
      let content := push_back content (Z.lor (if gs_rqi s then 0x40 else 0x00) (Z.land (gs_qfi s) 0x3F)) in
      gs_extra_ext s ++ [(GtpuExtType.kPduSessionContainer, content)]
    else gs_extra_ext s in
  let first_ext_type := match chain with (t, _) :: _ => t | [] => GtpuExtType.kNone end in
  let* ext := put_chain chain [] in
  let ext_empty := size ext =? 0 in
  let has_optional := gs_with_seq s || gs_with_npdu s || negb ext_empty in
  let flags := 0x30 in
  let flags := if negb ext_empty then Z.lor flags 0x04 else flags in
  let flags := if gs_with_seq s then Z.lor flags 0x02 else flags in
  let flags := if gs_with_npdu s then Z.lor flags 0x01 else flags in
  let optional_len := if has_optional then kGtpuOptionalFieldsLen else 0 in
  let length := u16 (optional_len + size ext + size payload) in
  let out := push_back [] flags in
  let out := push_back out (gs_msg_type s) in
  let out := put_be16 out length in
  let out := put_be32 out (gs_teid s) in
  let out :=
    if has_optional then
      let out := put_be16 out (gs_seq s) in
      let out := push_back out (gs_npdu s) in
      let out := push_back out first_ext_type in
      put_bytes out ext
    else out in
  Ok (put_bytes out payload).

Definition build_gtpu_frame {HE : HostEndian} (gs : GtpuSpec) (inner_ip : Bytes) (outer_src outer_dst : Z) : res Buf :=
  let* gtp := build_gtpu gs inner_ip in
  let us := mkUdpSpec outer_src outer_dst kGtpuPort kGtpuPort 64 in
  let* ip := build_ipv4_udp us gtp in
  Ok (build_ethernet ip kEtherTypeIpv4 0 100).

Definition filler (n seed : Z) : Buf := map (fun i => to_byte (seed + i * 31 + 7)) (seqZ 0 n).

(** ** Diameter *)

Definition kAvpFlagVendor : Z := 0x80.
Definition kAvpFlagMandatory : Z := 0x40.

(** [while ((out.size() % 4) != 0) out.push_back(0)]. *)
Fixpoint pad_avp (fuel : nat) (out : Buf) : res Buf :=
  match fuel with
  | O => Fuel
  | S fuel => if size out mod 4 =? 0 then Ok out else pad_avp fuel (push_back out 0)
  end.

Definition put_avp (out : Buf) (code : Z) (data : Bytes) (flags vendor_id : Z) : res Buf :=
  let vendor := negb (Z.land flags kAvpFlagVendor =? 0) in
  let hdr := if vendor then 12 else 8 in
  let len := u32 (hdr + u32 (size data)) in
  let out := put_be32 out code in
  let out := push_back out flags in
  let out := put_be24 out len in
  let out := if vendor then put_be32 out vendor_id else out in
  let out := put_bytes out data in
  pad_avp 4 out.

Definition put_avp_u32 (out : Buf) (code value flags : Z) : res Buf :=
  put_avp out code (put_be32 [] value) flags 0.
Definition put_avp_u64 (out : Buf) (code value flags : Z) : res Buf :=
  put_avp out code (put_be64 [] value) flags 0.
Definition put_avp_str (out : Buf) (code : Z) (s : Bytes) (flags : Z) : res Buf :=
  put_avp out code s flags 0.
Definition put_avp_grouped (out : Buf) (code : Z) (contents : Buf) (flags : Z) : res Buf :=
  put_avp out code contents flags 0.

Definition build_diameter (command_code app_id : Z) (request : bool) (avps : Buf) (hop_by_hop end_to_end : Z) : Buf :=
  let len := u32 (kDiameterHeaderLen + size avps) in
  let out := push_back [] 1 in
  let out := put_be24 out len in
  let out := push_back out (if request then 0x80 else 0x00) in
  let out := put_be24 out command_code in
  let out := put_be32 out app_id in
  let out := put_be32 out hop_by_hop in
  let out := put_be32 out end_to_end in
  put_bytes out avps.

Record GySpec := mkGySpec {
  sy_session_id : Bytes;
  sy_origin_host : Bytes;
  sy_origin_realm : Bytes;
  sy_imsi : Bytes;
  sy_request_type : Z;
  sy_request_number : Z;
  sy_rating_group : Z;
  sy_used_input : Z;
  sy_used_output : Z;
  sy_granted_total : Z;
  sy_include_mscc : bool;
  sy_result_code : Z
}.
Definition str (s : string) : Bytes := String.list_byte_of_string s.
Definition GySpec_init : GySpec :=
  mkGySpec (str "ocs.example.com;1;1;0") (str "pgw.example.com") (str "example.com") (str "310150123456789")
    CcRequestType.kUpdate 1 10 0 0 0 true kResultSuccess.

Definition build_ccr (s : GySpec) : res Buf :=
  let m := kAvpFlagMandatory in
  let* avps := put_avp_str [] AvpCode.kSessionId (sy_session_id s) m in
  let* avps := put_avp_str avps AvpCode.kOriginHost (sy_origin_host s) m in
  let* avps := put_avp_str avps AvpCode.kOriginRealm (sy_origin_realm s) m in
  let* avps := put_avp_u32 avps AvpCode.kCcRequestType (sy_request_type s) m in
  let* avps := put_avp_u32 avps AvpCode.kCcRequestNumber (sy_request_number s) m in
  let* sub := put_avp_u32 [] AvpCode.kSubscriptionIdType SubscriptionIdType.kImsi m in
  let* sub := put_avp_str sub AvpCode.kSubscriptionIdData (sy_imsi s) m in
  let* avps := put_avp_grouped avps AvpCode.kSubscriptionId sub m in
  let* avps :=
    (if sy_include_mscc s then
       let* usu := put_avp_u64 [] AvpCode.kCcInputOctets (sy_used_input s) m in
       let* usu := put_avp_u64 usu AvpCode.kCcOutputOctets (sy_used_output s) m in
       let* usu := put_avp_u64 usu AvpCode.kCcTotalOctets (add64 (sy_used_input s) (sy_used_output s)) m in
       let* mscc := put_avp_u32 [] AvpCode.kRatingGroup (sy_rating_group s) m in
       let* mscc := put_avp_grouped mscc AvpCode.kUsedServiceUnit usu m in
       put_avp_grouped avps AvpCode.kMultipleServicesCreditControl mscc m
     else Ok avps) in
  Ok (build_diameter DiameterCommand.kCreditControl DiameterApp.kCreditControl true avps 0x11111111 0x22222222).

Definition build_cca (s : GySpec) : res Buf :=
  let m := kAvpFlagMandatory in
  let* avps := put_avp_str [] AvpCode.kSessionId (sy_session_id s) m in
  let* avps := put_avp_u32 avps AvpCode.kResultCode (sy_result_code s) m in
  let* avps := put_avp_str avps AvpCode.kOriginHost (str "ocs.example.com") m in
  let* avps := put_avp_str avps AvpCode.kOriginRealm (sy_origin_realm s) m in
  let* avps := put_avp_u32 avps AvpCode.kCcRequestType (sy_request_type s) m in
  let* avps := put_avp_u32 avps AvpCode.kCcRequestNumber (sy_request_number s) m in
  let* avps :=
    (if sy_include_mscc s then
       let* gsu := put_avp_u64 [] AvpCode.kCcTotalOctets (sy_granted_total s) m in
       let* mscc := put_avp_u32 [] AvpCode.kRatingGroup (sy_rating_group s) m in
       let* mscc := put_avp_grouped mscc AvpCode.kGrantedServiceUnit gsu m in
       let* mscc := put_avp_u32 mscc AvpCode.kResultCode (sy_result_code s) m in
       put_avp_grouped avps AvpCode.kMultipleServicesCreditControl mscc m
     else Ok avps) in
  Ok (build_diameter DiameterCommand.kCreditControl DiameterApp.kCreditControl false avps 0x11111111 0x22222222).
