(* ===== verification/SynthProps.v ===== *)
(** * The packet builders against the parsers

    [synth.hpp] builds what [gtpu.hpp], [net.hpp] and [diameter.hpp] parse.
    The builders are first brought into the form of the wire grammars of
    [Gtpu], [Net] and [Diameter] (byte images appended to each other); the
    round trips then follow from the completeness lemmas of the parsers. *)

From S2P Require Import Prelude ByteOrder Gtpu Net Diameter Synth.

(** ** The [put_*] functions append byte images *)

Lemma put_be16_app b v : put_be16 b v = b ++ be16_bytes v.
Proof. unfold put_be16, push_back. by rewrite <- app_assoc. Qed.

Lemma put_be24_app b v : put_be24 b v = b ++ be24_bytes v.
Proof. unfold put_be24, push_back. by rewrite <- !app_assoc. Qed.

Lemma put_be32_app b v : put_be32 b v = b ++ be32_bytes v.
Proof.
  unfold put_be32, push_back, be32_bytes, be16_bytes. rewrite <- !app_assoc. cbn [app].
  by rewrite !Z.shiftr_shiftr by lia.
Qed.

Lemma put_be64_app b v : put_be64 b v = b ++ be64_bytes v.
Proof.
  unfold put_be64, push_back, be64_bytes, be32_bytes, be16_bytes. cbn [foldl].
  rewrite <- !app_assoc. cbn [app]. rewrite !Z.shiftr_shiftr by lia.
  repeat (f_equal; try reflexivity).
Qed.

Lemma push_back_app b v : push_back b v = b ++ [to_byte v].
Proof. reflexivity. Qed.

Lemma put_bytes_app b s : put_bytes b s = b ++ s.
Proof. reflexivity. Qed.

Create Rewrite HintDb puts.
#[export] Hint Rewrite put_be16_app put_be24_app put_be32_app put_be64_app push_back_app
  put_bytes_app : puts.

(** A buffer built by [put_*] calls, as one right-nested concatenation. *)
Ltac norm_puts := autorewrite with puts; rewrite <- ?app_assoc; cbn [app].

(** ** GTP-U *)

(** Zero bytes that make a content of size [n] fill a header of 4-byte words. *)
Definition pad_len (n : Z) : nat := Z.to_nat ((- (n + 2)) mod 4).
Definition padded (c : Bytes) : Bytes := c ++ replicate (pad_len (size c)) x00.

Lemma pad_len_lt n : (pad_len n < 4)%nat.
Proof. unfold pad_len. pose proof (Z.mod_pos_bound (- (n + 2)) 4). lia. Qed.

Lemma pad_content_spec : forall fuel c, (pad_len (size c) < fuel)%nat ->
  pad_content fuel c = Ok (padded c).
Proof.
  unfold pad_len, padded. induction fuel as [|fuel IH]; intros c Hf; [lia|]. cbn [pad_content].
  case_if.
  - unfold pad_len. replace ((- (size c + 2)) mod 4) with 0 by (Z.div_mod_to_equations; lia).
    by rewrite app_nil_r.
  - assert ((- (size c + 2)) mod 4 = (- (size (push_back c 0) + 2)) mod 4 + 1) as Hm.
    { rewrite push_back_app, size_app. change (size [to_byte 0]) with 1.
      Z.div_mod_to_equations; lia. }
    pose proof (Z.mod_pos_bound (- (size (push_back c 0) + 2)) 4).
    rewrite IH by lia. f_equal. unfold pad_len. rewrite Hm.
    rewrite Z2Nat.inj_add, Nat.add_1_r by lia. rewrite push_back_app, <- app_assoc. reflexivity.
Qed.

Lemma size_padded c : size (padded c) = size c + (- (size c + 2)) mod 4.
Proof.
  unfold padded, pad_len. rewrite size_app. unfold size at 2. rewrite length_replicate.
  pose proof (Z.mod_pos_bound (- (size c + 2)) 4). lia.
Qed.

Definition ext_of (p : Z * Bytes) : ExtHeader := mkExt p.1 (padded p.2).

(** The chain a specification asks for, the container last. *)
Definition container (s : GtpuSpec) : Bytes :=
  [to_byte (Z.shiftl (gs_pdu_type s) 4); to_byte (Z.lor (if gs_rqi s then 0x40 else 0x00) (Z.land (gs_qfi s) 0x3F))].
Definition chain_of (s : GtpuSpec) : list (Z * Bytes) :=
  gs_extra_ext s ++ (if gs_with_qfi s then [(GtpuExtType.kPduSessionContainer, container s)] else []).

Lemma put_chain_spec : forall chain ext,
  put_chain chain ext = Ok (ext ++ enc_chain (map ext_of chain)).
Proof.
  induction chain as [|[t c] chain IH]; intros ext; [by rewrite app_nil_r|].
  cbn [put_chain map]. rewrite pad_content_spec by apply pad_len_lt. cbn [res_bind].
  rewrite IH, enc_chain_cons. norm_puts. do 4 f_equal. by destruct chain as [|[t' c'] ?].
Qed.

(** The wire image of a specification. *)
Definition gtpu_flags (s : GtpuSpec) : Z :=
  let e := match chain_of s with [] => 0 | _ => 0x04 end in
  0x30 + e + (if gs_with_seq s then 0x02 else 0) + (if gs_with_npdu s then 0x01 else 0).
Definition gtpu_opt (s : GtpuSpec) : Bytes :=
  if gs_with_seq s || gs_with_npdu s || negb (bool_decide (chain_of s = [])) then
    be16_bytes (gs_seq s) ++ to_byte (gs_npdu s) :: to_byte (head_type (map ext_of (chain_of s)))
      :: enc_chain (map ext_of (chain_of s))
  else [].
Definition enc_gtpu (s : GtpuSpec) (payload : Bytes) : Bytes :=
  to_byte (gtpu_flags s) :: to_byte (gs_msg_type s) :: be16_bytes (u16 (size (gtpu_opt s) + size payload))
    ++ be32_bytes (gs_teid s) ++ gtpu_opt s ++ payload.

Lemma enc_chain_empty l : (size (enc_chain l) =? 0) = bool_decide (l = []).
Proof.
  destruct l as [|e l]; [done|]. rewrite size_enc_cons. pose proof (size_nonneg (ext_content e)).
  pose proof (size_nonneg (enc_chain l)). rewrite bool_decide_eq_false_2 by done. apply Z.eqb_neq. lia.
Qed.

Lemma build_gtpu_spec s payload : build_gtpu s payload = Ok (enc_gtpu s payload).
Proof.
  unfold build_gtpu.
  match goal with |- context [put_chain ?c []] => assert (c = chain_of s) as -> end.
  { unfold chain_of. destruct (gs_with_qfi s); [reflexivity|by rewrite app_nil_r]. }
  rewrite put_chain_spec. cbn [res_bind app]. rewrite enc_chain_empty.
  unfold enc_gtpu, gtpu_opt, gtpu_flags, kGtpuOptionalFieldsLen.
  destruct (chain_of s) as [|[t c] chain].
  - destruct (gs_with_seq s), (gs_with_npdu s); cbn [orb negb map enc_chain bool_decide decide];
      norm_puts; reflexivity.
  - rewrite !bool_decide_eq_false_2 by done. rewrite !orb_true_r. cbn [negb].
    set (E := enc_chain (map ext_of ((t, c) :: chain))).
    assert (forall a b : Byte.byte, size (be16_bytes (gs_seq s) ++ a :: b :: E) = 4 + size E) as ->
      by (intros; autorewrite with span; lia).
    destruct (gs_with_seq s), (gs_with_npdu s); norm_puts; reflexivity.
Qed.

(** What the builder needs for the image to say what the specification says. *)
Definition wf_gtpu (s : GtpuSpec) (payload : Bytes) : Prop :=
  0 <= gs_teid s < 2 ^ 32 /\ 0 <= gs_msg_type s < 256 /\ 0 <= gs_seq s < 65536 /\ 0 <= gs_npdu s < 256 /\
  Forall (fun p => 0 < p.1 < 256 /\ size p.2 <= 1018) (gs_extra_ext s) /\
  size (chain_of s) <= 16 /\ size (gtpu_opt s) + size payload < 65536.

Lemma chain_wf s payload : wf_gtpu s payload -> Forall wf_ext (map ext_of (chain_of s)).
Proof.
  intros (_ & _ & _ & _ & Hext & _ & _).
  assert (Forall (fun p => 0 < p.1 < 256 /\ size p.2 <= 1018) (chain_of s)) as H.
  { unfold chain_of. apply Forall_app. split; [done|]. destruct (gs_with_qfi s); [|done].
    constructor; [|constructor]. split; [done|]. by vm_compute. }
  apply Forall_map. revert H. apply Forall_impl. intros [t c] [Ht Hc]. cbn in Ht, Hc.
  unfold wf_ext, ext_of. cbn [ext_type ext_content fst snd]. rewrite size_padded.
  pose proof (size_nonneg c). repeat split; try lia; Z.div_mod_to_equations; lia.
Qed.

(** The header a parser finds in the image of [s]. *)
Definition gtpu_start (s : GtpuSpec) (payload : Bytes) : GtpuHeader :=
  GtpuHeader_init <| msg_type := gs_msg_type s |> <| declared_len := size (gtpu_opt s) + size payload |>
                  <| teid := gs_teid s |>.
Definition gtpu_opened (s : GtpuSpec) (payload : Bytes) : GtpuHeader :=
  if bool_decide (gtpu_opt s = []) then gtpu_start s payload else
  let h := (gtpu_start s payload) <| seq := gs_seq s |> <| npdu := gs_npdu s |>
             <| has_seq := gs_with_seq s |> <| has_npdu := gs_with_npdu s |> in
  if bool_decide (chain_of s = []) then h else decode_chain (map ext_of (chain_of s)) (h <| has_ext := true |>).
Definition gtpu_header (s : GtpuSpec) (p : Bytes) : GtpuHeader :=
  (gtpu_opened s p) <| header_len := 8 + size (gtpu_opt s) |> <| payload := p |>.

Section GtpuImage.
Context {HE : HostEndian}.

Lemma finish_image hd opt pl out : size hd = 8 -> 8 + size opt + size pl < 2 ^ 16 + 8 ->
  finish_gtpu (hd ++ opt ++ pl) out (size opt + size pl) (8 + size opt) (size opt) =
  Ok (GtpuStatus.kOk, out <| header_len := u16 (8 + size opt) |> <| payload := pl |>).
Proof.
  intros H8 Hs. pose proof (size_nonneg opt). pose proof (size_nonneg pl). unfold finish_gtpu.
  rewrite (proj2 (Z.ltb_ge _ _)), sub64_small, subspan_Ok by (rewrite ?size_app; lia).
  cbn [res_bind]. replace (size opt + size pl - size opt) with (size pl) by lia.
  replace (8 + size opt) with (size (hd ++ opt)) by (rewrite size_app; lia).
  replace (hd ++ opt ++ pl) with ((hd ++ opt) ++ pl ++ []) by (by rewrite app_nil_r, app_assoc).
  by rewrite slice_mid.
Qed.

Lemma gtpu_opt_empty s : gtpu_opt s = [] <->
  gs_with_seq s = false /\ gs_with_npdu s = false /\ chain_of s = [].
Proof.
  unfold gtpu_opt. destruct (gs_with_seq s), (gs_with_npdu s); cbn [orb];
    [split; [done|by intros (? & ? & ?)]..|].
  destruct (chain_of s) as [|p c]; cbn; [done|split; [done|by intros (? & ? & ?)]].
Qed.

(** The 8 fixed bytes. *)
Definition gtpu_fixed (s : GtpuSpec) (n : Z) : Bytes :=
  to_byte (gtpu_flags s) :: to_byte (gs_msg_type s) :: be16_bytes n ++ be32_bytes (gs_teid s).

Lemma gtpu_flags_range s : 0 <= gtpu_flags s < 256.
Proof. unfold gtpu_flags. destruct (chain_of s), (gs_with_seq s), (gs_with_npdu s); lia. Qed.

Lemma gtpu_fixed_fields s n rest :
  0 <= gs_teid s < 2 ^ 32 -> 0 <= gs_msg_type s < 256 -> 0 <= n < 65536 ->
  byte_at (gtpu_fixed s n ++ rest) 0 = gtpu_flags s /\
  byte_at (gtpu_fixed s n ++ rest) 1 = gs_msg_type s /\
  be16_at (gtpu_fixed s n ++ rest) 2 = n /\ be32_at (gtpu_fixed s n ++ rest) 4 = gs_teid s.
Proof.
  intros Ht Hm Hn. pose proof (gtpu_flags_range s). split_and!.
  - change (bval (to_byte (gtpu_flags s)) = gtpu_flags s). rewrite bval_to_byte. by apply u8_small.
  - change (bval (to_byte (gs_msg_type s)) = gs_msg_type s). rewrite bval_to_byte. by apply u8_small.
  - pose proof (be16_at_image [to_byte (gtpu_flags s); to_byte (gs_msg_type s)] n
      (be32_bytes (gs_teid s) ++ rest)) as E. rewrite u16_small in E by done. exact E.
  - pose proof (be32_at_image ([to_byte (gtpu_flags s); to_byte (gs_msg_type s)] ++ be16_bytes n)
      (gs_teid s) rest) as E. rewrite u32_small in E by done. exact E.
Qed.

Lemma enc_gtpu_fixed s pl : wf_gtpu s pl ->
  enc_gtpu s pl = gtpu_fixed s (size (gtpu_opt s) + size pl) ++ gtpu_opt s ++ pl.
Proof.
  intros (_ & _ & _ & _ & _ & _ & Hsz). pose proof (size_nonneg (gtpu_opt s)).
  pose proof (size_nonneg pl). unfold enc_gtpu. rewrite (u16_small (size (gtpu_opt s) + _)) by lia.
  reflexivity.
Qed.

(** The bits of the flags byte. *)
Lemma gtpu_flags_bits s :
  Z.shiftr (gtpu_flags s) 5 = 1 /\ Z.land (gtpu_flags s) 0x10 <> 0 /\
  negb (Z.land (gtpu_flags s) 0x04 =? 0) = negb (bool_decide (chain_of s = [])) /\
  negb (Z.land (gtpu_flags s) 0x02 =? 0) = gs_with_seq s /\
  negb (Z.land (gtpu_flags s) 0x01 =? 0) = gs_with_npdu s.
Proof.
  unfold gtpu_flags. destruct (chain_of s), (gs_with_seq s), (gs_with_npdu s);
    rewrite ?bool_decide_eq_true_2, ?bool_decide_eq_false_2 by done; split_and!; done.
Qed.

Lemma gtpu_opt_shape s : gtpu_opt s <> [] ->
  gtpu_opt s = be16_bytes (gs_seq s) ++ to_byte (gs_npdu s) :: to_byte (head_type (map ext_of (chain_of s)))
      :: enc_chain (map ext_of (chain_of s)).
Proof. unfold gtpu_opt. by case_if. Qed.

Lemma gtpu_opt_fields s hd pl : size hd = 8 -> gtpu_opt s <> [] ->
  0 <= gs_seq s < 65536 -> 0 <= gs_npdu s < 256 -> Forall wf_ext (map ext_of (chain_of s)) ->
  be16_at (hd ++ gtpu_opt s ++ pl) 8 = gs_seq s /\
  byte_at (hd ++ gtpu_opt s ++ pl) (8 + 2) = gs_npdu s /\
  byte_at (hd ++ gtpu_opt s ++ pl) (8 + 3) = head_type (map ext_of (chain_of s)) /\
  size (gtpu_opt s) = 4 + size (enc_chain (map ext_of (chain_of s))) /\
  slice (8 + 4) (size (gtpu_opt s) + size pl - 4) (hd ++ gtpu_opt s ++ pl) =
    enc_chain (map ext_of (chain_of s)) ++ pl.
Proof.
  intros H8 Hne Hs Hn Hc. rewrite (gtpu_opt_shape s Hne). apply head_type_range in Hc.
  set (E := enc_chain _). set (t := head_type _) in *. rewrite <- H8. split_and!.
  - rewrite <- app_assoc, be16_at_image. by apply u16_small.
  - rewrite byte_at_app_r by lia. replace (size hd + 2 - size hd) with 2 by lia.
    change (bval (to_byte (gs_npdu s)) = gs_npdu s). rewrite bval_to_byte. by apply u8_small.
  - rewrite byte_at_app_r by lia. replace (size hd + 3 - size hd) with 3 by lia.
    change (bval (to_byte t) = t). rewrite bval_to_byte. by apply u8_small.
  - autorewrite with span. lia.
  - match goal with |- slice _ ?n ?f = _ => replace f with
      ((hd ++ be16_bytes (gs_seq s) ++ [to_byte (gs_npdu s); to_byte t]) ++ (E ++ pl) ++ []);
      [replace n with (size (E ++ pl)) by (autorewrite with span; lia)|] end.
    + replace (size hd + 4) with (size (hd ++ be16_bytes (gs_seq s) ++ [to_byte (gs_npdu s); to_byte t]))
        by (rewrite size_app; reflexivity). by rewrite slice_mid.
    + rewrite app_nil_r, <- !app_assoc. reflexivity.
Qed.

Lemma parse_chain_image l rest out : Forall wf_ext l -> size l <= 16 ->
  parse_ext_chain (enc_chain l ++ rest) (head_type l) out =
  Ok (GtpuStatus.kOk, decode_chain l out, size (enc_chain l)).
Proof.
  intros Hwf Hl. unfold parse_ext_chain, ext_fuel, decode_chain.
  pose proof (ext_loop_complete l 17 [] rest 0 out Hwf) as E.
  change (size (@nil byte)) with 0 in E. rewrite !Z.add_0_l in E.
  apply E; unfold size in *; lia.
Qed.

Lemma parse_enc_gtpu s pl : wf_gtpu s pl ->
  parse_gtpu (enc_gtpu s pl) = Ok (GtpuStatus.kOk, (gtpu_header s pl) <| header_len ::= u16 |>).
Proof.
  intros Hwf. pose proof (chain_wf s pl Hwf) as Hch. rewrite enc_gtpu_fixed by done.
  destruct Hwf as (Ht & Hm & Hseq & Hnp & _ & Hlen & Hsz).
  pose proof (size_nonneg (gtpu_opt s)). pose proof (size_nonneg pl).
  remember (size (gtpu_opt s) + size pl) as n eqn:En.
  assert (0 <= n < 65536) as Hn by lia.
  destruct (gtpu_fixed_fields s n (gtpu_opt s ++ pl)) as (F0 & F1 & F2 & F4); [done..|].
  destruct (gtpu_flags_bits s) as (B5 & B4 & Be & Bs & Bp).
  assert (size (gtpu_fixed s n) = 8) as H8 by done.
  remember (gtpu_fixed s n) as hd.
  assert (size (hd ++ gtpu_opt s ++ pl) = 8 + n) as Hall by (rewrite !size_app; lia).
  unfold parse_gtpu, kGtpuFixedHeaderLen, kGtpuOptionalFieldsLen.
  rewrite Hall, (proj2 (Z.ltb_ge _ _)) by lia.
  rewrite (rd_Ok _ 0) by lia. cbn [res_bind].
  rewrite F0, B5, Be, Bs, Bp, (proj2 (Z.eqb_neq _ _) B4). cbn [negb Z.eqb Pos.eqb].
  rewrite (rd_Ok _ 1), (load_be16_Ok _ 2), (load_be32_Ok _ 4), F1, F2, F4 by lia. cbn [res_bind].
  set (h0 := GtpuHeader_init <| msg_type := _ |> <| declared_len := n |> <| teid := _ |>).
  change (declared_len h0) with n.
  rewrite (sub64_small (8 + n) 8), (proj2 (Z.ltb_ge _ _)) by lia.
  assert (h0 = gtpu_start s pl) as -> by (unfold h0, gtpu_start; by rewrite En).
  destruct (decide (gtpu_opt s = [])) as [Eo|Eo].
  - pose proof (proj1 (gtpu_opt_empty s) Eo) as (-> & -> & Ec).
    rewrite bool_decide_eq_true_2 by done. cbn [negb orb].
    pose proof (finish_image hd (gtpu_opt s) pl (gtpu_start s pl) H8 ltac:(lia)) as Hf. rewrite <- En in Hf.
    rewrite Eo in Hf |- *. change (8 + size (@nil byte)) with 8 in Hf. change (size (@nil byte)) with 0 in Hf.
    rewrite Hf.
    unfold gtpu_header, gtpu_opened. rewrite Eo, bool_decide_eq_true_2 by done. reflexivity.
  - replace (negb (bool_decide (chain_of s = [])) || gs_with_seq s || gs_with_npdu s) with true.
    2: { destruct (gs_with_seq s) eqn:?, (gs_with_npdu s) eqn:?, (decide (chain_of s = [])) as [Ec|Ec];
         rewrite ?orb_true_r; try done; rewrite ?(bool_decide_eq_false_2 _ Ec); try done.
         exfalso. apply Eo. by apply gtpu_opt_empty. }
    destruct (gtpu_opt_fields s hd pl) as (G8 & G10 & G11 & Gs & Ge); [done..|].
    pose proof (size_nonneg (enc_chain (map ext_of (chain_of s)))).
    rewrite (proj2 (Z.ltb_ge _ _)) by lia.
    rewrite (load_be16_Ok _ 8), (rd_Ok _ (8 + 2)), (rd_Ok _ (8 + 3)), G8, G10, G11 by lia.
    cbn [res_bind]. unfold gtpu_header, gtpu_opened. rewrite (bool_decide_eq_false_2 _ Eo). cbn zeta.
    set (h := (gtpu_start s pl) <| seq := _ |> <| npdu := _ |> <| has_seq := _ |> <| has_npdu := _ |>).
    destruct (decide (chain_of s = [])) as [Ec|Ec].
    + rewrite !bool_decide_eq_true_2 by done. cbn [negb andb].
      pose proof (finish_image hd (gtpu_opt s) pl h H8 ltac:(lia)) as Hf. rewrite <- En in Hf.
      rewrite Gs, Ec in Hf. rewrite Gs, Ec. exact Hf.
    + rewrite !(bool_decide_eq_false_2 _ Ec). replace (_ =? GtpuExtType.kNone) with false.
      2: { symmetry. apply Z.eqb_neq. destruct (chain_of s) as [|p c]; [done|].
           apply Forall_cons_iff in Hch as [[? _] _]. cbn [map head_type] in *. unfold GtpuExtType.kNone. lia. }
      cbn [negb andb].
      rewrite sub64_small, subspan_Ok, En, Ge by lia. cbn [res_bind].
      rewrite parse_chain_image by (done || (unfold size in *; rewrite length_map; lia)). cbn [res_bind].
      rewrite bool_decide_eq_true_2 by done.
      pose proof (finish_image hd (gtpu_opt s) pl (decode_chain (map ext_of (chain_of s)) (h <| has_ext := true |>))
        H8 ltac:(lia)) as Hf. rewrite Gs, (Z.add_assoc 8) in Hf. rewrite Gs, (Z.add_assoc 8). exact Hf.
Qed.

Lemma size_chain_le l : Forall wf_ext l -> size (enc_chain l) <= size l * 1020.
Proof.
  induction 1 as [|e l (_ & _ & He) _ IH]; [done|]. rewrite size_enc_cons, size_cons. lia.
Qed.

Lemma size_gtpu_opt s p : wf_gtpu s p -> size (gtpu_opt s) <= 16324.
Proof.
  intros Hwf. pose proof (chain_wf s p Hwf) as Hc. apply size_chain_le in Hc.
  destruct Hwf as (_ & _ & _ & _ & _ & Hl & _). unfold size in Hc at 2. rewrite length_map in Hc.
  destruct (decide (gtpu_opt s = [])) as [->|Hne]; [done|].
  rewrite (gtpu_opt_shape s Hne). autorewrite with span. unfold size in *. lia.
Qed.

(** The chain walk leaves the other fields alone. *)
Lemma foldl_decode_fixed l : forall out, fixed_part (foldl decode_ext out l) = fixed_part out.
Proof. induction l as [|e l IH]; intros out; [done|]. cbn [foldl]. by rewrite IH, decode_ext_fixed. Qed.

Lemma gtpu_opened_fixed s p : fixed_part (gtpu_opened s p) =
  ([], gs_teid s, (if bool_decide (gtpu_opt s = []) then 0 else gs_seq s), 0, size (gtpu_opt s) + size p,
   gs_msg_type s, (if bool_decide (gtpu_opt s = []) then 0 else gs_npdu s), gs_with_seq s, gs_with_npdu s,
   negb (bool_decide (chain_of s = []))).
Proof.
  unfold gtpu_opened. case_bool_decide as Eo.
  - apply gtpu_opt_empty in Eo as (-> & -> & ->). reflexivity.
  - case_bool_decide as Ec; [reflexivity|]. unfold decode_chain.
    pose proof (foldl_decode_fixed (map ext_of (chain_of s))) as Hf.
    match goal with |- context [foldl decode_ext ?o _] => specialize (Hf o); revert Hf;
      generalize (foldl decode_ext o (map ext_of (chain_of s))) end.
    intros h Hf. exact Hf.
Qed.
End GtpuImage.

(** The two content bytes of a PDU Session Container. *)
Lemma container_bits (b : bool) r : 0 <= r < 64 ->
  let c := Z.lor (if b then 0x40 else 0x00) r in
  0 <= c < 256 /\ Z.land c 0x3F = r /\ (Z.land c 0x40 =? 0) = negb b.
Proof.
  intros Hr. assert (forallb (fun r => forallb (fun b : bool => let c := Z.lor (if b then 0x40 else 0x00) r in
      (0 <=? c) && (c <? 256) && (Z.land c 0x3F =? r) && Bool.eqb (Z.land c 0x40 =? 0) (negb b)) [true; false])
    (seqZ 0 64) = true) as H by reflexivity.
  rewrite forallb_forall in H. specialize (H r). rewrite <- list_elem_of_In, elem_of_seqZ in H.
  specialize (H ltac:(lia)). rewrite forallb_forall in H. specialize (H b ltac:(destruct b; cbn; tauto)).
  cbn zeta in *. apply andb_prop in H as [H He]. apply Bool.eqb_prop in He. bool_to_prop. auto with lia.
Qed.

Lemma decode_container s out :
  let h := decode_ext out (ext_of (GtpuExtType.kPduSessionContainer, container s)) in
  has_qfi h = true /\ qfi h = gs_qfi s mod 64 /\ pdu_type h = gs_pdu_type s mod 16 /\
  rqi h = (gs_pdu_type s mod 16 =? PduSessionInfoType.kDownlink) && gs_rqi s.
Proof.
  cbn zeta. change (ext_of (GtpuExtType.kPduSessionContainer, container s)) with
    (mkExt GtpuExtType.kPduSessionContainer (container s)).
  unfold decode_ext. cbn [ext_type ext_content].
  change ((GtpuExtType.kPduSessionContainer =? GtpuExtType.kPduSessionContainer) && (2 <=? size (container s)))
    with true.
  change (byte_at (container s) 0) with (bval (to_byte (Z.shiftl (gs_pdu_type s) 4))).
  change (byte_at (container s) 1) with
    (bval (to_byte (Z.lor (if gs_rqi s then 0x40 else 0x00) (Z.land (gs_qfi s) 0x3F)))).
  rewrite !bval_to_byte. change 0x3F with (Z.ones 6). rewrite Z.land_ones by lia.
  destruct (container_bits (gs_rqi s) (gs_qfi s mod 2 ^ 6)) as (Hc & Hq & Hr); [by apply Z.mod_pos_bound|].
  change 0x3F with (Z.ones 6) in Hq.
  assert (u8 (Z.shiftr (u8 (Z.shiftl (gs_pdu_type s) 4)) 4) = gs_pdu_type s mod 16) as Hp.
  { unfold u8. rewrite Z.shiftl_mul_pow2, Z.shiftr_div_pow2 by lia. change (2 ^ 4) with 16.
    change (2 ^ 8) with 256. Z.div_mod_to_equations. lia. }
  rewrite Hp, (u8_small _ Hc), Hr, Hq, negb_involutive. cbn. split_and!; try done.
  apply u8_small. change (2 ^ 6) with 64. pose proof (Z.mod_pos_bound (gs_qfi s) 64 ltac:(lia)). lia.
Qed.

Lemma foldl_decode_no_qfi l : forall out, Forall (fun e => ext_type e <> GtpuExtType.kPduSessionContainer) l ->
  foldl decode_ext out l = out.
Proof.
  induction l as [|e l IH]; intros out Hl; [done|]. apply Forall_cons_iff in Hl as [He Hl].
  cbn [foldl]. unfold decode_ext at 2. by rewrite (proj2 (Z.eqb_neq _ _) He), IH.
Qed.

Lemma gtpu_opened_ext s p : wf_gtpu s p -> let h := gtpu_opened s p in
  ext_count h = size (chain_of s) /\
  (gs_with_qfi s = true ->
     has_qfi h = true /\ qfi h = gs_qfi s mod 64 /\ pdu_type h = gs_pdu_type s mod 16 /\
     rqi h = (gs_pdu_type s mod 16 =? PduSessionInfoType.kDownlink) && gs_rqi s) /\
  (gs_with_qfi s = false -> Forall (fun e => e.1 <> GtpuExtType.kPduSessionContainer) (gs_extra_ext s) ->
     has_qfi h = false).
Proof.
  intros (_ & _ & _ & _ & _ & Hl & _). cbn zeta. unfold gtpu_opened. case_bool_decide as Eo.
  { pose proof (proj1 (gtpu_opt_empty s) Eo) as (_ & _ & Ec). rewrite Ec. split; [done|].
    split; [|done]. intros Hq. unfold chain_of in Ec. rewrite Hq in Ec. by destruct (gs_extra_ext s). }
  case_bool_decide as Ec.
  { rewrite Ec. split; [done|]. split; [|done]. intros Hq. unfold chain_of in Ec. rewrite Hq in Ec.
    by destruct (gs_extra_ext s). }
  unfold decode_chain.
  set (out := (gtpu_start s p) <| seq := _ |> <| npdu := _ |> <| has_seq := _ |> <| has_npdu := _ |> <| has_ext := _ |>).
  assert (has_qfi out = false) as Ho by reflexivity. clearbody out. split; [|split].
  - transitivity (u8 (size (map ext_of (chain_of s)))); [done|].
    unfold size in *. rewrite length_map. apply u8_small. lia.
  - intros Hq. unfold chain_of. rewrite Hq, map_app, foldl_app. cbn [map foldl].
    pose proof (decode_container s (foldl decode_ext out (map ext_of (gs_extra_ext s)))) as Hd.
    cbn zeta in Hd. revert Hd. generalize (decode_ext (foldl decode_ext out (map ext_of (gs_extra_ext s)))
      (ext_of (GtpuExtType.kPduSessionContainer, container s))). intros h Hd. exact Hd.
  - intros Hq Hx. unfold chain_of. rewrite Hq, app_nil_r, foldl_decode_no_qfi; [exact Ho|].
    by apply Forall_map.
Qed.

Section GtpuProperty.
Context {HE : HostEndian}.

(** C14: The GTP-U builder and the GTP-U parser are inverse to each other.  For
    every specification whose fields fit their wire widths (extension types
    non-zero, contents of at most 1018 bytes, at most 16 headers, a PDU of less
    than 64 KiB) the parser accepts the PDU that [build_gtpu] makes of it and
    reports its TEID, message type, sequence and N-PDU numbers, the number of
    extension headers and the payload; a PDU Session Container reports QFI, PDU
    type and (downlink only) RQI, and without one no QFI is reported. *)
Theorem gtpu_roundtrip s p : wf_gtpu s p ->
  exists pdu h, build_gtpu s p = Ok pdu /\ parse_gtpu pdu = Ok (GtpuStatus.kOk, h) /\
    payload h = p /\ teid h = gs_teid s /\ msg_type h = gs_msg_type s /\
    has_seq h = gs_with_seq s /\ (gs_with_seq s = true -> seq h = gs_seq s) /\
    has_npdu h = gs_with_npdu s /\ (gs_with_npdu s = true -> npdu h = gs_npdu s) /\
    ext_count h = size (chain_of s) /\ header_len h = size pdu - size p /\
    (gs_with_qfi s = true ->
       has_qfi h = true /\ qfi h = gs_qfi s mod 64 /\ pdu_type h = gs_pdu_type s mod 16 /\
       rqi h = (gs_pdu_type s mod 16 =? PduSessionInfoType.kDownlink) && gs_rqi s) /\
    (gs_with_qfi s = false -> Forall (fun e => e.1 <> GtpuExtType.kPduSessionContainer) (gs_extra_ext s) ->
       has_qfi h = false).
Proof.
  intros Hwf. exists (enc_gtpu s p), ((gtpu_header s p) <| header_len ::= u16 |>).
  split; [apply build_gtpu_spec|]. split; [by apply parse_enc_gtpu|].
  pose proof (size_gtpu_opt s p Hwf) as Ho. pose proof (size_nonneg (gtpu_opt s)).
  rewrite (enc_gtpu_fixed s p Hwf), !size_app. change (size (gtpu_fixed _ _)) with 8.
  pose proof (gtpu_opened_fixed s p) as Hf. unfold fixed_part in Hf.
  destruct (gtpu_opened_ext s p Hwf) as (He & Hq & Hnq). revert Hf He Hq Hnq.
  unfold gtpu_header. generalize (gtpu_opened s p) as h. intros h [= E1 E2 E3 E4 E5 E6 E7 E8 E9 E10] He Hq Hnq.
  assert (forall b, (b = gs_with_seq s \/ b = gs_with_npdu s) -> b = true -> gtpu_opt s <> []) as Hne.
  { intros b [-> | ->] Hb Hn; apply gtpu_opt_empty in Hn; destruct Hn as (? & ? & ?); congruence. }
  split_and!; try done.
  - intros Hs. change (seq h = gs_seq s). rewrite E3, bool_decide_eq_false_2; eauto.
  - intros Hs. change (npdu h = gs_npdu s). rewrite E7, bool_decide_eq_false_2; eauto.
  - change (u16 (8 + size (gtpu_opt s)) = 8 + (size (gtpu_opt s) + size p) - size p).
    rewrite u16_small; lia.
Qed.
End GtpuProperty.

Definition sample_gtpu : GtpuSpec :=
  mkGtpuSpec 0x1001 GtpuMsgType.kGpdu true 7 false 0 true 9 1 false [(GtpuExtType.kUdpPort, [x08; x68; x00])].

Lemma gtpu_roundtrip_witness :
  let HE : HostEndian := little in
  exists pdu h, build_gtpu sample_gtpu [x45; x00] = Ok pdu /\ parse_gtpu pdu = Ok (GtpuStatus.kOk, h) /\
    teid h = 0x1001 /\ qfi h = 9 /\ ext_count h = 2.
Proof.
  intros HE. destruct (gtpu_roundtrip (HE := HE) sample_gtpu [x45; x00])
    as (pdu & h & E1 & E2 & _ & E3 & _ & _ & _ & _ & _ & E4 & _ & Hq & _).
  { unfold wf_gtpu. split_and!; try done. constructor; [|constructor]. by split. }
  exists pdu, h. destruct (Hq eq_refl) as (_ & E5 & _). auto.
Defined.
