(* ===== verification/SynthIp.v ===== *)
(** * The IP and Ethernet builders against the decoders

    The internet checksum of [synth.hpp] (it verifies on the headers it is put
    in), and the round trips of the IPv4, TCP/UDP and Ethernet builders through
    [parse_ethernet] and [parse_ip]. *)

From S2P Require Import Prelude ByteOrder Net Synth SynthProps.

(** ** The internet checksum *)

(** The sum of the big-endian 16-bit words of a block; a last odd byte is the
    high half of a word. *)
Fixpoint words (data : Bytes) : Z :=
  match data with
  | a :: b :: rest => bval a * 256 + bval b + words rest
  | [a] => bval a * 256
  | [] => 0
  end.

(** The carry fold: congruent modulo 2^16 - 1, 16 bits wide, zero only for zero. *)
Definition folded (s r : Z) : Prop :=
  0 <= r < 65536 /\ r mod 65535 = s mod 65535 /\ (r = 0 <-> s = 0).

Lemma fold16_spec s : 0 <= s < 2 ^ 32 -> ensures (fold16 3 s) (folded s).
Proof.
  intros Hs.
  assert (forall n t, 0 <= t < 2 ^ 32 -> 65536 <= t ->
    fold16 (S n) t = fold16 n (t - t / 65536 * 65535)) as Hstep.
  { intros n t Ht Hb. cbn [fold16]. rewrite Z.shiftr_div_pow2 by lia. change (2 ^ 16) with 65536.
    rewrite (proj2 (Z.eqb_neq _ _)) by (Z.div_mod_to_equations; lia).
    change (Z.land t 0xFFFF) with (Z.land t (Z.ones 16)). rewrite Z.land_ones by lia. change (2 ^ 16) with 65536.
    pose proof (Z.div_mod t 65536 ltac:(lia)). pose proof (Z.mod_pos_bound t 65536 ltac:(lia)).
    f_equal. rewrite u32_small; lia. }
  assert (forall n t, 0 <= t < 65536 -> fold16 (S n) t = Ok t) as Hdone.
  { intros n t Ht. cbn [fold16]. rewrite Z.shiftr_div_pow2 by lia. by rewrite Z.div_small. }
  assert (forall t, 65536 <= t -> t mod 65535 = (t - t / 65536 * 65535) mod 65535) as Hmod.
  { intros t _. replace (t - t / 65536 * 65535) with (t + (- (t / 65536)) * 65535) by lia.
    by rewrite Z_mod_plus_full. }
  destruct (Z.lt_ge_cases s 65536) as [H1|H1].
  { exists s. split; [apply Hdone; lia|]. unfold folded. split_and!; auto; lia. }
  rewrite Hstep by lia. set (t := s - s / 65536 * 65535).
  assert (0 < t < 131071) as Ht by (unfold t; Z.div_mod_to_equations; lia).
  assert (t mod 65535 = s mod 65535) as Hm by (unfold t; by rewrite <- Hmod). clearbody t.
  destruct (Z.lt_ge_cases t 65536) as [H2|H2].
  { exists t. split; [apply Hdone; lia|]. unfold folded. split_and!; auto; lia. }
  assert (t / 65536 = 1) as E by (Z.div_mod_to_equations; lia). specialize (Hmod t H2).
  rewrite E in Hmod. rewrite Hstep, E, Hdone by lia. apply ensures_Ok.
  unfold folded. split_and!; try lia.
Qed.

Lemma words_range : forall n data, size data = 2 * Z.of_nat n -> 0 <= words data <= 65535 * Z.of_nat n.
Proof.
  induction n as [|n IH]; intros data Hs.
  - destruct data; [cbn; lia|]. rewrite size_cons in Hs. pose proof (size_nonneg data). lia.
  - destruct data as [|a [|b data]]; rewrite ?size_cons in Hs; try (rewrite (@size_nil byte) in Hs; lia).
    cbn [words]. pose proof (bval_range a). pose proof (bval_range b). specialize (IH data). lia.
Qed.

Section Checksum.
Context {HE : HostEndian}.

Lemma sum_words_spec : forall n data i sum, 0 <= i -> i + 2 * Z.of_nat n <= size data -> 0 <= sum ->
  sum + 65535 * Z.of_nat n < 2 ^ 32 ->
  sum_words n data i sum = Ok (sum + words (slice i (2 * Z.of_nat n) data)).
Proof.
  induction n as [|n IH]; intros data i sum Hi Hn Hs Hb; cbn [sum_words].
  - change (2 * Z.of_nat 0) with 0. rewrite slice_0. cbn. f_equal. lia.
  - rewrite load_be16_Ok by lia. cbn [res_bind]. pose proof (be16_at_range data i).
    rewrite u32_small, IH by lia. f_equal.
    destruct (slice_cons data i (2 * Z.of_nat (S n))) as (a & -> & Ha); [lia..|].
    destruct (slice_cons data (i + 1) (2 * Z.of_nat (S n) - 1)) as (b & -> & Hb'); [lia..|].
    cbn [words]. unfold be16_at. rewrite Ha, Hb'. change (2 ^ 8) with 256.
    replace (2 * Z.of_nat (S n) - 1 - 1) with (2 * Z.of_nat n) by lia.
    replace (i + 1 + 1) with (i + 2) by lia. lia.
Qed.

(** The checksum of an even block: the complement of its folded word sum. *)
Lemma checksum16_spec n data : size data = 2 * Z.of_nat n -> Z.of_nat n < 65536 ->
  ensures (checksum16 data 0) (fun ck => exists r, folded (words data) r /\ ck = 65535 - r).
Proof.
  intros Hs Hn. unfold checksum16. rewrite Hs.
  replace (2 * Z.of_nat n / 2) with (Z.of_nat n) by (Z.div_mod_to_equations; lia).
  rewrite Nat2Z.id, sum_words_spec by lia. cbn [res_bind]. rewrite (proj2 (Z.ltb_ge _ _)) by lia.
  cbn [res_bind]. rewrite <- Hs.
  replace (slice 0 (size data) data) with data.
  2: { unfold slice, size. rewrite Nat2Z.id, drop_0. by rewrite firstn_all. }
  eapply ensures_bind; [apply fold16_spec|].
  - pose proof (words_range n data Hs). lia.
  - intros r Hr. apply ensures_Ok. exists r. split; [done|]. destruct Hr as [Hr _].
    change 0xFFFF with (Z.ones 16). rewrite Z.land_ones by lia. unfold u16.
    change (2 ^ 16) with 65536. rewrite Z.mod_mod by lia. unfold Z.lnot. change (Z.ones 16) with 65535.
    Z.div_mod_to_equations. lia.
Qed.
End Checksum.

(** ** The IPv4 header *)

Definition hdr4 (src dst proto total ttl frag ck : Z) : Bytes :=
  [to_byte 0x45; to_byte 0] ++ be16_bytes total ++ be16_bytes 0 ++ be16_bytes frag
    ++ [to_byte ttl; to_byte proto] ++ be16_bytes ck ++ be32_bytes src ++ be32_bytes dst.

Lemma be16_bytes_val v : bval (to_byte (Z.shiftr v 8)) * 256 + bval (to_byte v) = u16 v.
Proof.
  rewrite !bval_to_byte, byte_of_shift by lia. unfold u8, u16. rewrite split16.
  change (2 ^ 8) with 256. lia.
Qed.

Lemma words_hdr4 src dst proto total ttl frag ck : 0 <= ck < 65536 ->
  words (hdr4 src dst proto total ttl frag ck) = words (hdr4 src dst proto total ttl frag 0) + ck.
Proof.
  intros Hc. unfold hdr4, be32_bytes, be16_bytes. cbn [app words].
  pose proof (be16_bytes_val ck) as E. rewrite u16_small in E by done.
  change (bval (to_byte (Z.shiftr 0 8))) with 0. change (bval (to_byte 0)) with 0. lia.
Qed.

(** Run stores at literal positions of a literal array. *)
Lemma insert_S {A} n (v x : A) l : <[S n := v]> (x :: l) = x :: <[n := v]> l.
Proof. reflexivity. Qed.
Lemma insert_0 {A} (v x : A) l : <[0%nat := v]> (x :: l) = v :: l.
Proof. reflexivity. Qed.

Ltac store_all :=
  repeat (rewrite store8_Ok by (rewrite !size_cons, (@size_nil byte); lia); rewrite ?bind_Ok;
          match goal with |- context [Z.to_nat ?i] =>
            let n := eval vm_compute in (Z.to_nat i) in change (Z.to_nat i) with n end;
          rewrite ?insert_S, insert_0).

Section Header.
Context {HE : HostEndian}.

Lemma ipv4_header_image src dst proto total ttl frag :
  ipv4_header src dst proto total ttl frag =
  let* ck := checksum16 (hdr4 src dst proto total ttl frag 0) 0 in Ok (hdr4 src dst proto total ttl frag ck).
Proof.
  unfold ipv4_header, store_be16, store_be32. cbn [replicate]. store_all.
  unfold hdr4, be32_bytes, be16_bytes. cbn [app]. rewrite !Z.shiftr_shiftr by lia.
  change (16 + 8) with 24.
  match goal with |- res_bind _ _ _ ?m = _ => generalize m end.
  intros [ck| |]; cbn [res_bind]; [|done..]. store_all. reflexivity.
Qed.

(** The header the builder assembles, and its checksum verifies. *)
Lemma ipv4_header_spec src dst proto total ttl frag :
  ensures (ipv4_header src dst proto total ttl frag) (fun h => exists ck, 0 <= ck < 65536 /\
    h = hdr4 src dst proto total ttl frag ck /\ checksum16 h 0 = Ok 0).
Proof.
  rewrite ipv4_header_image.
  assert (forall c, size (hdr4 src dst proto total ttl frag c) = 2 * Z.of_nat 10) as Hs by reflexivity.
  eapply ensures_bind; [by apply (checksum16_spec 10)|].
  intros ck (r & (Hr & Hm & Hz) & ->). apply ensures_Ok. exists (65535 - r). split; [lia|]. split; [done|].
  destruct (checksum16_spec 10 (hdr4 src dst proto total ttl frag (65535 - r)))
    as (ck & -> & r' & (Hr' & Hm' & Hz') & ->); [done..|].
  rewrite words_hdr4 in Hm', Hz' by lia.
  pose proof (words_range 10 _ (Hs 0)) as Hw.
  assert (r' = 65535) as ->; [|done].
  set (w := words _) in *. clearbody w.
  assert ((w + (65535 - r)) mod 65535 = 0) as E.
  { rewrite Zplus_mod, <- Hm, <- Zplus_mod. by replace (r + (65535 - r)) with (1 * 65535) by lia. }
  rewrite E in Hm'. apply Z.mod_divide in Hm' as [k Hk]; lia.
Qed.
End Header.

(** ** The packets through the decoder *)

Definition v4addr (a : Z) : IpAddr := be32_bytes a ++ replicate 12 x00.

(** What [parse_ip] reports for a packet built from [s]. *)
Definition packet4 (s : UdpSpec) (pr l4len : Z) (payload : Bytes) : IpPacket :=
  mkIpPacket (mkFiveTuple (v4addr (us_src_ip s)) (v4addr (us_dst_ip s)) (us_src_port s) (us_dst_port s) pr 4
                false true)
    payload (20 + l4len + size payload) 20 l4len true.

Definition wf_udp (s : UdpSpec) : Prop :=
  0 <= us_src_port s < 65536 /\ 0 <= us_dst_port s < 65536.

Section Packets.
Context {HE : HostEndian}.

Lemma parse_ip_hdr4 src dst proto total ttl ck l4 :
  total = 20 + size l4 -> total < 65536 -> 0 <= proto < 256 ->
  parse_ip (hdr4 src dst proto total ttl 0x4000 ck ++ l4) =
  parse_l4 l4 (mkIpPacket (mkFiveTuple (v4addr src) (v4addr dst) 0 0 proto 4 false false) [] total 20 0 true).
Proof.
  intros Ht Hlt Hp. pose proof (size_nonneg l4). set (pkt := hdr4 src dst proto total ttl 0x4000 ck ++ l4).
  assert (size pkt = 20 + size l4) as Hs by (unfold pkt; rewrite size_app; reflexivity).
  assert (byte_at pkt 0 = 0x45) as E0 by reflexivity.
  assert (be16_at pkt 2 = total) as E2.
  { change pkt with ([to_byte 0x45; to_byte 0] ++ be16_bytes total ++ drop 4 pkt).
    change 2 with (size [to_byte 0x45; to_byte 0]) at 1. rewrite be16_at_image. apply u16_small. lia. }
  assert (be16_at pkt 6 = 0x4000) as E6 by reflexivity.
  assert (byte_at pkt 9 = proto) as E9.
  { change (bval (to_byte proto) = proto). rewrite bval_to_byte. by apply u8_small. }
  assert (slice 12 4 pkt = be32_bytes src) as E12 by reflexivity.
  assert (slice 16 4 pkt = be32_bytes dst) as E16 by reflexivity.
  assert (slice 20 (size l4) pkt = l4) as E20.
  { replace pkt with (hdr4 src dst proto total ttl 0x4000 ck ++ l4 ++ []) by (by rewrite app_nil_r).
    change 20 with (size (hdr4 src dst proto total ttl 0x4000 ck)). by rewrite slice_mid. }
  clearbody pkt. unfold parse_ip. rewrite (proj2 (Z.eqb_neq _ _)), (rd_Ok _ 0), E0, bind_Ok by lia.
  change (u8 (Z.shiftr 0x45 4) =? 4) with true. cbn [negb]. unfold parse_ipv4.
  rewrite (proj2 (Z.ltb_ge (size pkt) 20)), (rd_Ok _ 0), E0, bind_Ok by lia.
  change (negb (Z.shiftr 0x45 4 =? 4)) with false. change (Z.land 0x45 0x0F * 4) with 20. cbn [orb Z.ltb].
  change (20 <? 20) with false.
  rewrite (proj2 (Z.ltb_ge (size pkt) 20)), (load_be16_Ok _ 2), E2, bind_Ok by lia. cbn [orb].
  rewrite (proj2 (Z.ltb_ge total 20)), (load_be16_Ok _ 6), (rd_Ok _ 9), E6, E9, !bind_Ok by lia.
  rewrite (subspan_Ok _ 12 4), (subspan_Ok _ 16 4), E12, E16, !bind_Ok by lia.
  rewrite !sub64_small by lia.
  replace (if total - 20 <? size pkt - 20 then _ else _) with (size l4) by (case_if; lia).
  rewrite subspan_Ok, E20, bind_Ok by lia. reflexivity.
Qed.

Lemma build_ipv4_udp_spec s payload : 28 + size payload < 65536 -> wf_udp s ->
  ensures (build_ipv4_udp s payload) (fun pkt => size pkt = 28 + size payload /\
    checksum16 (take 20 pkt) 0 = Ok 0 /\ parse_ip pkt = Ok (packet4 s IpProto.kUdp 8 payload)).
Proof.
  intros Hs [Hsp Hdp]. pose proof (size_nonneg payload). unfold build_ipv4_udp.
  rewrite (u16_small (8 + _)), (u16_small (20 + _)) by lia.
  eapply ensures_bind; [apply ipv4_header_spec|]. intros h (ck & Hck & -> & Hsum). apply ensures_Ok.
  norm_puts. set (l4 := be16_bytes (us_src_port s) ++ _).
  assert (size l4 = 8 + size payload) as Hl by (unfold l4; autorewrite with span; lia).
  assert (be16_at l4 0 = us_src_port s) as E0 by apply (be16_at_be16_bytes [] _ _ Hsp).
  assert (be16_at l4 2 = us_dst_port s) as E2.
  { unfold l4. change 2 with (size (be16_bytes (us_src_port s))). by apply be16_at_be16_bytes. }
  assert (drop 8 l4 = payload) as E8 by reflexivity. clearbody l4. split_and!.
  - rewrite size_app, Hl. change (size (hdr4 _ _ _ _ _ _ _)) with 20. lia.
  - rewrite take_app_length'; [exact Hsum|reflexivity].
  - rewrite parse_ip_hdr4 by (rewrite ?Hl; lia || done).
    unfold parse_l4. cbn [tuple proto]. change (IpProto.kUdp =? IpProto.kUdp) with true. cbn match.
    rewrite (proj2 (Z.ltb_ge _ _)) by lia. unfold set_ports.
    rewrite !load_be16_Ok, E0, E2, !bind_Ok by lia. unfold set_l4. rewrite subspan_from_Ok by lia.
    rewrite bind_Ok. change (Z.to_nat 8) with 8%nat. rewrite E8. unfold packet4.
    rewrite <- (Z.add_assoc 20 8). reflexivity.
Qed.

Lemma build_ipv4_tcp_spec s payload seq flags : 40 + size payload < 65536 -> wf_udp s ->
  ensures (build_ipv4_tcp s payload seq flags) (fun pkt => size pkt = 40 + size payload /\
    checksum16 (take 20 pkt) 0 = Ok 0 /\ parse_ip pkt = Ok (packet4 s IpProto.kTcp 20 payload)).
Proof.
  intros Hs [Hsp Hdp]. pose proof (size_nonneg payload). unfold build_ipv4_tcp.
  rewrite (u16_small (20 + size payload)), (u16_small (20 + _)) by lia.
  eapply ensures_bind; [apply ipv4_header_spec|]. intros h (ck & Hck & -> & Hsum). apply ensures_Ok.
  norm_puts. set (l4 := be16_bytes (us_src_port s) ++ _).
  assert (size l4 = 20 + size payload) as Hl by (unfold l4; autorewrite with span; lia).
  assert (be16_at l4 0 = us_src_port s) as E0 by apply (be16_at_be16_bytes [] _ _ Hsp).
  assert (be16_at l4 2 = us_dst_port s) as E2.
  { unfold l4. change 2 with (size (be16_bytes (us_src_port s))). by apply be16_at_be16_bytes. }
  assert (byte_at l4 12 = 0x50) as E12 by reflexivity.
  assert (drop 20 l4 = payload) as E20 by reflexivity. clearbody l4. split_and!.
  - rewrite size_app, Hl. change (size (hdr4 _ _ _ _ _ _ _)) with 20. lia.
  - rewrite take_app_length'; [exact Hsum|reflexivity].
  - rewrite parse_ip_hdr4 by (rewrite ?Hl; lia || done).
    unfold parse_l4. cbn [tuple proto]. change (IpProto.kTcp =? IpProto.kUdp) with false.
    change (IpProto.kTcp =? IpProto.kTcp) with true. cbn match.
    rewrite (proj2 (Z.ltb_ge (size l4) _)) by lia. unfold set_ports.
    rewrite !load_be16_Ok, E0, E2, !bind_Ok by lia. rewrite (rd_Ok _ 12), bind_Ok, E12 by lia.
    change (Z.shiftr 0x50 4 * 4) with 20. change (20 <? 20) with false. cbn [orb].
    rewrite (proj2 (Z.ltb_ge (size l4) _)) by lia. unfold set_l4. rewrite subspan_from_Ok by lia.
    rewrite bind_Ok. change (Z.to_nat 20) with 20%nat. rewrite E20. unfold packet4.
    rewrite <- (Z.add_assoc 20 20). reflexivity.
Qed.

Definition wf_udp6 (s : Udp6Spec) : Prop :=
  size (u6_src s) = 16 /\ size (u6_dst s) = 16 /\
  0 <= u6_src_port s < 65536 /\ 0 <= u6_dst_port s < 65536.

(** What [parse_ip] reports for an IPv6 packet built from [s]. *)
Definition packet6 (s : Udp6Spec) (payload : Bytes) : IpPacket :=
  mkIpPacket (mkFiveTuple (u6_src s) (u6_dst s) (u6_src_port s) (u6_dst_port s) IpProto.kUdp 6 false true)
    payload (48 + size payload) 40 8 true.

Lemma copy_over_full bs a : size bs = size a -> copy_over bs a = bs.
Proof. intros E. unfold copy_over. rewrite drop_ge by (unfold size in E; lia). by rewrite app_nil_r. Qed.

Lemma build_ipv6_udp_image s payload : size payload < 65000 ->
  exists h l4, build_ipv6_udp s payload = (to_byte 0x60 :: h) ++ u6_src s ++ u6_dst s ++ l4 /\
    size h = 7 /\ size l4 = 8 + size payload /\
    be16_at (to_byte 0x60 :: h) 4 = size l4 /\ byte_at (to_byte 0x60 :: h) 6 = IpProto.kUdp /\
    be16_at l4 0 = u16 (u6_src_port s) /\ be16_at l4 2 = u16 (u6_dst_port s) /\ drop 8 l4 = payload.
Proof.
  intros Hs. pose proof (size_nonneg payload). unfold build_ipv6_udp. rewrite u16_small by lia. norm_puts.
  exists ([to_byte (0x60000000 ≫ 16); to_byte (0x60000000 ≫ 8); to_byte 0x60000000]
    ++ be16_bytes (8 + size payload) ++ [to_byte IpProto.kUdp; to_byte (u6_hop_limit s)]).
  set (l4 := be16_bytes (u6_src_port s) ++ _).
  exists l4. assert (size l4 = 8 + size payload) as Hl by (unfold l4; autorewrite with span; lia).
  split; [|split_and!]; try reflexivity || done.
  - pose proof (be16_at_image (to_byte 0x60 :: [to_byte (0x60000000 ≫ 16); to_byte (0x60000000 ≫ 8);
      to_byte 0x60000000]) (8 + size payload) [to_byte IpProto.kUdp; to_byte (u6_hop_limit s)]) as E.
    rewrite u16_small in E by lia. rewrite Hl. exact E.
  - apply (be16_at_image []).
  - apply (be16_at_image (be16_bytes (u6_src_port s))).
Qed.

Lemma parse_build_ipv6_udp s payload : size payload < 65000 -> wf_udp6 s ->
  parse_ip (build_ipv6_udp s payload) = Ok (packet6 s payload).
Proof.
  intros Hp (Hsrc & Hdst & Hsp & Hdp). pose proof (size_nonneg payload).
  destruct (build_ipv6_udp_image s payload Hp) as (h & l4 & -> & Hh & Hl & E4 & E6 & P0 & P2 & E8).
  rewrite u16_small in P0, P2 by lia. set (hd := to_byte 0x60 :: h) in *.
  assert (size hd = 8) as Hhd by (unfold hd; rewrite size_cons; lia).
  assert (byte_at hd 0 = 0x60) as E0 by reflexivity. clearbody hd. set (pkt := hd ++ _).
  assert (size pkt = 48 + size payload) as Hs by (unfold pkt; rewrite !size_app; lia).
  assert (slice 8 16 pkt = u6_src s) as S8.
  { rewrite <- Hhd, <- Hsrc. apply slice_mid. }
  assert (slice 24 16 pkt = u6_dst s) as S24.
  { unfold pkt. rewrite app_assoc, <- Hdst. replace 24 with (size (hd ++ u6_src s)) by (rewrite size_app; lia).
    apply slice_mid. }
  assert (slice 40 (size l4) pkt = l4) as S40.
  { replace pkt with (((hd ++ u6_src s) ++ u6_dst s) ++ l4 ++ []) by (by rewrite app_nil_r, <- !app_assoc).
    replace 40 with (size ((hd ++ u6_src s) ++ u6_dst s)) by (rewrite !size_app; lia). apply slice_mid. }
  assert (byte_at pkt 0 = 0x60) as B0 by (unfold pkt; rewrite byte_at_app_l by lia; done).
  assert (byte_at pkt 6 = IpProto.kUdp) as B6 by (unfold pkt; rewrite byte_at_app_l by lia; done).
  assert (be16_at pkt 4 = size l4) as B4 by (unfold pkt; rewrite be16_at_app_l by lia; done).
  clearbody pkt. unfold parse_ip. rewrite (proj2 (Z.eqb_neq _ _)), (rd_Ok _ 0), B0, bind_Ok by lia.
  change (u8 (Z.shiftr 0x60 4) =? 4) with false. change (u8 (Z.shiftr 0x60 4) =? 6) with true. cbn match.
  unfold parse_ipv6. rewrite (proj2 (Z.ltb_ge _ _)), (rd_Ok _ 0), B0, bind_Ok by lia.
  change (negb (Z.shiftr 0x60 4 =? 6)) with false. cbn match.
  rewrite (load_be16_Ok _ 4), B4, bind_Ok by lia.
  rewrite (subspan_Ok _ 8 16), (subspan_Ok _ 24 16), S8, S24, !bind_Ok by lia.
  rewrite (rd_Ok _ 6), B6, bind_Ok by lia. cbn [ipv6_loop kMaxIpv6ExtHeaders].
  change (negb (is_ipv6_ext IpProto.kUdp)) with true. cbn match. rewrite bind_Ok.
  replace (if 40 + size l4 <? size pkt then _ else _) with (40 + size l4) by (case_if; lia).
  rewrite (proj2 (Z.leb_le _ _)), sub64_small by lia.
  replace (40 + size l4 - 40) with (size l4) by lia. rewrite subspan_Ok, S40, bind_Ok by lia.
  unfold parse_l4. cbn [tuple proto setf]. change (IpProto.kUdp =? IpProto.kUdp) with true. cbn match.
  rewrite (proj2 (Z.ltb_ge _ _)) by lia. unfold set_ports.
  rewrite !load_be16_Ok, P0, P2, !bind_Ok by lia. unfold set_l4. rewrite subspan_from_Ok by lia.
  rewrite bind_Ok. change (Z.to_nat 8) with 8%nat. rewrite E8. unfold packet6.
  rewrite !u32_small by lia. replace (48 + size payload) with (40 + size l4) by lia.
  transitivity (Ok (mkIpPacket (mkFiveTuple (copy_over (u6_src s) IpAddr_zero) (copy_over (u6_dst s) IpAddr_zero)
    (u6_src_port s) (u6_dst_port s) IpProto.kUdp 6 false true) payload (40 + size l4) 40 8 true)); [reflexivity|].
  by rewrite !copy_over_full.
Qed.

(** The frame around a packet. *)
Lemma build_ethernet_image ip et n vid :
  exists macs, size macs = 12 /\
    build_ethernet ip et n vid = enc_eth macs (replicate (Z.to_nat n) (kEtherTypeVlan, vid)) et ip.
Proof.
  unfold build_ethernet. cbn [foldl]. set (macs := push_back _ _). exists macs. split; [reflexivity|].
  clearbody macs. unfold enc_eth. autorewrite with puts. rewrite <- app_assoc.
  generalize (Z.to_nat n) as k. intros k. revert macs. induction k as [|k IH]; intros macs; [done|].
  cbn [put_tags replicate]. rewrite IH. autorewrite with puts. cbn [eth_rest]. rewrite <- !app_assoc.
  cbn [head_et]. by destruct k.
Qed.

Lemma parse_build_ethernet ip et n vid :
  0 <= n <= 2 -> 0 <= vid < 65536 -> 0 <= et < 65536 -> is_vlan_type et = false ->
  parse_ethernet (build_ethernet ip et n vid) = Ok (mkEthFrame ip et n true).
Proof.
  intros Hn Hv He Ht. destruct (build_ethernet_image ip et n vid) as (macs & Hm & ->).
  rewrite parse_ethernet_complete; try done.
  - unfold size. rewrite length_replicate. do 2 f_equal. lia.
  - apply Forall_replicate. split; [done|cbn; lia].
  - rewrite length_replicate. lia.
  - by rewrite Ht.
Qed.
End Packets.

Section Property.
Context {HE : HostEndian}.

(** Frames survive the round trip through the decoders.  An Ethernet frame
    with up to two VLAN tags around a built IPv4/UDP, IPv4/TCP or IPv6/UDP
    packet decodes to exactly that packet, its tuple and its payload, with the
    wire's lengths; and the IPv4 header checksum that the builder wrote
    verifies (the checksum over the finished header is zero). *)
Theorem ip_roundtrip s s6 payload tags vid seq flags :
  0 <= tags <= 2 -> 0 <= vid < 65536 -> wf_udp s -> wf_udp6 s6 -> size payload < 65000 ->
  ensures (build_ipv4_udp s payload) (fun pkt => checksum16 (take 20 pkt) 0 = Ok 0 /\
    parse_ethernet (build_ethernet pkt kEtherTypeIpv4 tags vid) = Ok (mkEthFrame pkt kEtherTypeIpv4 tags true) /\
    parse_ip pkt = Ok (packet4 s IpProto.kUdp 8 payload)) /\
  ensures (build_ipv4_tcp s payload seq flags) (fun pkt => checksum16 (take 20 pkt) 0 = Ok 0 /\
    parse_ethernet (build_ethernet pkt kEtherTypeIpv4 tags vid) = Ok (mkEthFrame pkt kEtherTypeIpv4 tags true) /\
    parse_ip pkt = Ok (packet4 s IpProto.kTcp 20 payload)) /\
  (let pkt := build_ipv6_udp s6 payload in
   parse_ethernet (build_ethernet pkt kEtherTypeIpv6 tags vid) = Ok (mkEthFrame pkt kEtherTypeIpv6 tags true) /\
   parse_ip pkt = Ok (packet6 s6 payload)).
Proof.
  intros Ht Hv Hs Hs6 Hp. split; [|split].
  - eapply ensures_mono; [apply build_ipv4_udp_spec; [lia|done]|]. intros pkt (_ & Hc & Hi).
    split; [done|]. split; [|done]. by apply parse_build_ethernet.
  - eapply ensures_mono; [apply build_ipv4_tcp_spec; [lia|done]|]. intros pkt (_ & Hc & Hi).
    split; [done|]. split; [|done]. by apply parse_build_ethernet.
  - split; [by apply parse_build_ethernet|by apply parse_build_ipv6_udp].
Qed.
End Property.

Definition sample_udp6 : Udp6Spec := mkUdp6Spec (replicate 16 x11) (replicate 16 x22) 5000 53 64.

Lemma ip_roundtrip_witness :
  let HE : HostEndian := little in
  ensures (build_ipv4_udp UdpSpec_init [x01; x02; x03]) (fun pkt =>
    checksum16 (take 20 pkt) 0 = Ok 0 /\ parse_ip pkt = Ok (packet4 UdpSpec_init IpProto.kUdp 8 [x01; x02; x03])).
Proof.
  intros HE.
  destruct (ip_roundtrip (HE := HE) UdpSpec_init sample_udp6 [x01; x02; x03] 2 7 1 0x18) as [H _];
    [lia|lia|split; cbn; lia|split_and!; reflexivity || (cbn; lia)|reflexivity|].
  destruct H as (pkt & E & Hc & _ & Hi). exists pkt. auto.
Defined.
