(* ===== verification/SynthGy.v ===== *)
(** * The Diameter builders against the Gy parser

    [put_avp] appends the wire image of an AVP; the two Gy builders therefore
    produce AVP areas of the grammar of [Diameter], and the parser's walk over
    them is a fold that can be computed. *)

From S2P Require Import Prelude ByteOrder Diameter Synth SynthProps.

(** ** AVPs *)

Definition avp_pad (n : Z) : Bytes := replicate (Z.to_nat ((- n) mod 4)) x00.

Lemma size_avp_pad n : size (avp_pad n) = (- n) mod 4.
Proof. unfold avp_pad, size. rewrite length_replicate. pose proof (Z.mod_pos_bound (- n) 4). lia. Qed.

Lemma pad_avp_spec : forall fuel out, ((- size out) mod 4 < Z.of_nat fuel) ->
  pad_avp fuel out = Ok (out ++ avp_pad (size out)).
Proof.
  unfold avp_pad. induction fuel as [|fuel IH]; intros out Hf; [pose proof (Z.mod_pos_bound (- size out) 4); lia|].
  cbn [pad_avp]. case_if.
  - replace ((- size out) mod 4) with 0 by (Z.div_mod_to_equations; lia). by rewrite app_nil_r.
  - assert ((- size out) mod 4 = (- size (push_back out 0)) mod 4 + 1) as Hm.
    { rewrite push_back_app, size_app. change (size [to_byte 0]) with 1. Z.div_mod_to_equations; lia. }
    pose proof (Z.mod_pos_bound (- size (push_back out 0)) 4 ltac:(lia)).
    rewrite IH by lia. f_equal. rewrite Hm, Z2Nat.inj_add, Nat.add_1_r by lia.
    rewrite push_back_app, <- app_assoc. reflexivity.
Qed.

Lemma avp_pad_mod a b : a mod 4 = b mod 4 -> avp_pad a = avp_pad b.
Proof. intros E. unfold avp_pad. do 2 f_equal. Z.div_mod_to_equations; lia. Qed.

(** The AVP that [put_avp] writes, the vendor field only with its flag. *)
Definition wire (code : Z) (d : Bytes) (flags vendor : Z) : WireAvp :=
  let v := negb (Z.land flags 0x80 =? 0) in
  mkWireAvp code flags (if v then vendor else 0) d (avp_pad ((if v then 12 else 8) + size d)).

Definition mandatory_avp (code : Z) (d : Bytes) : WireAvp := wire code d kAvpFlagMandatory 0.

Lemma put_avp_spec out c d flags vendor :
  size out mod 4 = 0 -> size d < 2 ^ 24 - 12 ->
  put_avp out c d flags vendor = Ok (out ++ enc_avp (wire c d flags vendor)).
Proof.
  intros Ho Hd. pose proof (size_nonneg d). unfold put_avp, kAvpFlagVendor.
  set (v := negb (Z.land flags 0x80 =? 0)). rewrite (u32_small (size d)) by lia.
  rewrite u32_small by (case_if; lia). rewrite pad_avp_spec by (apply Z.mod_pos_bound; lia).
  unfold enc_avp, wire, w_vbit, w_len, w_vbit. cbn [w_code w_flags w_vendor w_data w_pad]. fold v.
  f_equal. rewrite (avp_pad_mod _ ((if v then 12 else 8) + size d)).
  - destruct v; norm_puts; reflexivity.
  - destruct v; autorewrite with puts span; Z.div_mod_to_equations; lia.
Qed.

Lemma wire_wf c d flags vendor : 0 <= c < 2 ^ 32 -> 0 <= flags < 256 -> 0 <= vendor < 2 ^ 32 ->
  size d < 2 ^ 24 - 12 -> wf_wire (wire c d flags vendor).
Proof.
  intros Hc Hf Hv Hd. unfold wf_wire, wire, w_len, w_vbit. cbn [w_code w_flags w_vendor w_data w_pad].
  rewrite size_avp_pad. unfold pad4. pose proof (size_nonneg d).
  destruct (negb (Z.land flags 0x80 =? 0)); split_and!; done || lia || (Z.div_mod_to_equations; lia).
Qed.

Lemma wire_aligned c d flags vendor : size d < 2 ^ 24 - 12 -> 0 <= c < 2 ^ 32 -> 0 <= flags < 256 ->
  0 <= vendor < 2 ^ 32 -> size (enc_avp (wire c d flags vendor)) mod 4 = 0.
Proof.
  intros. rewrite size_enc_avp by (by apply wire_wf). unfold pad4. by rewrite Z.mod_mul.
Qed.

(** ** Areas built AVP by AVP *)

Lemma enc_avps_app l1 l2 : enc_avps (l1 ++ l2) = enc_avps l1 ++ enc_avps l2.
Proof. unfold enc_avps. by rewrite map_app, concat_app. Qed.

Lemma enc_avps_aligned ws : Forall wf_wire ws -> size (enc_avps ws) mod 4 = 0.
Proof.
  induction 1 as [|w ws Hw _ IH]; [done|]. change (enc_avps (w :: ws)) with (enc_avp w ++ enc_avps ws).
  rewrite size_app, size_enc_avp by done. unfold pad4. Z.div_mod_to_equations; lia.
Qed.

(** Bound on the size of an area: padded data and 8 bytes of header each. *)
Lemma size_mandatory c d : size (enc_avp (mandatory_avp c d)) <= 11 + size d.
Proof.
  unfold enc_avp, mandatory_avp, wire, w_vbit, w_len. cbn [w_code w_flags w_vendor w_data w_pad].
  change (negb (Z.land kAvpFlagMandatory 0x80 =? 0)) with false. cbn match. autorewrite with span.
  rewrite size_avp_pad. pose proof (Z.mod_pos_bound (- (8 + size d)) 4). lia.
Qed.

Lemma size_enc_cons_le c d ws : size (enc_avps (mandatory_avp c d :: ws)) <= 11 + size d + size (enc_avps ws).
Proof.
  change (enc_avps (mandatory_avp c d :: ws)) with (enc_avp (mandatory_avp c d) ++ enc_avps ws).
  rewrite size_app. pose proof (size_mandatory c d). lia.
Qed.

Definition fits (p : Z * Bytes) : Prop := 0 <= p.1 < 2 ^ 32 /\ size p.2 < 2 ^ 24 - 12.
Definition avp_list (l : list (Z * Bytes)) : list WireAvp := map (fun p => mandatory_avp p.1 p.2) l.

Lemma avp_list_wf l : Forall fits l -> Forall wf_wire (avp_list l).
Proof.
  intros H. apply Forall_map. revert H. apply Forall_impl. intros [c d] [Hc Hd].
  by apply wire_wf.
Qed.

(** The next [put_avp_*] of a builder adds one AVP at the end. *)
Lemma put_next l c d : Forall fits l -> fits (c, d) ->
  put_avp (enc_avps (avp_list l)) c d kAvpFlagMandatory 0 = Ok (enc_avps (avp_list (l ++ [(c, d)]))).
Proof.
  intros Hl [_ Hd]. rewrite put_avp_spec; [|by apply enc_avps_aligned, avp_list_wf|done].
  unfold avp_list. rewrite map_app, enc_avps_app. cbn [map]. do 2 f_equal. symmetry. apply app_nil_r.
Qed.

Definition u32_avp (c v : Z) : Z * Bytes := (c, be32_bytes v).
Definition u64_avp (c v : Z) : Z * Bytes := (c, be64_bytes v).
Definition grouped_avp (c : Z) (l : list (Z * Bytes)) : Z * Bytes := (c, enc_avps (avp_list l)).

Lemma put_next_u32 l c v : Forall fits l -> 0 <= c < 2 ^ 32 ->
  put_avp_u32 (enc_avps (avp_list l)) c v kAvpFlagMandatory = Ok (enc_avps (avp_list (l ++ [u32_avp c v]))).
Proof. intros. unfold put_avp_u32. rewrite put_be32_app. by apply put_next. Qed.

Lemma put_next_u64 l c v : Forall fits l -> 0 <= c < 2 ^ 32 ->
  put_avp_u64 (enc_avps (avp_list l)) c v kAvpFlagMandatory = Ok (enc_avps (avp_list (l ++ [u64_avp c v]))).
Proof. intros. unfold put_avp_u64. rewrite put_be64_app. by apply put_next. Qed.

Lemma put_next_str l c d : Forall fits l -> fits (c, d) ->
  put_avp_str (enc_avps (avp_list l)) c d kAvpFlagMandatory = Ok (enc_avps (avp_list (l ++ [(c, d)]))).
Proof. apply put_next. Qed.

Lemma put_next_grouped l c g : Forall fits l -> fits (grouped_avp c g) ->
  put_avp_grouped (enc_avps (avp_list l)) c (enc_avps (avp_list g)) kAvpFlagMandatory =
  Ok (enc_avps (avp_list (l ++ [grouped_avp c g]))).
Proof. apply put_next. Qed.

(** ** The contents of the two messages *)

Definition ccr_subscription (s : GySpec) : list (Z * Bytes) :=
  [u32_avp AvpCode.kSubscriptionIdType SubscriptionIdType.kImsi; (AvpCode.kSubscriptionIdData, sy_imsi s)].
Definition ccr_usu (s : GySpec) : list (Z * Bytes) :=
  [u64_avp AvpCode.kCcInputOctets (sy_used_input s); u64_avp AvpCode.kCcOutputOctets (sy_used_output s);
   u64_avp AvpCode.kCcTotalOctets (add64 (sy_used_input s) (sy_used_output s))].
Definition ccr_mscc (s : GySpec) : list (Z * Bytes) :=
  [u32_avp AvpCode.kRatingGroup (sy_rating_group s); grouped_avp AvpCode.kUsedServiceUnit (ccr_usu s)].
Definition ccr_list (s : GySpec) : list (Z * Bytes) :=
  [(AvpCode.kSessionId, sy_session_id s); (AvpCode.kOriginHost, sy_origin_host s);
   (AvpCode.kOriginRealm, sy_origin_realm s); u32_avp AvpCode.kCcRequestType (sy_request_type s);
   u32_avp AvpCode.kCcRequestNumber (sy_request_number s);
   grouped_avp AvpCode.kSubscriptionId (ccr_subscription s)]
  ++ if sy_include_mscc s then [grouped_avp AvpCode.kMultipleServicesCreditControl (ccr_mscc s)] else [].

Definition cca_gsu (s : GySpec) : list (Z * Bytes) := [u64_avp AvpCode.kCcTotalOctets (sy_granted_total s)].
Definition cca_mscc (s : GySpec) : list (Z * Bytes) :=
  [u32_avp AvpCode.kRatingGroup (sy_rating_group s); grouped_avp AvpCode.kGrantedServiceUnit (cca_gsu s);
   u32_avp AvpCode.kResultCode (sy_result_code s)].
Definition cca_list (s : GySpec) : list (Z * Bytes) :=
  [(AvpCode.kSessionId, sy_session_id s); u32_avp AvpCode.kResultCode (sy_result_code s);
   (AvpCode.kOriginHost, str "ocs.example.com"); (AvpCode.kOriginRealm, sy_origin_realm s);
   u32_avp AvpCode.kCcRequestType (sy_request_type s); u32_avp AvpCode.kCcRequestNumber (sy_request_number s)]
  ++ if sy_include_mscc s then [grouped_avp AvpCode.kMultipleServicesCreditControl (cca_mscc s)] else [].

Definition wf_gy (s : GySpec) : Prop :=
  size (sy_session_id s) + size (sy_origin_host s) + size (sy_origin_realm s) <= 2 ^ 19 /\
  0 <= sy_request_type s < 2 ^ 32 /\ 0 <= sy_request_number s < 2 ^ 32 /\
  0 <= sy_rating_group s < 2 ^ 32 /\ 0 <= sy_result_code s < 2 ^ 32 /\
  0 <= sy_used_input s < 2 ^ 64 /\ 0 <= sy_used_output s < 2 ^ 64 /\ 0 <= sy_granted_total s < 2 ^ 64 /\
  Forall is_digit (sy_imsi s) /\ 1 <= size (sy_imsi s) <= 19.

(** The sizes all come out small. *)
Lemma size_enc_list_le l : size (enc_avps (avp_list l)) <= foldr (fun p n => 11 + size p.2 + n) 0 l.
Proof.
  induction l as [|[c d] l IH]; [done|]. cbn [avp_list map foldr fst snd] in *.
  pose proof (size_enc_cons_le c d (avp_list l)). unfold avp_list in *. lia.
Qed.

Ltac size_lists := etransitivity; [apply size_enc_list_le|]; cbn [foldr app fst snd u32_avp u64_avp];
  rewrite ?size_be32_bytes, ?size_be64_bytes.

Lemma ccr_subscription_size s : wf_gy s -> size (enc_avps (avp_list (ccr_subscription s))) <= 45.
Proof. intros (_ & _ & _ & _ & _ & _ & _ & _ & _ & H). unfold ccr_subscription. size_lists. lia. Qed.

Lemma ccr_usu_size s : size (enc_avps (avp_list (ccr_usu s))) <= 57.
Proof. unfold ccr_usu. size_lists. lia. Qed.

Lemma ccr_mscc_size s : size (enc_avps (avp_list (ccr_mscc s))) <= 83.
Proof. unfold ccr_mscc. size_lists. pose proof (ccr_usu_size s). cbn [grouped_avp snd]. lia. Qed.

Lemma cca_mscc_size s : size (enc_avps (avp_list (cca_mscc s))) <= 60.
Proof.
  unfold cca_mscc. size_lists. cbn [grouped_avp snd].
  assert (size (enc_avps (avp_list (cca_gsu s))) <= 19) by (unfold cca_gsu; size_lists; lia). lia.
Qed.

Lemma ccr_list_size s : wf_gy s -> size (enc_avps (avp_list (ccr_list s))) <= 2 ^ 19 + 300.
Proof.
  intros H. pose proof (ccr_subscription_size s H). pose proof (ccr_mscc_size s). destruct H as (H & _).
  unfold ccr_list. destruct (sy_include_mscc s); size_lists; cbn [grouped_avp snd]; lia.
Qed.

Lemma cca_list_size s : wf_gy s -> size (enc_avps (avp_list (cca_list s))) <= 2 ^ 19 + 300.
Proof.
  intros H. pose proof (cca_mscc_size s). destruct H as (H & _). pose proof (size_nonneg (sy_origin_host s)).
  assert (size (str "ocs.example.com") = 15) by reflexivity.
  unfold cca_list. destruct (sy_include_mscc s); size_lists; cbn [grouped_avp snd]; lia.
Qed.

(** All AVPs fit their length fields. *)
Ltac solve_fits :=
  repeat match goal with
  | |- Forall _ [] => constructor
  | |- Forall _ (_ :: _) => constructor
  | |- fits _ => split; cbn [fst snd u32_avp u64_avp grouped_avp]; rewrite ?size_be32_bytes, ?size_be64_bytes; try lia; done
  end.

Lemma ccr_fits s : wf_gy s ->
  Forall fits (ccr_subscription s) /\ Forall fits (ccr_usu s) /\ Forall fits (ccr_mscc s) /\ Forall fits (ccr_list s).
Proof.
  intros H. pose proof (ccr_subscription_size s H). pose proof (ccr_usu_size s). pose proof (ccr_mscc_size s).
  destruct H as (H & _ & _ & _ & _ & _ & _ & _ & _ & ?). pose proof (size_nonneg (sy_session_id s)).
  pose proof (size_nonneg (sy_origin_host s)). pose proof (size_nonneg (sy_origin_realm s)).
  split_and!; unfold ccr_subscription, ccr_usu, ccr_mscc, ccr_list; try apply Forall_app; try split;
    try destruct (sy_include_mscc s); solve_fits.
Qed.

Lemma cca_fits s : wf_gy s -> Forall fits (cca_gsu s) /\ Forall fits (cca_mscc s) /\ Forall fits (cca_list s).
Proof.
  intros H. pose proof (cca_mscc_size s).
  assert (size (enc_avps (avp_list (cca_gsu s))) <= 19) by (unfold cca_gsu; size_lists; lia).
  destruct H as (H & _). pose proof (size_nonneg (sy_session_id s)).
  pose proof (size_nonneg (sy_origin_host s)). pose proof (size_nonneg (sy_origin_realm s)).
  split_and!; unfold cca_gsu, cca_mscc, cca_list; try apply Forall_app; try split;
    try destruct (sy_include_mscc s); solve_fits.
Qed.

(** ** The builders produce these areas *)

Lemma put_first_u32 c v : 0 <= c < 2 ^ 32 ->
  put_avp_u32 [] c v kAvpFlagMandatory = Ok (enc_avps (avp_list [u32_avp c v])).
Proof. intros. by apply (put_next_u32 []). Qed.
Lemma put_first_u64 c v : 0 <= c < 2 ^ 32 ->
  put_avp_u64 [] c v kAvpFlagMandatory = Ok (enc_avps (avp_list [u64_avp c v])).
Proof. intros. by apply (put_next_u64 []). Qed.
Lemma put_first_str c d : fits (c, d) ->
  put_avp_str [] c d kAvpFlagMandatory = Ok (enc_avps (avp_list [(c, d)])).
Proof. intros. by apply (put_next_str []). Qed.

Ltac put_steps folds :=
  repeat (first [ rewrite put_first_u32 by done | rewrite put_first_u64 by done
                | rewrite put_first_str by solve_fits | rewrite put_next_u32 by (done || solve_fits)
                | rewrite put_next_u64 by (done || solve_fits) | rewrite put_next_str by solve_fits
                | rewrite put_next_grouped by solve_fits ];
          rewrite ?bind_Ok; cbn [app]; folds).

Lemma build_ccr_spec s : wf_gy s ->
  build_ccr s = Ok (build_diameter DiameterCommand.kCreditControl DiameterApp.kCreditControl true
    (enc_avps (avp_list (ccr_list s))) 0x11111111 0x22222222).
Proof.
  intros H. pose proof (ccr_subscription_size s H). pose proof (ccr_usu_size s). pose proof (ccr_mscc_size s).
  destruct H as (H & _ & _ & _ & _ & _ & _ & _ & _ & ?). pose proof (size_nonneg (sy_session_id s)).
  pose proof (size_nonneg (sy_origin_host s)). pose proof (size_nonneg (sy_origin_realm s)).
  unfold build_ccr, ccr_list. cbn zeta.
  destruct (sy_include_mscc s);
    put_steps ltac:(fold (ccr_subscription s); fold (ccr_usu s); fold (ccr_mscc s)); reflexivity.
Qed.

Lemma build_cca_spec s : wf_gy s ->
  build_cca s = Ok (build_diameter DiameterCommand.kCreditControl DiameterApp.kCreditControl false
    (enc_avps (avp_list (cca_list s))) 0x11111111 0x22222222).
Proof.
  intros H. pose proof (cca_mscc_size s).
  assert (size (enc_avps (avp_list (cca_gsu s))) <= 19) by (unfold cca_gsu; size_lists; lia).
  destruct H as (H & _). pose proof (size_nonneg (sy_session_id s)).
  pose proof (size_nonneg (sy_origin_host s)). pose proof (size_nonneg (sy_origin_realm s)).
  unfold build_cca, cca_list. cbn zeta.
  destruct (sy_include_mscc s);
    put_steps ltac:(fold (cca_gsu s); fold (cca_mscc s)); reflexivity.
Qed.

(** ** Parsing them back *)

Section Parse.
Context {HE : HostEndian}.

Lemma parse_build_diameter cc app req area hbh e2e :
  0 <= cc < 2 ^ 24 -> 0 <= app < 2 ^ 32 -> 0 <= hbh < 2 ^ 32 -> 0 <= e2e < 2 ^ 32 ->
  20 + size area <= kDiameterMaxMsgLen -> size area mod 4 = 0 ->
  parse_diameter_header (build_diameter cc app req area hbh e2e) =
  Ok (DiameterStatus.kOk, mkDiameterHeader area (20 + size area) cc app hbh e2e (if req then 0x80 else 0x00)).
Proof.
  intros Hcc Happ Hh He Hs Hm. unfold kDiameterMaxMsgLen in Hs. pose proof (size_nonneg area).
  unfold build_diameter, kDiameterHeaderLen. rewrite u32_small by lia.
  set (n := 20 + size area) in *. assert (n = 20 + size area) as Hn by done. clearbody n. norm_puts.
  set (fl := if req then 0x80 else 0x00). assert (0 <= fl < 256) as Hfl by (unfold fl; case_if; lia).
  set (msg := to_byte 1 :: _).
  assert (size msg = n) as Hsz by (unfold msg; autorewrite with span; lia).
  assert (byte_at msg 0 = 1) as B0 by reflexivity.
  assert (be24_at msg 1 = n) as B1.
  { pose proof (be24_at_image [to_byte 1] n (drop 4 msg)) as E. rewrite Z.mod_small in E by lia. exact E. }
  assert (byte_at msg 4 = fl) as B4.
  { change (bval (to_byte fl) = fl). rewrite bval_to_byte. by apply u8_small. }
  assert (be24_at msg 5 = cc) as B5.
  { pose proof (be24_at_image (take 5 msg) cc (drop 8 msg)) as E. rewrite Z.mod_small in E by lia. exact E. }
  assert (be32_at msg 8 = app) as B8.
  { pose proof (be32_at_image (take 8 msg) app (drop 12 msg)) as E. rewrite u32_small in E by lia. exact E. }
  assert (be32_at msg 12 = hbh) as B12.
  { pose proof (be32_at_image (take 12 msg) hbh (drop 16 msg)) as E. rewrite u32_small in E by lia. exact E. }
  assert (be32_at msg 16 = e2e) as B16.
  { pose proof (be32_at_image (take 16 msg) e2e (drop 20 msg)) as E. rewrite u32_small in E by lia. exact E. }
  assert (slice 20 (size area) msg = area) as S20.
  { pose proof (slice_mid (take 20 msg) area []) as E. rewrite app_nil_r in E. exact E. }
  clearbody msg. unfold parse_diameter_header, kDiameterHeaderLen, kDiameterMaxMsgLen.
  rewrite Hsz, (proj2 (Z.ltb_ge n 20)), (rd_Ok _ 0), B0, bind_Ok by lia.
  change (negb (1 =? 1)) with false. cbn match.
  rewrite (load_be24_Ok _ 1), B1, bind_Ok by lia.
  rewrite (proj2 (Z.ltb_ge n 20)), (proj2 (Z.ltb_ge (2 ^ 20) n)), (proj2 (Z.ltb_ge n n)) by lia. cbn [orb].
  change 3 with (Z.ones 2). rewrite Z.land_ones by lia. change (2 ^ 2) with 4.
  replace (n mod 4) with 0 by (Z.div_mod_to_equations; lia). change (negb (0 =? 0)) with false. cbn match.
  rewrite (rd_Ok _ 4), (load_be24_Ok _ 5), (load_be32_Ok _ 8), (load_be32_Ok _ 12), (load_be32_Ok _ 16),
    B4, B5, B8, B12, B16, !bind_Ok by lia.
  rewrite sub64_small, subspan_Ok by lia. replace (n - 20) with (size area) by lia. rewrite S20, bind_Ok.
  reflexivity.
Qed.

(** The accessors read the images back. *)
Lemma as_u32_image a v o : data a = be32_bytes v -> 0 <= v < 2 ^ 32 -> as_u32 a o = Ok (true, v).
Proof.
  intros E Hv. unfold as_u32. rewrite E, size_be32_bytes. change (negb (4 =? 4)) with false. cbn match.
  rewrite load_be32_Ok by (rewrite ?size_be32_bytes; lia). rewrite bind_Ok.
  pose proof (be32_at_image [] v []) as I. rewrite u32_small, app_nil_r in I by done. cbn [app] in I.
  change (size (@nil byte)) with 0 in I. by rewrite I.
Qed.

Lemma as_u64_image a v o : data a = be64_bytes v -> 0 <= v < 2 ^ 64 -> as_u64 a o = Ok (true, v).
Proof.
  intros E Hv. unfold as_u64. rewrite E, size_be64_bytes. change (8 =? 8) with true. cbn match.
  rewrite load_be64_Ok by (rewrite ?size_be64_bytes; lia). rewrite bind_Ok.
  pose proof (be64_at_image [] v []) as I. rewrite u64_small, app_nil_r in I by done. cbn [app] in I.
  change (size (@nil byte)) with 0 in I. by rewrite I.
Qed.

(** A walk over a built area, as a fold over its entries. *)
Definition avps_of (l : list (Z * Bytes)) : list Avp := map avp_of (avp_list l).

Lemma for_each_list {S} (fn : Avp -> Z -> S -> res (bool * S)) l depth s :
  Forall fits l -> size (enc_avps (avp_list l)) < 2 ^ 64 -> depth < kAvpMaxDepth ->
  for_each_avp (enc_avps (avp_list l)) fn depth s =
    let* (c, s') := fold_avps fn depth (avps_of l) s in Ok (DiameterStatus.kOk, s').
Proof. intros Hl Hs Hd. apply for_each_avp_enc; [by apply avp_list_wf|done|done]. Qed.

Definition entry (p : Z * Bytes) : Avp := avp_of (mandatory_avp p.1 p.2).

Lemma fold_entry {S} (fn : Avp -> Z -> S -> res (bool * S)) depth p l s s' :
  fn (entry p) depth s = Ok (true, s') ->
  fold_avps fn depth (avps_of (p :: l)) s = fold_avps fn depth (avps_of l) s'.
Proof. intros E. cbn [avps_of avp_list map fold_avps]. fold (entry p). by rewrite E. Qed.

Lemma code_entry c d : code (entry (c, d)) = c.
Proof. reflexivity. Qed.
Lemma data_entry c d : data (entry (c, d)) = d.
Proof. reflexivity. Qed.

(** Decide which branch of a callback an entry takes. *)
Ltac take_branch :=
  unfold u32_avp, u64_avp, grouped_avp; rewrite ?code_entry;
  repeat (match goal with |- context [if ?c =? ?k then _ else _] =>
    let b := eval vm_compute in (c =? k) in
    replace (c =? k) with b by reflexivity end; cbn match).

Lemma fold_usu s depth info : wf_gy s ->
  fold_avps usu_fn depth (avps_of (ccr_usu s)) info =
  Ok (true, info <| used_input_octets := sy_used_input s |> <| used_output_octets := sy_used_output s |>
                 <| used_total_octets := add64 (sy_used_input s) (sy_used_output s) |>).
Proof.
  intros (_ & _ & _ & _ & _ & Hi & Ho & _). unfold ccr_usu.
  erewrite fold_entry; [|unfold usu_fn; take_branch; rewrite (as_u64_image _ (sy_used_input s)) by done; reflexivity].
  erewrite fold_entry; [|unfold usu_fn; take_branch; rewrite (as_u64_image _ (sy_used_output s)) by done; reflexivity].
  erewrite fold_entry; [|unfold usu_fn; take_branch;
    rewrite (as_u64_image _ (add64 (sy_used_input s) (sy_used_output s))) by (done || apply u64_range); reflexivity].
  reflexivity.
Qed.

Definition ccr_info (s : GySpec) : MsccInfo :=
  mkMsccInfo (sy_used_input s) (sy_used_output s) (add64 (sy_used_input s) (sy_used_output s)) 0
    (sy_rating_group s) 0 true false true false.

Lemma parse_ccr_mscc s : wf_gy s ->
  parse_mscc (entry (grouped_avp AvpCode.kMultipleServicesCreditControl (ccr_mscc s))) MsccInfo_init 0 =
  Ok (ccr_info s).
Proof.
  intros Hwf. pose proof (ccr_mscc_size s). pose proof (ccr_usu_size s).
  destruct (ccr_fits s Hwf) as (_ & Hu & Hm & _).
  unfold parse_mscc, for_each_sub_avp.
  change (data (entry _)) with (enc_avps (avp_list (ccr_mscc s))).
  rewrite for_each_list by (done || lia). unfold ccr_mscc.
  erewrite fold_entry; [|unfold mscc_fn; take_branch;
    rewrite (as_u32_image _ (sy_rating_group s)) by (done || apply Hwf); reflexivity].
  erewrite fold_entry.
  2: { unfold mscc_fn. take_branch. unfold parse_used_service_unit, for_each_sub_avp.
       change (data (entry _)) with (enc_avps (avp_list (ccr_usu s))).
       rewrite for_each_list by (done || lia). rewrite fold_usu, !bind_Ok by done. reflexivity. }
  cbn [fold_avps avps_of avp_list map]. rewrite !bind_Ok. f_equal. unfold ccr_info. case_if; [|reflexivity].
  change (add64 (sy_used_input s) (sy_used_output s) = 0) in Hif.
  reflexivity.
Qed.

Definition cca_info (s : GySpec) : MsccInfo :=
  mkMsccInfo 0 0 0 (sy_granted_total s) (sy_rating_group s) 0 true false false true.

Lemma parse_cca_mscc s : wf_gy s ->
  parse_mscc (entry (grouped_avp AvpCode.kMultipleServicesCreditControl (cca_mscc s))) MsccInfo_init 0 =
  Ok (cca_info s).
Proof.
  intros Hwf. pose proof (cca_mscc_size s).
  assert (size (enc_avps (avp_list (cca_gsu s))) <= 19) by (unfold cca_gsu; size_lists; lia).
  destruct (cca_fits s Hwf) as (Hg & Hm & _).
  unfold parse_mscc, for_each_sub_avp. unfold grouped_avp at 1. rewrite data_entry.
  rewrite for_each_list by (done || lia). unfold cca_mscc.
  erewrite fold_entry; [|unfold mscc_fn; take_branch;
    rewrite (as_u32_image _ (sy_rating_group s)) by (done || apply Hwf); reflexivity].
  erewrite fold_entry.
  2: { unfold mscc_fn. take_branch. unfold for_each_sub_avp. rewrite data_entry.
       rewrite for_each_list by (done || lia). unfold cca_gsu. erewrite fold_entry.
       2: { unfold granted_fn. take_branch.
            rewrite (as_u64_image _ (sy_granted_total s)) by (done || apply Hwf). reflexivity. }
       reflexivity. }
  erewrite fold_entry; [|unfold mscc_fn; take_branch; reflexivity].
  reflexivity.
Qed.

Lemma pack_imsi_decimal d o : Forall is_digit d -> 1 <= size d <= 19 -> pack_imsi d o = (true, decimal d).
Proof.
  intros Hd Hs. unfold pack_imsi. rewrite (proj2 (Z.eqb_neq _ _)), (proj2 (Z.ltb_ge _ _)) by lia. cbn [orb].
  assert (10 ^ size d <= 10 ^ 19) by (apply Z.pow_le_mono_r; lia).
  rewrite (proj2 (pack_digits_spec d 0 ltac:(lia) ltac:(lia) (decimal d))); [done|]. by split.
Qed.

Lemma parse_ccr_subscription s g : wf_gy s ->
  parse_subscription_id (entry (grouped_avp AvpCode.kSubscriptionId (ccr_subscription s))) g 0 =
  Ok (g <| imsi := decimal (sy_imsi s) |> <| has_imsi := true |>).
Proof.
  intros Hwf. pose proof (ccr_subscription_size s Hwf). destruct (ccr_fits s Hwf) as (Hf & _).
  unfold parse_subscription_id, for_each_sub_avp. unfold grouped_avp at 1. rewrite data_entry.
  rewrite for_each_list by (done || lia). unfold ccr_subscription.
  erewrite fold_entry; [|unfold subscription_fn; take_branch;
    rewrite (as_u32_image _ SubscriptionIdType.kImsi) by done; reflexivity].
  erewrite fold_entry; [|unfold subscription_fn; take_branch; reflexivity].
  cbn [fold_avps avps_of avp_list map]. rewrite !bind_Ok. unfold as_string. rewrite data_entry.
  change (SubscriptionIdType.kImsi =? SubscriptionIdType.kImsi) with true. cbn match.
  rewrite pack_imsi_decimal by apply Hwf. reflexivity.
Qed.

(** What the parser reports for the two messages. *)
Definition one_mscc (b : bool) (info : MsccInfo) : list MsccInfo :=
  if b then info :: replicate 7 MsccInfo_init else replicate 8 MsccInfo_init.
Definition ccr_gy (s : GySpec) : GyMessage :=
  mkGyMessage (sy_session_id s) (sy_origin_host s) (sy_origin_realm s) []
    (one_mscc (sy_include_mscc s) (ccr_info s)) (decimal (sy_imsi s)) (sy_request_type s) (sy_request_number s) 0
    (if sy_include_mscc s then 1 else 0) true true false false.
Definition cca_gy (s : GySpec) : GyMessage :=
  mkGyMessage (sy_session_id s) (str "ocs.example.com") (sy_origin_realm s) []
    (one_mscc (sy_include_mscc s) (cca_info s)) 0 (sy_request_type s) (sy_request_number s) (sy_result_code s)
    (if sy_include_mscc s then 1 else 0) false false true false.

(** The callback of [parse_gy] on the first MSCC block. *)
Lemma gy_fn_mscc l g depth info :
  mscc_count g = 0 -> mscc g = replicate 8 MsccInfo_init ->
  parse_mscc (entry (grouped_avp AvpCode.kMultipleServicesCreditControl l)) MsccInfo_init depth = Ok info ->
  gy_fn (entry (grouped_avp AvpCode.kMultipleServicesCreditControl l)) depth g =
  Ok (true, g <| mscc := one_mscc true info |> <| mscc_count := 1 |>).
Proof.
  intros Hc Hm Hp. unfold gy_fn. revert Hp. unfold grouped_avp. intros Hp. take_branch.
  rewrite Hc, Hm. change (0 <? size (replicate 8 MsccInfo_init)) with true. cbn match.
  change (at_ (replicate 8 MsccInfo_init) 0) with (Ok MsccInfo_init). rewrite bind_Ok, Hp, !bind_Ok.
  destruct g; cbn in *. subst. reflexivity.
Qed.

Ltac gy_step := erewrite fold_entry; [|unfold gy_fn; take_branch; unfold as_string; rewrite ?data_entry;
  try match goal with Hwf : wf_gy ?s |- _ =>
      first [ rewrite (as_u32_image _ (sy_request_type s)) by (done || apply Hwf)
            | rewrite (as_u32_image _ (sy_request_number s)) by (done || apply Hwf)
            | rewrite (as_u32_image _ (sy_result_code s)) by (done || apply Hwf) ] end; reflexivity].

Lemma fold_ccr s : wf_gy s ->
  fold_avps gy_fn 0 (avps_of (ccr_list s)) (GyMessage_init <| is_request := true |>) = Ok (true, ccr_gy s).
Proof.
  intros Hwf. unfold ccr_list. cbn [app]. do 5 gy_step.
  erewrite fold_entry.
  2: { unfold gy_fn.
       pose proof (parse_ccr_subscription s) as E. unfold grouped_avp in *. take_branch.
       rewrite E by done. reflexivity. }
  unfold ccr_gy. destruct (sy_include_mscc s); [|reflexivity].
  erewrite fold_entry; [|apply gy_fn_mscc; [reflexivity|reflexivity|by apply parse_ccr_mscc]]. reflexivity.
Qed.

Lemma fold_cca s : wf_gy s ->
  fold_avps gy_fn 0 (avps_of (cca_list s)) (GyMessage_init <| is_request := false |>) = Ok (true, cca_gy s).
Proof.
  intros Hwf. unfold cca_list. cbn [app]. do 6 gy_step.
  unfold cca_gy. destruct (sy_include_mscc s); [|reflexivity].
  erewrite fold_entry; [|apply gy_fn_mscc; [reflexivity|reflexivity|by apply parse_cca_mscc]]. reflexivity.
Qed.

(** A Gy message around a built area is parsed by the fold. *)
Lemma parse_gy_list l req g gy0 : Forall fits l -> size (enc_avps (avp_list l)) <= 2 ^ 19 + 300 ->
  fold_avps gy_fn 0 (avps_of l) (GyMessage_init <| is_request := req |>) = Ok (true, g) ->
  exists hdr, is_credit_control hdr = true /\ application_id hdr = DiameterApp.kCreditControl /\ request hdr = req /\
    parse_diameter_gy (build_diameter DiameterCommand.kCreditControl DiameterApp.kCreditControl req
      (enc_avps (avp_list l)) 0x11111111 0x22222222) gy0 = Ok (DiameterStatus.kOk, hdr, g).
Proof.
  intros Hl Hs Hf. set (area := enc_avps (avp_list l)) in *.
  exists (mkDiameterHeader area (20 + size area) DiameterCommand.kCreditControl DiameterApp.kCreditControl
    0x11111111 0x22222222 (if req then 0x80 else 0x00)).
  split; [done|]. split; [done|]. split; [by destruct req|]. unfold parse_diameter_gy.
  rewrite parse_build_diameter; try done; [|unfold kDiameterMaxMsgLen; lia|by apply enc_avps_aligned, avp_list_wf].
  rewrite bind_Ok. rewrite bool_decide_eq_true_2 by done. cbn [negb]. replace (is_credit_control _) with true by done.
  cbn [negb]. unfold parse_gy. cbn [avps]. unfold area. rewrite for_each_list by (done || (unfold area in Hs; lia)).
  replace (request _) with req by (by destruct req). rewrite Hf. reflexivity.
Qed.
End Parse.

Section Property.
Context {HE : HostEndian}.

(** C15: The Gy builders and the Gy parser agree.  For every specification with
    an IMSI of 1 to 19 digits, values that fit their AVPs and strings of at most
    512 KiB, the Credit-Control-Request built from it is accepted as a request
    of the credit-control application and yields the session id, the origin,
    the request type and number, the IMSI as a number and (if asked for) one
    MSCC block with rating group and reported octets; the Credit-Control-Answer
    yields the result code and the granted octets. *)
Theorem gy_roundtrip s gy0 : wf_gy s ->
  (exists msg hdr, build_ccr s = Ok msg /\ parse_diameter_gy msg gy0 = Ok (DiameterStatus.kOk, hdr, ccr_gy s) /\
     is_credit_control hdr = true /\ application_id hdr = DiameterApp.kCreditControl /\ request hdr = true) /\
  (exists msg hdr, build_cca s = Ok msg /\ parse_diameter_gy msg gy0 = Ok (DiameterStatus.kOk, hdr, cca_gy s) /\
     is_credit_control hdr = true /\ application_id hdr = DiameterApp.kCreditControl /\ request hdr = false).
Proof.
  intros Hwf. rewrite build_ccr_spec, build_cca_spec by done. split.
  - destruct (parse_gy_list (ccr_list s) true (ccr_gy s) gy0) as (hdr & ? & ? & ? & ?);
      [apply (ccr_fits s Hwf)|by apply ccr_list_size|by apply fold_ccr|]. eauto 10.
  - destruct (parse_gy_list (cca_list s) false (cca_gy s) gy0) as (hdr & ? & ? & ? & ?);
      [apply (cca_fits s Hwf)|by apply cca_list_size|by apply fold_cca|]. eauto 10.
Qed.
End Property.

Lemma GySpec_init_wf : wf_gy GySpec_init.
Proof.
  unfold wf_gy. split_and!; try done.
  repeat (apply Forall_cons_iff; split; [by vm_compute|]). apply Forall_nil.
Qed.

Lemma gy_roundtrip_witness :
  let HE : HostEndian := little in
  exists msg hdr, build_ccr GySpec_init = Ok msg /\
    parse_diameter_gy msg GyMessage_init = Ok (DiameterStatus.kOk, hdr, ccr_gy GySpec_init).
Proof.
  intros HE. destruct (gy_roundtrip (HE := HE) GySpec_init GyMessage_init GySpec_init_wf)
    as [(msg & hdr & E1 & E2 & _) _]. eauto.
Defined.
