(* ===== verification/EndToEnd.v ===== *)
(** * From a built frame to a charged subscriber

    The pieces put together: a user packet is tunnelled by the packet builders,
    the ingest path turns the frame into one event on the metering ring, and
    the engine charges that event to the owner of the tunnel. *)

From S2P Require Import Prelude ByteOrder Gtpu Net Diameter SpscRing FlatHash MeterEvent UsageRecord Session.
From S2P Require Import Meter MeterProps MeterControl MeterLedger Pipeline PipelineProps Synth SynthProps SynthIp.

Section EndToEnd.
Context {HE : HostEndian} {R1 R2 M R : Type}.
Context {Q1 : BoundedQueue MeterEvent R1} {Q2 : BoundedQueue GyEvent R2}.
Context {KT : KeyTable TeidBinding M} {BQ : BoundedQueue UsageRecord R}.
Abbreviation ingest := (Ingest R1 R2).
Abbreviation engine := (MeterEngine M R).

(** The layers of a built tunnel frame, as the decoders see them. *)
Lemma gtpu_frame_layers gs inner src dst : wf_gtpu gs inner -> 36 + size (gtpu_opt gs) + size inner < 65536 ->
  exists frame pkt, build_gtpu_frame gs inner src dst = Ok frame /\ size frame < 2 ^ 63 /\
    parse_ethernet frame = Ok (mkEthFrame pkt kEtherTypeIpv4 0 true) /\
    parse_ip pkt = Ok (packet4 (mkUdpSpec src dst kGtpuPort kGtpuPort 64) IpProto.kUdp 8 (enc_gtpu gs inner)).
Proof.
  intros Hwf Hs. unfold build_gtpu_frame. rewrite build_gtpu_spec, bind_Ok.
  assert (size (enc_gtpu gs inner) = 8 + size (gtpu_opt gs) + size inner) as Hsz.
  { rewrite (enc_gtpu_fixed gs inner Hwf), !size_app. change (size (gtpu_fixed _ _)) with 8. lia. }
  destruct (build_ipv4_udp_spec (mkUdpSpec src dst kGtpuPort kGtpuPort 64) (enc_gtpu gs inner))
    as (pkt & Hpkt & Hps & _ & Hparse); [lia|split; cbn; unfold kGtpuPort; lia|].
  rewrite Hpkt, bind_Ok. eexists _, pkt. split; [reflexivity|]. split_and!.
  - destruct (build_ethernet_image pkt kEtherTypeIpv4 0 100) as (macs & Hm & ->). unfold enc_eth.
    change (replicate (Z.to_nat 0) _) with (@nil (Z * Z)). cbn [head_et eth_rest]. rewrite !size_app, size_be16_bytes. lia.
  - by apply parse_build_ethernet.
  - exact Hparse.
Qed.

(** The direction the owner is charged in: the tunnel's, or for a tunnel of
    unknown direction the one of the PDU Session Container. *)
Definition charged_downlink (b : TeidBinding) (gs : GtpuSpec) : bool :=
  if b_dir b =? Direction.kUnknown then negb (gs_pdu_type gs mod 16 =? 1) else b_dir b =? Direction.kDownlink.

(** C3: End to end, a tunnelled packet is charged to the right subscriber, byte
    for byte.  Build a UDP packet, tunnel it in GTP-U with a PDU Session
    Container, frame it and hand the frame to an ingest whose ring has room:
    the outcome is [kMetered] and one event is appended.  When the engine
    applies that event, the owner of the TEID is charged the length of the inner
    IP packet (28 bytes of headers and the payload, not the tunnel overhead) and
    one packet, in the tunnel's direction, and no other subscriber's counters
    change. *)
Theorem end_to_end_charge (s : ingest) (e : engine) gs us p inner src dst ts q l b :
  rings_ok s -> gtpu_port (in_cfg_ s) = kGtpuPort -> meter_inner_ip_length (in_cfg_ s) = true ->
  meter_ring_ s = Some q -> q_repr q l -> size l < q_cap q ->
  wf_udp us -> build_ipv4_udp us p = Ok inner -> 28 + size p < 65536 ->
  wf_gtpu gs inner -> 36 + size (gtpu_opt gs) + size inner < 65536 ->
  gs_msg_type gs = GtpuMsgType.kGpdu -> gs_with_qfi gs = true -> 0 <= ts < UINT64_MAX ->
  good e -> owner e (gs_teid gs) = Some b ->
  exists frame, build_gtpu_frame gs inner src dst = Ok frame /\
    ensures (process_frame s frame ts) (fun '(o, s') => o = FrameOutcome.kMetered /\ exists ev q',
      meter_ring_ s' = Some q' /\ q_repr q' (l ++ [ev]) /\
      ensures (apply e ev) (fun e' => good e' /\
        (exists c c', counters_ e !! Z.to_nat (sub_idx b) = Some c /\ counters_ e' !! Z.to_nat (sub_idx b) = Some c' /\
           let dl := charged_downlink b gs in
           c_ul_bytes c' = (if dl then c_ul_bytes c else add64 (c_ul_bytes c) (28 + size p)) /\
           c_dl_bytes c' = (if dl then add64 (c_dl_bytes c) (28 + size p) else c_dl_bytes c) /\
           c_ul_packets c' = (if dl then c_ul_packets c else add64 (c_ul_packets c) 1) /\
           c_dl_packets c' = (if dl then add64 (c_dl_packets c) 1 else c_dl_packets c)) /\
        (forall i, i <> Z.to_nat (sub_idx b) -> counters_ e' !! i = counters_ e !! i))).
Proof.
  intros Hr Hport Hcfg Hq Hl Hroom Hus Hin Hp Hwf Hsz Hmt Hqfi Hts Hgood Hown.
  destruct (gtpu_frame_layers gs inner src dst Hwf Hsz) as (frame & pkt & Hb & H63 & He & Hip).
  destruct (build_ipv4_udp_spec us p Hp Hus) as (inner' & Hin' & _ & _ & Hpi). rewrite Hin in Hin'. injection Hin' as <-.
  pose proof (parse_enc_gtpu gs inner Hwf) as Hparse.
  destruct (gtpu_opened_ext gs inner Hwf) as (_ & Hq' & _). destruct (Hq' Hqfi) as (Hhq & _ & Hpt & _).
  pose proof (gtpu_opened_fixed gs inner) as Hfix. injection Hfix as _ Hteid _ _ _ Hmsg _ _ _ _.
  set (h := (gtpu_header gs inner) <| header_len ::= u16 |>) in *.
  change (has_qfi (gtpu_opened gs inner)) with (has_qfi h) in Hhq.
  change (pdu_type (gtpu_opened gs inner)) with (pdu_type h) in Hpt.
  change (teid (gtpu_opened gs inner)) with (teid h) in Hteid.
  change (msg_type (gtpu_opened gs inner)) with (msg_type h) in Hmsg.
  assert (payload h = inner) as Hpay by reflexivity. clearbody h.
  assert (is_gpdu h = true) as Hg by (unfold is_gpdu; rewrite Hmsg, Hmt; reflexivity).
  exists frame. split; [done|].
  eapply ensures_mono.
  { apply (gpdu_frame s frame ts (mkEthFrame pkt kEtherTypeIpv4 0 true) _ h q l Hr H63 He eq_refl Hip); auto. }
  intros [o s'] (ip & ev & q' & Hpi' & Hev & Hmr & Hq2). rewrite Hpay, Hpi in Hpi'. injection Hpi' as <-.
  rewrite (proj2 (Z.ltb_lt _ _)) in Hq2 by done. destruct Hq2 as [-> Hq2]. split; [done|].
  exists ev, q'. split; [done|]. split; [done|].
  destruct Hev as [(Ets & Et & _) _ Eb Ec _ Ed _ _ Eok].
  eapply ensures_mono; [apply (apply_bound e ev b)|].
  - done.
  - apply Eok. unfold UINT64_MAX in Hts. lia.
  - rewrite Ets. apply Hts.
  - by rewrite Ec, Hg.
  - by rewrite Et, Hteid.
  - intros e' (Hg' & (c & c' & x & x' & slot & Hc & Hc' & _ & _ & (C1 & C2 & C3 & C4 & _) & _) & Hrest & _).
    split; [done|]. split; [|intros i Hi; by apply Hrest].
    exists c, c'. split; [done|]. split; [done|]. cbn zeta.
    rewrite Hg in Eb. cbn [negb] in Eb. rewrite Hcfg in Eb. change (valid _ && true) with true in Eb. cbn match in Eb.
    change (ip_total_len _) with (28 + size p) in Eb. rewrite Eb in C1, C2.
    assert (charged_downlink b gs = is_downlink ev b) as ->; [|done].
    unfold charged_downlink, is_downlink. rewrite Ed, Hhq, Hpt. case_if; [|done].
    by destruct (gs_pdu_type gs mod 16 =? 1).
Qed.
End EndToEnd.

(** ** A concrete packet: 3 bytes for the subscriber behind TEID 201 *)

Definition sample_tunnel : GtpuSpec := mkGtpuSpec 201 GtpuMsgType.kGpdu false 0 false 0 true 9 0 false [].
Definition sample_user_packet : Bytes :=
  match @build_ipv4_udp little UdpSpec_init [x01; x02; x03] with Ok b => b | _ => [] end.

Lemma end_to_end_charge_witness :
  exists frame, @build_gtpu_frame little sample_tunnel sample_user_packet (ipv4 192 168 1 1) (ipv4 192 168 1 2) = Ok frame /\
    ensures (@process_frame little _ _ _ _ sample_ingest frame 50) (fun '(o, s') => o = FrameOutcome.kMetered).
Proof.
  destruct (@end_to_end_charge little _ _ _ _ _ _ _ _ sample_ingest sample_running sample_tunnel UdpSpec_init
    [x01; x02; x03] sample_user_packet (ipv4 192 168 1 1) (ipv4 192 168 1 2) 50 (sample_ring MeterEvent_init) []
    (mkBinding 1 Direction.kDownlink 0)) as (frame & Hb & Hp).
  - apply sample_rings_ok.
  - reflexivity.
  - reflexivity.
  - reflexivity.
  - apply sample_ring_empty.
  - vm_compute. reflexivity.
  - split; vm_compute; split; congruence.
  - vm_compute. reflexivity.
  - reflexivity.
  - split_and!; try (vm_compute; congruence). constructor.
  - vm_compute. reflexivity.
  - reflexivity.
  - reflexivity.
  - split; vm_compute; congruence.
  - apply sample_running_good.
  - vm_compute. reflexivity.
  - exists frame. split; [exact Hb|]. eapply ensures_mono; [exact Hp|]. intros [o s'] [H _]. exact H.
Defined.
