(* ===== verification/Histogram.v ===== *)
(** * include/gtpm/histogram.hpp: the latency histogram

    Constant-memory logarithmic bucketing: [index_for] and its inverse
    [value_at_upper_edge], recording, merging, quantiles.  The rank of a
    quantile is computed in the source with a [double]; here it is the argument
    [target].  The [double] arithmetic of [mean] and of the rank, and [summary],
    are in [Summary]. *)

From S2P Require Import Prelude.

Definition kSubBucketBits : Z := 8.
Definition kSubBucketCount : Z := Z.shiftl 1 kSubBucketBits.
Definition kBucketCount : Z := 40.

Record Histogram := mkHistogram { counts_ : list Z; total_ : Z; sum_ : Z; min_ : Z; max_ : Z }.
#[export] Instance Histogram_eta : Eta Histogram := fun h =>
  mkHistogram (counts_ h) (total_ h) (sum_ h) (min_ h) (max_ h).

Definition Histogram_new : Histogram :=
  mkHistogram (replicate (Z.to_nat (kBucketCount * kSubBucketCount)) 0) 0 0 UINT64_MAX 0.

(** [std::countl_zero] of a 64-bit value. *)
Definition countl_zero (v : Z) : Z := if v =? 0 then 64 else 63 - Z.log2 v.

Definition index_for (value : Z) : Z :=
  if value <? kSubBucketCount then value else
  let msb := 63 - countl_zero value in
  let bucket := msb - kSubBucketBits + 1 in
  let clamped := Z.min bucket (kBucketCount - 1) in
  let sub := u32 (Z.land (Z.shiftr value clamped) (kSubBucketCount - 1)) in
  clamped * kSubBucketCount + sub.

Definition value_at_upper_edge (index : Z) : Z :=
  let bucket := index / kSubBucketCount in
  let sub := index mod kSubBucketCount in
  if bucket =? 0 then sub else sub64 (u64 (Z.shiftl (sub + 1) bucket)) 1.

Definition hist_record (h : Histogram) (value : Z) : res Histogram :=
  let idx := index_for value in
  let* n := at_ (counts_ h) idx in
  let* cs := set_ (counts_ h) idx (add64 n 1) in
  Ok (mkHistogram cs (add64 (total_ h) 1) (add64 (sum_ h) value) (Z.min (min_ h) value) (Z.max (max_ h) value)).

Definition hist_reset (h : Histogram) : Histogram :=
  mkHistogram (map (fun _ => 0) (counts_ h)) 0 0 UINT64_MAX 0.

(** The loop of [merge] from index [i], [n] counters left. *)
Fixpoint merge_loop (n : nat) (cs other : list Z) (i : Z) : res (list Z) :=
  match n with
  | O => Ok cs
  | S n =>
      let* a := at_ cs i in
      let* b := at_ other i in
      let* cs := set_ cs i (add64 a b) in
      merge_loop n cs other (i + 1)
  end.

Definition merge (h other : Histogram) : res Histogram :=
  let* cs := merge_loop (length (counts_ h)) (counts_ h) (counts_ other) 0 in
  Ok (mkHistogram cs (add64 (total_ h) (total_ other)) (add64 (sum_ h) (sum_ other))
        (Z.min (min_ h) (min_ other)) (Z.max (max_ h) (max_ other))).

Definition hist_count (h : Histogram) : Z := total_ h.
Definition hist_min (h : Histogram) : Z := if total_ h =? 0 then 0 else min_ h.
Definition hist_max (h : Histogram) : Z := max_ h.

(** The loop of [quantile] from index [i], over the counters left. *)
Fixpoint quantile_loop (cs : list Z) (i cumulative target : Z) : option Z :=
  match cs with
  | [] => None
  | n :: cs =>
      let cumulative := add64 cumulative n in
      if (target <=? cumulative) && negb (n =? 0) then Some (value_at_upper_edge i)
      else quantile_loop cs (i + 1) cumulative target
  end.

Definition quantile (h : Histogram) (target : Z) : Z :=
  if total_ h =? 0 then 0 else
  match quantile_loop (counts_ h) 0 0 target with Some v => v | None => max_ h end.

Fixpoint buckets_from (cs : list Z) (i : Z) : list (Z * Z) :=
  match cs with
  | [] => []
  | n :: cs => if negb (n =? 0) then (value_at_upper_edge i, n) :: buckets_from cs (i + 1) else buckets_from cs (i + 1)
  end.
Definition buckets (h : Histogram) : list (Z * Z) := buckets_from (counts_ h) 0.

(** ** The bucket of a value *)

Lemma log2_shift v k : 0 < v -> 0 <= k <= Z.log2 v -> 2 ^ (Z.log2 v - k) <= Z.shiftr v k < 2 ^ (Z.log2 v - k + 1).
Proof.
  intros Hv Hk. pose proof (Z.log2_spec v Hv) as [Hlo Hhi]. rewrite Z.shiftr_div_pow2 by lia.
  pose proof (Z.pow_pos_nonneg 2 k ltac:(lia) ltac:(lia)). split.
  - apply Z.div_le_lower_bound; [done|]. rewrite <- Z.pow_add_r by lia.
    by replace (k + (Z.log2 v - k)) with (Z.log2 v) by lia.
  - apply Z.div_lt_upper_bound; [done|]. rewrite <- Z.pow_add_r by lia.
    by replace (k + (Z.log2 v - k + 1)) with (Z.succ (Z.log2 v)) by lia.
Qed.

(** Below 2^47 nothing is clamped: [index_for] is the exponent and the eight
    most significant bits. *)
Lemma index_for_big v : 256 <= v < 2 ^ 47 ->
  let b := Z.log2 v - 7 in
  1 <= b <= 39 /\ 128 <= Z.shiftr v b < 256 /\ index_for v = b * 256 + Z.shiftr v b.
Proof.
  intros Hv b.
  assert (8 <= Z.log2 v) as H8 by (change 8 with (Z.log2 256); apply Z.log2_le_mono; lia).
  assert (Z.log2 v < 47) as H47 by (apply Z.log2_lt_pow2; lia).
  pose proof (log2_shift v b ltac:(lia) ltac:(unfold b; lia)) as Hs. replace (Z.log2 v - b) with 7 in Hs by (unfold b; lia).
  change (2 ^ 7) with 128 in Hs. change (2 ^ (7 + 1)) with 256 in Hs. split; [unfold b; lia|]. split; [done|].
  unfold index_for, countl_zero, kSubBucketCount, kSubBucketBits, kBucketCount. change (Z.shiftl 1 8) with 256.
  rewrite (proj2 (Z.ltb_ge _ _)), (proj2 (Z.eqb_neq _ _)) by lia. cbn zeta.
  replace (Z.min _ _) with b by (unfold b; lia). change (256 - 1) with (Z.ones 8).
  rewrite Z.land_ones by lia. change (2 ^ 8) with 256. rewrite Z.mod_small, u32_small by lia. done.
Qed.

Lemma index_for_small v : v < 256 -> index_for v = v.
Proof. intros Hv. unfold index_for. change kSubBucketCount with 256. by rewrite (proj2 (Z.ltb_lt _ _)). Qed.

Lemma index_range v : 0 <= v < 2 ^ 64 -> 0 <= index_for v < 10240.
Proof.
  intros Hv. destruct (Z.lt_ge_cases v 256); [rewrite index_for_small; lia|].
  unfold index_for, countl_zero, kSubBucketCount, kSubBucketBits, kBucketCount. change (Z.shiftl 1 8) with 256.
  rewrite (proj2 (Z.ltb_ge _ _)), (proj2 (Z.eqb_neq _ _)) by lia. cbn zeta.
  assert (8 <= Z.log2 v) by (change 8 with (Z.log2 256); apply Z.log2_le_mono; lia).
  change (256 - 1) with (Z.ones 8). rewrite Z.land_ones by lia.
  match goal with |- context [?x mod 2 ^ 8] => pose proof (Z.mod_pos_bound x (2 ^ 8) ltac:(lia)) end.
  change (2 ^ 8) with 256 in *. rewrite u32_small by lia. lia.
Qed.

(** The edge is not below the value and at most 1/128 above it. *)
Lemma index_edge v : 0 <= v < 2 ^ 47 ->
  v <= value_at_upper_edge (index_for v) /\ 128 * (value_at_upper_edge (index_for v) - v) <= v.
Proof.
  intros Hv. destruct (Z.lt_ge_cases v 256) as [Hs|Hb].
  - rewrite index_for_small by done. unfold value_at_upper_edge. change kSubBucketCount with 256.
    rewrite Z.div_small, Z.mod_small by lia. cbn. lia.
  - destruct (index_for_big v) as (Hb1 & Hs & ->); [lia|]. set (b := Z.log2 v - 7) in *.
    unfold value_at_upper_edge. change kSubBucketCount with 256. cbn zeta.
    rewrite Z.add_comm, Z.div_add, Z.mod_add, Z.div_small, Z.mod_small, Z.add_0_l by lia.
    rewrite (proj2 (Z.eqb_neq _ _)) by lia.
    pose proof (Z.pow_pos_nonneg 2 b ltac:(lia) ltac:(lia)) as Hp.
    assert (2 ^ b <= 2 ^ 39) by (apply Z.pow_le_mono_r; lia).
    rewrite Z.shiftl_mul_pow2, u64_small, sub64_small by nia.
    rewrite Z.shiftr_div_pow2 in * by lia. pose proof (Z.div_mod v (2 ^ b) ltac:(lia)).
    pose proof (Z.mod_pos_bound v (2 ^ b) Hp). nia.
Qed.

Lemma index_mono v w : 0 <= v <= w -> w < 2 ^ 47 -> index_for v <= index_for w.
Proof.
  intros Hv Hw. destruct (Z.lt_ge_cases w 256) as [Hs|Hb]; [rewrite !index_for_small; lia|].
  destruct (index_for_big w) as (Hb1 & Hs1 & ->); [lia|].
  destruct (Z.lt_ge_cases v 256) as [Hs|Hb']; [rewrite index_for_small; lia|].
  destruct (index_for_big v) as (Hb2 & Hs2 & ->); [lia|].
  pose proof (Z.log2_le_mono v w ltac:(lia)) as Hl.
  destruct (Z.eq_dec (Z.log2 v) (Z.log2 w)) as [E|E]; [|lia].
  rewrite E in *. enough (Z.shiftr v (Z.log2 w - 7) <= Z.shiftr w (Z.log2 w - 7)) by lia.
  rewrite !Z.shiftr_div_pow2 by lia. apply Z.div_le_mono; [apply Z.pow_pos_nonneg; lia|lia].
Qed.

(** ** Counting *)

Definition cnt (P : Z -> bool) (vs : list Z) : Z := foldr (fun v n => (if P v then 1 else 0) + n) 0 vs.

Lemma cnt_cons P v vs : cnt P (v :: vs) = (if P v then 1 else 0) + cnt P vs.
Proof. reflexivity. Qed.
Lemma cnt_app P vs ws : cnt P (vs ++ ws) = cnt P vs + cnt P ws.
Proof. induction vs as [|v vs IH]; [done|]. cbn [app]. rewrite !cnt_cons, IH. lia. Qed.
Lemma cnt_bounds P vs : 0 <= cnt P vs <= size vs.
Proof. induction vs as [|v vs IH]; [done|]. rewrite cnt_cons, size_cons. destruct (P v); lia. Qed.
Lemma cnt_le P Q vs : Forall (fun v => P v = true -> Q v = true) vs -> cnt P vs <= cnt Q vs.
Proof.
  induction 1 as [|v vs H _ IH]; [done|]. rewrite !cnt_cons. destruct (P v), (Q v); try lia.
Qed.
Lemma cnt_pos P vs : 0 < cnt P vs -> exists v, v ∈ vs /\ P v = true.
Proof.
  induction vs as [|v vs IH]; [done|]. rewrite cnt_cons. destruct (P v) eqn:E.
  - intros _. exists v. split; [left|done].
  - intros H. destruct IH as (w & Hw & HP); [lia|]. exists w. split; [by right|done].
Qed.
Lemma cnt_split (P Q R : Z -> bool) vs : (forall v, (if P v then 1 else 0) = (if Q v then 1 else 0) + (if R v then 1 else 0)) ->
  cnt P vs = cnt Q vs + cnt R vs.
Proof. intros H. induction vs as [|v vs IH]; [done|]. rewrite !cnt_cons, H, IH. lia. Qed.

Lemma cnt_ext (P Q : Z -> bool) vs : (forall v, P v = Q v) -> cnt P vs = cnt Q vs.
Proof. intros H. induction vs as [|v vs IH]; [done|]. by rewrite !cnt_cons, H, IH. Qed.

(** ** What a histogram represents

    The values recorded so far; the counters are counts modulo 2^64. *)
Record hist_repr (h : Histogram) (vs : list Z) : Prop := {
  hr_size : size (counts_ h) = 10240;
  hr_counts : forall i n, counts_ h !! i = Some n -> n = u64 (cnt (fun v => index_for v =? Z.of_nat i) vs);
  hr_total : total_ h = u64 (size vs);
  hr_sum : sum_ h = u64 (foldr Z.add 0 vs);
  hr_min : min_ h = foldr Z.min UINT64_MAX vs;
  hr_max : max_ h = foldr Z.max 0 vs
}.

Lemma hist_new_repr : hist_repr Histogram_new [].
Proof.
  constructor; try reflexivity.
  intros i n [-> _]%lookup_replicate. reflexivity.
Qed.

Lemma foldr_snoc {A} (f : A -> A -> A) (Hc : forall a b, f a b = f b a) (Ha : forall a b c, f a (f b c) = f (f a b) c)
  u (l : list A) v : foldr f u (l ++ [v]) = f (foldr f u l) v.
Proof.
  induction l as [|x l IH]; cbn; [by rewrite Hc|]. by rewrite IH, Ha.
Qed.

Lemma record_repr h vs v : hist_repr h vs -> 0 <= v < 2 ^ 64 ->
  ensures (hist_record h v) (fun h' => hist_repr h' (vs ++ [v])).
Proof.
  intros [Hs Hc Ht Hsum Hmin Hmax] Hv. unfold size in Hs. unfold hist_record. pose proof (index_range v Hv) as Hi.
  destruct (lookup_lt_is_Some_2 (counts_ h) (Z.to_nat (index_for v))) as [n Hn]; [lia|].
  rewrite (at_lookup _ _ n), bind_Ok, set_Ok, bind_Ok by (unfold size; auto; lia). apply ensures_Ok.
  constructor; cbn [counts_ total_ sum_ min_ max_].
  - by rewrite size_insert.
  - intros i m Hm. rewrite cnt_app, cnt_cons. change (cnt _ []) with 0.
    destruct (decide (i = Z.to_nat (index_for v))) as [->|Hne].
    + rewrite list_lookup_insert_eq in Hm by lia. injection Hm as <-. rewrite (Hc _ _ Hn).
      rewrite Z2Nat.id, Z.eqb_refl by lia. unfold add64. by rewrite u64_add_u64_l.
    + rewrite list_lookup_insert_ne in Hm by done. rewrite (Hc _ _ Hm), (proj2 (Z.eqb_neq _ _)) by lia.
      f_equal. lia.
  - rewrite Ht, size_app. unfold add64. by rewrite u64_add_u64_l.
  - rewrite Hsum, (foldr_snoc Z.add) by (intros; lia). unfold add64. by rewrite u64_add_u64_l.
  - by rewrite Hmin, (foldr_snoc Z.min) by (intros; lia).
  - by rewrite Hmax, (foldr_snoc Z.max) by (intros; lia).
Qed.

Lemma merge_loop_spec other : forall n cs i, 0 <= i -> i + Z.of_nat n = size cs -> size other = size cs ->
  ensures (merge_loop n cs other i) (fun cs' => size cs' = size cs /\ forall k a b,
    cs !! k = Some a -> other !! k = Some b -> cs' !! k = Some (if i <=? Z.of_nat k then add64 a b else a)).
Proof.
  induction n as [|n IH]; intros cs i Hi Hn Ho; cbn [merge_loop].
  { apply ensures_Ok. split; [done|]. intros k a b Ha _. pose proof (lookup_lt_Some _ _ _ Ha). unfold size in Hn.
    by rewrite (proj2 (Z.leb_gt _ _)) by lia. }
  destruct (lookup_lt_is_Some_2 cs (Z.to_nat i)) as [a Ha]; [unfold size in Hn; lia|].
  destruct (lookup_lt_is_Some_2 other (Z.to_nat i)) as [b Hb]; [unfold size in Hn, Ho; lia|].
  rewrite (at_lookup cs i a), (at_lookup other i b), !bind_Ok, set_Ok, bind_Ok by (auto; lia).
  eapply ensures_mono; [apply IH; rewrite ?size_insert; lia|]. rewrite size_insert. intros cs' [Hs Hc].
  split; [done|]. intros k x y Hx Hy. destruct (decide (k = Z.to_nat i)) as [->|Hne].
  - rewrite Ha in Hx. rewrite Hb in Hy. injection Hx as <-. injection Hy as <-.
    rewrite (Hc _ (add64 a b) b); [|rewrite list_lookup_insert_eq; [done|by eapply lookup_lt_Some]|done].
    rewrite (proj2 (Z.leb_gt _ _)), (proj2 (Z.leb_le _ _)) by lia. done.
  - rewrite (Hc k x y) by (rewrite ?list_lookup_insert_ne by done; done). f_equal.
    destruct (Z.leb_spec (i + 1) (Z.of_nat k)), (Z.leb_spec i (Z.of_nat k)); lia || done.
Qed.

Lemma foldr_app_comm {A} (f : A -> A -> A) (Ha : forall a b c, f a (f b c) = f (f a b) c)
  u (Hu : forall l, f u (foldr f u l) = foldr f u l) (l k : list A) : foldr f u (l ++ k) = f (foldr f u l) (foldr f u k).
Proof. induction l as [|x l IH]; cbn; [by rewrite Hu|]. by rewrite IH, Ha. Qed.

Lemma foldr_min_le vs : foldr Z.min UINT64_MAX vs <= UINT64_MAX.
Proof. induction vs; cbn; lia. Qed.
Lemma foldr_max_ge vs : 0 <= foldr Z.max 0 vs.
Proof. induction vs; cbn; lia. Qed.

Lemma merge_repr h o vs ws : hist_repr h vs -> hist_repr o ws ->
  ensures (merge h o) (fun h' => hist_repr h' (vs ++ ws)).
Proof.
  intros [Hs Hc Ht Hsum Hmin Hmax] [Os Oc Ot Osum Omin Omax]. unfold merge.
  eapply ensures_bind; [apply (merge_loop_spec (counts_ o)); [lia|unfold size; lia|congruence]|].
  intros cs [Hcs Hm]. apply ensures_Ok. constructor; cbn [counts_ total_ sum_ min_ max_].
  - congruence.
  - intros i n Hn. pose proof (lookup_lt_Some _ _ _ Hn) as Hlt. unfold size in *.
    destruct (lookup_lt_is_Some_2 (counts_ h) i) as [a Ha]; [lia|].
    destruct (lookup_lt_is_Some_2 (counts_ o) i) as [b Hb]; [lia|].
    rewrite (Hm i a b Ha Hb), (proj2 (Z.leb_le _ _)) in Hn by lia. injection Hn as <-.
    rewrite (Hc _ _ Ha), (Oc _ _ Hb), cnt_app. unfold add64. by rewrite u64_add_u64_l, u64_add_u64_r.
  - rewrite Ht, Ot, size_app. unfold add64. by rewrite u64_add_u64_l, u64_add_u64_r.
  - rewrite Hsum, Osum, (foldr_app_comm Z.add) by (intros; lia). unfold add64. by rewrite u64_add_u64_l, u64_add_u64_r.
  - rewrite Hmin, Omin, (foldr_app_comm Z.min); [done|intros; lia|]. intros l. pose proof (foldr_min_le l). lia.
  - rewrite Hmax, Omax, (foldr_app_comm Z.max); [done|intros; lia|]. intros l. pose proof (foldr_max_ge l). lia.
Qed.

(** ** Quantiles *)

(** From bucket [i] on, with fewer than [target] values in the buckets before. *)
Lemma quantile_loop_spec vs target : size vs < 2 ^ 64 -> target <= size vs ->
  Forall (fun v => 0 <= v < 2 ^ 47) vs -> forall cs i cum,
  0 <= i -> i + size cs = 10240 ->
  (forall k n, cs !! k = Some n -> n = u64 (cnt (fun v => index_for v =? i + Z.of_nat k) vs)) ->
  cum = cnt (fun v => index_for v <? i) vs -> cum < target ->
  exists j, quantile_loop cs i cum target = Some (value_at_upper_edge j) /\
    0 < cnt (fun v => index_for v =? j) vs /\
    cnt (fun v => index_for v <? j) vs < target <= cnt (fun v => index_for v <=? j) vs.
Proof.
  intros H64 Ht Hvs. induction cs as [|n cs IH]; intros i cum Hi Hsz Hc -> Hlt.
  { exfalso. rewrite (@size_nil Z) in Hsz.
    assert (cnt (fun v => index_for v <? i) vs = size vs); [|lia].
    clear -Hvs Hsz. induction Hvs as [|v vs Hv _ IH]; [done|]. rewrite cnt_cons, size_cons, IH.
    rewrite (proj2 (Z.ltb_lt _ _)); [lia|]. pose proof (index_range v). lia. }
  rewrite size_cons in Hsz. cbn [quantile_loop].
  pose proof (Hc 0%nat n eq_refl) as Hn. rewrite Z.add_0_r in Hn.
  pose proof (cnt_bounds (fun v => index_for v =? i) vs). rewrite u64_small in Hn by lia.
  assert (cnt (fun v => index_for v <=? i) vs =
          cnt (fun v => index_for v <? i) vs + cnt (fun v => index_for v =? i) vs) as Hsplit.
  { apply cnt_split. intros v.
    destruct (Z.leb_spec (index_for v) i), (Z.ltb_spec (index_for v) i), (Z.eqb_spec (index_for v) i); lia. }
  pose proof (cnt_bounds (fun v => index_for v <? i) vs). pose proof (cnt_bounds (fun v => index_for v <=? i) vs).
  unfold add64. rewrite u64_small by lia. rewrite Hn, <- Hsplit. case_if.
  - exists i. split; [done|]. lia.
  - apply IH; [lia|lia| | |].
    + intros k m Hk. rewrite (Hc (S k) m Hk). by replace (i + Z.of_nat (S k)) with (i + 1 + Z.of_nat k) by lia.
    + apply cnt_ext. intros v.
      destruct (Z.leb_spec (index_for v) i), (Z.ltb_spec (index_for v) (i + 1)); lia || done.
    + apply andb_false_iff in Hif as [?%Z.leb_gt|?%negb_false_iff%Z.eqb_eq]; lia.
Qed.

Lemma quantile_repr h vs target : hist_repr h vs -> size vs < 2 ^ 64 -> 1 <= target <= size vs ->
  Forall (fun v => 0 <= v < 2 ^ 47) vs ->
  exists j, quantile h target = value_at_upper_edge j /\ 0 < cnt (fun v => index_for v =? j) vs /\
    cnt (fun v => index_for v <? j) vs < target <= cnt (fun v => index_for v <=? j) vs.
Proof.
  intros [Hs Hc Ht _ _ _] H64 Hr Hvs. unfold quantile. rewrite Ht, u64_small, (proj2 (Z.eqb_neq _ _)) by lia.
  destruct (quantile_loop_spec vs target H64 ltac:(lia) Hvs (counts_ h) 0 0) as (j & -> & Hj); [lia|lia|exact Hc| |lia|].
  - clear -Hvs. induction Hvs as [|v vs Hv _ IH]; [done|]. rewrite cnt_cons, <- IH.
    pose proof (index_range v ltac:(lia)). by rewrite (proj2 (Z.ltb_ge _ _)) by lia.
  - by exists j.
Qed.

(** Recording a list of values. *)
Fixpoint record_all (h : Histogram) (vs : list Z) : res Histogram :=
  match vs with
  | [] => Ok h
  | v :: vs => let* h := hist_record h v in record_all h vs
  end.

Lemma record_all_repr vs : forall h ws, hist_repr h ws -> Forall (fun v => 0 <= v < 2 ^ 64) vs ->
  ensures (record_all h vs) (fun h' => hist_repr h' (ws ++ vs)).
Proof.
  induction vs as [|v vs IH]; intros h ws Hr Hvs; cbn [record_all].
  { apply ensures_Ok. by rewrite app_nil_r. }
  apply Forall_cons_iff in Hvs as [Hv Hvs]. eapply ensures_bind; [by apply record_repr|].
  intros h' Hh'. rewrite cons_middle, app_assoc. by apply IH.
Qed.

(** C30: The histogram never under-reports a quantile.  After recording any values
    below 2^47 (fewer than 2^64 of them), for every rank [target] between 1 and
    their number the reported quantile [e] has at least [target] recorded values
    at or below it, it is the upper edge of a bucket that holds a recorded value
    [v] with v <= e <= v + v/128, and fewer than [target] recorded values lie in
    lower buckets; counts, sum (modulo 2^64), minimum and maximum are exact. *)
Theorem quantile_never_optimistic vs target :
  Forall (fun v => 0 <= v < 2 ^ 47) vs -> size vs < 2 ^ 64 -> 1 <= target <= size vs ->
  ensures (record_all Histogram_new vs) (fun h =>
    hist_count h = size vs /\ sum_ h = u64 (foldr Z.add 0 vs) /\
    hist_min h = foldr Z.min UINT64_MAX vs /\ hist_max h = foldr Z.max 0 vs /\
    let e := quantile h target in
    target <= cnt (fun v => v <=? e) vs /\
    exists v, v ∈ vs /\ v <= e /\ 128 * (e - v) <= v /\
      e = value_at_upper_edge (index_for v) /\ cnt (fun w => index_for w <? index_for v) vs < target).
Proof.
  intros Hvs H64 Ht. eapply ensures_mono; [apply (record_all_repr vs _ [] hist_new_repr)|].
  { revert Hvs. apply Forall_impl. lia. }
  cbn [app]. intros h Hh. pose proof Hh as [_ _ Htot Hsum Hmin Hmax].
  unfold hist_count, hist_min, hist_max. rewrite Htot, u64_small, (proj2 (Z.eqb_neq _ _)) by lia.
  do 4 (split; [done|]). cbn zeta.
  destruct (quantile_repr h vs target Hh H64 Ht Hvs) as (j & -> & Hj & Hlt & Hle).
  destruct (cnt_pos _ _ Hj) as (w & Hw & <-%Z.eqb_eq).
  rewrite list.Forall_forall in Hvs. pose proof (Hvs w Hw) as Hwr. pose proof (index_edge w Hwr) as [He1 He2].
  split.
  - etransitivity; [exact Hle|]. apply cnt_le. apply list.Forall_forall. intros v Hv ?%Z.leb_le. apply Z.leb_le.
    pose proof (Hvs v Hv) as Hvr. destruct (Z.le_gt_cases v w) as [|Hgt]; [lia|].
    pose proof (index_mono w v ltac:(lia) ltac:(lia)). assert (index_for v = index_for w) as <- by lia.
    by apply index_edge.
  - exists w. auto.
Qed.

Lemma quantile_never_optimistic_witness :
  ensures (record_all Histogram_new [3; 1000; 1000000; 12]) (fun h => 3 <= cnt (fun v => v <=? quantile h 3) [3; 1000; 1000000; 12]).
Proof.
  eapply ensures_mono; [apply (quantile_never_optimistic [3; 1000; 1000000; 12] 3)|].
  - repeat (apply Forall_cons_iff; split; [lia|]). apply Forall_nil.
  - reflexivity.
  - split; vm_compute; congruence.
  - intros h (_ & _ & _ & _ & H & _). exact H.
Defined.

(** Beyond 2^47 the bucket number is clamped but the sub-bucket is not: the
    reported edge can be far below the value. *)
Lemma clamped_edge_below : value_at_upper_edge (index_for (2 ^ 47)) = 2 ^ 39 - 1.
Proof. reflexivity. Qed.

(** Merging two histograms is recording both lists of values. *)
Lemma merge_is_append vs ws : Forall (fun v => 0 <= v < 2 ^ 64) vs -> Forall (fun v => 0 <= v < 2 ^ 64) ws ->
  ensures (record_all Histogram_new vs) (fun h => ensures (record_all Histogram_new ws) (fun o =>
    ensures (merge h o) (fun m => hist_repr m (vs ++ ws)))).
Proof.
  intros Hv Hw. eapply ensures_mono; [by apply (record_all_repr vs _ [] hist_new_repr)|]. intros h Hh.
  eapply ensures_mono; [by apply (record_all_repr ws _ [] hist_new_repr)|]. intros o Ho. by apply merge_repr.
Qed.
