(* ===== verification/Seqlock.v ===== *)
(** * include/gtpm/seqlock.hpp: the snapshot's sequence lock

    One writer and any number of readers on C++ atomics.  The accesses of the
    source are relaxed and ordered by fences only, so the model is not a plain
    interleaving: a location is the list of the messages stored to it, a
    message carries the view its store released, and a thread carries the view
    it reads under ([cur]), the one an acquire fence would give it ([acq]) and
    the one its last release fence left ([rel]).  A relaxed load may return any
    message that is not older than the thread's view of the location.

    The payload is its object representation, [sizeofT] bytes. *)

From Stdlib Require Import Sorting.Sorted.
From S2P Require Import Prelude ByteOrder.

(** ** Relaxed memory with fences *)

Inductive loc := Seq | Word (i : nat).
#[export] Instance loc_eq_dec : EqDecision loc.
Proof. solve_decision. Defined.

Definition view := loc -> nat.
Definition vbot : view := fun _ => 0%nat.
Definition vup (l : loc) (t : nat) (V : view) : view := fun l' => if decide (l' = l) then (V l' `max` t)%nat else V l'.
Definition vjoin (V W : view) : view := fun l => (V l `max` W l)%nat.

Record msg := mkMsg { m_val : Z; m_view : view }.
Definition memory := loc -> list msg.
Record tview := mkTview { cur : view; acq : view; rel : view }.
Definition tview_init : tview := mkTview vbot vbot vbot.

(** [l.load(relaxed)] of the message with index [t]. *)
Definition load_rlx (m : memory) (l : loc) (t : nat) (tv : tview) : option (Z * tview) :=
  if decide (cur tv l <= t)%nat then
    match m l !! t with
    | Some ms => Some (m_val ms, mkTview (vup l t (cur tv)) (vjoin (vup l t (acq tv)) (m_view ms)) (rel tv))
    | None => None
    end
  else None.

(** [l.store(v, relaxed)]. *)
Definition store_rlx (m : memory) (l : loc) (v : Z) (tv : tview) : memory * tview :=
  let t := length (m l) in
  (fun l' => if decide (l' = l) then m l ++ [mkMsg v (vup l t (rel tv))] else m l',
   mkTview (vup l t (cur tv)) (vup l t (acq tv)) (rel tv)).

Definition fence_acquire (tv : tview) : tview := mkTview (vjoin (cur tv) (acq tv)) (acq tv) (rel tv).
Definition fence_release (tv : tview) : tview := mkTview (cur tv) (acq tv) (cur tv).

(** ** The lock *)

Section Seqlock.
Context {HE : HostEndian} (sizeofT : nat).

Definition kWordCount : nat := ((sizeofT + 7) / 8)%nat.

Definition word_of (bs : Bytes) : Z := match native with little => le_val bs | big => be_val bs end.
Definition bytes_of (w : Z) : Bytes := match native with little => le_split 8 w | big => rev (le_split 8 w) end.

Fixpoint chunks (n : nat) (bs : Bytes) : list Bytes :=
  match n with O => [] | S n => take 8 bs :: chunks n (drop 8 bs) end.

(** [memset] and [memcpy] of the value into [staging]. *)
Definition stage (value : Bytes) : list Z :=
  map word_of (chunks kWordCount (value ++ replicate (8 * kWordCount - length value) x00)).
(** [memcpy] of [staging] into [out]. *)
Definition unstage (staging : list Z) : Bytes := take sizeofT (concat (map bytes_of staging)).

(** The payload before the first store: all words are zero. *)
Definition zero_value : Bytes := replicate sizeofT x00.

Inductive writer :=
| WIdle
| WOdd (staging : list Z) (seq : Z)
| WFence (staging : list Z) (seq : Z)
| WWords (staging : list Z) (seq : Z) (i : nat)
| WEven (seq : Z).

(** [before] was read from message [tb]; [n] attempts are left. *)
Inductive reader :=
| RIdle
| RTry (n : nat)
| RFence (n : nat) (before : Z) (tb : nat)
| RWords (n : nat) (before : Z) (tb : nat) (staging : list Z)
| RCheck (n : nat) (before : Z) (tb : nat) (staging : list Z).

(** [got]: the completed loads, newest first, each with the indices of the
    sequence messages it saw first and last. *)
Record rthread := mkReader { r_pc : reader; r_tv : tview; got : list (nat * nat * Bytes) }.

(** [stores]: the values of the stores begun so far, behind the initial value. *)
Record sl_config := mkSl {
  mem : memory;
  w_pc : writer;
  w_tv : tview;
  readers : list rthread;
  stores : list Bytes
}.

(** *** The writer *)

Inductive wstep : memory * writer * tview * list Bytes -> memory * writer * tview * list Bytes -> Prop :=
| w_begin m tv tv' vs value t seq :
    length value = sizeofT -> load_rlx m Seq t tv = Some (seq, tv') ->
    wstep (m, WIdle, tv, vs) (m, WOdd (stage value) seq, tv', vs ++ [value])
| w_odd m m' tv tv' vs staging seq :
    store_rlx m Seq (u32 (seq + 1)) tv = (m', tv') ->
    wstep (m, WOdd staging seq, tv, vs) (m', WFence staging seq, tv', vs)
| w_fence m tv vs staging seq :
    wstep (m, WFence staging seq, tv, vs) (m, WWords staging seq 0, fence_release tv, vs)
| w_word m m' tv tv' vs staging seq i v :
    staging !! i = Some v -> store_rlx m (Word i) v tv = (m', tv') ->
    wstep (m, WWords staging seq i, tv, vs) (m', WWords staging seq (S i), tv', vs)
| w_fence2 m tv vs staging seq :
    wstep (m, WWords staging seq (length staging), tv, vs) (m, WEven seq, fence_release tv, vs)
| w_even m m' tv tv' vs seq :
    store_rlx m Seq (u32 (seq + 2)) tv = (m', tv') ->
    wstep (m, WEven seq, tv, vs) (m', WIdle, tv', vs).

(** *** A reader *)

Inductive rstep (m : memory) : rthread -> rthread -> Prop :=
| r_begin tv g max_attempts : rstep m (mkReader RIdle tv g) (mkReader (RTry max_attempts) tv g)
| r_give_up tv g : rstep m (mkReader (RTry 0) tv g) (mkReader RIdle tv g)
| r_before tv tv' g n t before :
    load_rlx m Seq t tv = Some (before, tv') ->
    rstep m (mkReader (RTry (S n)) tv g)
      (mkReader (if Z.land before 1 =? 0 then RFence n before t else RTry n) tv' g)
| r_fence tv g n before tb :
    rstep m (mkReader (RFence n before tb) tv g) (mkReader (RWords n before tb []) (fence_acquire tv) g)
| r_word tv tv' g n before tb staging t v :
    (length staging < kWordCount)%nat -> load_rlx m (Word (length staging)) t tv = Some (v, tv') ->
    rstep m (mkReader (RWords n before tb staging) tv g) (mkReader (RWords n before tb (staging ++ [v])) tv' g)
| r_fence2 tv g n before tb staging :
    length staging = kWordCount ->
    rstep m (mkReader (RWords n before tb staging) tv g) (mkReader (RCheck n before tb staging) (fence_acquire tv) g)
| r_check tv tv' g n before tb staging t after :
    load_rlx m Seq t tv = Some (after, tv') ->
    rstep m (mkReader (RCheck n before tb staging) tv g)
      (if after =? before then mkReader RIdle tv' ((tb, t, unstage staging) :: g)
       else mkReader (RTry n) tv' g).

(** *** The threads together *)

Inductive sl_step : sl_config -> sl_config -> Prop :=
| s_writer m w tv m' w' tv' vs vs' rs :
    wstep (m, w, tv, vs) (m', w', tv', vs') -> sl_step (mkSl m w tv rs vs) (mkSl m' w' tv' rs vs')
| s_reader m w tv rs vs j r r' :
    rs !! j = Some r -> rstep m r r' -> sl_step (mkSl m w tv rs vs) (mkSl m w tv (<[j := r']> rs) vs).

(** The constructor: the sequence and every word are zero. *)
Definition memory_init : memory := fun _ => [mkMsg 0 vbot].
Definition sl_init (n : nat) : sl_config :=
  mkSl memory_init WIdle tview_init (replicate n (mkReader RIdle tview_init [])) [zero_value].

Inductive sl_reachable (n : nat) : sl_config -> Prop :=
| sl_reach_init : sl_reachable n (sl_init n)
| sl_reach_step s s' : sl_reachable n s -> sl_step s s' -> sl_reachable n s'.

(** [version]: [seq_.load() >> 1]. *)
Definition version (seq : Z) : Z := Z.shiftr seq 1.

(** ** Staging *)

Lemma chunks_length n : forall bs, length (chunks n bs) = n.
Proof. induction n as [|n IH]; intros bs; cbn [chunks length]; [done|by rewrite IH]. Qed.

Lemma stage_length value : length (stage value) = kWordCount.
Proof. unfold stage. by rewrite length_map, chunks_length. Qed.

Lemma bytes_of_word bs : length bs = 8%nat -> bytes_of (word_of bs) = bs.
Proof.
  intros H. unfold bytes_of, word_of, be_val. destruct native; [by rewrite <- H, le_split_val|].
  replace 8%nat with (length (rev bs)) by (by rewrite length_rev). by rewrite le_split_val, rev_involutive.
Qed.

Lemma chunks_concat n : forall bs, length bs = (8 * n)%nat ->
  concat (map bytes_of (map word_of (chunks n bs))) = bs.
Proof.
  induction n as [|n IH]; intros bs H; cbn [chunks map concat]; [by destruct bs|].
  rewrite bytes_of_word, IH, take_drop; [done|rewrite length_drop; lia|rewrite length_take; lia].
Qed.

Lemma kWordCount_covers : (sizeofT <= 8 * kWordCount)%nat.
Proof. unfold kWordCount. pose proof (Nat.div_mod_eq (sizeofT + 7) 8). pose proof (Nat.mod_upper_bound (sizeofT + 7) 8). lia. Qed.

Lemma unstage_stage value : length value = sizeofT -> unstage (stage value) = value.
Proof.
  intros H. unfold unstage, stage. pose proof kWordCount_covers. rewrite chunks_concat.
  - rewrite take_app_le by lia. apply take_ge. lia.
  - rewrite length_app, length_replicate. lia.
Qed.

Lemma word_of_zeros bs : Forall (eq x00) bs -> word_of bs = 0.
Proof.
  assert (forall bs, Forall (eq x00) bs -> le_val bs = 0) as H.
  { induction 1 as [|b t <- _ IH]; [done|]. rewrite le_val_cons, IH. done. }
  intros Hz. unfold word_of, be_val. destruct native; apply H; [done|by apply Forall_rev].
Qed.

Lemma chunks_zeros n : forall bs, Forall (eq x00) bs -> map word_of (chunks n bs) = replicate n 0.
Proof.
  induction n as [|n IH]; intros bs H; cbn [chunks map replicate]; [done|].
  f_equal; [by apply word_of_zeros, Forall_take|by apply IH, Forall_drop].
Qed.

Lemma stage_zero : stage zero_value = replicate kWordCount 0.
Proof. apply chunks_zeros, Forall_app_2; by apply Forall_replicate. Qed.

(** ** Views *)

Lemma vup_ge l t V l' : (V l' <= vup l t V l')%nat.
Proof. unfold vup. case_decide; lia. Qed.
Lemma vup_eq l t V : (t <= vup l t V l)%nat.
Proof. unfold vup. rewrite decide_True by done. lia. Qed.
Lemma vjoin_l V W l : (V l <= vjoin V W l)%nat.
Proof. unfold vjoin. lia. Qed.
Lemma vjoin_r V W l : (W l <= vjoin V W l)%nat.
Proof. unfold vjoin. lia. Qed.

(** What a load does to the thread's view. *)
Lemma load_spec m l t tv v tv' : load_rlx m l t tv = Some (v, tv') ->
  exists ms, m l !! t = Some ms /\ v = m_val ms /\ (cur tv l <= t)%nat /\ (t <= cur tv' l)%nat /\
    (forall l', (cur tv l' <= cur tv' l')%nat) /\ (forall l', (acq tv l' <= acq tv' l')%nat) /\
    (forall l', (m_view ms l' <= acq tv' l')%nat).
Proof.
  unfold load_rlx. case_decide as Hc; [|done]. destruct (m l !! t) as [ms|]; [|done]. intros [= <- <-].
  exists ms. cbn [cur acq]. split_and!; try done; [apply vup_eq|intros; apply vup_ge| |intros; apply vjoin_r].
  intros l'. etransitivity; [apply vup_ge|apply vjoin_l].
Qed.

(** The messages of a location after a store to it, and of the others. *)
Lemma store_same m l v tv : (store_rlx m l v tv).1 l = m l ++ [mkMsg v (vup l (length (m l)) (rel tv))].
Proof. cbn. by rewrite decide_True. Qed.
Lemma store_other m l v tv l' : l' <> l -> (store_rlx m l v tv).1 l' = m l'.
Proof. intros. cbn. by rewrite decide_False. Qed.

(** ** Invariant *)

(** Message [t] of the sequence has value [t] and, if even, releases at least the
    first [t/2] stores of every word; message [k] of a word is from store [k]
    and releases the odd sequence value of that store. *)
Record mem_ok (m : memory) (vs : list Bytes) : Prop := {
  mo_seq t ms : m Seq !! t = Some ms -> m_val ms = u32 (Z.of_nat t) /\
    forall k i, t = (2 * k)%nat -> (i < kWordCount)%nat -> (k <= m_view ms (Word i))%nat;
  mo_word i k ms : (i < kWordCount)%nat -> m (Word i) !! k = Some ms ->
    (exists v, vs !! k = Some v /\ stage v !! i = Some (m_val ms)) /\ (2 * k <= S (m_view ms Seq))%nat;
  mo_vals : Forall (fun v => length v = sizeofT) vs
}.

(** [N] stores were begun; the words below [i] have received the last one. *)
Definition words_at (m : memory) (tv : tview) (N i : nat) : Prop :=
  forall j, (j < kWordCount)%nat ->
    (length (m (Word j)) = N + (if decide (j < i)%nat then 1 else 0))%nat /\
    (length (m (Word j)) <= S (cur tv (Word j)))%nat.

Definition writer_ok (m : memory) (w : writer) (tv : tview) (vs : list Bytes) : Prop :=
  exists N, length vs = S N /\
  match w with
  | WIdle => length (m Seq) = (2 * N + 1)%nat /\ (2 * N <= cur tv Seq)%nat /\ words_at m tv N kWordCount
  | WOdd st seq => exists v, vs !! N = Some v /\ st = stage v /\ seq = u32 (Z.of_nat (2 * (N - 1))) /\ (1 <= N)%nat /\
      length (m Seq) = (2 * N - 1)%nat /\ (2 * N - 2 <= cur tv Seq)%nat /\ words_at m tv N 0
  | WFence st seq => exists v, vs !! N = Some v /\ st = stage v /\ seq = u32 (Z.of_nat (2 * (N - 1))) /\ (1 <= N)%nat /\
      length (m Seq) = (2 * N)%nat /\ (2 * N - 1 <= cur tv Seq)%nat /\ words_at m tv N 0
  | WWords st seq i => exists v, vs !! N = Some v /\ st = stage v /\ seq = u32 (Z.of_nat (2 * (N - 1))) /\ (1 <= N)%nat /\
      length (m Seq) = (2 * N)%nat /\ (2 * N - 1 <= cur tv Seq)%nat /\ (2 * N - 1 <= rel tv Seq)%nat /\
      (i <= kWordCount)%nat /\ words_at m tv N i
  | WEven seq => seq = u32 (Z.of_nat (2 * (N - 1))) /\ (1 <= N)%nat /\
      length (m Seq) = (2 * N)%nat /\ (2 * N - 1 <= cur tv Seq)%nat /\ words_at m tv N kWordCount /\
      forall j, (j < kWordCount)%nat -> (N <= rel tv (Word j))%nat
  end.

(** Word [j] was copied from a store not older than [k], and [bound] is at least
    the odd sequence index of that store. *)
Definition copied (vs : list Bytes) (k bound : nat) (staging : list Z) : Prop :=
  forall j w, staging !! j = Some w ->
    exists kj v, (k <= kj)%nat /\ vs !! kj = Some v /\ stage v !! j = Some w /\ (2 * kj <= S bound)%nat.

Definition entry_ok (vs : list Bytes) (e : nat * nat * Bytes) : Prop :=
  (e.1.1 <= e.1.2)%nat /\
  (Z.of_nat e.1.2 < Z.of_nat e.1.1 + 2 ^ 32 -> exists k, e.1.1 = (2 * k)%nat /\ vs !! k = Some e.2).

Definition attempt_ok (vs : list Bytes) (pc : reader) (tv : tview) (g : list (nat * nat * Bytes)) : Prop :=
  match pc with
  | RIdle | RTry _ => Forall (fun e => (e.1.2 <= cur tv Seq)%nat) g
  | RFence _ before tb => exists k, tb = (2 * k)%nat /\ before = u32 (Z.of_nat tb) /\ (tb <= cur tv Seq)%nat /\
      Forall (fun e => (e.1.2 <= tb)%nat) g /\ forall i, (i < kWordCount)%nat -> (k <= acq tv (Word i))%nat
  | RWords _ before tb st => exists k, tb = (2 * k)%nat /\ before = u32 (Z.of_nat tb) /\ (tb <= cur tv Seq)%nat /\
      Forall (fun e => (e.1.2 <= tb)%nat) g /\ (forall i, (i < kWordCount)%nat -> (k <= cur tv (Word i))%nat) /\
      (length st <= kWordCount)%nat /\ copied vs k (acq tv Seq) st
  | RCheck _ before tb st => exists k, tb = (2 * k)%nat /\ before = u32 (Z.of_nat tb) /\ (tb <= cur tv Seq)%nat /\
      Forall (fun e => (e.1.2 <= tb)%nat) g /\ length st = kWordCount /\ copied vs k (cur tv Seq) st
  end.

Definition later (new old : nat * nat * Bytes) : Prop := (old.1.2 <= new.1.1)%nat.

Definition reader_ok (vs : list Bytes) (r : rthread) : Prop :=
  attempt_ok vs (r_pc r) (r_tv r) (got r) /\ Forall (entry_ok vs) (got r) /\ StronglySorted later (got r).

Definition sl_inv (s : sl_config) : Prop :=
  mem_ok (mem s) (stores s) /\ writer_ok (mem s) (w_pc s) (w_tv s) (stores s) /\
  Forall (reader_ok (stores s)) (readers s) /\ stores s !! 0%nat = Some zero_value.

(** ** The writer keeps it *)

Lemma mem_ok_snoc m vs value : mem_ok m vs -> length value = sizeofT -> mem_ok m (vs ++ [value]).
Proof.
  intros [Hs Hw Hv] Hl. constructor; [done| |by apply Forall_app_2; [|constructor]].
  intros i k ms Hi Hk. destruct (Hw i k ms Hi Hk) as [(v & H1 & H2) H3]. split; [|done].
  exists v. split; [by apply lookup_app_l_Some|done].
Qed.

(** A store appends a message that satisfies the location's clause. *)
Lemma mem_ok_seq m vs v tv : mem_ok m vs -> v = u32 (Z.of_nat (length (m Seq))) ->
  (forall k i, length (m Seq) = (2 * k)%nat -> (i < kWordCount)%nat -> (k <= rel tv (Word i))%nat) ->
  mem_ok (store_rlx m Seq v tv).1 vs.
Proof.
  intros [Hs Hw Hv] -> Hrel. constructor; [|intros i k ms Hi; rewrite store_other by done; by apply Hw|done].
  intros t ms. rewrite store_same. intros [Ht|[Ht Hm]]%lookup_app_Some; [by apply Hs|].
  apply list_lookup_singleton_Some in Hm as [Ht0 <-]. replace t with (length (m Seq)) by lia.
  split; [done|]. intros k i Hk Hi. cbn [m_view]. etransitivity; [by apply (Hrel k i)|apply vup_ge].
Qed.

Lemma mem_ok_word m vs i v tv value : mem_ok m vs -> vs !! length (m (Word i)) = Some value ->
  stage value !! i = Some v -> (2 * length (m (Word i)) <= S (rel tv Seq))%nat ->
  mem_ok (store_rlx m (Word i) v tv).1 vs.
Proof.
  intros [Hs Hw Hv] Hval Hst Hrel. constructor; [intros t ms; rewrite store_other by done; apply Hs| |done].
  intros j k ms Hj. destruct (decide (j = i)) as [->|Hne]; [|rewrite store_other by congruence; by apply Hw].
  rewrite store_same. intros [Hk|[Hk Hm]]%lookup_app_Some; [by apply Hw|].
  apply list_lookup_singleton_Some in Hm as [Hk0 <-]. replace k with (length (m (Word i))) by lia.
  split; [by exists value|]. cbn [m_view]. pose proof (vup_ge (Word i) (length (m (Word i))) (rel tv) Seq). lia.
Qed.

Lemma store_proj m l v tv m' tv' : store_rlx m l v tv = (m', tv') ->
  m' = (store_rlx m l v tv).1 /\ tv' = (store_rlx m l v tv).2.
Proof. by intros [= <- <-]. Qed.
Lemma store_cur m l v tv l' : (cur tv l' <= cur (store_rlx m l v tv).2 l')%nat.
Proof. apply vup_ge. Qed.
Lemma store_cur_eq m l v tv : (length (m l) <= cur (store_rlx m l v tv).2 l)%nat.
Proof. apply vup_eq. Qed.
Lemma store_length m l v tv : length ((store_rlx m l v tv).1 l) = S (length (m l)).
Proof. rewrite store_same, length_app. cbn. lia. Qed.

Lemma words_at_mono m tv m' tv' N i : words_at m tv N i -> (forall j, m' (Word j) = m (Word j)) ->
  (forall j, (cur tv (Word j) <= cur tv' (Word j))%nat) -> words_at m' tv' N i.
Proof. intros H Hm Ht j Hj. rewrite Hm. destruct (H j Hj) as [H1 H2]. split; [done|]. specialize (Ht j). lia. Qed.

Lemma words_at_store m tv N i v : (i < kWordCount)%nat -> words_at m tv N i ->
  words_at (store_rlx m (Word i) v tv).1 (store_rlx m (Word i) v tv).2 N (S i).
Proof.
  intros Hi H j Hj. destruct (H j Hj) as [H1 H2]. destruct (decide (j = i)) as [->|Hne].
  - rewrite store_length. pose proof (store_cur_eq m (Word i) v tv).
    rewrite decide_False in H1 by lia. rewrite decide_True by lia. split; lia.
  - rewrite store_other by congruence. pose proof (store_cur m (Word i) v tv (Word j)).
    split; [|lia]. rewrite H1. repeat case_decide; lia.
Qed.

Lemma u32_add a b : u32 (u32 a + b) = u32 (a + b).
Proof. unfold u32. apply Z.add_mod_idemp_l. lia. Qed.

Lemma wstep_ok m w tv vs m' w' tv' vs' : wstep (m, w, tv, vs) (m', w', tv', vs') ->
  mem_ok m vs -> writer_ok m w tv vs -> mem_ok m' vs' /\ writer_ok m' w' tv' vs' /\ exists x, vs' = vs ++ x.
Proof.
  intros Hstep Hm (N & HN & Hw). inversion Hstep; subst; clear Hstep;
    try match goal with H : store_rlx _ _ _ _ = _ |- _ => apply store_proj in H as [-> ->] end.
  - destruct Hw as (Hl & Hc & Hww). match goal with H : load_rlx _ _ _ _ = _ |- _ => apply load_spec in H as (ms & Ht & -> & Hct & _ & Hcur & _) end.
    apply lookup_lt_Some in Ht as Htl. assert (t = 2 * N)%nat as -> by lia.
    split; [by apply mem_ok_snoc|]. split; [|by eexists]. exists (S N). split; [rewrite length_app; cbn; lia|].
    exists value. split_and!; [|done| |lia|lia|specialize (Hcur Seq); lia|].
    + rewrite lookup_app_r by lia. by rewrite HN, Nat.sub_diag.
    + destruct (mo_seq _ _ Hm _ _ Ht) as [-> _]. do 2 f_equal. lia.
    + intros j Hj. destruct (Hww j Hj) as [Hn1 Hn2]. specialize (Hcur (Word j)). rewrite decide_True in Hn1 by done.
      rewrite decide_False by lia. split; lia.
  - destruct Hw as (v & Hv & -> & -> & Hn1 & Hl & Hc & Hww). split; [|split; [|by exists []; rewrite app_nil_r]].
    + apply mem_ok_seq; [done| |lia]. rewrite u32_add, Hl. f_equal. lia.
    + exists N. split; [done|]. exists v. rewrite store_length. pose proof (store_cur_eq m Seq (u32 (u32 (Z.of_nat (2 * (N - 1))) + 1)) tv).
      split_and!; [done..|lia|lia|lia|]. eapply words_at_mono; [exact Hww|intros; by apply store_other|intros; apply store_cur].
  - destruct Hw as (v & Hv & -> & -> & Hn1 & Hl & Hc & Hww). split; [done|]. split; [|by exists []; rewrite app_nil_r].
    exists N. split; [done|]. exists v. split_and!; try done; lia.
  - destruct Hw as (v' & Hv & -> & -> & Hn1 & Hl & Hc & Hr & Hi & Hww). match goal with H : stage _ !! i = _ |- _ => apply lookup_lt_Some in H as Hlt end. rewrite stage_length in Hlt.
    destruct (Hww i Hlt) as [Hli _]. rewrite decide_False in Hli by lia.
    split; [|split; [|by exists []; rewrite app_nil_r]].
    + apply (mem_ok_word _ _ _ _ _ v'); [done|by rewrite Hli, Nat.add_0_r|done|lia].
    + exists N. split; [done|]. exists v'. rewrite store_other by done. pose proof (store_cur m (Word i) v tv Seq).
      split_and!; [done..|lia|done|lia|by apply words_at_store].
  - destruct Hw as (v' & Hv & -> & -> & Hn1 & Hl & Hc & Hr & Hi & Hww). split; [done|]. split; [|by exists []; rewrite app_nil_r].
    rewrite stage_length in Hww. exists N. split; [done|]. split_and!; try done. intros j Hj. destruct (Hww j Hj) as [Hn2 Hn3]. rewrite decide_True in Hn2 by done.
    cbn [rel fence_release]. lia.
  - destruct Hw as (-> & Hn1 & Hl & Hc & Hww & Hrel). split; [|split; [|by exists []; rewrite app_nil_r]].
    + apply mem_ok_seq; [done| |intros k j Hk Hj; specialize (Hrel j Hj); lia]. rewrite u32_add, Hl. f_equal. lia.
    + exists N. split; [done|]. rewrite store_length. pose proof (store_cur_eq m Seq (u32 (u32 (Z.of_nat (2 * (N - 1))) + 2)) tv).
      split_and!; [lia|lia|]. eapply words_at_mono; [exact Hww|intros; by apply store_other|intros; apply store_cur].
Qed.

(** ** The readers keep it *)

Lemma copied_snoc vs k bound bound' st w kj v : copied vs k bound st -> (bound <= bound')%nat ->
  (k <= kj)%nat -> vs !! kj = Some v -> stage v !! length st = Some w -> (2 * kj <= S bound')%nat ->
  copied vs k bound' (st ++ [w]).
Proof.
  intros Hc Hb Hk Hv Hst Hkj j x. intros [Hj|[Hj Hx]]%lookup_app_Some.
  - destruct (Hc j x Hj) as (kj' & v' & ? & ? & ? & ?). exists kj', v'. split_and!; [done..|lia].
  - apply list_lookup_singleton_Some in Hx as [Hj0 <-]. replace j with (length st) by lia. by exists kj, v.
Qed.

Lemma copied_bound vs k bound bound' st : (bound <= bound')%nat -> copied vs k bound st -> copied vs k bound' st.
Proof. intros Hb Hc j w Hj. destruct (Hc j w Hj) as (kj & v & ? & ? & ? & ?). exists kj, v. split_and!; [done..|lia]. Qed.

Lemma copied_store vs k st bound : Forall (fun v => length v = sizeofT) vs ->
  copied vs k bound st -> (bound <= 2 * k)%nat -> length st = kWordCount -> (kWordCount > 0)%nat ->
  exists v, vs !! k = Some v /\ unstage st = v.
Proof.
  intros Hvs Hc Hb Hl Hpos.
  assert (forall j w, st !! j = Some w -> exists v, vs !! k = Some v /\ stage v !! j = Some w) as H.
  { intros j w Hj. destruct (Hc j w Hj) as (kj & v & ? & ? & ? & ?). assert (kj = k) as -> by lia. by exists v. }
  destruct (lookup_lt_is_Some_2 st 0%nat) as [w0 Hw0]; [lia|]. destruct (H _ _ Hw0) as (v & Hv & _).
  exists v. split; [done|]. replace st with (stage v).
  - apply unstage_stage. rewrite list.Forall_forall in Hvs. eapply Hvs, list_elem_of_lookup_2, Hv.
  - apply list_eq_same_length with kWordCount; [done|apply stage_length|].
    intros j x y _ Hx Hy. destruct (H j y Hy) as (v' & Hv' & Hy'). congruence.
Qed.

Lemma even_seq t : (Z.land (u32 (Z.of_nat t)) 1 =? 0) = true -> exists k, t = (2 * k)%nat.
Proof.
  rewrite Z.eqb_eq. change (Z.land (u32 (Z.of_nat t)) 1) with (Z.land (u32 (Z.of_nat t)) (Z.ones 1)).
  rewrite Z.land_ones by lia. unfold u32. intros H. exists (Z.to_nat (Z.of_nat t / 2)).
  Z.to_euclidean_division_equations. lia.
Qed.

Lemma later_cons vs g tb tc out : Forall (entry_ok vs) g -> StronglySorted later g ->
  Forall (fun e => (e.1.2 <= tb)%nat) g -> entry_ok vs (tb, tc, out) ->
  Forall (entry_ok vs) ((tb, tc, out) :: g) /\ StronglySorted later ((tb, tc, out) :: g).
Proof. intros ????. split; by constructor. Qed.

Lemma rstep_ok m vs r r' : (kWordCount > 0)%nat -> rstep m r r' -> mem_ok m vs -> reader_ok vs r -> reader_ok vs r'.
Proof.
  intros Hpos Hstep Hm (Ha & He & Hs). destruct Hstep as [tv g n|tv g|tv tv' g n t before Hld|tv g n before tb
    |tv tv' g n before tb st t v Hlt Hld|tv g n before tb st Hlt|tv tv' g n before tb st t after Hld]; cbn in Ha, He, Hs;
    try (apply load_spec in Hld as (ms & Ht & -> & Hct & Htc & Hcur & Hacq & Hrel)).
  - done.
  - done.
  - destruct (mo_seq _ _ Hm _ _ Ht) as [Hval Hview]. rewrite Hval. case_eq (Z.land (u32 (Z.of_nat t)) 1 =? 0); intros E.
    + destruct (even_seq t E) as [k Hk]. split; [|done]. exists k. split_and!; [done|done|done| |].
      * revert Ha. apply Forall_impl. intros e He'. cbn in *. lia.
      * intros i Hi. specialize (Hview k i Hk Hi). specialize (Hrel (Word i)). cbn. lia.
    + split; [|done]. cbn. revert Ha. apply Forall_impl. intros e He'. cbn in *. lia.
  - destruct Ha as (k & Hk & Hb & Htb & Hg & Hw). split; [|done]. exists k. cbn [r_tv r_pc got fence_acquire cur acq]. split_and!; try done; [unfold vjoin; lia| |cbn [length]; lia].
    intros i Hi. specialize (Hw i Hi). unfold vjoin. lia.
  - destruct Ha as (k & Hk & Hb & Htb & Hg & Hw & Hl & Hc). split; [|done].
    destruct (mo_word _ _ Hm _ _ _ Hlt Ht) as [(v & Hv & Hst) H2].
    exists k. cbn [r_tv r_pc got fence_acquire cur acq]. pose proof (Hcur Seq). pose proof (Hrel Seq). pose proof (Hw _ Hlt).
    split_and!; [done|done|lia|done|intros i Hi; specialize (Hw i Hi); specialize (Hcur (Word i)); lia
      |rewrite length_app; cbn [length]; lia|]. eapply copied_snoc; [exact Hc|apply Hacq| |exact Hv|exact Hst|]; lia.
  - destruct Ha as (k & Hk & Hb & Htb & Hg & Hw & Hl & Hc). split; [|done]. exists k. cbn [r_tv r_pc got fence_acquire cur acq].
    split_and!; try done; [unfold vjoin; lia|]. eapply copied_bound; [|exact Hc]. unfold vjoin. lia.
  - destruct Ha as (k & Hk & -> & Htb & Hg & Hl & Hc). destruct (mo_seq _ _ Hm _ _ Ht) as [-> _].
    destruct (Z.eqb_spec (u32 (Z.of_nat t)) (u32 (Z.of_nat tb))) as [E|E].
    + split; cbn.
      * constructor; [done|]. revert Hg. apply Forall_impl. intros e He'. cbn in *. lia.
      * apply later_cons; [done|done|done|]. split; [cbn; lia|]. cbn [fst snd]. intros Hwin. exists k. split; [done|].
        assert (t = tb) as -> by (apply Nat2Z.inj, (mod_inj_interval (2 ^ 32)); [lia|lia|exact E]).
        destruct (copied_store vs k st (cur tv Seq) (mo_vals _ _ Hm) Hc) as (v & Hv & <-); [lia|done|done|done].
    + split; [|done]. cbn. revert Hg. apply Forall_impl. intros e He'. cbn in *. lia.
Qed.

Lemma copied_grow vs x k bound st : copied vs k bound st -> copied (vs ++ x) k bound st.
Proof.
  intros Hc j w Hj. destruct (Hc j w Hj) as (kj & v & ? & ? & ? & ?). exists kj, v.
  split_and!; try done. by apply lookup_app_l_Some.
Qed.

Lemma reader_ok_grow vs x r : reader_ok vs r -> reader_ok (vs ++ x) r.
Proof.
  intros (Ha & He & Hs). split_and!; [|revert He; apply Forall_impl|done].
  - destruct (r_pc r); cbn in *; try done; destruct Ha as (k & Ha); exists k;
      destruct_and?; split_and!; auto using copied_grow.
  - intros e [H1 H2]. split; [done|]. intros Hw. destruct (H2 Hw) as (k & Hk & Hv). exists k.
    split; [done|]. by apply lookup_app_l_Some.
Qed.

Lemma sl_inv_init n : sl_inv (sl_init n).
Proof.
  split_and!; [constructor| | |done].
  - intros t ms Ht. apply list_lookup_singleton_Some in Ht as [-> <-]. split; [reflexivity|]. intros k i Hk _. cbn. lia.
  - intros i k ms Hi Hk. apply list_lookup_singleton_Some in Hk as [-> <-]. split; [|cbn; lia].
    exists zero_value. split; [done|]. rewrite stage_zero. by apply lookup_replicate_2.
  - constructor; [apply length_replicate|constructor].
  - exists 0%nat. split; [done|]. split_and!; [done|cbn; lia|]. intros j Hj. cbn. rewrite decide_True by done. lia.
  - apply Forall_replicate. split_and!; constructor.
Qed.

Lemma sl_inv_step s s' : (kWordCount > 0)%nat -> sl_step s s' -> sl_inv s -> sl_inv s'.
Proof.
  intros Hpos Hstep (Hm & Hw & Hr & H0). destruct Hstep as [m w tv m' w' tv' vs vs' rs Hst|m w tv rs vs j r r' Hj Hst]; cbn in *.
  - destruct (wstep_ok _ _ _ _ _ _ _ _ Hst Hm Hw) as (Hm' & Hw' & x & ->). split_and!; try done; cbn.
    + revert Hr. apply Forall_impl. intros r. apply reader_ok_grow.
    + by apply lookup_app_l_Some.
  - split_and!; try done; cbn. apply Forall_insert; [done|]. rewrite list.Forall_forall in Hr.
    eapply rstep_ok; [done|done|done|]. eapply Hr, list_elem_of_lookup_2, Hj.
Qed.

Lemma sl_reachable_inv n s : (kWordCount > 0)%nat -> sl_reachable n s -> sl_inv s.
Proof. intros Hpos. induction 1; [apply sl_inv_init|by eapply sl_inv_step]. Qed.

(** ** Property *)

Lemma kWordCount_pos : (0 < sizeofT)%nat -> (kWordCount > 0)%nat.
Proof. intros. pose proof kWordCount_covers. lia. Qed.

(** C11: A load of the seqlock is never torn.  Under relaxed accesses ordered only
    by the fences of the source, with one writer and any number of readers: a
    load that returns true copied out exactly the bytes of one store (or the
    initial zeros), the one whose even sequence value it saw, unless 2^31 or more
    stores went by between its first and its last look at the 32-bit sequence;
    and the loads of one reader never go back to an older store. *)
Theorem seqlock_consistent n s j r :
  (0 < sizeofT)%nat -> sl_reachable n s -> readers s !! j = Some r ->
  StronglySorted later (got r) /\
  forall tb tc out, (tb, tc, out) ∈ got r ->
    (tb <= tc)%nat /\
    (Z.of_nat tc < Z.of_nat tb + 2 ^ 32 -> exists k, tb = (2 * k)%nat /\ stores s !! k = Some out).
Proof.
  intros Hsz Hs Hj. destruct (sl_reachable_inv n s (kWordCount_pos Hsz) Hs) as (_ & _ & Hr & _).
  rewrite list.Forall_forall in Hr. destruct (Hr r (list_elem_of_lookup_2 _ _ _ Hj)) as (_ & He & Hso).
  split; [done|]. intros tb tc out Hin. rewrite list.Forall_forall in He. exact (He _ Hin).
Qed.
End Seqlock.

(** A store of eight bytes and a load of it. *)
Definition sample_value : Bytes := [x01; x02; x03; x04; x05; x06; x07; x08].

Lemma seqlock_consistent_witness : exists s r, @sl_reachable little 8 1 s /\ readers s !! 0%nat = Some r /\
  got r = [(2, 2, sample_value)%nat] /\ exists k, stores s !! k = Some sample_value.
Proof.
  pose proof (@sl_reach_init little 8 1) as Hs.
  eapply sl_reach_step in Hs; [|eapply s_writer, (w_begin 8 _ _ _ _ sample_value 0); reflexivity].
  eapply sl_reach_step in Hs; [|eapply s_writer, w_odd; reflexivity].
  eapply sl_reach_step in Hs; [|eapply s_writer, w_fence].
  eapply sl_reach_step in Hs; [|eapply s_writer, w_word; reflexivity].
  eapply sl_reach_step in Hs; [|eapply s_writer, (w_fence2 8 _ _ _ (@stage little 8 sample_value))].
  eapply sl_reach_step in Hs; [|eapply s_writer, w_even; reflexivity].
  eapply sl_reach_step in Hs; [|eapply (s_reader _ _ _ _ _ _ 0); [reflexivity|apply (r_begin _ _ _ _ 64)]].
  eapply sl_reach_step in Hs; [|eapply (s_reader _ _ _ _ _ _ 0); [reflexivity|eapply (r_before _ _ _ _ _ _ 2); reflexivity]].
  eapply sl_reach_step in Hs; [|eapply (s_reader _ _ _ _ _ _ 0); [reflexivity|apply r_fence]].
  eapply sl_reach_step in Hs; [|eapply (s_reader _ _ _ _ _ _ 0);
    [reflexivity|eapply (r_word _ _ _ _ _ _ _ _ _ 1); [cbn; lia|reflexivity]]].
  eapply sl_reach_step in Hs; [|eapply (s_reader _ _ _ _ _ _ 0); [reflexivity|apply r_fence2; reflexivity]].
  eapply sl_reach_step in Hs; [|eapply (s_reader _ _ _ _ _ _ 0); [reflexivity|eapply (r_check _ _ _ _ _ _ _ _ _ 2); reflexivity]].
  eexists _, _. split; [exact Hs|]. split; [reflexivity|]. split; [vm_compute; reflexivity|].
  edestruct (@seqlock_consistent little 8 1 _ 0 _ ltac:(lia) Hs ltac:(reflexivity)) as [_ H].
  destruct (H 2%nat 2%nat sample_value) as [_ (k & _ & Hk)]; [|lia|by exists k].
  vm_compute. left.
Defined.
