(* ===== verification/Snapshot.v ===== *)
(** * include/gtpm/snapshot.hpp: publication of the detail tables

    One writer rotates through [N] buffers, readers pin the published one with a
    reference count.  [begin_write] and [commit] are given as the
    functions they are to the writing thread, and with [read] as the atomic
    actions of a writer and any number of readers interleaved.  Loads of [current_] may return any value
    it ever had, relaxed loads of a count any number at all: the
    compare-exchange decides.  A buffer is filled by plain writes while the
    writer owns it. *)

From S2P Require Import Prelude.

Definition kWriterOwned : Z := 0x80000000.

Record Publisher (T : Type) := mkPublisher {
  slot_values : list T;
  slot_refs : list Z;
  current_ : Z;
  version_ : Z;
  write_hint_ : Z;
  writing_ : Z
}.
Arguments mkPublisher {T}.
Arguments slot_values {T}.
Arguments slot_refs {T}.
Arguments current_ {T}.
Arguments version_ {T}.
Arguments write_hint_ {T}.
Arguments writing_ {T}.
#[export] Instance Publisher_eta {T} : Eta (Publisher T) := fun p =>
  mkPublisher (slot_values p) (slot_refs p) (current_ p) (version_ p) (write_hint_ p) (writing_ p).

Section Publisher.
Context {T : Type} (N : Z).
Implicit Types (p : Publisher T).

Definition Publisher_new (dflt : T) : Publisher T :=
  mkPublisher (replicate (Z.to_nat N) dflt) (replicate (Z.to_nat N) 0) (-1) 0 0 (-1).

(** [refs.compare_exchange_strong(expected, desired)]. *)
Definition cas_refs p (idx expected desired : Z) : res (bool * Publisher T) :=
  let* r := at_ (slot_refs p) idx in
  if r =? expected then let* rs := set_ (slot_refs p) idx desired in Ok (true, p <| slot_refs := rs |>)
  else Ok (false, p).

(** Owning a slot: the members set when the exchange succeeds. *)
Definition own p (idx : Z) : Publisher T := p <| writing_ := idx |> <| write_hint_ := (idx + 1) mod N |>.

Fixpoint begin_loop (n : nat) p (attempt current : Z) : res (option Z * Publisher T) :=
  match n with
  | O => Ok (None, p)
  | S n =>
      let idx := (write_hint_ p + attempt) mod N in
      if idx =? current then begin_loop n p (attempt + 1) current else
      let* (ok, p) := cas_refs p idx 0 kWriterOwned in
      if (ok : bool) then Ok (Some idx, own p idx) else begin_loop n p (attempt + 1) current
  end.

(** The buffer index stands for the pointer to its value. *)
Definition begin_write p : res (option Z * Publisher T) := begin_loop (Z.to_nat N) p 0 (current_ p).

Definition release_refs p (idx : Z) : res (Publisher T) :=
  let* rs := set_ (slot_refs p) idx 0 in Ok (p <| slot_refs := rs |>).

Definition commit p : res (Publisher T) :=
  if writing_ p <? 0 then Ok p else
  let* p := release_refs p (writing_ p) in
  Ok (p <| current_ := writing_ p |> <| version_ ::= fun v => add64 v 1 |> <| writing_ := -1 |>).

Definition snap_version p : Z := version_ p.
Definition has_data p : bool := 0 <=? current_ p.

(** [Handle::release]. *)
Definition unpin p (idx : Z) : res (Publisher T) :=
  let* r := at_ (slot_refs p) idx in
  let* rs := set_ (slot_refs p) idx (u32 (r - 1)) in Ok (p <| slot_refs := rs |>).
End Publisher.

(** ** The threads interleaved *)

Inductive snap_writer :=
| SWIdle
| SWScan (attempt current : Z)
| SWFill (idx : Z)
| SWCurrent (idx : Z)
| SWVersion.

#[export] Instance snap_writer_eq_dec : EqDecision snap_writer.
Proof. solve_decision. Defined.

Inductive snap_reader :=
| SRIdle
| SRTry (n : nat)
| SRRefs (n : nat) (idx : Z)
| SRCas (n : nat) (idx refs : Z)
| SRPinned (idx : Z).
#[export] Instance snap_reader_eq_dec : EqDecision snap_reader.
Proof. solve_decision. Defined.

(** [published]: the values committed so far; [currents]: the values [current_]
    has had. *)
Record snap_config (T : Type) := mkSnap {
  pub : Publisher T;
  sw_pc : snap_writer;
  sr_pcs : list snap_reader;
  published : list T;
  currents : list Z
}.
Arguments mkSnap {T}.
Arguments pub {T}.
Arguments sw_pc {T}.
Arguments sr_pcs {T}.
Arguments published {T}.
Arguments currents {T}.

Section Steps.
Context {T : Type} (N : Z).
Implicit Types (p : Publisher T).

Inductive sw_step : Publisher T * snap_writer * list T * list Z -> Publisher T * snap_writer * list T * list Z -> Prop :=
(* begin_write *)
| sw_begin p h c : sw_step (p, SWIdle, h, c) (p, SWScan 0 (current_ p), h, c)
| sw_skip p h c attempt current :
    attempt < N -> (write_hint_ p + attempt) mod N = current ->
    sw_step (p, SWScan attempt current, h, c) (p, SWScan (attempt + 1) current, h, c)
| sw_claim p p' h c attempt current :
    attempt < N -> (write_hint_ p + attempt) mod N <> current ->
    cas_refs p ((write_hint_ p + attempt) mod N) 0 kWriterOwned = Ok (true, p') ->
    sw_step (p, SWScan attempt current, h, c)
      (own N p' ((write_hint_ p + attempt) mod N), SWFill ((write_hint_ p + attempt) mod N), h, c)
| sw_busy p p' h c attempt current :
    attempt < N -> (write_hint_ p + attempt) mod N <> current ->
    cas_refs p ((write_hint_ p + attempt) mod N) 0 kWriterOwned = Ok (false, p') ->
    sw_step (p, SWScan attempt current, h, c) (p', SWScan (attempt + 1) current, h, c)
| sw_full p h c current : sw_step (p, SWScan N current, h, c) (p, SWIdle, h, c)
(* filling the buffer *)
| sw_fill p h c idx v vs :
    set_ (slot_values p) idx v = Ok vs ->
    sw_step (p, SWFill idx, h, c) (p <| slot_values := vs |>, SWFill idx, h, c)
(* commit *)
| sw_commit p p' h c idx v :
    at_ (slot_values p) idx = Ok v -> release_refs p (writing_ p) = Ok p' ->
    sw_step (p, SWFill idx, h, c) (p', SWCurrent idx, h ++ [v], c)
| sw_current p h c idx :
    sw_step (p, SWCurrent idx, h, c) (p <| current_ := writing_ p |>, SWVersion, h, c ++ [writing_ p])
| sw_version p h c :
    sw_step (p, SWVersion, h, c) (p <| version_ ::= fun v => add64 v 1 |> <| writing_ := -1 |>, SWIdle, h, c).

Inductive sr_step (c : list Z) : Publisher T * snap_reader -> Publisher T * snap_reader -> Prop :=
| sr_begin p : sr_step c (p, SRIdle) (p, SRTry 16)
| sr_give_up p : sr_step c (p, SRTry 0) (p, SRIdle)
| sr_current p n idx :
    idx ∈ c -> sr_step c (p, SRTry (S n)) (p, if idx <? 0 then SRIdle else SRRefs n idx)
| sr_refs p n idx refs : 0 <= refs < 2 ^ 32 -> sr_step c (p, SRRefs n idx) (p, SRCas n idx refs)
| sr_owned p n idx refs : kWriterOwned <= refs -> sr_step c (p, SRCas n idx refs) (p, SRTry n)
| sr_pin p p' n idx refs :
    refs < kWriterOwned -> cas_refs p idx refs (u32 (refs + 1)) = Ok (true, p') ->
    sr_step c (p, SRCas n idx refs) (p', SRPinned idx)
| sr_miss p n idx refs refs' :
    refs < kWriterOwned -> 0 <= refs' < 2 ^ 32 -> sr_step c (p, SRCas n idx refs) (p, SRCas n idx refs')
| sr_release p p' idx : unpin p idx = Ok p' -> sr_step c (p, SRPinned idx) (p', SRIdle).

Inductive snap_step : snap_config T -> snap_config T -> Prop :=
| ss_writer p w p' w' rs h h' c c' :
    sw_step (p, w, h, c) (p', w', h', c') -> snap_step (mkSnap p w rs h c) (mkSnap p' w' rs h' c')
| ss_reader p p' w rs h c j r r' :
    rs !! j = Some r -> sr_step c (p, r) (p', r') ->
    snap_step (mkSnap p w rs h c) (mkSnap p' w (<[j := r']> rs) h c).

Inductive snap_reachable (dflt : T) (readers : nat) : snap_config T -> Prop :=
| snap_init : snap_reachable dflt readers
    (mkSnap (Publisher_new N dflt) SWIdle (replicate readers SRIdle) [] [-1])
| snap_next s s' : snap_reachable dflt readers s -> snap_step s s' -> snap_reachable dflt readers s'.
End Steps.

(** ** Pins *)

Definition pins (i : Z) (rs : list snap_reader) : Z := size (filter (fun r => r = SRPinned i) rs).
Definition pinned (i : Z) (r : snap_reader) : Z := if decide (r = SRPinned i) then 1 else 0.

Lemma pins_cons i r rs : pins i (r :: rs) = pinned i r + pins i rs.
Proof. unfold pins, pinned. rewrite filter_cons. case_decide; [by rewrite size_cons|lia]. Qed.

Lemma pins_insert i rs : forall j r r', rs !! j = Some r -> pins i (<[j := r']> rs) = pins i rs - pinned i r + pinned i r'.
Proof.
  induction rs as [|x rs IH]; intros [|j] r r' Hj; cbn in Hj |- *; try done; rewrite !pins_cons.
  - injection Hj as ->. lia.
  - rewrite (IH _ _ _ Hj). lia.
Qed.

Lemma pins_bounds i rs : 0 <= pins i rs <= size rs.
Proof. unfold pins, size. pose proof (length_filter (fun r => r = SRPinned i) rs). lia. Qed.

Lemma pins_pos i rs j : rs !! j = Some (SRPinned i) -> 0 < pins i rs.
Proof.
  intros H. pose proof (pins_insert i rs j _ SRIdle H) as E. pose proof (pins_bounds i (<[j := SRIdle]> rs)).
  unfold pinned in E. rewrite decide_True, decide_False in E by done. lia.
Qed.

Lemma pins_none i n : pins i (replicate n SRIdle) = 0.
Proof. induction n as [|n IH]; [done|]. cbn [replicate]. by rewrite pins_cons, IH. Qed.

(** ** Invariant *)

Section Invariant.
Context {T : Type} (N : Z).
Implicit Types (p : Publisher T) (h : list T).

Lemma at_inv {A} (f : list A) i a : at_ f i = Ok a -> 0 <= i < size f /\ f !! Z.to_nat i = Some a.
Proof.
  unfold at_. case_decide; [|done]. destruct (f !! Z.to_nat i) as [x|] eqn:E; [|done].
  intros [= ->]. split; [|done]. apply lookup_lt_Some in E. unfold size. lia.
Qed.

Lemma cas_spec p idx e d b p' : cas_refs p idx e d = Ok (b, p') ->
  exists r, 0 <= idx < size (slot_refs p) /\ slot_refs p !! Z.to_nat idx = Some r /\
    if b then r = e /\ p' = p <| slot_refs := <[Z.to_nat idx := d]> (slot_refs p) |> else p' = p.
Proof.
  unfold cas_refs. intros (r & [Hi Hr]%at_inv & H)%bind_Ok_inv. exists r. split; [done|]. split; [done|].
  destruct (Z.eqb_spec r e) as [->|]; [|by injection H as <- <-].
  rewrite set_Ok in H by done. injection H as <- <-. done.
Qed.

(** What slot [i]'s reference count is. *)
Definition refs_of (w : snap_writer) (rs : list snap_reader) (i : Z) : Z :=
  if decide (w = SWFill i) then kWriterOwned else pins i rs.

Definition reader_at (c : list Z) (r : snap_reader) : Prop :=
  match r with
  | SRIdle | SRTry _ => True
  | SRRefs _ i => i ∈ c /\ 0 <= i
  | SRCas _ i refs => i ∈ c /\ 0 <= i /\ 0 <= refs
  | SRPinned i => i ∈ c /\ 0 <= i
  end.

Definition writer_at p (w : snap_writer) h : Prop :=
  match w with
  | SWIdle | SWVersion => True
  | SWScan attempt _ => 0 <= attempt
  | SWFill i => 0 <= i < N /\ writing_ p = i
  | SWCurrent i => 0 <= i < N /\ writing_ p = i /\ exists v, slot_values p !! Z.to_nat i = Some v /\ v ∈ h
  end.

Record snap_inv (s : snap_config T) : Prop := {
  si_values : size (slot_values (pub s)) = N;
  si_sizes : size (slot_refs (pub s)) = N;
  si_hint : 0 <= write_hint_ (pub s) < N;
  si_refs i : 0 <= i < N -> slot_refs (pub s) !! Z.to_nat i = Some (refs_of (sw_pc s) (sr_pcs s) i);
  si_free i : sw_pc s = SWFill i -> pins i (sr_pcs s) = 0;
  si_writer : writer_at (pub s) (sw_pc s) (published s);
  si_currents i : i ∈ currents s -> i = -1 \/ (0 <= i < N /\
    (sw_pc s <> SWFill i -> exists v, slot_values (pub s) !! Z.to_nat i = Some v /\ v ∈ published s));
  si_readers : Forall (reader_at (currents s)) (sr_pcs s);
  si_count : size (sr_pcs s) < 2 ^ 31
}.

Lemma lookup_set_refs (l : list Z) i j x y : 0 <= i -> 0 <= j -> l !! Z.to_nat j = Some y -> i <> j ->
  <[Z.to_nat i := x]> l !! Z.to_nat j = Some y.
Proof. intros. rewrite list_lookup_insert_ne by lia. done. Qed.

Lemma lookup_set_same (l : list Z) i x : 0 <= i < size l -> <[Z.to_nat i := x]> l !! Z.to_nat i = Some x.
Proof. intros. apply list_lookup_insert_eq. unfold size in *. lia. Qed.

Lemma snap_inv_init dflt n : 3 <= N -> Z.of_nat n < 2 ^ 31 ->
  snap_inv (mkSnap (Publisher_new N dflt) SWIdle (replicate n SRIdle) [] [-1]).
Proof.
  intros HN Hn. constructor; cbn; try done.
  - unfold size. rewrite length_replicate. lia.
  - unfold size. rewrite length_replicate. lia.
  - lia.
  - intros i Hi. unfold refs_of. rewrite decide_False by done. rewrite pins_none. apply lookup_replicate_2. lia.
  - intros i ->%list_elem_of_singleton. by left.
  - by apply Forall_replicate.
  - unfold size. by rewrite length_replicate.
Qed.

(** A step of the writer that leaves counts, values and histories alone. *)
Lemma snap_inv_pc p w w' rs h c : snap_inv (mkSnap p w rs h c) -> writer_at p w' h ->
  (forall i, w <> SWFill i) -> (forall i, w' <> SWFill i) -> snap_inv (mkSnap p w' rs h c).
Proof.
  intros [Hv Hs Hh Hr Hf Hw Hc Hrd Hn] Hw' Hne Hne'. constructor; cbn in *; try done.
  - intros i Hi. rewrite (Hr i Hi). unfold refs_of. by rewrite !decide_False by done.
  - intros i E. by destruct (Hne' i).
  - intros i Hi. destruct (Hc i Hi) as [|[Hb Hp]]; [by left|right; split; [done|]]. intros _. by apply Hp.
Qed.

Lemma snap_inv_claim p p' rs h c a cur : snap_inv (mkSnap p (SWScan a cur) rs h c) ->
  cas_refs p ((write_hint_ p + a) mod N) 0 kWriterOwned = Ok (true, p') ->
  snap_inv (mkSnap (own N p' ((write_hint_ p + a) mod N)) (SWFill ((write_hint_ p + a) mod N)) rs h c).
Proof.
  intros [Hv Hs Hh Hr Hf Hw Hc Hrd Hn] Hcas. set (idx := (write_hint_ p + a) mod N) in *. cbn in *.
  apply cas_spec in Hcas as (r & Hi & Hri & -> & ->). rewrite Hs in Hi. pose proof (Hr idx Hi) as E. rewrite Hri in E.
  unfold refs_of in E. rewrite decide_False in E by done. injection E as E.
  constructor; cbn; try done.
  - by rewrite size_insert.
  - apply Z.mod_pos_bound. lia.
  - intros i Hii. unfold refs_of. destruct (decide (i = idx)) as [->|Hne].
    + rewrite decide_True by done. apply lookup_set_same. by rewrite Hs.
    + rewrite decide_False by congruence. apply lookup_set_refs; [lia|lia| |congruence].
      rewrite (Hr i Hii). unfold refs_of. by rewrite decide_False.
  - intros i [= <-]. done.
  - intros i Hin. destruct (Hc i Hin) as [|[Hb Hp]]; [by left|right; split; [done|]]. intros _. by apply Hp.
Qed.

Lemma snap_inv_fill p rs h c idx v vs : snap_inv (mkSnap p (SWFill idx) rs h c) -> set_ (slot_values p) idx v = Ok vs ->
  snap_inv (mkSnap (p <| slot_values := vs |>) (SWFill idx) rs h c).
Proof.
  intros [Hv Hs Hh Hr Hf Hw Hc Hrd Hn] Hset. cbn in *. destruct Hw as [Hi Hwr].
  rewrite set_Ok in Hset by lia. injection Hset as <-. constructor; cbn; try done.
  - by rewrite size_insert.
  - intros i Hin. destruct (Hc i Hin) as [|[Hb Hp]]; [by left|right; split; [done|]]. intros Hne.
    rewrite list_lookup_insert_ne; [by apply Hp|]. assert (i <> idx) by congruence. lia.
Qed.

Lemma snap_inv_commit p p' rs h c idx v : snap_inv (mkSnap p (SWFill idx) rs h c) ->
  at_ (slot_values p) idx = Ok v -> release_refs p (writing_ p) = Ok p' ->
  snap_inv (mkSnap p' (SWCurrent idx) rs (h ++ [v]) c).
Proof.
  intros [Hv Hs Hh Hr Hf Hw Hc Hrd Hn] [_ Hval]%at_inv Hrel. cbn in *. destruct Hw as [Hi Hwr].
  unfold release_refs in Hrel. rewrite Hwr, set_Ok in Hrel by lia. injection Hrel as <-.
  assert (forall x, x ∈ h -> x ∈ h ++ [v]) as Hin by (intros x ?; apply elem_of_app; by left).
  assert (v ∈ h ++ [v]) as Hvin by (apply elem_of_app; right; by apply list_elem_of_singleton).
  constructor; cbn; try done.
  - by rewrite size_insert.
  - intros i Hii. unfold refs_of. rewrite decide_False by done. destruct (decide (i = idx)) as [->|Hne].
    + rewrite lookup_set_same by lia. by rewrite (Hf idx).
    + apply lookup_set_refs; [lia|lia| |congruence]. rewrite (Hr i Hii). unfold refs_of. by rewrite decide_False by congruence.
  - split_and!; [lia|lia|done|]. by exists v.
  - intros i Hi'. destruct (Hc i Hi') as [|[Hb Hp]]; [by left|right; split; [done|]]. intros _.
    destruct (decide (i = idx)) as [->|Hne]; [by exists v|].
    destruct Hp as (x & Hx & Hxh); [congruence|]. exists x. auto.
Qed.

Lemma snap_inv_current p rs h c idx : snap_inv (mkSnap p (SWCurrent idx) rs h c) ->
  snap_inv (mkSnap (p <| current_ := writing_ p |>) SWVersion rs h (c ++ [writing_ p])).
Proof.
  intros [Hv Hs Hh Hr Hf Hw Hc Hrd Hn]. cbn in *. destruct Hw as (Hi & Hwr & Hval). constructor; cbn; try done.
  - intros i [Hin| ->%list_elem_of_singleton]%elem_of_app; [|right; rewrite Hwr; done].
    destruct (Hc i Hin) as [|[Hb Hp]]; [by left|right; split; [done|]]. intros _. by apply Hp.
  - revert Hrd. apply Forall_impl. intros r. destruct r; cbn; rewrite ?elem_of_app; tauto.
Qed.

Lemma snap_inv_writer p w h c p' w' h' c' rs : sw_step N (p, w, h, c) (p', w', h', c') ->
  snap_inv (mkSnap p w rs h c) -> snap_inv (mkSnap p' w' rs h' c').
Proof.
  intros Hst Hinv. pose proof (si_writer _ Hinv) as Hw. inversion Hst; subst; cbn in Hw;
    eauto using snap_inv_claim, snap_inv_fill, snap_inv_commit, snap_inv_current.
  - by apply (snap_inv_pc _ _ _ _ _ _ Hinv).
  - apply (snap_inv_pc _ _ _ _ _ _ Hinv); [cbn; lia|done|done].
  - match goal with H : cas_refs _ _ _ _ = _ |- _ => apply cas_spec in H as (r & _ & _ & ->) end.
    apply (snap_inv_pc _ _ _ _ _ _ Hinv); [cbn; lia|done|done].
  - by apply (snap_inv_pc _ _ _ _ _ _ Hinv).
  - destruct Hinv as [Hv Hs Hh Hr Hf _ Hc Hrd Hn]. constructor; cbn in *; try done.
    intros i Hin. destruct (Hc i Hin) as [|[Hb Hp]]; [by left|right; split; [done|]]. intros _. by apply Hp.
Qed.

(** A reader moves from [r] to [r'] and slot [idx]'s count follows. *)
Lemma snap_inv_reader_pc p w rs h c j r r' refs' :
  snap_inv (mkSnap p w rs h c) -> rs !! j = Some r -> reader_at c r' -> size refs' = N ->
  (forall i, 0 <= i < N -> refs' !! Z.to_nat i = Some (refs_of w (<[j := r']> rs) i)) ->
  (forall i, w = SWFill i -> pinned i r' = 0) ->
  snap_inv (mkSnap (p <| slot_refs := refs' |>) w (<[j := r']> rs) h c).
Proof.
  intros [Hv Hs Hh Hr Hf Hw Hc Hrd Hn] Hj Hr' Hsz Hrefs Hfr. constructor; cbn in *; try done.
  - intros i Hi. rewrite (pins_insert i rs j r r' Hj), (Hf i Hi), (Hfr i Hi).
    pose proof (pins_bounds i (<[j := r']> rs)) as Hb. rewrite (pins_insert i rs j r r' Hj), (Hf i Hi), (Hfr i Hi) in Hb.
    unfold pinned in *. case_decide; lia.
  - by apply Forall_insert.
  - by rewrite size_insert.
Qed.

Lemma snap_inv_quiet p w rs h c j r r' :
  snap_inv (mkSnap p w rs h c) -> rs !! j = Some r -> reader_at c r' ->
  (forall i, pinned i r = 0) -> (forall i, pinned i r' = 0) ->
  snap_inv (mkSnap p w (<[j := r']> rs) h c).
Proof.
  intros Hinv Hj Hr' H0 H0'. replace p with (p <| slot_refs := slot_refs p |>) by (by destruct p).
  apply (snap_inv_reader_pc _ _ _ _ _ _ _ _ _ Hinv Hj Hr'); [apply (si_sizes _ Hinv)| |done].
  intros i Hi. etransitivity; [exact (si_refs _ Hinv i Hi)|]. cbn. unfold refs_of. rewrite (pins_insert i rs j r r' Hj), H0, H0'.
  case_decide; [done|f_equal; lia].
Qed.

(** The count of slot [idx] changes by [d], with no writer on it. *)
Lemma snap_inv_count p w rs h c j r r' idx :
  snap_inv (mkSnap p w rs h c) -> rs !! j = Some r -> reader_at c r' -> 0 <= idx < N -> w <> SWFill idx ->
  (forall i, i <> idx -> pinned i r = 0) -> (forall i, i <> idx -> pinned i r' = 0) ->
  snap_inv (mkSnap (p <| slot_refs := <[Z.to_nat idx := u32 (pins idx rs + (pinned idx r' - pinned idx r))]> (slot_refs p) |>)
    w (<[j := r']> rs) h c).
Proof.
  intros Hinv Hj Hr' Hi Hw H0 H0'. pose proof (si_sizes _ Hinv) as Hsz. pose proof (si_count _ Hinv) as Hn. cbn in Hsz, Hn.
  apply (snap_inv_reader_pc _ _ _ _ _ _ _ _ _ Hinv Hj Hr'); [by rewrite size_insert| |].
  - intros i Hii. unfold refs_of. pose proof (pins_bounds i (<[j := r']> rs)) as Hb. rewrite size_insert in Hb.
    pose proof (pins_insert i rs j r r' Hj) as Hpi. destruct (decide (i = idx)) as [->|Hne].
    + rewrite decide_False by done. rewrite lookup_set_same by lia. f_equal. rewrite u32_small by lia. lia.
    + pose proof (si_refs _ Hinv i Hii) as E. cbn in E. unfold refs_of in E.
      rewrite H0, H0' in Hpi by done. rewrite Hpi, Z.sub_0_r, Z.add_0_r.
      apply lookup_set_refs; [lia|lia|exact E|congruence].
  - intros i Hwi. apply H0'. congruence.
Qed.

Lemma pinned_other i idx : i <> idx -> pinned i (SRPinned idx) = 0.
Proof. intros. unfold pinned. by rewrite decide_False by congruence. Qed.
Lemma pinned_same idx : pinned idx (SRPinned idx) = 1.
Proof. unfold pinned. by rewrite decide_True. Qed.

(** A slot that readers may hold is in range, and one that is held or free is not being filled. *)
Lemma readable_idx s i : snap_inv s -> i ∈ currents s -> 0 <= i -> 0 <= i < N.
Proof. intros Hinv Hin H0. destruct (si_currents _ Hinv i Hin) as [|[? _]]; lia. Qed.

Lemma pinned_not_filling s j i : snap_inv s -> sr_pcs s !! j = Some (SRPinned i) -> sw_pc s <> SWFill i.
Proof. intros Hinv Hj Hw. pose proof (si_free _ Hinv i Hw). pose proof (pins_pos i _ j Hj). lia. Qed.

Lemma snap_inv_reader p p' w rs h c j r r' : sr_step c (p, r) (p', r') -> rs !! j = Some r ->
  snap_inv (mkSnap p w rs h c) -> snap_inv (mkSnap p' w (<[j := r']> rs) h c).
Proof.
  intros Hst Hj Hinv. pose proof (si_readers _ Hinv) as Hrd. rewrite list.Forall_forall in Hrd.
  pose proof (Hrd r (list_elem_of_lookup_2 _ _ _ Hj)) as Hat.
  inversion Hst; subst; cbn in Hat; try (by apply (snap_inv_quiet _ _ _ _ _ _ _ _ Hinv Hj)).
  - apply (snap_inv_quiet _ _ _ _ _ _ _ _ Hinv Hj); [|done|]; destruct (Z.ltb_spec idx 0); done.
  - apply (snap_inv_quiet _ _ _ _ _ _ _ _ Hinv Hj); [|done|done]. cbn. intuition lia.
  - match goal with H : cas_refs _ _ _ _ = _ |- _ => apply cas_spec in H as (r0 & Hi & Hr0 & -> & ->) end.
    destruct Hat as (Hin & H0 & Hre). pose proof (readable_idx _ idx Hinv Hin H0) as Hb.
    pose proof (si_refs _ Hinv idx Hb) as E. cbn in E. rewrite Hr0 in E. unfold refs_of in E.
    case_decide as Hw; injection E as E; [lia|].
    replace (refs + 1) with (pins idx rs + (pinned idx (SRPinned idx) - pinned idx (SRCas n idx refs)))
      by (rewrite pinned_same, E; unfold pinned; rewrite decide_False by done; lia).
    apply (snap_inv_count _ _ _ _ _ _ _ _ _ Hinv Hj); [done|done|done|done|]. intros. by apply pinned_other.
  - apply (snap_inv_quiet _ _ _ _ _ _ _ _ Hinv Hj); [|done|done]. cbn. intuition lia.
  - match goal with H : unpin _ _ = _ |- _ => apply bind_Ok_inv in H as (r0 & [Hi Hr0]%at_inv & Hset) end.
    rewrite set_Ok in Hset by done. injection Hset as <-. destruct Hat as (Hin & H0).
    pose proof (readable_idx _ idx Hinv Hin H0) as Hb. pose proof (pinned_not_filling _ j idx Hinv Hj) as Hw.
    pose proof (si_refs _ Hinv idx Hb) as E. cbn in E, Hw. rewrite Hr0 in E. unfold refs_of in E.
    rewrite decide_False in E by done. injection E as ->.
    replace (pins idx rs - 1) with (pins idx rs + (pinned idx SRIdle - pinned idx (SRPinned idx)))
      by (rewrite pinned_same; unfold pinned; rewrite decide_False by done; lia).
    apply (snap_inv_count _ _ _ _ _ _ _ _ _ Hinv Hj); [done|done|done| |done]. intros. by apply pinned_other.
Qed.

Lemma snap_inv_step s s' : snap_step N s s' -> snap_inv s -> snap_inv s'.
Proof. intros [] Hinv; [by eapply snap_inv_writer|by eapply snap_inv_reader]. Qed.

(** Only the buffer being filled changes its value. *)
Lemma sw_step_values p w h c p' w' h' c' i : sw_step N (p, w, h, c) (p', w', h', c') ->
  w <> SWFill i -> 0 <= i -> at_ (slot_values p') i = at_ (slot_values p) i.
Proof.
  intros Hst Hw Hi. inversion Hst; subst; try done.
  - match goal with H : cas_refs _ _ _ _ = _ |- _ => apply cas_spec in H as (r & _ & _ & _ & ->) end. done.
  - match goal with H : cas_refs _ _ _ _ = _ |- _ => apply cas_spec in H as (r & _ & _ & ->) end. done.
  - match goal with H : set_ _ _ _ = _ |- _ => unfold set_ in H; case_decide; [injection H as <-|done] end.
    unfold at_. cbn. rewrite list_lookup_insert_ne; [done|]. assert (idx <> i) by congruence. lia.
  - match goal with H : release_refs _ _ = _ |- _ => apply bind_Ok_inv in H as (rs & _ & [= <-]) end. done.
Qed.

Lemma sr_step_values c p r p' r' : sr_step c (p, r) (p', r') -> slot_values p' = slot_values p.
Proof.
  inversion 1; subst; try done.
  - match goal with H : cas_refs _ _ _ _ = _ |- _ => apply cas_spec in H as (x & _ & _ & _ & ->) end. done.
  - match goal with H : unpin _ _ = _ |- _ => apply bind_Ok_inv in H as (x & _ & (y & _ & [= <-])%bind_Ok_inv) end. done.
Qed.

Lemma step_values (s s' : snap_config T) i : snap_step N s s' -> sw_pc s <> SWFill i -> 0 <= i ->
  at_ (slot_values (pub s')) i = at_ (slot_values (pub s)) i.
Proof.
  intros Hst Hw Hi. destruct Hst as [p w p' w' rs h h' c c' Hst|p p' w rs h c j r r' Hj Hst]; cbn in *.
  - eapply sw_step_values; [exact Hst|done|done].
  - by rewrite (sr_step_values _ _ _ _ _ Hst).
Qed.

Lemma snap_reachable_inv dflt n s : 3 <= N -> Z.of_nat n < 2 ^ 31 -> snap_reachable N dflt n s -> snap_inv s.
Proof. intros HN Hn. induction 1; [by apply snap_inv_init|by eapply snap_inv_step]. Qed.
End Invariant.

(** ** The writer alone *)

Section Alone.
Context {T : Type} (N : Z).
Implicit Types (p : Publisher T).

(** A slot [begin_write] may take. *)
Definition claimable p (i : Z) : Prop := 0 <= i < N /\ i <> current_ p /\ slot_refs p !! Z.to_nat i = Some 0.

Lemma begin_loop_spec p : size (slot_refs p) = N -> 3 <= N -> forall n a, 0 <= a ->
  ensures (begin_loop N n p a (current_ p)) (fun '(o, p') =>
    match o with
    | None => p' = p /\ forall k, a <= k < a + Z.of_nat n -> ~ claimable p ((write_hint_ p + k) mod N)
    | Some idx => claimable p idx /\
        p' = own N (p <| slot_refs := <[Z.to_nat idx := kWriterOwned]> (slot_refs p) |>) idx
    end).
Proof.
  intros Hs HN. induction n as [|n IH]; intros a Ha; cbn [begin_loop].
  { apply ensures_Ok. split; [done|]. lia. }
  set (idx := (write_hint_ p + a) mod N).
  assert (0 <= idx < N) as Hi by (apply Z.mod_pos_bound; lia).
  assert (~ claimable p idx -> ensures (begin_loop N n p (a + 1) (current_ p)) (fun '(o, p') =>
    match o with
    | None => p' = p /\ forall k, a <= k < a + Z.of_nat (S n) -> ~ claimable p ((write_hint_ p + k) mod N)
    | Some idx => claimable p idx /\
        p' = own N (p <| slot_refs := <[Z.to_nat idx := kWriterOwned]> (slot_refs p) |>) idx
    end)) as Hnext.
  { intros Hno. eapply ensures_mono; [apply IH; lia|]. intros [[i|] p']; [done|]. intros [-> Hk]. split; [done|].
    intros k Hkr. destruct (decide (k = a)) as [->|]; [done|]. apply Hk. lia. }
  destruct (Z.eqb_spec idx (current_ p)) as [E|E]; [apply Hnext; intros (_ & ? & _); done|].
  destruct (lookup_lt_is_Some_2 (slot_refs p) (Z.to_nat idx)) as [r Hr]; [unfold size in Hs; lia|].
  unfold cas_refs. rewrite (at_lookup _ idx r) by (done || lia). rewrite bind_Ok.
  destruct (Z.eqb_spec r 0) as [->|Hr0].
  - rewrite set_Ok, !bind_Ok by lia. apply ensures_Ok. done.
  - rewrite bind_Ok. apply Hnext. intros (_ & _ & Hr'). congruence.
Qed.

Lemma begin_write_spec p : size (slot_refs p) = N -> 3 <= N ->
  ensures (begin_write N p) (fun '(o, p') =>
    match o with
    | None => p' = p /\ forall i, ~ claimable p i
    | Some idx => claimable p idx /\
        p' = own N (p <| slot_refs := <[Z.to_nat idx := kWriterOwned]> (slot_refs p) |>) idx
    end).
Proof.
  intros Hs HN. eapply ensures_mono; [by apply begin_loop_spec|]. intros [[i|] p']; [done|]. intros [-> Hk]. split; [done|].
  intros i Hi. pose proof (proj1 Hi) as Hb. pose proof (Z.mod_pos_bound (i - write_hint_ p) N ltac:(lia)).
  apply (Hk ((i - write_hint_ p) mod N)); [lia|].
  rewrite Zplus_mod_idemp_r, (Z.mod_small (write_hint_ p + (i - write_hint_ p))) by lia.
  by replace (write_hint_ p + (i - write_hint_ p)) with i by lia.
Qed.

(** [commit] frees the buffer and makes it current. *)
Lemma commit_spec p idx : size (slot_refs p) = N -> 0 <= idx < N -> writing_ p = idx ->
  commit p = Ok (p <| slot_refs := <[Z.to_nat idx := 0]> (slot_refs p) |> <| current_ := idx |>
    <| version_ ::= fun v => add64 v 1 |> <| writing_ := -1 |>).
Proof.
  intros Hs Hi Hw. unfold commit, release_refs. rewrite Hw. destruct (Z.ltb_spec idx 0); [lia|].
  rewrite set_Ok, !bind_Ok by lia. cbn [writing_]. rewrite <- Hw. reflexivity.
Qed.
End Alone.

(** With four buffers, three readers that hold older snapshots stop the writer. *)
Lemma three_readers_block : begin_write 4 (mkPublisher [0; 0; 0; 0] [0; 1; 1; 1] 0 4 0 (-1)) =
  Ok (None, mkPublisher [0; 0; 0; 0] [0; 1; 1; 1] 0 4 0 (-1)).
Proof. reflexivity. Qed.

(** ** Property *)

(** C12: A pinned snapshot is complete and does not change.  With up to 2^31 - 1
    readers, whatever the interleaving of the loads, exchanges and stores of
    [begin_write], [commit], [read] and handle releases, and however stale the
    loads: the buffer a reader has pinned is not the one the writer fills, its
    value is one that was committed, and no step of any thread changes it. *)
Theorem snapshot_pinned_stable {T} N (dflt : T) n s j i :
  3 <= N -> Z.of_nat n < 2 ^ 31 -> snap_reachable N dflt n s -> sr_pcs s !! j = Some (SRPinned i) ->
  sw_pc s <> SWFill i /\
  (exists v, at_ (slot_values (pub s)) i = Ok v /\ v ∈ published s) /\
  forall s', snap_step N s s' -> at_ (slot_values (pub s')) i = at_ (slot_values (pub s)) i.
Proof.
  intros HN Hn Hs Hj. pose proof (snap_reachable_inv N dflt n s HN Hn Hs) as Hinv.
  pose proof (pinned_not_filling N s j i Hinv Hj) as Hw. split; [done|].
  pose proof (si_readers _ _ Hinv) as Hrd. rewrite list.Forall_forall in Hrd.
  destruct (Hrd _ (list_elem_of_lookup_2 _ _ _ Hj)) as [Hin H0].
  destruct (si_currents _ _ Hinv i Hin) as [->|[Hb Hv]]; [lia|]. destruct (Hv Hw) as (v & Hv1 & Hv2).
  split; [exists v; split; [by apply at_lookup|done]|].
  intros s' Hst. apply (step_values N s s' i Hst Hw). lia.
Qed.

(** One commit and one reader that pins it. *)
Lemma snapshot_pinned_stable_witness : exists s : snap_config Z, snap_reachable 4 0 2 s /\
  sr_pcs s !! 1%nat = Some (SRPinned 0) /\ sw_pc s <> SWFill 0 /\
  (exists v, at_ (slot_values (pub s)) 0 = Ok v /\ v ∈ published s) /\
  forall s', snap_step 4 s s' -> at_ (slot_values (pub s')) 0 = at_ (slot_values (pub s)) 0.
Proof.
  pose proof (snap_init 4 0 2) as Hs.
  eapply snap_next in Hs; [|eapply ss_writer, sw_begin].
  eapply snap_next in Hs; [|eapply ss_writer, sw_claim; [lia|done|reflexivity]].
  eapply snap_next in Hs; [|eapply ss_writer, (sw_fill _ _ _ _ _ 42); reflexivity].
  eapply snap_next in Hs; [|eapply ss_writer, sw_commit; reflexivity].
  eapply snap_next in Hs; [|eapply ss_writer, sw_current].
  eapply snap_next in Hs; [|eapply ss_writer, sw_version].
  eapply snap_next in Hs; [|eapply (ss_reader _ _ _ _ _ _ _ 1); [reflexivity|apply sr_begin]].
  eapply snap_next in Hs; [|eapply (ss_reader _ _ _ _ _ _ _ 1); [reflexivity|apply (sr_current _ _ _ 0); right; left]].
  eapply snap_next in Hs; [|eapply (ss_reader _ _ _ _ _ _ _ 1); [reflexivity|apply (sr_refs _ _ _ _ 0); lia]].
  eapply snap_next in Hs; [|eapply (ss_reader _ _ _ _ _ _ _ 1); [reflexivity|eapply sr_pin; [done|reflexivity]]].
  eexists. split; [exact Hs|]. split; [reflexivity|].
  exact (snapshot_pinned_stable 4 0 2 _ 1 0 ltac:(lia) ltac:(lia) Hs eq_refl).
Defined.
