(* ===== verification/TopN.v ===== *)
(** * The busiest entries of a table

    The standard algorithms the program uses on vectors of rows, with a
    comparator [key a > key b]: [std::push_heap], [std::pop_heap], [std::sort]
    and [std::partial_sort].  The standard leaves the order of equal elements
    and the layout of a heap open, so they are an interface with the guarantees
    it gives; [sorting_algorithms] implements it by sorting.  [top_of] is what a
    top-N selection promises. *)

From stdpp Require Import sorting.
From S2P Require Import Prelude.

Section Order.
Context {A : Type} (key : A -> Z).

Definition key_ge (a b : A) : Prop := key b <= key a.
Definition key_le (a b : A) : Prop := key a <= key b.
#[global] Instance key_ge_dec a b : Decision (key_ge a b).
Proof. unfold key_ge. apply _. Defined.
#[global] Instance key_le_dec a b : Decision (key_le a b).
Proof. unfold key_le. apply _. Defined.
#[global] Instance key_ge_trans : Transitive key_ge.
Proof. unfold key_ge. intros a b c. lia. Qed.
#[global] Instance key_le_trans : Transitive key_le.
Proof. unfold key_le. intros a b c. lia. Qed.
#[global] Instance key_ge_total : Total key_ge.
Proof. unfold key_ge. intros a b. lia. Qed.
#[global] Instance key_le_total : Total key_le.
Proof. unfold key_le. intros a b. lia. Qed.
End Order.

(** With the comparator [>] the front of a heap is its least element. *)
Class Algorithms := {
  push_heap {A} (key : A -> Z) : list A -> list A;
  pop_heap {A} (key : A -> Z) : list A -> list A;
  sort_desc {A} (key : A -> Z) : list A -> list A;
  partial_sort_desc {A} (key : A -> Z) : nat -> list A -> list A;
  is_heap {A} (key : A -> Z) : list A -> Prop;
  heap_nil {A} (key : A -> Z) : is_heap key [];
  heap_front {A} (key : A -> Z) x l : is_heap key (x :: l) -> Forall (key_le key x) l;
  push_heap_spec {A} (key : A -> Z) l x : is_heap key l ->
    is_heap key (push_heap key (l ++ [x])) /\ push_heap key (l ++ [x]) ≡ₚ x :: l;
  pop_heap_spec {A} (key : A -> Z) x l : is_heap key (x :: l) ->
    exists l', pop_heap key (x :: l) = l' ++ [x] /\ is_heap key l' /\ l' ≡ₚ l;
  sort_desc_spec {A} (key : A -> Z) l : StronglySorted (key_ge key) (sort_desc key l) /\ sort_desc key l ≡ₚ l;
  partial_sort_spec {A} (key : A -> Z) n l : (n <= length l)%nat ->
    exists a b, partial_sort_desc key n l = a ++ b /\ length a = n /\ StronglySorted (key_ge key) a /\
      (forall x y, x ∈ a -> y ∈ b -> key_ge key x y) /\ a ++ b ≡ₚ l
}.

Lemma merge_sort_ge {A} (key : A -> Z) l : StronglySorted (key_ge key) (merge_sort (key_ge key) l).
Proof. apply StronglySorted_merge_sort; apply _. Qed.
Lemma merge_sort_le {A} (key : A -> Z) l : StronglySorted (key_le key) (merge_sort (key_le key) l).
Proof. apply StronglySorted_merge_sort; apply _. Qed.

Lemma sorted_split {A} (R : A -> A -> Prop) n : forall l, StronglySorted R l ->
  StronglySorted R (take n l) /\ forall x y, x ∈ take n l -> y ∈ drop n l -> R x y.
Proof.
  induction n as [|n IH]; intros l Hl; [split; [constructor|intros x y Hx; by apply elem_of_nil in Hx]|].
  destruct Hl as [|a l Hl Ha]; [split; [constructor|intros x y Hx; by apply elem_of_nil in Hx]|]. cbn [take drop].
  destruct (IH l Hl) as [H1 H2]. split; [constructor; [done|by apply Forall_take]|].
  intros x y [->|Hx]%elem_of_cons Hy; [|by apply H2]. rewrite list.Forall_forall in Ha. apply Ha.
  apply (subseteq_drop n l), Hy.
Qed.

(** Sorting implements the interface: a sorted list is a heap. *)
#[export] Program Instance sorting_algorithms : Algorithms := {|
  push_heap A key l := merge_sort (key_le key) l;
  pop_heap A key l := match l with [] => [] | x :: l => l ++ [x] end;
  sort_desc A key l := merge_sort (key_ge key) l;
  partial_sort_desc A key n l := merge_sort (key_ge key) l;
  is_heap A key l := StronglySorted (key_le key) l
|}.
Next Obligation. constructor. Qed.
Next Obligation. intros A key x l H. by inversion H. Qed.
Next Obligation.
  intros A key l x _. split; [apply merge_sort_le|]. rewrite merge_sort_Permutation.
  by rewrite Permutation_app_comm.
Qed.
Next Obligation. intros A key x l H. inversion H; subst. by exists l. Qed.
Next Obligation. intros A key l. split; [apply merge_sort_ge|apply merge_sort_Permutation]. Qed.
Next Obligation.
  intros A key n l Hn. destruct (sorted_split (key_ge key) n _ (merge_sort_ge key l)) as [H1 H2].
  exists (take n (merge_sort (key_ge key) l)), (drop n (merge_sort (key_ge key) l)).
  rewrite take_drop. split_and!; [done| |done|done|apply merge_sort_Permutation].
  rewrite length_take, (Permutation_length (merge_sort_Permutation (key_ge key) l)). lia.
Qed.

(** ** Selection *)

Section Top.
Context {A : Type} (key : A -> Z).

(** [top] holds [n] entries of [all] (all of them if there are fewer) that are at
    least as large as every other one. *)
Definition top_of (n : nat) (all top : list A) : Prop :=
  exists rest, all ≡ₚ top ++ rest /\ length top = (n `min` length all)%nat /\
    forall x y, x ∈ top -> y ∈ rest -> key y <= key x.

#[global] Instance top_of_proper n : Proper ((≡ₚ) ==> (≡ₚ) ==> iff) (top_of n).
Proof.
  assert (forall all all' top top', all ≡ₚ all' -> top ≡ₚ top' -> top_of n all top -> top_of n all' top') as H.
  { intros all all' top top' Ha Ht (rest & Hp & Hl & Hk). exists rest. split_and!.
    - by rewrite <- Ha, <- Ht.
    - by rewrite <- (Permutation_length Ht), <- (Permutation_length Ha).
    - intros x y Hx. apply Hk. by rewrite Ht. }
  intros all all' Ha top top' Ht. split; by apply H.
Qed.

Lemma top_of_nil n : top_of n [] [].
Proof. exists []. split_and!; [done|cbn; lia|]. intros x y Hx. by apply elem_of_nil in Hx. Qed.

Lemma top_of_room n all top x : top_of n all top -> (length top < n)%nat -> top_of n (x :: all) (x :: top).
Proof.
  intros (rest & Hp & Hl & Hk) Hn. pose proof (Permutation_length Hp) as Hlen. rewrite length_app in Hlen.
  destruct rest as [|r rest]; [|cbn in Hlen; lia]. exists []. rewrite app_nil_r in *. split_and!; [by rewrite Hp|cbn; lia|].
  intros ? y _ Hy. by apply elem_of_nil in Hy.
Qed.

Lemma top_of_replace n all m top x : top_of n all (m :: top) -> length (m :: top) = n ->
  Forall (key_le key m) top -> key m < key x -> top_of n (x :: all) (x :: top).
Proof.
  intros (rest & Hp & Hl & Hk) Hn Hm Hx. rewrite list.Forall_forall in Hm. exists (m :: rest). split_and!.
  - rewrite Hp. cbn [app]. apply Permutation_skip, Permutation_middle.
  - cbn in *. lia.
  - intros y z [->|Hy]%elem_of_cons [->|Hz]%elem_of_cons.
    + lia.
    + specialize (Hk m z (list_elem_of_here _ _) Hz). lia.
    + by apply Hm.
    + apply Hk; [by right|done].
Qed.

Lemma top_of_reject n all m top x : top_of n all (m :: top) -> length (m :: top) = n ->
  Forall (key_le key m) top -> key x <= key m -> top_of n (x :: all) (m :: top).
Proof.
  intros (rest & Hp & Hl & Hk) Hn Hm Hx. rewrite list.Forall_forall in Hm. exists (x :: rest). split_and!.
  - rewrite Hp. apply Permutation_middle.
  - cbn in *. lia.
  - intros y z Hy [->|Hz]%elem_of_cons; [|by apply Hk]. apply elem_of_cons in Hy as [->|Hy]; [done|].
    specialize (Hm y Hy). unfold key_le in Hm. lia.
Qed.

Lemma top_of_all n all : (length all <= n)%nat -> top_of n all all.
Proof. intros. exists []. rewrite app_nil_r. split_and!; [done|lia|]. intros ? y _ Hy. by apply elem_of_nil in Hy. Qed.

Lemma top_of_partial `{Algorithms} n all : (n <= length all)%nat ->
  top_of n all (take n (partial_sort_desc key n all)) /\
  StronglySorted (key_ge key) (take n (partial_sort_desc key n all)).
Proof.
  intros Hn. destruct (partial_sort_spec key n all Hn) as (a & b & -> & Hl & Hs & Hab & Hp).
  rewrite <- Hl, take_app_length. split; [|done]. exists b. split_and!; [by rewrite Hp|lia|done].
Qed.
End Top.
