(* ===== verification/DetailScan.v ===== *)
(** * The detail tables

    [MeterEngine::top_flows] (include/gtpm/meter.hpp) and the rolling scan of
    src/meter_thread.cpp that builds the per-subscriber and per-flow tables a
    slice at a time in a publisher's buffer. *)

From stdpp Require Import sorting.
From S2P Require Import Prelude MeterEvent UsageRecord Session SpscRing FlatHash Meter Snapshot TopN.

(** ** [top_flows] *)

Section TopFlows.
Context {AL : Algorithms}.

(** [for (i; i > 0 && out[i].bytes > out[i-1].bytes; --i) swap(out[i], out[i-1])]. *)
Fixpoint bubble (i : nat) (out : list FlowEntry) : res (list FlowEntry) :=
  match i with
  | O => Ok out
  | S j =>
      let* x := at_ out (Z.of_nat i) in
      let* y := at_ out (Z.of_nat j) in
      if f_bytes y <? f_bytes x then
        let* out := set_ out (Z.of_nat i) y in
        let* out := set_ out (Z.of_nat j) x in
        bubble j out
      else Ok out
  end.

Fixpoint top_loop (n : nat) (flows out : list FlowEntry) : res (list FlowEntry) :=
  match flows with
  | [] => Ok out
  | e :: flows =>
      if f_key e =? 0 then top_loop n flows out else
      if decide (length out < n)%nat then
        let out := out ++ [e] in
        top_loop n flows (if decide (length out = n) then sort_desc f_bytes out else out)
      else
        let back := size out - 1 in
        let* b := at_ out back in
        if f_bytes b <? f_bytes e then
          let* out := set_ out back e in
          let* out := bubble (Z.to_nat back) out in
          top_loop n flows out
        else top_loop n flows out
  end.

Definition top_flows {M R} (e : MeterEngine M R) (n : nat) : res (list FlowEntry) :=
  if (size (flows_ e) =? 0) || Nat.eqb n 0 then Ok [] else
  let* out := top_loop n (flows_ e) [] in
  Ok (if decide (length out < n)%nat then sort_desc f_bytes out else out).
End TopFlows.

(** ** The rolling scan *)

Record SubscriberSnapshot := mkRow {
  sr_imsi : Z;
  sr_ul_bytes : Z;
  sr_dl_bytes : Z;
  sr_ul_packets : Z;
  sr_dl_packets : Z;
  sr_last_seen_ns : Z;
  sr_bucket_bytes : list Z;
  sr_gy_reported_octets : Z;
  sr_bucket_ids : list Z;
  sr_sub_idx : Z;
  sr_ul_teid : Z;
  sr_dl_teid : Z;
  sr_gy_reports : Z;
  sr_bucket_aggregated : bool
}.

Record DetailSnapshot := mkDetail {
  subscribers : list SubscriberSnapshot;
  d_top_flows : list FlowEntry;
  d_publish_wall_ns : Z;
  total_subscribers : Z
}.
#[export] Instance DetailSnapshot_eta : Eta DetailSnapshot := fun d =>
  mkDetail (subscribers d) (d_top_flows d) (d_publish_wall_ns d) (total_subscribers d).
Definition DetailSnapshot_init : DetailSnapshot := mkDetail [] [] 0 0.

Record DetailConfig := mkDetailConfig {
  snapshot_subscriber_limit : nat;
  snapshot_flow_limit : nat;
  snapshot_scan_budget : nat
}.

(** [detail_], [detail_building_] (the buffer's index) and the two cursors. *)
Record DetailScan := mkScan {
  detail_ : Publisher DetailSnapshot;
  detail_building_ : option Z;
  detail_sub_cursor_ : Z;
  detail_flow_cursor_ : Z
}.
#[export] Instance DetailScan_eta : Eta DetailScan := fun d =>
  mkScan (detail_ d) (detail_building_ d) (detail_sub_cursor_ d) (detail_flow_cursor_ d).

(** [SnapshotPublisher<DetailSnapshot>]: the default of four buffers. *)
Definition kDetailBuffers : Z := 4.

Section Scan.
Context {AL : Algorithms} {M R : Type}.
Abbreviation engine := (MeterEngine M R).

(** The row of a subscriber, if it has one. *)
Definition detail_row (idx : Z) (info : SubscriberInfo) (c : SubscriberCounters) : option SubscriberSnapshot :=
  if negb (i_active info) then None else
  if total_packets c =? 0 then None else
  Some (mkRow (i_imsi info) (c_ul_bytes c) (c_dl_bytes c) (c_ul_packets c) (c_dl_packets c) (c_last_seen_ns c)
    (c_bucket_bytes c) (i_gy_reported_octets info) (i_bucket_ids info) (u32 idx) (i_ul_teid info) (i_dl_teid info)
    (i_gy_reports info) (i_bucket_aggregated info)).

(** The subscriber loop: the budget left, the cursor and the rows. *)
Fixpoint scan_subs (e : engine) (budget : nat) (cursor : Z) (rows : list SubscriberSnapshot)
    : res (nat * Z * list SubscriberSnapshot) :=
  match budget with
  | O => Ok (O, cursor, rows)
  | S budget' =>
      if cursor <? subscriber_count e then
        let* info := at_ (info_ e) cursor in
        let* c := at_ (counters_ e) cursor in
        scan_subs e budget' (cursor + 1) (rows ++ match detail_row cursor info c with Some r => [r] | None => [] end)
      else Ok (budget, cursor, rows)
  end.

(** One flow entry against the heap of the busiest. *)
Definition push_flow (limit : nat) (top : list FlowEntry) (f : FlowEntry) : res (list FlowEntry) :=
  if f_key f =? 0 then Ok top else
  if decide (length top < limit)%nat then Ok (push_heap f_bytes (top ++ [f]))
  else
    let* front := at_ top 0 in
    if f_bytes front <? f_bytes f then
      let* top := set_ (pop_heap f_bytes top) (size top - 1) f in
      Ok (push_heap f_bytes top)
    else Ok top.

Fixpoint scan_flows (e : engine) (limit budget : nat) (cursor : Z) (top : list FlowEntry)
    : res (Z * list FlowEntry) :=
  match budget with
  | O => Ok (cursor, top)
  | S budget =>
      if cursor <? size (flows_ e) then
        let* f := at_ (flows_ e) cursor in
        let* top := push_flow limit top f in
        scan_flows e limit budget (cursor + 1) top
      else Ok (cursor, top)
  end.

(** [a.ul_bytes + a.dl_bytes]. *)
Definition row_bytes (r : SubscriberSnapshot) : Z := add64 (sr_ul_bytes r) (sr_dl_bytes r).

(** Claim a buffer for a new pass, unless one is being built. *)
Definition start_pass (d : DetailScan) (publish_wall_ns : Z) : res (option Z * DetailScan) :=
  match detail_building_ d with
  | Some idx => Ok (Some idx, d)
  | None =>
      let* (o, p) := begin_write kDetailBuffers (detail_ d) in
      match o with
      | None => Ok (None, d <| detail_ := p |>)
      | Some idx =>
          let* old := at_ (slot_values p) idx in
          let* vs := set_ (slot_values p) idx (mkDetail [] [] publish_wall_ns (total_subscribers old)) in
          Ok (Some idx, mkScan (p <| slot_values := vs |>) (Some idx) 0 0)
      end
  end.

(** The committed form of a finished pass. *)
Definition finish_pass (cfg : DetailConfig) (snap : DetailSnapshot) (sub_count : Z) : DetailSnapshot :=
  let subs := subscribers snap in
  let limit := snapshot_subscriber_limit cfg in
  mkDetail
    (if decide (limit < length subs)%nat then take limit (partial_sort_desc row_bytes limit subs) else subs)
    (sort_desc f_bytes (d_top_flows snap)) (d_publish_wall_ns snap) sub_count.

Definition advance_detail_scan (cfg : DetailConfig) (e : engine) (publish_wall_ns : Z) (d : DetailScan) : res DetailScan :=
  let* (o, d) := start_pass d publish_wall_ns in
  match o with
  | None => Ok d
  | Some idx =>
      let* snap := at_ (slot_values (detail_ d)) idx in
      let sub_count := subscriber_count e in
      let* (budget, sc, rows) := scan_subs e (snapshot_scan_budget cfg) (detail_sub_cursor_ d) (subscribers snap) in
      let* (fc, top) := scan_flows e (snapshot_flow_limit cfg) budget (detail_flow_cursor_ d) (d_top_flows snap) in
      let snap := snap <| subscribers := rows |> <| d_top_flows := top |> in
      let d := d <| detail_sub_cursor_ := sc |> <| detail_flow_cursor_ := fc |> in
      if (sc <? sub_count) || (fc <? size (flows_ e)) then
        let* vs := set_ (slot_values (detail_ d)) idx snap in
        Ok (d <| detail_ ::= fun p => p <| slot_values := vs |> |>)
      else
        let* vs := set_ (slot_values (detail_ d)) idx (finish_pass cfg snap sub_count) in
        let* p := commit ((detail_ d) <| slot_values := vs |>) in
        Ok (d <| detail_ := p |> <| detail_building_ := None |>)
  end.
End Scan.
