(* ===== verification/DetailProps.v ===== *)
(** * The detail tables are the busiest rows

    [top_flows] and the rolling scan both select the [n] entries of the flow
    table with the most bytes; the scan does it in bounded slices, between which
    the tables go on changing. *)

From stdpp Require Import sorting.
From S2P Require Import Prelude MeterEvent UsageRecord Session SpscRing FlatHash Meter Snapshot TopN DetailScan.

(** Flow slots in use. *)
Definition used_flows (l : list FlowEntry) : list FlowEntry := filter (fun f => f_key f <> 0) l.

Lemma at_mid {A} (p : list A) x q : at_ (p ++ x :: q) (Z.of_nat (length p)) = Ok x.
Proof. apply at_lookup; [lia|]. rewrite Nat2Z.id. by rewrite list_lookup_middle. Qed.

Lemma set_mid {A} (p : list A) x y q : set_ (p ++ x :: q) (Z.of_nat (length p)) y = Ok (p ++ y :: q).
Proof.
  rewrite set_Ok by (rewrite size_app, size_cons; unfold size; lia). rewrite Nat2Z.id. f_equal.
  rewrite <- (Nat.add_0_r (length p)) at 1. by rewrite insert_app_r.
Qed.

(** ** [top_flows] *)

Section TopFlows.
Context {AL : Algorithms}.
Abbreviation desc := (StronglySorted (key_ge f_bytes)).

Lemma desc_insert p x q : desc (p ++ q) -> (forall y, y ∈ p -> f_bytes x <= f_bytes y) ->
  (forall y, y ∈ q -> f_bytes y <= f_bytes x) -> desc (p ++ x :: q).
Proof.
  intros (H1 & H2 & H3)%StronglySorted_app Hp Hq. apply StronglySorted_app. split_and!; [|done|].
  - intros a b Ha [->|Hb]%elem_of_cons; [by apply Hp|by apply H1].
  - constructor; [done|]. apply list.Forall_forall. exact Hq.
Qed.

Lemma bubble_spec p : forall x q, desc (p ++ q) -> (forall y, y ∈ q -> f_bytes y <= f_bytes x) ->
  ensures (bubble (length p) (p ++ x :: q)) (fun out => out ≡ₚ p ++ x :: q /\ desc out).
Proof.
  induction p as [|y p IH] using rev_ind; intros x q Hs Hq.
  { apply ensures_Ok. split; [done|]. apply (desc_insert [] x q); [done| |done]. intros ? H. by apply elem_of_nil in H. }
  rewrite length_app, Nat.add_1_r. cbn [bubble].
  rewrite <- app_assoc. cbn [app].
  rewrite (at_lookup _ (Z.of_nat (S (length p))) x), bind_Ok; [|lia|].
  2: { rewrite Nat2Z.id, cons_middle, app_assoc. by rewrite list_lookup_middle by (rewrite length_app; cbn; lia). }
  rewrite at_mid, bind_Ok. destruct (Z.ltb_spec (f_bytes y) (f_bytes x)) as [Hlt|Hge].
  - replace (p ++ y :: x :: q) with ((p ++ [y]) ++ x :: q) by (by rewrite <- app_assoc).
    replace (S (length p)) with (length (p ++ [y])) by (rewrite length_app; cbn; lia). rewrite set_mid, bind_Ok.
    rewrite <- app_assoc. cbn [app]. rewrite set_mid, bind_Ok.
    eapply ensures_mono; [apply (IH x (y :: q))|].
    + by rewrite <- app_assoc in Hs.
    + intros z [->|Hz]%elem_of_cons; [lia|by apply Hq].
    + intros out [Hp Hd]. split; [|done]. rewrite Hp, <- app_assoc. cbn [app]. apply Permutation_app_head, Permutation_swap.
  - apply ensures_Ok. split; [done|]. replace (p ++ y :: x :: q) with ((p ++ [y]) ++ x :: q) by (by rewrite <- app_assoc).
    apply desc_insert; [done| |done]. intros z [Hz|Hz]%elem_of_app.
    + apply StronglySorted_app_1_l, StronglySorted_app in Hs as (H1 & _ & _). specialize (H1 z y Hz (list_elem_of_here _ _)).
      unfold key_ge in H1. lia.
    + apply list_elem_of_singleton in Hz as ->. lia.
Qed.

(** The loop keeps the busiest entries seen, sorted once there are [n]. *)
Lemma top_loop_spec n : (0 < n)%nat -> forall flows seen out,
  top_of f_bytes n seen out -> (length out = n -> desc out) ->
  ensures (top_loop n flows out) (fun out' =>
    top_of f_bytes n (used_flows flows ++ seen) out' /\ (length out' = n -> desc out')).
Proof.
  intros Hn. induction flows as [|e flows IH]; intros seen out Ht Hd; cbn [top_loop]; [by apply ensures_Ok|].
  unfold used_flows. rewrite filter_cons. destruct (Z.eqb_spec (f_key e) 0) as [E|E].
  { rewrite (decide_False (P := f_key e <> 0)) by lia. by apply IH. }
  rewrite (decide_True (P := f_key e <> 0)) by done. fold (used_flows flows). cbn [app].
  assert (e :: used_flows flows ++ seen ≡ₚ used_flows flows ++ e :: seen) as Hperm by apply Permutation_middle.
  case_decide as Hl.
  { eapply ensures_mono; [apply (IH (e :: seen))|].
    - destruct (sort_desc_spec f_bytes (out ++ [e])) as [_ Hsp].
      assert (top_of f_bytes n (e :: seen) (out ++ [e])) as H by (rewrite <- Permutation_cons_append; by apply top_of_room).
      case_decide; [by rewrite Hsp|done].
    - case_decide as Hc; [intros _; apply sort_desc_spec|done].
    - intros out' [H1 H2]. by rewrite Hperm. }
  assert (length out = n) as Hlen by (destruct Ht as (rest & _ & H & _); lia). specialize (Hd Hlen).
  destruct out as [|b out _] using rev_ind; [cbn in Hlen; lia|].
  assert (size (out ++ [b]) - 1 = Z.of_nat (length out)) as Hback by (rewrite size_app; unfold size; cbn; lia).
  rewrite Hback, at_mid, bind_Ok. apply StronglySorted_app in Hd as (Hob & Ho & _).
  assert (Forall (key_le f_bytes b) out) as Hmin.
  { apply list.Forall_forall. intros z Hz. apply Hob; [done|by apply list_elem_of_here]. }
  assert (out ++ [b] ≡ₚ b :: out) as Hpb by (symmetry; apply Permutation_cons_append). rewrite Hpb in Ht.
  rewrite length_app in Hlen. cbn in Hlen.
  destruct (Z.ltb_spec (f_bytes b) (f_bytes e)) as [Hlt|Hge].
  - rewrite set_mid, bind_Ok, Nat2Z.id.
    eapply ensures_bind; [apply (bubble_spec out e []); [by rewrite app_nil_r|intros ? H; by apply elem_of_nil in H]|].
    intros out1 [Hp1 Hd1]. eapply ensures_mono; [apply (IH (e :: seen))|].
    + rewrite Hp1, <- Permutation_cons_append. eapply top_of_replace; [exact Ht|cbn; lia|done|done].
    + done.
    + intros out' [H1 H2]. by rewrite Hperm.
  - eapply ensures_mono; [apply (IH (e :: seen))|].
    + rewrite Hpb. apply top_of_reject; [done|cbn; lia|done|done].
    + intros _. apply StronglySorted_app. split_and!; [done|done|by repeat constructor].
    + intros out' [H1 H2]. by rewrite Hperm.
Qed.

Lemma top_flows_spec {M R} (e : MeterEngine M R) n :
  ensures (top_flows e n) (fun out => top_of f_bytes n (used_flows (flows_ e)) out /\ desc out).
Proof.
  unfold top_flows. destruct (Z.eqb_spec (size (flows_ e)) 0) as [E|E]; [|destruct (Nat.eqb_spec n 0) as [->|Hn]].
  - apply ensures_Ok. split; [|constructor]. destruct (flows_ e); [apply top_of_nil|rewrite size_cons in E; pose proof (size_nonneg l); lia].
  - apply ensures_Ok. split; [|constructor]. exists (used_flows (flows_ e)). split_and!; [done|done|].
    intros x y Hx. by apply elem_of_nil in Hx.
  - eapply ensures_bind; [apply (top_loop_spec n ltac:(lia) (flows_ e) [] []); [apply top_of_nil|cbn; lia]|].
    intros out [Ht Hd]. rewrite app_nil_r in Ht. apply ensures_Ok. case_decide as Hl.
    + destruct (sort_desc_spec f_bytes out) as [Hs Hp]. split; [by rewrite Hp|done].
    + split; [done|]. apply Hd. destruct Ht as (rest & _ & H & _). lia.
Qed.
End TopFlows.

(** ** The rolling scan *)

Section Scan.
Context {AL : Algorithms} {M R : Type}.
Abbreviation engine := (MeterEngine M R).
Implicit Types (e : engine) (d : DetailScan).

(** The entry of subscriber [i], and of flow slot [i], in the tables of [e]. *)
Definition row_at (i : nat) e : list SubscriberSnapshot :=
  match info_ e !! i, counters_ e !! i with
  | Some info, Some c => option_list (detail_row (Z.of_nat i) info c)
  | _, _ => []
  end.
Definition flow_slot (i : nat) e : list FlowEntry := option_list (flows_ e !! i).

(** What a scan sees that examines entry [i] in the state of the [i]-th engine of
    the list: a rolling view of tables that change while it runs. *)
Definition rows_seen (ss : list engine) : list SubscriberSnapshot := concat (imap row_at ss).
Definition flows_seen (fs : list engine) : list FlowEntry := concat (imap flow_slot fs).

(** The tables the scan relies on. *)
Definition tables_ok e : Prop := size (info_ e) = size (counters_ e) /\ 0 <= next_sub_ e <= size (counters_ e).

Lemma rows_seen_snoc ss e : rows_seen (ss ++ [e]) = rows_seen ss ++ row_at (length ss) e.
Proof. unfold rows_seen. rewrite imap_app, concat_app. cbn. by rewrite Nat.add_0_r, app_nil_r. Qed.

Lemma flows_seen_snoc fs e : flows_seen (fs ++ [e]) = flows_seen fs ++ flow_slot (length fs) e.
Proof. unfold flows_seen. rewrite imap_app, concat_app. cbn. by rewrite Nat.add_0_r, app_nil_r. Qed.

(** Tables that stand still are seen as they are. *)
Lemma flows_seen_still e : flows_seen (replicate (length (flows_ e)) e) = flows_ e.
Proof.
  assert (forall n, (n <= length (flows_ e))%nat -> flows_seen (replicate n e) = take n (flows_ e)) as H.
  { induction n as [|n IH]; intros Hn; [done|]. rewrite replicate_S_end, flows_seen_snoc, length_replicate, IH by lia.
    destruct (lookup_lt_is_Some_2 (flows_ e) n) as [f Hf]; [lia|]. unfold flow_slot. rewrite Hf. cbn. by rewrite (take_S_r _ _ f). }
  rewrite H by done. by apply take_ge.
Qed.

Lemma scan_subs_spec e : tables_ok e -> forall b ss, Z.of_nat (length ss) <= next_sub_ e ->
  let n := (b `min` (Z.to_nat (next_sub_ e) - length ss))%nat in
  scan_subs e b (size ss) (rows_seen ss) = Ok ((b - n)%nat, size ss + Z.of_nat n, rows_seen (ss ++ replicate n e)).
Proof.
  intros [Hs Hn]. induction b as [|b IH]; intros ss Hk; cbn zeta; cbn [scan_subs].
  { cbn [Nat.min replicate]. by rewrite app_nil_r, Z.add_0_r. }
  unfold subscriber_count. destruct (Z.ltb_spec (size ss) (next_sub_ e)) as [Hlt|Hge]; unfold size in *.
  - destruct (lookup_lt_is_Some_2 (info_ e) (length ss)) as [info Hi]; [lia|].
    destruct (lookup_lt_is_Some_2 (counters_ e) (length ss)) as [c Hc]; [lia|].
    rewrite (at_lookup _ _ info), (at_lookup _ _ c), !bind_Ok by (rewrite ?Nat2Z.id; done || lia).
    assert (rows_seen ss ++ match detail_row (Z.of_nat (length ss)) info c with Some r => [r] | None => [] end = rows_seen (ss ++ [e])) as ->
      by (rewrite rows_seen_snoc; unfold row_at; by rewrite Hi, Hc).
    replace (Z.of_nat (length ss) + 1) with (Z.of_nat (length (ss ++ [e]))) by (rewrite length_app; cbn; lia).
    rewrite IH by (rewrite length_app; cbn; lia). rewrite length_app. cbn [length].
    replace (S b `min` (Z.to_nat (next_sub_ e) - length ss))%nat with (S (b `min` (Z.to_nat (next_sub_ e) - (length ss + 1)))) by lia.
    cbn [replicate]. rewrite <- app_assoc. cbn [app]. do 3 f_equal. lia.
  - replace (S b `min` (Z.to_nat (next_sub_ e) - length ss))%nat with 0%nat by lia. cbn [replicate]. by rewrite app_nil_r, Z.add_0_r, Nat.sub_0_r.
Qed.

(** [pop_heap], assignment to the back, [push_heap]: the least entry is replaced. *)
Lemma heap_replace m top f : is_heap f_bytes (m :: top) ->
  exists l, set_ (pop_heap f_bytes (m :: top)) (size (m :: top) - 1) f = Ok l /\
    is_heap f_bytes (push_heap f_bytes l) /\ push_heap f_bytes l ≡ₚ f :: top.
Proof.
  intros Hh. destruct (pop_heap_spec f_bytes m top Hh) as (l' & -> & Hh' & Hp').
  replace (size (m :: top) - 1) with (Z.of_nat (length l')) by (rewrite (Permutation_length Hp'), size_cons; unfold size; lia).
  exists (l' ++ [f]). rewrite set_mid. destruct (push_heap_spec f_bytes l' f Hh') as [H1 H2].
  split_and!; [done|done|by rewrite H2, Hp'].
Qed.

Lemma push_flow_spec limit all top f : (0 < limit)%nat -> is_heap f_bytes top -> top_of f_bytes limit all top ->
  ensures (push_flow limit top f) (fun top' => is_heap f_bytes top' /\
    top_of f_bytes limit (used_flows [f] ++ all) top').
Proof.
  intros Hlim Hh Ht. unfold push_flow, used_flows. rewrite filter_cons, filter_nil.
  destruct (Z.eqb_spec (f_key f) 0) as [E|E].
  { rewrite (decide_False (P := f_key f <> 0)) by lia. by apply ensures_Ok. }
  rewrite (decide_True (P := f_key f <> 0)) by done. cbn [app]. case_decide as Hl.
  { apply ensures_Ok. destruct (push_heap_spec f_bytes top f Hh) as [H1 H2]. split; [done|]. rewrite H2. by apply top_of_room. }
  assert (length top = limit) as Hlen by (destruct Ht as (rest & _ & H & _); lia).
  destruct top as [|m top]; [cbn in Hlen; lia|]. change (at_ (m :: top) 0) with (Ok m). rewrite bind_Ok.
  pose proof (heap_front f_bytes m top Hh) as Hm.
  destruct (Z.ltb_spec (f_bytes m) (f_bytes f)) as [Hlt|Hge].
  - destruct (heap_replace m top f Hh) as (l & -> & H1 & H2). rewrite bind_Ok. apply ensures_Ok.
    split; [done|]. rewrite H2. by eapply top_of_replace.
  - apply ensures_Ok. split; [done|]. by apply top_of_reject.
Qed.

Lemma used_flows_app l k : used_flows (l ++ k) = used_flows l ++ used_flows k.
Proof. apply list.filter_app. Qed.

Lemma scan_flows_spec e limit : (0 < limit)%nat -> forall b fs top, size fs <= size (flows_ e) ->
  is_heap f_bytes top -> top_of f_bytes limit (used_flows (flows_seen fs)) top ->
  let n := (b `min` (length (flows_ e) - length fs))%nat in
  ensures (scan_flows e limit b (size fs) top) (fun '(k', top') => k' = size fs + Z.of_nat n /\
    is_heap f_bytes top' /\ top_of f_bytes limit (used_flows (flows_seen (fs ++ replicate n e))) top').
Proof.
  intros Hlim. induction b as [|b IH]; intros fs top Hk Hh Ht; cbn zeta; cbn [scan_flows].
  { apply ensures_Ok. cbn [Nat.min replicate]. by rewrite app_nil_r, Z.add_0_r. }
  destruct (Z.ltb_spec (size fs) (size (flows_ e))) as [Hlt|Hge]; unfold size in *.
  - destruct (lookup_lt_is_Some_2 (flows_ e) (length fs)) as [f Hf]; [lia|].
    rewrite (at_lookup _ _ f), bind_Ok by (rewrite ?Nat2Z.id; done || lia).
    eapply ensures_bind; [by apply (push_flow_spec limit _ top f Hlim Hh Ht)|]. intros top1 [Hh1 Ht1].
    replace (Z.of_nat (length fs) + 1) with (Z.of_nat (length (fs ++ [e]))) by (rewrite length_app; cbn; lia).
    eapply ensures_mono; [apply (IH (fs ++ [e]) top1); [rewrite length_app; cbn; lia|done|]|].
    + rewrite flows_seen_snoc, used_flows_app. unfold flow_slot. rewrite Hf. cbn [option_list option_rect]. by rewrite Permutation_app_comm.
    + rewrite length_app. cbn [length].
      replace (S b `min` (length (flows_ e) - length fs))%nat with (S (b `min` (length (flows_ e) - (length fs + 1)))) by lia.
      cbn [replicate]. rewrite <- app_assoc. cbn [app]. intros [k' top'] (-> & H1 & H2). split_and!; [lia|done|done].
  - apply ensures_Ok. replace (S b `min` (length (flows_ e) - length fs))%nat with 0%nat by lia.
    cbn [replicate]. by rewrite app_nil_r, Z.add_0_r.
Qed.

(** *** One tick *)

Context (cfg : DetailConfig).
Abbreviation tick := (advance_detail_scan cfg).

(** What one tick examines: the engine's state for each of the next entries, at
    most [snapshot_scan_budget] of them, the subscribers before the flows. *)
Definition view_tick (v : list engine * list engine) e : list engine * list engine :=
  let b := snapshot_scan_budget cfg in
  let n := (b `min` (Z.to_nat (next_sub_ e) - length v.1))%nat in
  (v.1 ++ replicate n e, v.2 ++ replicate ((b - n) `min` (length (flows_ e) - length v.2))%nat e).
Definition view (es : list engine) : list engine * list engine := foldl view_tick ([], []) es.

(** A pass that has examined [ss] and [fs], in the buffer it claimed; [p0] is what
    was published when it began. *)
Record building (ss fs : list engine) (p0 : Publisher DetailSnapshot) (wall : Z) (d : DetailScan) : Prop := {
  bu_idx : exists idx, detail_building_ d = Some idx /\ writing_ (detail_ d) = idx /\ 0 <= idx < kDetailBuffers /\
    exists snap, slot_values (detail_ d) !! Z.to_nat idx = Some snap /\ d_publish_wall_ns snap = wall /\
      subscribers snap = rows_seen ss /\ is_heap f_bytes (d_top_flows snap) /\
      top_of f_bytes (snapshot_flow_limit cfg) (used_flows (flows_seen fs)) (d_top_flows snap);
  bu_sizes : size (slot_values (detail_ d)) = kDetailBuffers /\ size (slot_refs (detail_ d)) = kDetailBuffers;
  bu_kept : current_ (detail_ d) = current_ p0 /\ version_ (detail_ d) = version_ p0;
  bu_sub : detail_sub_cursor_ d = size ss;
  bu_flow : detail_flow_cursor_ d = size fs
}.

(** The published tables of a pass that has examined [ss] and [fs]. *)
Definition complete (ss fs : list engine) (total wall : Z) (snap : DetailSnapshot) : Prop :=
  top_of row_bytes (snapshot_subscriber_limit cfg) (rows_seen ss) (subscribers snap) /\
  top_of f_bytes (snapshot_flow_limit cfg) (used_flows (flows_seen fs)) (d_top_flows snap) /\
  StronglySorted (key_ge f_bytes) (d_top_flows snap) /\
  total_subscribers snap = total /\ d_publish_wall_ns snap = wall.

Definition committed (ss fs : list engine) (total : Z) (p0 : Publisher DetailSnapshot) (wall : Z) (d : DetailScan) : Prop :=
  detail_building_ d = None /\ version_ (detail_ d) = add64 (version_ p0) 1 /\
  exists snap, at_ (slot_values (detail_ d)) (current_ (detail_ d)) = Ok snap /\ complete ss fs total wall snap.

Lemma finish_complete ss fs total wall snap : d_publish_wall_ns snap = wall ->
  subscribers snap = rows_seen ss -> is_heap f_bytes (d_top_flows snap) ->
  top_of f_bytes (snapshot_flow_limit cfg) (used_flows (flows_seen fs)) (d_top_flows snap) ->
  complete ss fs total wall (finish_pass cfg snap total).
Proof.
  intros Hw Hs Hh Ht. unfold complete, finish_pass. cbn. destruct (sort_desc_spec f_bytes (d_top_flows snap)) as [Hso Hp].
  split_and!; [|by rewrite Hp|done|done|done]. rewrite Hs. case_decide as Hl; [|by apply top_of_all; lia].
  apply top_of_partial. lia.
Qed.

(** Whether the entries examined are all that the tables of [e] hold. *)
Definition seen_all e (v : list engine * list engine) : bool :=
  negb ((size v.1 <? next_sub_ e) || (size v.2 <? size (flows_ e))).

Lemma tick_spec e ss fs p0 wall d w : tables_ok e -> (0 < snapshot_flow_limit cfg)%nat -> building ss fs p0 wall d ->
  size ss <= next_sub_ e -> size fs <= size (flows_ e) ->
  let v := view_tick (ss, fs) e in
  ensures (tick e w d) (fun d' =>
    if seen_all e v then committed v.1 v.2 (next_sub_ e) p0 wall d' else building v.1 v.2 p0 wall d').
Proof.
  intros Hte Hlim [(idx & Hb & Hw & Hi & snap & Hsn & Hwall & Hsub & Hheap & Htop) [Hsv Hsr] [Hcur Hver] Hsc Hfc] Hss Hfs v.
  unfold advance_detail_scan, start_pass. rewrite Hb, bind_Ok. rewrite (at_lookup _ idx snap), bind_Ok by (done || lia).
  rewrite Hsub, Hsc, scan_subs_spec, bind_Ok by done. rewrite Hfc.
  eapply ensures_bind; [apply (scan_flows_spec e _ Hlim _ fs (d_top_flows snap)); done|].
  intros [fc top] (-> & Hh' & Ht'). unfold subscriber_count, seen_all, v, view_tick. cbn [fst snd].
  set (n := (_ `min` (_ - length ss))%nat) in *. set (m := ((_ - n) `min` _)%nat) in *.
  assert (size ss + Z.of_nat n = size (ss ++ replicate n e)) as -> by (unfold size; rewrite length_app, length_replicate; lia).
  assert (size fs + Z.of_nat m = size (fs ++ replicate m e)) as -> by (unfold size; rewrite length_app, length_replicate; lia).
  set (ss' := ss ++ replicate n e) in *. set (fs' := fs ++ replicate m e) in *. clearbody ss' fs'.
  set (snap1 := snap <| subscribers := rows_seen ss' |> <| d_top_flows := top |>).
  destruct ((size ss' <? next_sub_ e) || (size fs' <? size (flows_ e))); cbn [negb detail_ setf]; rewrite set_Ok, bind_Ok by lia.
  - apply ensures_Ok. constructor; cbn; try done.
    + exists idx. split_and!; [done|done|lia|lia|]. exists snap1. split_and!; try done.
      apply list_lookup_insert_eq. unfold size, kDetailBuffers in *. lia.
    + by rewrite size_insert.
  - rewrite (commit_spec kDetailBuffers _ idx) by done. rewrite bind_Ok. apply ensures_Ok.
    split_and!; [done|cbn; by rewrite Hver|]. exists (finish_pass cfg snap1 (next_sub_ e)). split.
    + apply at_lookup; [cbn; lia|]. cbn. apply list_lookup_insert_eq. unfold size, kDetailBuffers in *. lia.
    + by apply finish_complete.
Qed.

(** *** A pass *)

(** Publish ticks, each with the state of the engine and the time it finds. *)
Fixpoint scan_ticks (ticks : list (engine * Z)) d : res DetailScan :=
  match ticks with [] => Ok d | (e, w) :: ticks => let* d := tick e w d in scan_ticks ticks d end.

(** No pass in progress and a buffer free to begin one. *)
Definition scan_idle d : Prop :=
  detail_building_ d = None /\ size (slot_values (detail_ d)) = kDetailBuffers /\
  size (slot_refs (detail_ d)) = kDetailBuffers /\ exists i, claimable kDetailBuffers (detail_ d) i.

Lemma start_pass_spec d w : scan_idle d ->
  ensures (start_pass d w) (fun '(o, d1) => building [] [] (detail_ d) w d1 /\ o = detail_building_ d1).
Proof.
  intros (Hb & Hsv & Hsr & i & Hi). unfold start_pass. rewrite Hb.
  eapply ensures_bind; [by apply (begin_write_spec kDetailBuffers)|]. intros [[idx|] p']; [|intros [_ Hno]; by destruct (Hno i)].
  intros [(Hidx & _ & _) ->]. set (p1 := own _ _ _). change (slot_values p1) with (slot_values (detail_ d)).
  destruct (at_Ok (slot_values (detail_ d)) idx) as [old ->]; [lia|]. rewrite bind_Ok, set_Ok, bind_Ok by lia.
  apply ensures_Ok. split; [|done]. constructor; cbn; try done.
  - exists idx. split_and!; [done|done|lia|lia|]. eexists. split; [apply list_lookup_insert_eq; unfold size, kDetailBuffers in *; lia|].
    split_and!; [done|done|apply heap_nil|apply top_of_nil].
  - by rewrite !size_insert.
Qed.

Lemma tick_start e d w d1 : start_pass d w = Ok (detail_building_ d1, d1) -> detail_building_ d1 <> None -> tick e w d = tick e w d1.
Proof.
  intros H Hne. unfold advance_detail_scan. rewrite H. unfold start_pass at 1.
  destruct (detail_building_ d1); [by rewrite !bind_Ok|done].
Qed.

(** The tables from one tick to the next: subscribers are only added, and the
    flow table keeps its size. *)
Definition grows e e' : Prop := next_sub_ e <= next_sub_ e' /\ length (flows_ e') = length (flows_ e).
Definition live_tables (es : list engine) : Prop := Forall tables_ok es /\ StronglySorted grows es.

(** Between the ticks of a pass: what is examined fits the tables to come. *)
Definition fits (es : list engine) (v : list engine * list engine) : Prop :=
  Forall (fun e => size v.1 <= next_sub_ e /\ size v.2 <= size (flows_ e)) es.

Lemma fits_tick e es v : live_tables (e :: es) -> fits (e :: es) v -> fits es (view_tick v e).
Proof.
  intros [Ht Hg] Hf. apply Forall_cons_iff in Ht as [[_ Hn] _]. apply StronglySorted_inv in Hg as [_ Hg].
  apply Forall_cons_iff in Hf as [[H1 H2] _]. revert Hg. apply Forall_impl. intros e' [Hn' Hl'].
  unfold view_tick, size in *. cbn [fst snd]. rewrite !length_app, !length_replicate. lia.
Qed.

(** The ticks before the end of the tables is reached leave the pass building. *)
Lemma building_ticks p0 wall : (0 < snapshot_flow_limit cfg)%nat -> forall ticks ss fs d,
  let es := map fst ticks in
  live_tables es -> fits es (ss, fs) -> building ss fs p0 wall d ->
  (forall i e, es !! i = Some e -> seen_all e (foldl view_tick (ss, fs) (take (S i) es)) = false) ->
  ensures (scan_ticks ticks d) (fun d' => let v := foldl view_tick (ss, fs) es in building v.1 v.2 p0 wall d').
Proof.
  intros Hlim. induction ticks as [|[e w] ticks IH]; intros ss fs d es Hlive Hfit Hbu Hno; unfold es in *; cbn [map fst scan_ticks] in *.
  { by apply ensures_Ok. }
  pose proof (fits_tick e _ _ Hlive Hfit) as Hfit'. pose proof Hlive as [Ht Hg]. apply Forall_cons_iff in Ht as [Hte Ht].
  apply Forall_cons_iff in Hfit as [[H1 H2] _]. cbn [fst snd] in H1, H2.
  eapply ensures_bind; [by apply (tick_spec e ss fs p0 wall d w)|]. intros d'.
  pose proof (Hno 0%nat e eq_refl) as Hz. cbn [take foldl] in Hz. rewrite take_0 in Hz. cbn [foldl] in Hz. rewrite Hz.
  cbn [foldl]. destruct (view_tick (ss, fs) e) as [ss1 fs1] eqn:Ev. intros Hbu'.
  apply (IH ss1 fs1 d'); [split; [done|by apply StronglySorted_inv in Hg as [? _]]|done|done|].
  intros i e' Hi. specialize (Hno (S i) e' Hi). cbn [take foldl] in Hno. by rewrite Ev in Hno.
Qed.

Lemma scan_ticks_app t1 t2 : forall d, scan_ticks (t1 ++ t2) d = let* d := scan_ticks t1 d in scan_ticks t2 d.
Proof.
  induction t1 as [|[e w] t1 IH]; intros d; [done|]. cbn [app scan_ticks]. destruct (tick e w d); [|done|done]. rewrite !bind_Ok. apply IH.
Qed.

(** While a pass is unfinished every tick has used its whole budget. *)
Lemma view_size es : live_tables es -> (forall i e, es !! i = Some e -> seen_all e (view (take (S i) es)) = false) ->
  size (view es).1 + size (view es).2 = size es * Z.of_nat (snapshot_scan_budget cfg).
Proof.
  induction es as [|e es IH] using rev_ind; intros Hlive Hno; [done|].
  assert (live_tables es) as Hl' by (destruct Hlive as [Ht Hg]; split; [by apply Forall_app in Ht as [? _]|by eapply StronglySorted_app_1_l]).
  rewrite size_app. change (size [e]) with 1. unfold view in *. rewrite foldl_app. cbn [foldl].
  assert (size (foldl view_tick ([], []) es).1 + size (foldl view_tick ([], []) es).2 = size es * Z.of_nat (snapshot_scan_budget cfg)) as Hv.
  { apply IH; [done|]. intros i e' Hi. rewrite <- (Hno i e'); [|by apply lookup_app_l_Some].
    apply lookup_lt_Some in Hi. by rewrite take_app_le by lia. }
  specialize (Hno (length es) e). rewrite lookup_app_r, Nat.sub_diag in Hno by lia. specialize (Hno eq_refl).
  rewrite take_ge, foldl_app in Hno by (rewrite length_app; cbn; lia). cbn [foldl] in Hno.
  destruct (foldl view_tick ([], []) es) as [ss fs]. unfold seen_all, view_tick in *. cbn [fst snd] in *.
  apply negb_false_iff, orb_true_iff in Hno. rewrite !Z.ltb_lt in Hno. unfold size in *.
  rewrite !length_app, !length_replicate in *. lia.
Qed.

Lemma idle_starts d e w : scan_idle d -> exists d1, building [] [] (detail_ d) w d1 /\ tick e w d = tick e w d1.
Proof.
  intros Hid. destruct (start_pass_spec d w Hid) as ([o d1] & Hst & Hbu & ->). exists d1. split; [done|].
  apply tick_start; [done|]. destruct (bu_idx _ _ _ _ _ Hbu) as (idx & -> & _). done.
Qed.

Lemma fits_nil es : live_tables es -> fits es ([], []).
Proof.
  intros [Ht _]. revert Ht. apply Forall_impl. intros e [_ Hn]. cbn [fst snd]. rewrite !(@size_nil engine).
  pose proof (size_nonneg (flows_ e)). lia.
Qed.
Lemma view_bound es : size (view es).1 + size (view es).2 <= size es * Z.of_nat (snapshot_scan_budget cfg).
Proof.
  induction es as [|e es IH] using rev_ind; [done|]. rewrite size_app. change (size [e]) with 1. unfold view in *. rewrite foldl_app. cbn [foldl].
  destruct (foldl view_tick ([], []) es) as [ss fs]. unfold view_tick, size in *. cbn [fst snd] in *. rewrite !length_app, !length_replicate. lia.
Qed.

Lemma unfinished es : (forall k e, es !! k = Some e ->
    Z.of_nat (S k) * Z.of_nat (snapshot_scan_budget cfg) < next_sub_ e + size (flows_ e)) ->
  forall k e, es !! k = Some e -> seen_all e (view (take (S k) es)) = false.
Proof.
  intros H k e Hk. specialize (H k e Hk). pose proof (view_bound (take (S k) es)) as Hb. apply lookup_lt_Some in Hk.
  unfold size in Hb at 3. rewrite length_take, Nat.min_l in Hb by lia. unfold seen_all. apply negb_false_iff, orb_true_iff. rewrite !Z.ltb_lt. lia.
Qed.

Lemma fits_all es e : live_tables (es ++ [e]) -> fits [e] (view es).
Proof.
  unfold view. generalize (fits_nil (es ++ [e])). generalize (@nil engine, @nil engine).
  induction es as [|x es IH]; intros v Hf Hlive; [by apply Hf|]. cbn [app foldl] in *. apply IH.
  - intros _. apply fits_tick; [done|by apply Hf].
  - destruct Hlive as [Ht Hg]. split; [by apply Forall_cons_iff in Ht as [_ ?]|by apply StronglySorted_inv in Hg as [? _]].
Qed.

Lemma last_tick_sees es e : live_tables (es ++ [e]) -> size (view es).1 + size (view es).2 = size es * Z.of_nat (snapshot_scan_budget cfg) ->
  next_sub_ e + size (flows_ e) <= (size es + 1) * Z.of_nat (snapshot_scan_budget cfg) ->
  let v := view (es ++ [e]) in size v.1 = next_sub_ e /\ size v.2 = size (flows_ e).
Proof.
  intros Hlive Hsz Hend. pose proof (fits_all es e Hlive) as Hf. apply Forall_cons_iff in Hf as [[H1 H2] _]. cbn zeta.
  unfold view in *. rewrite foldl_app. cbn [foldl]. destruct (foldl view_tick ([], []) es) as [ss fs]. unfold view_tick, size in *.
  cbn [fst snd] in *. rewrite !length_app, !length_replicate. lia.
Qed.

Lemma last_tick es e p0 wall d w : (0 < snapshot_flow_limit cfg)%nat -> live_tables (es ++ [e]) -> live_tables es ->
  (forall k e', es !! k = Some e' -> seen_all e' (view (take (S k) es)) = false) ->
  next_sub_ e + size (flows_ e) <= (size es + 1) * Z.of_nat (snapshot_scan_budget cfg) ->
  building (view es).1 (view es).2 p0 wall d ->
  ensures (tick e w d) (committed (view (es ++ [e])).1 (view (es ++ [e])).2 (next_sub_ e) p0 wall).
Proof.
  intros Hlim Hlive Hl Hno Hend Hbu. pose proof (fits_all es e Hlive) as Hf. apply Forall_cons_iff in Hf as [[H1 H2] _].
  destruct (last_tick_sees es e Hlive (view_size es Hl Hno) Hend) as [Hs1 Hs2].
  assert (view (es ++ [e]) = view_tick (view es) e) as Hv by (unfold view; by rewrite foldl_app).
  rewrite Hv in *. destruct (view es) as [ss fs]. cbn [fst snd] in *.
  eapply ensures_mono; [apply (tick_spec e ss fs p0 wall d w); [|done|exact Hbu|done|done]|].
  - destruct Hlive as [Ht _]. apply Forall_app in Ht as [_ Ht]. by apply Forall_cons_iff in Ht as [? _].
  - intros d'. unfold seen_all. rewrite Hs1, Hs2, !Z.ltb_irrefl. done.
Qed.

(** The first tick of an idle scan is the first of a pass. *)
Lemma pass_ticks d e w ticks : scan_idle d -> let es := map fst ((e, w) :: ticks) in (0 < snapshot_flow_limit cfg)%nat -> live_tables es ->
  (forall k e', es !! k = Some e' -> seen_all e' (view (take (S k) es)) = false) ->
  ensures (scan_ticks ((e, w) :: ticks) d) (fun d' => building (view es).1 (view es).2 (detail_ d) w d').
Proof.
  intros Hid es Hlim Hlive Hno. destruct (idle_starts d e w Hid) as (d1 & Hbu & Ht). cbn [scan_ticks]. rewrite Ht.
  apply (building_ticks (detail_ d) w Hlim ((e, w) :: ticks) [] [] d1); [done|by apply fits_nil|done|exact Hno].
Qed.

(** C33: A detail pass in bounded slices publishes a complete rolling view.  Ticks
    come with whatever the tables hold by then: packets change entries and new
    subscribers appear between them (none disappears, and the flow table keeps its
    size).  Starting with no pass in progress and a buffer that can be claimed,
    the pass ends at the tick by which the budget has covered all subscribers and
    flow slots of that moment.  Until then the previous snapshot stays published;
    that tick publishes one new snapshot: of the rows of all subscribers and of
    all flows, each entry examined once, in the state of the tick that reached it
    ([view]), the busiest [snapshot_subscriber_limit] active subscribers with
    traffic and the busiest [snapshot_flow_limit] flows in descending order,
    stamped with the time the pass began and the current number of subscribers. *)
Theorem detail_pass_complete d before e w :
  let b := Z.of_nat (snapshot_scan_budget cfg) in let es := map fst before ++ [e] in
  live_tables es -> scan_idle d -> (0 < snapshot_flow_limit cfg)%nat ->
  (forall k e', map fst before !! k = Some e' -> Z.of_nat (S k) * b < next_sub_ e' + size (flows_ e')) ->
  next_sub_ e + size (flows_ e) <= (size before + 1) * b ->
  ensures (scan_ticks (before ++ [(e, w)]) d) (fun d' =>
    detail_building_ d' = None /\ version_ (detail_ d') = add64 (version_ (detail_ d)) 1 /\
    exists snap, at_ (slot_values (detail_ d')) (current_ (detail_ d')) = Ok snap /\
      let '(ss, fs) := view es in
      size ss = next_sub_ e /\ size fs = size (flows_ e) /\
      top_of row_bytes (snapshot_subscriber_limit cfg) (rows_seen ss) (subscribers snap) /\
      top_of f_bytes (snapshot_flow_limit cfg) (used_flows (flows_seen fs)) (d_top_flows snap) /\
      StronglySorted (key_ge f_bytes) (d_top_flows snap) /\
      total_subscribers snap = next_sub_ e /\
      d_publish_wall_ns snap = match before with (_, w0) :: _ => w0 | [] => w end) /\
  forall n, ensures (scan_ticks (take n before) d) (fun d' =>
    current_ (detail_ d') = current_ (detail_ d) /\ version_ (detail_ d') = version_ (detail_ d)).
Proof.
  intros b es Hlive Hid Hlim Hlo Hhi. pose proof (unfinished _ Hlo) as Hno.
  assert (live_tables (map fst before)) as Hlb.
  { destruct Hlive as [Ht Hg]. split; [by apply Forall_app in Ht as [? _]|by eapply StronglySorted_app_1_l]. }
  assert (forall d1 wall, building (view (map fst before)).1 (view (map fst before)).2 (detail_ d) wall d1 ->
    ensures (tick e w d1) (committed (view es).1 (view es).2 (next_sub_ e) (detail_ d) wall)) as Hlast.
  { intros d1 wall Hbu. apply last_tick; try done. unfold size. by rewrite length_map. }
  split.
  - assert (ensures (scan_ticks (before ++ [(e, w)]) d) (fun d' => committed (view es).1 (view es).2 (next_sub_ e) (detail_ d)
      match before with (_, w0) :: _ => w0 | [] => w end d')) as Hc.
    { rewrite scan_ticks_app. destruct before as [|[e0 w0] before].
      - cbn [scan_ticks res_bind]. destruct (idle_starts d e w Hid) as (d1 & Hbu & ->).
        destruct (Hlast d1 _ Hbu) as (d' & -> & Hd'). by exists d'.
      - eapply ensures_bind; [by apply (pass_ticks d e0 w0 before)|]. intros d1 Hbu. cbn [scan_ticks].
        destruct (Hlast d1 _ Hbu) as (d' & -> & Hd'). by exists d'. }
    eapply ensures_mono; [exact Hc|]. intros d' (Hb & Hv & snap & Hat & Hcomp). split_and!; [done|done|]. exists snap. split; [done|].
    pose proof (last_tick_sees (map fst before) e Hlive (view_size _ Hlb Hno)) as Hs. cbn zeta in Hs.
    destruct Hs as [Hs1 Hs2]; [unfold size; rewrite length_map; exact Hhi|]. fold es in Hs1, Hs2.
    destruct (view es) as [ss fs]. split; [done|]. split; [done|]. exact Hcomp.
  - intros n. destruct (take n before) as [|[e0 w0] ticks] eqn:Hn; [by apply ensures_Ok|].
    assert (map fst ((e0, w0) :: ticks) = take n (map fst before)) as Hm by (rewrite <- Hn; apply (fmap_take fst)).
    eapply ensures_mono; [apply (pass_ticks d e0 w0 ticks Hid Hlim)|intros d' Hd'; apply (bu_kept _ _ _ _ _ Hd')]; rewrite Hm.
    + destruct Hlb as [Ht Hg]. rewrite <- (take_drop n (map fst before)) in Ht, Hg. split; [by apply Forall_app in Ht as [? _]|by eapply StronglySorted_app_1_l].
    + intros k e' Hk. apply lookup_take_Some in Hk as [Hk Hkn]. rewrite take_take, Nat.min_l by lia. by apply Hno.
Qed.

(** *** Safety, whatever happens to the tables between ticks *)

Definition scan_ok d : Prop :=
  size (slot_values (detail_ d)) = kDetailBuffers /\ size (slot_refs (detail_ d)) = kDetailBuffers /\
  0 <= detail_sub_cursor_ d /\ 0 <= detail_flow_cursor_ d /\
  match detail_building_ d with
  | None => True
  | Some idx => writing_ (detail_ d) = idx /\ 0 <= idx < kDetailBuffers /\
      exists snap, slot_values (detail_ d) !! Z.to_nat idx = Some snap /\ is_heap f_bytes (d_top_flows snap)
  end.

Lemma push_flow_safe limit top f : (0 < limit)%nat -> is_heap f_bytes top ->
  ensures (push_flow limit top f) (is_heap f_bytes).
Proof.
  intros Hlim Hh. unfold push_flow. destruct (f_key f =? 0); [by apply ensures_Ok|].
  case_decide as Hl; [apply ensures_Ok; by apply push_heap_spec|]. destruct top as [|m top]; [cbn in Hl; lia|].
  change (at_ (m :: top) 0) with (Ok m). rewrite bind_Ok. destruct (f_bytes m <? f_bytes f); [|by apply ensures_Ok].
  destruct (heap_replace m top f Hh) as (l & -> & H1 & _). rewrite bind_Ok. by apply ensures_Ok.
Qed.

Lemma scan_flows_safe e limit : (0 < limit)%nat -> forall b k top, 0 <= k -> is_heap f_bytes top ->
  ensures (scan_flows e limit b k top) (fun '(k', top') => 0 <= k' /\ is_heap f_bytes top').
Proof.
  intros Hlim. induction b as [|b IH]; intros k top Hk Hh; cbn [scan_flows]; [by apply ensures_Ok|].
  destruct (Z.ltb_spec k (size (flows_ e))); [|by apply ensures_Ok].
  destruct (at_Ok (flows_ e) k) as [f ->]; [lia|]. rewrite bind_Ok.
  eapply ensures_bind; [by apply push_flow_safe|]. intros top1 Ht1. apply IH; [lia|done].
Qed.

Lemma scan_subs_safe e : tables_ok e -> forall b k rows, 0 <= k ->
  ensures (scan_subs e b k rows) (fun '(_, k', _) => 0 <= k').
Proof.
  intros [Hs Hn]. induction b as [|b IH]; intros k rows Hk; cbn [scan_subs]; [by apply ensures_Ok|].
  unfold subscriber_count. destruct (Z.ltb_spec k (next_sub_ e)); [|by apply ensures_Ok].
  destruct (at_Ok (info_ e) k) as [info ->]; [lia|]. destruct (at_Ok (counters_ e) k) as [c ->]; [lia|].
  rewrite !bind_Ok. apply IH. lia.
Qed.

Lemma start_pass_safe d w : scan_ok d -> ensures (start_pass d w) (fun '(o, d') => scan_ok d' /\ o = detail_building_ d').
Proof.
  intros Hok. pose proof Hok as (Hv & Hr & Hsc & Hfc & Hb). unfold start_pass.
  destruct (detail_building_ d) as [idx|] eqn:E; [by apply ensures_Ok|].
  eapply ensures_bind; [by apply (begin_write_spec kDetailBuffers)|]. intros [[idx|] p'].
  - intros [(Hidx & _ & _) ->]. set (p1 := own _ _ _). change (slot_values p1) with (slot_values (detail_ d)).
    destruct (at_Ok (slot_values (detail_ d)) idx) as [old ->]; [lia|]. rewrite bind_Ok, set_Ok, bind_Ok by lia.
    apply ensures_Ok. split; [|done]. split_and!; cbn; [by rewrite size_insert|by rewrite size_insert|lia|lia|].
    split_and!; [done|lia|lia|]. eexists. split; [apply list_lookup_insert_eq; unfold size, kDetailBuffers in *; lia|apply heap_nil].
  - intros [-> _]. apply ensures_Ok. split; [|by destruct d]. unfold scan_ok. cbn. by rewrite E.
Qed.

Lemma tick_safe e w d : tables_ok e -> (0 < snapshot_flow_limit cfg)%nat -> scan_ok d -> ensures (tick e w d) scan_ok.
Proof.
  intros Hte Hlim Hok. unfold advance_detail_scan. eapply ensures_bind; [by apply start_pass_safe|].
  intros [o d1] [(Hv & Hr & Hsc & Hfc & Hb) ->]. destruct (detail_building_ d1) as [idx|] eqn:E;
    [|apply ensures_Ok; split_and!; [done..|by rewrite E]].
  destruct Hb as (Hw & Hi & snap & Hsn & Hh). rewrite (at_lookup _ idx snap), bind_Ok by (done || lia).
  eapply ensures_bind; [by apply scan_subs_safe|]. intros [[b sc] rows] Hsc'.
  eapply ensures_bind; [by apply scan_flows_safe|]. intros [fc top] [Hfc' Hh'].
  destruct ((sc <? subscriber_count e) || (fc <? size (flows_ e))); cbn [detail_ setf]; rewrite set_Ok, bind_Ok by lia.
  - apply ensures_Ok. split_and!; cbn; [by rewrite size_insert|done|done|done|]. rewrite E. split_and!; [done|lia|lia|].
    eexists. split; [apply list_lookup_insert_eq; unfold size, kDetailBuffers in *; lia|done].
  - rewrite (commit_spec kDetailBuffers _ idx) by done. rewrite bind_Ok. apply ensures_Ok.
    split_and!; cbn; [by rewrite size_insert|by rewrite size_insert|done|done|done].
Qed.
End Scan.

(** Two subscribers and three flow slots, two entries a tick. *)
Definition sample_flow (key bytes : Z) : FlowEntry := mkFlow key bytes 1 0 0 0 0 0 0 0 0 4 0 0.
Definition sample_tables : MeterEngine unit unit :=
  mkEngine MeterConfig_init [mkCounters 10 20 1 2 [30; 0; 0] 5; SubscriberCounters_init]
    [SubscriberInfo_init <| i_active := true |> <| i_imsi := 77 |>; SubscriberInfo_init <| i_active := true |>]
    tt [sample_flow 9 100; sample_flow 0 0; sample_flow 8 300] 3 ∅ None PipelineStats_init 2 0 0 [].
Definition sample_scan : DetailScan := mkScan (Publisher_new kDetailBuffers DetailSnapshot_init) None 0 0.

(** The same tables later: more traffic, a bigger flow and a third subscriber. *)
Definition later_tables : MeterEngine unit unit :=
  sample_tables <| counters_ := [mkCounters 15 20 2 2 [35; 0; 0] 6; SubscriberCounters_init; mkCounters 7 0 1 0 [7; 0; 0] 6] |>
    <| info_ := info_ sample_tables ++ [SubscriberInfo_init <| i_active := true |> <| i_imsi := 78 |>] |>
    <| flows_ := [sample_flow 9 100; sample_flow 0 0; sample_flow 8 900] |> <| next_sub_ := 3 |>.

Lemma detail_pass_complete_witness :
  ensures (scan_ticks (mkDetailConfig 10 1 2) [(sample_tables, 50); (later_tables, 60); (later_tables, 70)] sample_scan) (fun d =>
    version_ (detail_ d) = 1 /\ exists snap, at_ (slot_values (detail_ d)) (current_ (detail_ d)) = Ok snap /\
      d_publish_wall_ns snap = 50 /\ total_subscribers snap = 3).
Proof.
  eapply ensures_mono.
  - refine (proj1 (detail_pass_complete (mkDetailConfig 10 1 2) sample_scan [(sample_tables, 50); (later_tables, 60)] later_tables 70 _ _ _ _ _)).
    + split; [repeat constructor; unfold size; cbn; lia|]. repeat constructor; cbn; lia.
    + split_and!; [reflexivity..|]. exists 0. split_and!; [lia|reflexivity|discriminate|reflexivity].
    + cbn. lia.
    + intros [|[|k]] e' He'; [injection He' as <-; unfold size; cbn; lia..|discriminate He'].
    + unfold size. cbn. lia.
  - intros d (_ & Hv & snap & H1 & H2). split; [exact Hv|]. exists snap. split; [exact H1|].
    destruct (view _ _) as [ss fs]. destruct H2 as (_ & _ & _ & _ & _ & Ht & Hw). split; [exact Hw|exact Ht].
Defined.
