(* ===== verification/Runtime.v ===== *)
(** * include/gtpm/runtime.hpp, src/meter_thread.cpp: the threads

    The metering thread's loop over the rings and the engine, snapshot
    publication and the reporter's record writer.  [Ingest] holds the two event
    rings, as the C++ object holds pointers to them; the record ring is the
    engine's sink.

    The clocks are arguments: [now_ns k] is the [k]-th reading the metering
    thread takes of the monotonic clock, [publish_wall k] the wall clock at that
    point.  [rank p total] is the rank that the [double] product of a quantile
    gives.  The ingest thread's pushes happen between iterations of the metering
    loop; that this loses no interleaving is the linearisability of the ring
    ([SpscRing.spsc_fifo]).  The published snapshot is the value stored behind the
    seqlock ([Seqlock]); [rt_records_file] is [None] for a null file handle.  CPU
    pinning and backoff are left out, as are the two [double] ratios of the
    snapshot. *)

From S2P Require Import Prelude ByteOrder SpscRing FlatHash MeterEvent UsageRecord Session Meter MeterLedger.
From S2P Require Import Pipeline PipelineProps Histogram Snapshot TopN DetailScan.

Record RuntimeConfig := mkRuntimeConfig {
  meter_batch : Z;
  publish_interval_ns : Z;
  latency_sample_every : Z;
  measure_latency : bool;
  rc_detail : DetailConfig;
  detail_demand_ttl_ns : Z
}.

Record LatencySummary := mkLatencySummary {
  ls_count : Z; ls_min_ns : Z; ls_p50_ns : Z; ls_p90_ns : Z; ls_p99_ns : Z; ls_p999_ns : Z; ls_p9999_ns : Z;
  ls_max_ns : Z
}.

Record PipelineSnapshot := mkSnapshot {
  sn_meter : PipelineStats;
  sn_ingest : IngestStats;
  sn_latency : LatencySummary;
  sn_publish_wall_ns : Z;
  sn_publish_mono_ns : Z;
  sn_uptime_ns : Z;
  sn_meter_ring_depth : Z;
  sn_meter_ring_capacity : Z;
  sn_gy_ring_depth : Z;
  sn_record_ring_depth : Z;
  sn_records_written : Z;
  sn_record_write_errors : Z;
  sn_teid_table_size : Z;
  sn_teid_table_capacity : Z;
  sn_meter_batches : Z;
  sn_meter_idle_polls : Z
}.

Record Runtime (M R R1 R2 : Type) := mkRuntime {
  rt_cfg : RuntimeConfig;
  rt_engine : MeterEngine M R;
  rt_ingest : Ingest R1 R2;
  rt_latency : Histogram;
  rt_latency_counter : Z;
  rt_start_ns : Z;
  rt_last_publish_ns : Z;
  rt_meter_batches : Z;
  rt_meter_idle_polls : Z;
  rt_clock_reads : nat;
  rt_stats : option PipelineSnapshot;
  rt_records_written : Z;
  rt_record_write_errors : Z;
  rt_records_file : option (list UsageRecord);
  rt_detail : DetailScan;
  rt_detail_request_ns : Z
}.
Arguments mkRuntime {M R R1 R2}.
Arguments rt_cfg {M R R1 R2}.
Arguments rt_engine {M R R1 R2}.
Arguments rt_ingest {M R R1 R2}.
Arguments rt_latency {M R R1 R2}.
Arguments rt_latency_counter {M R R1 R2}.
Arguments rt_start_ns {M R R1 R2}.
Arguments rt_last_publish_ns {M R R1 R2}.
Arguments rt_meter_batches {M R R1 R2}.
Arguments rt_meter_idle_polls {M R R1 R2}.
Arguments rt_clock_reads {M R R1 R2}.
Arguments rt_stats {M R R1 R2}.
Arguments rt_records_written {M R R1 R2}.
Arguments rt_record_write_errors {M R R1 R2}.
Arguments rt_records_file {M R R1 R2}.
Arguments rt_detail {M R R1 R2}.
Arguments rt_detail_request_ns {M R R1 R2}.
#[export] Instance Runtime_eta {M R R1 R2} : Eta (Runtime M R R1 R2) := fun r =>
  mkRuntime (rt_cfg r) (rt_engine r) (rt_ingest r) (rt_latency r) (rt_latency_counter r) (rt_start_ns r)
    (rt_last_publish_ns r) (rt_meter_batches r) (rt_meter_idle_polls r) (rt_clock_reads r) (rt_stats r)
    (rt_records_written r) (rt_record_write_errors r) (rt_records_file r) (rt_detail r) (rt_detail_request_ns r).

Section Runtime.
Context {HE : HostEndian} {AL : Algorithms} {M R R1 R2 : Type}.
Context {KT : KeyTable TeidBinding M} {BQ : BoundedQueue UsageRecord R}.
Context {Q1 : BoundedQueue MeterEvent R1} {Q2 : BoundedQueue GyEvent R2}.
Context (wall_ns now_ns publish_wall : nat -> Z) (rank : Z -> Z -> Z).
Abbreviation runtime := (Runtime M R R1 R2).

(** The constructor: [e] is the engine with the record ring as its sink. *)
Definition Runtime_new (cfg : RuntimeConfig) (icfg : IngestConfig) (meter_ring : R1) (gy_ring : R2) (e : MeterEngine M R)
    : runtime :=
  mkRuntime cfg e (Ingest_new (Some meter_ring) (Some gy_ring) icfg) Histogram_new 0 0 0 0 0 0 None 0 0 None
    (mkScan (Publisher_new kDetailBuffers DetailSnapshot_init) None 0 0) 0.

(** [start] at [now]; [opened] is what [fopen] gives, [None] for no path or a
    failure.  A handle that is already open is reused. *)
Definition start (rt : runtime) (opened : option (list UsageRecord)) (now : Z) : runtime :=
  rt <| rt_start_ns := now |> <| rt_last_publish_ns := now |>
     <| rt_records_file ::= fun f => match f with Some f => Some f | None => opened end |>.

(** [request_detail], by any thread. *)
Definition request_detail (rt : runtime) (now : Z) : runtime := rt <| rt_detail_request_ns := now |>.

(** [now_ns()]. *)
Definition read_clock (rt : runtime) : Z * runtime :=
  (now_ns (rt_clock_reads rt), rt <| rt_clock_reads ::= S |>).

Definition summarize (h : Histogram) : LatencySummary :=
  let q p := quantile h (rank p (hist_count h)) in
  mkLatencySummary (hist_count h) (hist_min h) (q 5000) (q 9000) (q 9900) (q 9990) (q 9999) (hist_max h).

Definition depth_of {T Q} {B : BoundedQueue T Q} (o : option Q) : Z := match o with Some q => q_depth q | None => 0 end.
Definition cap_of {T Q} {B : BoundedQueue T Q} (o : option Q) : Z := match o with Some q => q_cap q | None => 0 end.

(** The snapshot that is stored behind the seqlock. *)
Definition take_snapshot (rt : runtime) (now wall : Z) : PipelineSnapshot :=
  let e := rt_engine rt in
  mkSnapshot (stats_ e) (in_stats_ (rt_ingest rt)) (summarize (rt_latency rt)) wall now (sub64 now (rt_start_ns rt))
    (depth_of (meter_ring_ (rt_ingest rt))) (cap_of (meter_ring_ (rt_ingest rt)))
    (depth_of (gy_ring_ (rt_ingest rt))) (depth_of (record_sink_ e))
    (rt_records_written rt) (rt_record_write_errors rt) (kt_size (teid_map_ e)) (kt_cap (teid_map_ e))
    (rt_meter_batches rt) (rt_meter_idle_polls rt).

Definition publish_locked (rt : runtime) (now : Z) : res runtime :=
  let wall := publish_wall (rt_clock_reads rt) in
  let rt := rt <| rt_last_publish_ns := now |> <| rt_stats := Some (take_snapshot rt now wall) |> in
  let requested := rt_detail_request_ns rt in
  if negb (requested =? 0) && (sub64 now requested <=? detail_demand_ttl_ns (rt_cfg rt)) then
    let* d := advance_detail_scan (rc_detail (rt_cfg rt)) (rt_engine rt) wall (rt_detail rt) in
    Ok (rt <| rt_detail := d |>)
  else Ok rt.

(** The latency sample after one event. *)
Definition sample_latency (rt : runtime) (ev : MeterEvent) : res runtime :=
  if measure_latency (rt_cfg rt) then
    let n := u32 (rt_latency_counter rt + 1) in
    let rt := rt <| rt_latency_counter := n |> in
    if latency_sample_every (rt_cfg rt) <=? n then
      let rt := rt <| rt_latency_counter := 0 |> in
      let '(now, rt) := read_clock rt in
      if ev_ts_ns ev <? now then
        let* h := hist_record (rt_latency rt) (sub64 now (ev_ts_ns ev)) in
        Ok (rt <| rt_latency := h |>)
      else Ok rt
    else Ok rt
  else Ok rt.

(** The loop over a batch. *)
Fixpoint batch_loop (rt : runtime) (batch : list MeterEvent) : res runtime :=
  match batch with
  | [] => Ok rt
  | ev :: batch =>
      let* e := apply (rt_engine rt) ev in
      let* rt := sample_latency (rt <| rt_engine := e |>) ev in
      batch_loop rt batch
  end.

(** [while (gy_ring_.try_pop(gy)) engine_.apply_gy(gy)]. *)
Fixpoint gy_drain (fuel : nat) (rt : runtime) : res runtime :=
  match fuel, gy_ring_ (rt_ingest rt) with
  | O, _ => Fuel
  | S _, None => UB
  | S fuel, Some q =>
      let* (o, q) := q_pop q in
      let rt := rt <| rt_ingest ::= fun i => i <| gy_ring_ := Some q |> |> in
      match o with
      | None => Ok rt
      | Some g => let* e := apply_gy (rt_engine rt) g in gy_drain fuel (rt <| rt_engine := e |>)
      end
  end.

(** One iteration of [meter_loop]; [stop] is the value of [meter_stop_].  The
    result says whether the loop is left.  The Gy ring holds [q_depth] events. *)
Definition meter_iteration (stop : bool) (rt : runtime) : res (bool * runtime) :=
  match meter_ring_ (rt_ingest rt) with
  | None => UB
  | Some q =>
      let* (batch, q) := q_pop_bulk q (meter_batch (rt_cfg rt)) in
      let rt := rt <| rt_ingest ::= fun i => i <| meter_ring_ := Some q |> |> in
      let n := size batch in
      let* rt :=
        (if negb (n =? 0) then batch_loop (rt <| rt_meter_batches ::= incr |>) batch
         else Ok (rt <| rt_meter_idle_polls ::= incr |>)) in
      let* rt := gy_drain (S (Z.to_nat (depth_of (gy_ring_ (rt_ingest rt))))) rt in
      let '(now, rt) := read_clock rt in
      let* e := poll wall_ns (rt_engine rt) now in
      let rt := rt <| rt_engine := e |> in
      let* rt := (if publish_interval_ns (rt_cfg rt) <=? sub64 now (rt_last_publish_ns rt)
                  then publish_locked rt now else Ok rt) in
      Ok ((n =? 0) && (stop && (depth_of (meter_ring_ (rt_ingest rt)) =? 0)
          && (depth_of (gy_ring_ (rt_ingest rt)) =? 0)), rt)
  end.

(** The final flush after the loop. *)
Definition meter_flush (rt : runtime) : res runtime :=
  let '(now, rt) := read_clock rt in
  let* (_, e) := drain wall_ns (rt_engine rt) now in
  publish_locked (rt <| rt_engine := e |>) now.

(** [meter_loop] once [meter_stop_] is set and nothing is produced any more. *)
Fixpoint meter_loop (fuel : nat) (rt : runtime) : res runtime :=
  match fuel with
  | O => Fuel
  | S fuel =>
      let* (leave, rt) := meter_iteration true rt in
      if (leave : bool) then meter_flush rt else meter_loop fuel rt
  end.

(** The ingest thread processes some frames, then the metering thread does one
    iteration; and so on. *)
Fixpoint serve (rt : runtime) (rounds : list (list (Bytes * Z))) : res (list FrameOutcome.t * runtime) :=
  match rounds with
  | [] => Ok ([], rt)
  | frames :: rounds =>
      let* (os, i) := ingest_all (rt_ingest rt) frames in
      let* (_, rt) := meter_iteration false (rt <| rt_ingest := i |>) in
      let* (os', rt) := serve rt rounds in
      Ok (os ++ os', rt)
  end.

(** [drain_records]: [fwrite_ok k] says whether the [k]-th line was written. *)
Fixpoint drain_records (fwrite_ok : nat -> bool) (fuel : nat) (k : nat) (rt : runtime) : res runtime :=
  match fuel, record_sink_ (rt_engine rt) with
  | O, _ => Fuel
  | S _, None => UB
  | S fuel, Some q =>
      let* (o, q) := q_pop q in
      let rt := rt <| rt_engine ::= fun e => e <| record_sink_ := Some q |> |> in
      match o with
      | None => Ok rt
      | Some rec =>
          match rt_records_file rt with
          | None => drain_records fwrite_ok fuel k (rt <| rt_records_written ::= incr |>)
          | Some f =>
              if fwrite_ok k then
                drain_records fwrite_ok fuel (S k)
                  (rt <| rt_records_file := Some (f ++ [rec]) |> <| rt_records_written ::= incr |>)
              else drain_records fwrite_ok fuel (S k) (rt <| rt_record_write_errors ::= incr |>)
          end
      end
  end.
End Runtime.
