(* ===== verification/RuntimeProps.v ===== *)
(** * The running system

    The metering loop refines a run of engine operations: what comes out of the
    rings is applied in order, then the Gy reports, then a poll, and at the end a
    drain.  With the run theorems of [MeterLedger] this settles the books of
    whole sessions of the program, from the frames to the records. *)

From S2P Require Import Prelude ByteOrder SpscRing FlatHash MeterEvent UsageRecord Session Meter MeterProps MeterControl.
From S2P Require Import MeterLedger Pipeline PipelineProps Histogram Snapshot TopN DetailScan DetailProps Runtime.

Section System.
Context {HE : HostEndian} {AL : Algorithms} {M R R1 R2 : Type}.
Context {KT : KeyTable TeidBinding M} {BQ : BoundedQueue UsageRecord R}.
Context {Q1 : BoundedQueue MeterEvent R1} {Q2 : BoundedQueue GyEvent R2}.
Context (wall_ns now_ns publish_wall : nat -> Z) (rank : Z -> Z -> Z).
Abbreviation runtime := (Runtime M R R1 R2).
Abbreviation engine := (MeterEngine M R).

(** An event as the ingest path produces them. *)
Definition sound_event (ev : MeterEvent) : Prop := event_ok ev /\ ev_ts_ns ev < UINT64_MAX.

(** A runtime between iterations, its rings holding [evs] and [gys]. *)
Record rt_ok (rt : runtime) (evs : list MeterEvent) (gys : list GyEvent) : Prop := {
  ro_engine : good (rt_engine rt);
  ro_meter : exists q, meter_ring_ (rt_ingest rt) = Some q /\ q_repr q evs;
  ro_gy : exists q, gy_ring_ (rt_ingest rt) = Some q /\ q_repr q gys;
  ro_events : Forall sound_event evs;
  ro_latency : size (counts_ (rt_latency rt)) = 10240;
  ro_batch : 1 <= meter_batch (rt_cfg rt) < 2 ^ 64;
  ro_detail : scan_ok (rt_detail rt) /\ (0 < snapshot_flow_limit (rc_detail (rt_cfg rt)))%nat
}.

(** The operations of a run that come from the two rings. *)
Definition applied (ops : list op) : list MeterEvent :=
  omap (fun o => match o with OpApply ev => Some ev | _ => None end) ops.
Definition reported (ops : list op) : list GyEvent :=
  omap (fun o => match o with OpGy g => Some g | _ => None end) ops.

(** The engine operations of the metering loop before its final drain. *)
Definition loop_op (o : op) : Prop := match o with OpApply _ | OpGy _ | OpPoll _ => True | _ => False end.

Lemma applied_app l k : applied (l ++ k) = applied l ++ applied k.
Proof. apply omap_app. Qed.
Lemma reported_app l k : reported (l ++ k) = reported l ++ reported k.
Proof. apply omap_app. Qed.
Lemma applied_apply l : applied (map OpApply l) = l /\ reported (map OpApply l) = [].
Proof. induction l as [|x l [IH1 IH2]]; [done|]. split; cbn; [by f_equal|done]. Qed.
Lemma applied_gy l : applied (map OpGy l) = [] /\ reported (map OpGy l) = l.
Proof. induction l as [|x l [IH1 IH2]]; [done|]. split; cbn; [done|by f_equal]. Qed.

(** [rt'] went on from [rt] by running [ops] on the engine. *)
Definition ran (e : engine) (ops : list op) (e' : engine) : Prop := run wall_ns e ops = Ok ([], e').

Lemma ran_nil e : ran e [] e.
Proof. reflexivity. Qed.
Lemma ran_trans e1 e2 e3 o1 o2 : ran e1 o1 e2 -> ran e2 o2 e3 -> ran e1 (o1 ++ o2) e3.
Proof. unfold ran. intros H1 H2. rewrite run_app, H1, bind_Ok, H2, bind_Ok. reflexivity. Qed.

(** One operation that yields no records is a run. *)
Lemma exec_ran e o : good e -> op_ok o -> match o with OpPop _ | OpTake => False | _ => True end ->
  ensures (exec wall_ns e o) (fun '(out, e') => ran e [o] e' /\ good e').
Proof.
  intros Hg Ho Hp. destruct (exec_spec wall_ns e o Hg Ho) as ([out e'] & Hex & Hg' & _). exists (out, e').
  split; [done|]. split; [|done]. unfold ran. cbn [run]. rewrite Hex, bind_Ok, bind_Ok, app_nil_r.
  enough (out = []) as -> by done. destruct o; cbn [exec] in Hex;
    repeat (apply bind_Ok_inv in Hex as ([] & ? & Hex) || apply bind_Ok_inv in Hex as (? & ? & Hex)); congruence || done.
Qed.

(** ** The pieces of an iteration *)

(** What the latency sampling may change. *)
Definition same_core (rt rt' : runtime) : Prop :=
  rt_engine rt' = rt_engine rt /\ rt_ingest rt' = rt_ingest rt /\ rt_cfg rt' = rt_cfg rt /\
  size (counts_ (rt_latency rt')) = size (counts_ (rt_latency rt)) /\ rt_detail rt' = rt_detail rt.

Lemma hist_record_size h v : size (counts_ h) = 10240 -> 0 <= v < 2 ^ 64 ->
  ensures (hist_record h v) (fun h' => size (counts_ h') = 10240).
Proof.
  intros Hs Hv. unfold hist_record. pose proof (index_range v Hv).
  destruct (at_Ok (counts_ h) (index_for v)) as [n ->]; [lia|].
  rewrite bind_Ok, set_Ok, bind_Ok by lia. apply ensures_Ok. cbn. by rewrite size_insert.
Qed.

Lemma sample_latency_spec (rt : runtime) ev : size (counts_ (rt_latency rt)) = 10240 ->
  ensures (sample_latency now_ns rt ev) (same_core rt).
Proof.
  intros Hs. unfold sample_latency, read_clock.
  destruct (measure_latency (rt_cfg rt)); [|by apply ensures_Ok].
  match goal with |- context [if ?c then _ else _] => destruct c end; [|by apply ensures_Ok].
  match goal with |- context [if ?c then _ else _] => destruct c end; [|by apply ensures_Ok].
  eapply ensures_bind; [apply (hist_record_size (rt_latency rt)); [done|apply u64_range]|].
  intros h Hh. apply ensures_Ok. split_and!; try done. by rewrite Hs.
Qed.

Lemma batch_loop_spec batch : forall rt : runtime, good (rt_engine rt) -> Forall sound_event batch ->
  size (counts_ (rt_latency rt)) = 10240 ->
  ensures (batch_loop now_ns rt batch) (fun rt' => ran (rt_engine rt) (map OpApply batch) (rt_engine rt') /\
    good (rt_engine rt') /\ rt_ingest rt' = rt_ingest rt /\ rt_cfg rt' = rt_cfg rt /\
    size (counts_ (rt_latency rt')) = 10240 /\ rt_detail rt' = rt_detail rt).
Proof.
  induction batch as [|ev batch IH]; intros rt Hg Hev Hl; cbn [batch_loop map].
  { by apply ensures_Ok. }
  apply Forall_cons_iff in Hev as [He Hev].
  destruct (exec_ran (rt_engine rt) (OpApply ev) Hg He ltac:(done)) as ([out e] & Hex & Hrun & Hge).
  cbn [exec] in Hex. apply bind_Ok_inv in Hex as (e0 & -> & [= <- <-]). rewrite bind_Ok.
  eapply ensures_bind; [by apply sample_latency_spec|]. intros rt1 (E1 & E2 & E3 & E4 & E5).
  change (rt_detail rt1 = rt_detail rt) in E5. change (rt_ingest rt1 = rt_ingest rt) in E2. change (rt_cfg rt1 = rt_cfg rt) in E3.
  eapply ensures_mono; [apply IH; [by rewrite E1|done|by rewrite E4]|].
  intros rt' (H1 & H2 & H3 & H4 & H5 & H6). rewrite E1 in H1. split_and!; [|done|congruence|congruence|done|congruence].
  change (OpApply ev :: map OpApply batch) with ([OpApply ev] ++ map OpApply batch). by eapply ran_trans.
Qed.

Lemma gy_drain_spec : forall fuel (rt : runtime) gys q, good (rt_engine rt) ->
  gy_ring_ (rt_ingest rt) = Some q -> q_repr q gys -> (length gys < fuel)%nat ->
  ensures (gy_drain fuel rt) (fun rt' => ran (rt_engine rt) (map OpGy gys) (rt_engine rt') /\
    good (rt_engine rt') /\ meter_ring_ (rt_ingest rt') = meter_ring_ (rt_ingest rt) /\
    (exists q', gy_ring_ (rt_ingest rt') = Some q' /\ q_repr q' []) /\ in_cfg_ (rt_ingest rt') = in_cfg_ (rt_ingest rt) /\
    rt_cfg rt' = rt_cfg rt /\ rt_latency rt' = rt_latency rt /\ rt_detail rt' = rt_detail rt).
Proof.
  induction fuel as [|fuel IH]; intros rt gys q Hg Hq Hr Hf; [lia|]. cbn [gy_drain]. rewrite Hq.
  eapply ensures_bind; [by apply (q_pop_spec q gys)|]. intros [o q'] [_ Hp]. destruct gys as [|g gys].
  - destruct Hp as [-> Hp]. apply ensures_Ok. split_and!; try done. by exists q'.
  - destruct Hp as [-> Hp].
    destruct (exec_ran (rt_engine rt) (OpGy g) Hg I ltac:(done)) as ([out e] & Hex & Hrun & Hge).
    cbn [exec] in Hex. apply bind_Ok_inv in Hex as (e0 & Hap & [= <- <-]).
    set (rt1 := rt <| rt_ingest ::= fun i => i <| gy_ring_ := Some q' |> |>).
    change (rt_engine rt1) with (rt_engine rt). rewrite Hap, bind_Ok.
    eapply ensures_mono; [apply (IH (rt1 <| rt_engine := e0 |>) gys q'); [done|done|done|cbn in Hf; lia]|].
    intros rt' (H1 & H2 & H3 & H4 & H5 & H6 & H7 & H8). split_and!; try done.
    change (map OpGy (g :: gys)) with ([OpGy g] ++ map OpGy gys). by eapply ran_trans.
Qed.

(** Publication leaves the counting state alone. *)
Definition published_as (rt rt' : runtime) : Prop :=
  rt_engine rt' = rt_engine rt /\ rt_ingest rt' = rt_ingest rt /\ rt_cfg rt' = rt_cfg rt /\ rt_latency rt' = rt_latency rt.

Lemma good_tables (e : engine) : good e -> tables_ok e.
Proof. intros ((m & [Hs Hn _ _ _ _ _ _ _ _ _ _ _]) & _). unfold tables_ok. split; [apply Hs|apply Hn]. Qed.

Lemma publish_spec (rt : runtime) now : good (rt_engine rt) -> scan_ok (rt_detail rt) ->
  (0 < snapshot_flow_limit (rc_detail (rt_cfg rt)))%nat ->
  ensures (publish_locked publish_wall rank rt now) (fun rt' => published_as rt rt' /\ scan_ok (rt_detail rt') /\
    rt_stats rt' = Some (take_snapshot rank rt now (publish_wall (rt_clock_reads rt)))).
Proof.
  intros Hg Hd Hlim. unfold publish_locked. match goal with |- context [if ?c then _ else _] => destruct c end.
  - eapply ensures_bind; [apply tick_safe; [by apply good_tables|exact Hlim|exact Hd]|].
    intros d Hd'. by apply ensures_Ok.
  - by apply ensures_Ok.
Qed.

(** One iteration: a batch off the front of the metering ring is applied, all
    Gy events are, and the engine is polled. *)
Lemma meter_iteration_spec stop (rt : runtime) evs gys : rt_ok rt evs gys ->
  ensures (meter_iteration wall_ns now_ns publish_wall rank stop rt) (fun '(leave, rt') => exists batch rest now,
    evs = batch ++ rest /\ ran (rt_engine rt) (map OpApply batch ++ map OpGy gys ++ [OpPoll now]) (rt_engine rt') /\
    rt_ok rt' rest [] /\ (batch = [] -> evs = []) /\ leave = (size batch =? 0) && stop).
Proof.
  intros [Hg (q & Hq & Hr) (qg & Hqg & Hrg) Hev Hl Hb [Hd Hlim]]. unfold meter_iteration. rewrite Hq.
  eapply ensures_bind; [apply (q_pop_bulk_spec q evs _ Hr); lia|].
  intros [batch q'] (_ & rest & -> & Hr' & _ & He). cbn zeta.
  apply Forall_app in Hev as [Hev Hev'].
  set (rt1 := rt <| rt_ingest ::= fun i => i <| meter_ring_ := Some q' |> |>).
  eapply (ensures_bind _ _ (fun rt2 => ran (rt_engine rt) (map OpApply batch) (rt_engine rt2) /\
    good (rt_engine rt2) /\ rt_ingest rt2 = rt_ingest rt1 /\ rt_cfg rt2 = rt_cfg rt /\
    size (counts_ (rt_latency rt2)) = 10240 /\ rt_detail rt2 = rt_detail rt)).
  { destruct (Z.eqb_spec (size batch) 0) as [E|E]; cbn [negb].
    - apply ensures_Ok. destruct batch; [|rewrite size_cons in E; pose proof (size_nonneg batch); lia]. done.
    - eapply ensures_mono; [by apply (batch_loop_spec batch (rt1 <| rt_meter_batches ::= incr |>))|]. done. }
  intros rt2 (Hrun & Hg2 & Hi2 & Hc2 & Hl2 & Hd2).
  assert (gy_ring_ (rt_ingest rt2) = Some qg) as Hqg2 by (rewrite Hi2; exact Hqg).
  rewrite Hqg2. change (depth_of (Some qg)) with (q_depth qg). rewrite (q_depth_spec qg gys Hrg).
  eapply ensures_bind; [apply (gy_drain_spec _ rt2 gys qg Hg2 Hqg2 Hrg); unfold size; lia|].
  intros rt3 (Hrun3 & Hg3 & Hm3 & (qg3 & Hqg3 & Hrg3) & _ & Hc3 & Hl3 & Hd3). unfold read_clock.
  set (now := now_ns (rt_clock_reads rt3)). set (rt4 := rt3 <| rt_clock_reads ::= S |>).
  destruct (exec_ran (rt_engine rt3) (OpPoll now) Hg3 I ltac:(done)) as ([out e] & Hex & Hrun4 & Hg4).
  cbn [exec] in Hex. apply bind_Ok_inv in Hex as (e0 & Hap & [= <- <-]).
  change (rt_engine rt4) with (rt_engine rt3). rewrite Hap, bind_Ok. cbn zeta.
  set (rt5 := rt4 <| rt_engine := e0 |>).
  eapply (ensures_bind _ _ (fun rt6 => published_as rt5 rt6 /\ scan_ok (rt_detail rt6))).
  { match goal with |- context [if ?c then _ else _] => destruct c end.
    - eapply ensures_mono; [apply (publish_spec rt5 now)|]; [done| | |by intros rt6 (? & ? & _)].
      + change (rt_detail rt5) with (rt_detail rt3). congruence.
      + change (rt_cfg rt5) with (rt_cfg rt3). by rewrite Hc3, Hc2.
    - apply ensures_Ok. split; [done|]. change (rt_detail rt5) with (rt_detail rt3). congruence. }
  intros rt6 [(E1 & E2 & E3 & E4) Hd6]. apply ensures_Ok. change (rt_engine rt5) with e0 in E1.
  change (rt_ingest rt5) with (rt_ingest rt3) in E2. change (rt_cfg rt5) with (rt_cfg rt3) in E3.
  change (rt_latency rt5) with (rt_latency rt3) in E4. rewrite Hc3, Hc2 in E3.
  exists batch, rest, now. split; [done|]. rewrite E1. split.
  { eapply ran_trans; [done|]. by eapply ran_trans. }
  split.
  { constructor; [by rewrite E1| | |done|by rewrite E4, Hl3|by rewrite E3|by rewrite E3].
    - exists q'. rewrite E2, Hm3, Hi2. done.
    - exists qg3. by rewrite E2. }
  split.
  { intros ->. destruct (He eq_refl) as [|E]; [lia|done]. }
  rewrite E2, Hm3, Hi2, Hqg3. change (meter_ring_ (rt_ingest rt1)) with (Some q'). unfold depth_of.
  rewrite (q_depth_spec q' rest Hr'), (q_depth_spec qg3 [] Hrg3). change (size [] =? 0) with true. rewrite andb_true_r.
  destruct (Z.eqb_spec (size batch) 0) as [E|E]; [|done]. cbn [andb].
  destruct batch; [|rewrite size_cons in E; pose proof (size_nonneg batch); lia].
  destruct (He eq_refl) as [|E0]; [lia|]. cbn [app] in E0. subst rest. by rewrite andb_true_r.
Qed.

Lemma op_ok_batch batch gys now : Forall sound_event batch ->
  Forall op_ok (map OpApply batch ++ map OpGy gys ++ [OpPoll now]).
Proof.
  intros Hb. apply Forall_app. split; [by apply Forall_map|]. apply Forall_app. split; [|by constructor].
  apply Forall_map, Forall_forall. done.
Qed.

Lemma iteration_ops batch gys now :
  applied (map OpApply batch ++ map OpGy gys ++ [OpPoll now]) = batch /\
  reported (map OpApply batch ++ map OpGy gys ++ [OpPoll now]) = gys /\
  Forall loop_op (map OpApply batch ++ map OpGy gys ++ [OpPoll now]).
Proof.
  rewrite !applied_app, !reported_app. destruct (applied_apply batch) as [-> ->], (applied_gy gys) as [-> ->].
  cbn. rewrite !app_nil_r. split; [done|]. split; [done|].
  rewrite !Forall_app. split_and!; [by apply Forall_map, Forall_forall..|by constructor].
Qed.

Lemma meter_flush_spec (rt : runtime) : rt_ok rt [] [] ->
  ensures (meter_flush wall_ns now_ns publish_wall rank rt) (fun rt' => exists now,
    ran (rt_engine rt) [OpDrain now] (rt_engine rt') /\ rt_ok rt' [] [] /\
    exists sn, rt_stats rt' = Some sn /\ sn_meter sn = stats_ (rt_engine rt') /\
      sn_ingest sn = in_stats_ (rt_ingest rt') /\ sn_meter_ring_depth sn = 0 /\ sn_gy_ring_depth sn = 0).
Proof.
  intros [Hg (q & Hq & Hr) (qg & Hqg & Hrg) Hev Hl Hb [Hd Hlim]]. unfold meter_flush, read_clock.
  set (now := now_ns (rt_clock_reads rt)). set (rt1 := rt <| rt_clock_reads ::= S |>).
  destruct (exec_ran (rt_engine rt) (OpDrain now) Hg I ltac:(done)) as ([out e] & Hex & Hrun & Hge).
  cbn [exec] in Hex. apply bind_Ok_inv in Hex as ([n e0] & Hap & [= <- <-]).
  change (rt_engine rt1) with (rt_engine rt). rewrite Hap, bind_Ok. set (rt2 := rt1 <| rt_engine := e0 |>).
  eapply ensures_mono; [by apply (publish_spec rt2 now)|]. intros rt' ((E1 & E2 & E3 & E4) & Hd' & Hst).
  change (rt_engine rt2) with e0 in E1. change (rt_ingest rt2) with (rt_ingest rt) in E2.
  change (rt_cfg rt2) with (rt_cfg rt) in E3. change (rt_latency rt2) with (rt_latency rt) in E4.
  exists now. rewrite E1. split; [done|]. split.
  - constructor; rewrite ?E1, ?E2, ?E3, ?E4; try done; [by exists q|by exists qg].
  - exists (take_snapshot rank rt2 now (publish_wall (rt_clock_reads rt2))). split; [done|]. split; [done|].
    split; [by rewrite E2|]. cbn [take_snapshot sn_meter_ring_depth sn_gy_ring_depth].
    change (rt_ingest rt2) with (rt_ingest rt). rewrite Hq, Hqg.
    split; [apply (q_depth_spec q [] Hr)|apply (q_depth_spec qg [] Hrg)].
Qed.

(** The loop ends, having applied everything in order. *)
Lemma meter_loop_spec : forall fuel (rt : runtime) evs gys, rt_ok rt evs gys -> (length evs < fuel)%nat ->
  ensures (meter_loop wall_ns now_ns publish_wall rank fuel rt) (fun rt' => exists ops now,
    applied ops = evs /\ reported ops = gys /\ Forall op_ok ops /\ Forall loop_op ops /\
    ran (rt_engine rt) (ops ++ [OpDrain now]) (rt_engine rt') /\ rt_ok rt' [] [] /\
    exists sn, rt_stats rt' = Some sn /\ sn_meter sn = stats_ (rt_engine rt') /\
      sn_ingest sn = in_stats_ (rt_ingest rt') /\ sn_meter_ring_depth sn = 0 /\ sn_gy_ring_depth sn = 0).
Proof.
  induction fuel as [|fuel IH]; intros rt evs gys Hok Hf; [lia|]. cbn [meter_loop].
  eapply ensures_bind; [by apply (meter_iteration_spec true rt evs gys)|].
  intros [leave rt1] (batch & rest & now & -> & Hrun & Hok1 & Hemp & ->). rewrite andb_true_r.
  pose proof (ro_events _ _ _ Hok) as Hev. apply Forall_app in Hev as [Hev _].
  destruct (iteration_ops batch gys now) as (Ha & Hr & Hlo). pose proof (op_ok_batch batch gys now Hev) as Hops.
  set (ops1 := map OpApply batch ++ _) in *. clearbody ops1.
  destruct (Z.eqb_spec (size batch) 0) as [E|E].
  - destruct batch; [|rewrite size_cons in E; pose proof (size_nonneg batch); lia].
    assert (rest = []) as -> by (by apply Hemp).
    eapply ensures_mono; [by apply meter_flush_spec|]. intros rt' (now' & Hrun' & Hok' & Hsn).
    exists ops1, now'. split_and!; try done. by eapply ran_trans.
  - eapply ensures_mono; [apply (IH rt1 rest [] Hok1)|].
    { rewrite length_app in Hf. unfold size in E. lia. }
    intros rt' (ops & now' & Ha' & Hr' & Hops' & Hlo' & Hrun' & Hok' & Hsn). exists (ops1 ++ ops), now'.
    rewrite applied_app, reported_app, Ha, Hr, Ha', Hr', app_nil_r. split_and!; try done.
    + by apply Forall_app.
    + by apply Forall_app.
    + rewrite <- app_assoc. by eapply ran_trans.
Qed.

(** Frames and iterations in turn: every event that entered a ring is applied or
    still queued, in order. *)
Definition frame_ok (p : Bytes * Z) : Prop := size p.1 < 2 ^ 63 /\ 0 <= p.2 < UINT64_MAX.

Lemma ring_some {T Q} {B : BoundedQueue T Q} (o o' : option Q) kept q l : ring_pushed o o' kept ->
  o = Some q -> q_repr q l -> exists q', o' = Some q' /\ q_repr q' (l ++ kept).
Proof. intros H -> Hl. destruct o' as [q'|]; [|done]. destruct H as [_ H]. eauto. Qed.

Lemma ingest_round (rt : runtime) evs gys frames : rt_ok rt evs gys -> Forall frame_ok frames ->
  ensures (ingest_all (rt_ingest rt) frames) (fun '(os, i) => exists evs' gys',
    rt_ok (rt <| rt_ingest := i |>) (evs ++ evs') (gys ++ gys') /\ length os = length frames /\
    size evs' = count_outcome FrameOutcome.kMetered os + count_outcome FrameOutcome.kGtpuControl os).
Proof.
  intros [Hg (q & Hq & Hr) (qg & Hqg & Hrg) Hev Hl Hb Hd] Hf.
  eapply ensures_mono; [apply ingest_all_spec|].
  - split; [rewrite Hq|rewrite Hqg]; eexists; eassumption.
  - revert Hf. apply Forall_impl. by intros p [? _].
  - intros [os i] (Hlen & _ & (evs' & gys' & [_ Hpm Hpg] & _ & Hsz & Hok) & _). exists evs', gys'.
    split; [|done]. constructor; try done.
    + by eapply ring_some.
    + by eapply ring_some.
    + apply Forall_app. split; [done|]. apply (Hok UINT64_MAX); [done|]. revert Hf. apply Forall_impl. by intros p [_ ?].
Qed.

Lemma serve_spec : forall rounds (rt : runtime) evs gys, rt_ok rt evs gys -> Forall (Forall frame_ok) rounds ->
  ensures (serve wall_ns now_ns publish_wall rank rt rounds) (fun '(os, rt') => exists ops new newg rest restg,
    ran (rt_engine rt) ops (rt_engine rt') /\ Forall op_ok ops /\ rt_ok rt' rest restg /\
    evs ++ new = applied ops ++ rest /\ gys ++ newg = reported ops ++ restg /\
    length os = length (concat rounds) /\
    size new = count_outcome FrameOutcome.kMetered os + count_outcome FrameOutcome.kGtpuControl os).
Proof.
  induction rounds as [|frames rounds IH]; intros rt evs gys Hok Hf; cbn [serve].
  { apply ensures_Ok. exists [], [], [], evs, gys. rewrite !app_nil_r. split_and!; try done. }
  apply Forall_cons_iff in Hf as [Hf1 Hf].
  eapply ensures_bind; [by apply (ingest_round rt evs gys)|]. intros [os i] (new1 & newg1 & Hok1 & Hlen & Hsz).
  eapply ensures_bind; [apply (meter_iteration_spec false _ _ _ Hok1)|].
  intros [leave rt2] (batch & rest & now & Hev & Hrun & Hok2 & _ & _).
  pose proof (ro_events _ _ _ Hok1) as Hse. rewrite Hev in Hse. apply Forall_app in Hse as [Hse _].
  destruct (iteration_ops batch (gys ++ newg1) now) as (Ha & Hr & _).
  pose proof (op_ok_batch batch (gys ++ newg1) now Hse) as Hops.
  set (ops1 := map OpApply batch ++ _) in *. clearbody ops1.
  change (rt_engine (rt <| rt_ingest := i |>)) with (rt_engine rt) in Hrun.
  eapply ensures_bind; [apply (IH rt2 rest [] Hok2 Hf)|].
  intros [os' rt'] (ops & new & newg & rest' & restg & Hrun' & Hops' & Hok' & Hev' & Hgy' & Hlen' & Hsz').
  apply ensures_Ok. exists (ops1 ++ ops), (new1 ++ new), (newg1 ++ newg), rest', restg.
  rewrite applied_app, reported_app, Ha, Hr. split_and!; try done.
  - by eapply ran_trans.
  - by apply Forall_app.
  - rewrite app_assoc, Hev, <- app_assoc, Hev', app_assoc. done.
  - cbn [app] in Hgy'. by rewrite app_assoc, Hgy', app_assoc.
  - cbn [concat]. rewrite !length_app. lia.
  - rewrite size_app, Hsz, Hsz'. unfold count_outcome. rewrite !list.filter_app. unfold size. rewrite !length_app. lia.
Qed.

(** C9: The metering loop terminates and applies everything.  Once the stop flag is
    set and nothing more is produced, the loop returns after at most one
    iteration per queued event and one more, for any batch size of at least 1: it
    has applied exactly the queued events, in order, and the queued Gy reports,
    between polls, and then drained.  Both rings are empty; no subscriber has an
    uplink or downlink byte pending; the records built meanwhile bill exactly the
    bytes that were pending at the start or charged by the queued events (modulo
    2^64); and the last published snapshot carries the final engine statistics
    and empty rings.  (Packet counts without bytes may stay pending: the drain
    skips a subscriber whose byte counters have not moved.) *)
Theorem meter_loop_drains (rt : runtime) evs gys fuel : rt_ok rt evs gys -> (length evs < fuel)%nat ->
  ensures (meter_loop wall_ns now_ns publish_wall rank fuel rt) (fun rt' => exists ops now recs,
    applied ops = evs /\ reported ops = gys /\ Forall loop_op ops /\
    run wall_ns (rt_engine rt) (ops ++ [OpDrain now]) = Ok ([], rt_engine rt') /\
    (forall i, pend UlBytes (rt_engine rt') i = 0 /\ pend DlBytes (rt_engine rt') i = 0) /\
    built_ (rt_engine rt') = built_ (rt_engine rt) ++ recs /\
    (forall i, u64 (billed UlBytes i recs) =
                 u64 (pend UlBytes (rt_engine rt) i + charges wall_ns (rt_engine rt) (ops ++ [OpDrain now]) UlBytes i) /\
               u64 (billed DlBytes i recs) =
                 u64 (pend DlBytes (rt_engine rt) i + charges wall_ns (rt_engine rt) (ops ++ [OpDrain now]) DlBytes i)) /\
    (exists q, meter_ring_ (rt_ingest rt') = Some q /\ q_repr q []) /\
    (exists q, gy_ring_ (rt_ingest rt') = Some q /\ q_repr q []) /\
    exists sn, rt_stats rt' = Some sn /\ sn_meter sn = stats_ (rt_engine rt') /\
      sn_meter_ring_depth sn = 0 /\ sn_gy_ring_depth sn = 0).
Proof.
  intros Hok Hf. eapply ensures_mono; [by apply (meter_loop_spec fuel rt evs gys)|].
  intros rt' (ops & now & Ha & Hr & Hops & Hlo & Hrun & [_ Hm Hg _ _ _ _] & sn & Hsn & Hsm & _ & Hd1 & Hd2).
  destruct (run_drain wall_ns (rt_engine rt) ops now (ro_engine _ _ _ Hok) Hops) as ([out e'] & Hrun' & _ & Hz & recs & kept & Hbk).
  unfold ran in Hrun. rewrite Hrun in Hrun'. injection Hrun' as <- <-.
  exists ops, now, recs. split_and!; eauto; [apply Hbk|]. intros i. destruct (Hz i) as [Hu Hd].
  rewrite (bk_pend _ _ _ _ _ _ Hbk) in Hu, Hd. split; symmetry; apply u64_sub_0; by rewrite Z.add_0_l.
Qed.

(** The sessions installed before the start. *)
Definition installs (specs : list SessionSpec) (now : Z) : list op := map (fun s => OpInstall s now) specs.

Lemma installs_ran specs now : forall e : engine, good e -> Forall session_ok specs ->
  exists e', ran e (installs specs now) e' /\ good e'.
Proof.
  induction specs as [|sp specs IH]; intros e Hg Hs; [by exists e|]. apply Forall_cons_iff in Hs as [Hsp Hs].
  destruct (exec_ran e (OpInstall sp now) Hg Hsp ltac:(done)) as ([out e1] & _ & Hr1 & Hg1).
  destruct (IH e1 Hg1 Hs) as (e' & Hr & Hg'). exists e'. split; [|done]. by apply (ran_trans _ _ _ [OpInstall sp now] _ Hr1).
Qed.

Lemma applied_installs specs now : applied (installs specs now) = [].
Proof. by induction specs. Qed.

(** The program from [Runtime::Runtime] on: sessions installed before the start,
    rounds of frames, then [stop]. *)
Definition runtime_of (cfg : RuntimeConfig) (icfg : IngestConfig) (q1 : R1) (q2 : R2) (file : option (list UsageRecord))
    (start_ns : Z) (e : engine) : runtime :=
  start (Runtime_new cfg icfg q1 q2 e) file start_ns.

Definition session_run (mk : engine -> runtime) (e0 : engine) (specs : list SessionSpec) (now : Z)
    (rounds : list (list (Bytes * Z))) : res (list FrameOutcome.t * runtime) :=
  let* (_, e) := run wall_ns e0 (installs specs now) in
  let* (os, rt) := serve wall_ns now_ns publish_wall rank (mk e) rounds in
  let* rt := meter_loop wall_ns now_ns publish_wall rank (S (Z.to_nat (depth_of (meter_ring_ (rt_ingest rt))))) rt in
  Ok (os, rt).

(** The whole program settles its books.  Build the runtime, install sessions,
    feed it any frames in any number of rounds, and stop it: it terminates, and
    there is one sequence of engine operations that explains it, whose packets
    are exactly the events of the frames reported as metered or as control PDUs,
    in order.  For every subscriber, what its packets were charged is what the
    usage records built bill (bytes, both directions, modulo 2^64), and if no
    record was dropped these records are all in the record ring. *)
Theorem session_settles mcfg teids q0 cfg icfg q1 q2 file start specs now rounds :
  fresh_ok mcfg teids (Some q0) -> q_repr q1 [] -> q_repr q2 [] -> 1 <= meter_batch cfg < 2 ^ 64 ->
  (0 < snapshot_flow_limit (rc_detail cfg))%nat ->
  Forall session_ok specs -> Forall (Forall frame_ok) rounds ->
  ensures (fresh_engine mcfg teids (Some q0)) (fun e0 =>
  ensures (session_run (runtime_of cfg icfg q1 q2 file start) e0 specs now rounds) (fun '(os, rt') =>
    length os = length (concat rounds) /\ exists ops end_,
    run wall_ns e0 (ops ++ [OpDrain end_]) = Ok ([], rt_engine rt') /\
    size (applied ops) = count_outcome FrameOutcome.kMetered os + count_outcome FrameOutcome.kGtpuControl os /\
    settled_run wall_ns e0 (ops ++ [OpDrain end_]) ([], rt_engine rt'))).
Proof.
  intros Hf Hq1 Hq2 Hb Hlim Hspec Hframes. eapply ensures_mono; [by apply fresh_good|].
  intros e0 (Hg & Hp & Hs & Hst & Hbt). unfold session_run.
  assert (Forall op_ok (installs specs now)) as Hins by (by apply Forall_map).
  destruct (installs_ran specs now e0 Hg Hspec) as (e & Hrun0 & Hge). unfold ran in Hrun0. rewrite Hrun0, bind_Ok.
  assert (rt_ok (runtime_of cfg icfg q1 q2 file start e) [] []) as Hok.
  { constructor; [done|by exists q1|by exists q2|done|done|done|by split; [split_and!|]]. }
  eapply ensures_bind; [by apply (serve_spec rounds _ [] [] Hok)|].
  intros [os rt] (ops & new & newg & rest & restg & Hrun1 & Hops & Hok1 & Hev & _ & Hlen & Hsz).
  destruct (ro_meter _ _ _ Hok1) as (q & Hq & Hr). rewrite Hq.
  change (depth_of (Some q)) with (q_depth q). rewrite (q_depth_spec q rest Hr).
  eapply ensures_bind; [apply (meter_loop_spec _ rt rest restg Hok1); unfold size; lia|].
  intros rt' (ops' & end_ & Ha & _ & Hops' & _ & Hrun2 & _ & _). apply ensures_Ok. split; [done|].
  assert (run wall_ns e0 ((installs specs now ++ ops ++ ops') ++ [OpDrain end_]) = Ok ([], rt_engine rt')) as Hrun.
  { rewrite <- !app_assoc. eapply ran_trans; [exact Hrun0|]. by eapply ran_trans. }
  destruct (drain_run wall_ns e0 q0 (installs specs now ++ ops ++ ops') end_) as ([out e'] & Hrun' & Hset);
    [done|done|done|apply (fo_sink _ _ _ Hf)|done|done|by repeat apply Forall_app_2|].
  rewrite Hrun in Hrun'. injection Hrun' as <- <-.
  exists (installs specs now ++ ops ++ ops'), end_. split_and!; try done.
  rewrite <- Hsz, !applied_app, Ha, <- Hev, applied_installs. done.
Qed.

(** ** The reporter *)

(** The record ring holds [recs]. *)
Definition records_queued (rt : runtime) (recs : list UsageRecord) : Prop :=
  exists q, record_sink_ (rt_engine rt) = Some q /\ q_repr q recs.

(** The lines that reach the file when the writes from [k] on go as [ok] says. *)
Fixpoint written (ok : nat -> bool) (k : nat) (recs : list UsageRecord) : list UsageRecord :=
  match recs with [] => [] | r :: recs => (if ok k then [r] else []) ++ written ok (S k) recs end.

Lemma drain_records_spec ok : forall fuel k (rt : runtime) recs q f,
  record_sink_ (rt_engine rt) = Some q -> q_repr q recs -> rt_records_file rt = Some f -> (length recs < fuel)%nat ->
  ensures (drain_records ok fuel k rt) (fun rt' =>
    (exists q', record_sink_ (rt_engine rt') = Some q' /\ q_repr q' []) /\
    rt_records_file rt' = Some (f ++ written ok k recs) /\
    u64 (rt_records_written rt') = u64 (rt_records_written rt + size (written ok k recs)) /\
    u64 (rt_record_write_errors rt') = u64 (rt_record_write_errors rt + (size recs - size (written ok k recs)))).
Proof.
  induction fuel as [|fuel IH]; intros k rt recs q f Hq Hr Hp Hf; [lia|]. cbn [drain_records]. rewrite Hq.
  eapply ensures_bind; [by apply (q_pop_spec q recs)|]. intros [o q'] [_ Hpop].
  set (rt1 := rt <| rt_engine ::= fun e => e <| record_sink_ := Some q' |> |>). destruct recs as [|r recs].
  { destruct Hpop as [-> Hpop]. apply ensures_Ok. cbn [written]. rewrite app_nil_r.
    split; [by exists q'|]. split; [done|]. change (size (@nil UsageRecord)) with 0. split; f_equal; cbn; lia. }
  destruct Hpop as [-> Hpop]. cbn [length] in Hf. cbn [written]. rewrite size_app, size_cons.
  change (rt_records_file rt1) with (rt_records_file rt). rewrite Hp. destruct (ok k).
  - set (rt2 := rt1 <| rt_records_file := Some (f ++ [r]) |> <| rt_records_written ::= incr |>).
    eapply ensures_mono; [apply (IH (S k) rt2 recs q' (f ++ [r])); [done|done|done|lia]|].
    intros rt' (Hs & Hfile & Hw & He). split; [done|]. change (size [r]) with 1.
    split; [by rewrite Hfile, <- app_assoc|]. split; [rewrite Hw|rewrite He].
    + change (rt_records_written rt2) with (incr (rt_records_written rt)).
      unfold incr, add64. rewrite u64_add_u64_l. f_equal; lia.
    + change (rt_record_write_errors rt2) with (rt_record_write_errors rt). f_equal; lia.
  - set (rt2 := rt1 <| rt_record_write_errors ::= incr |>).
    eapply ensures_mono; [apply (IH (S k) rt2 recs q' f); [done|done|done|lia]|].
    intros rt' (Hs & Hfile & Hw & He). split; [done|]. change (size (@nil UsageRecord)) with 0.
    split; [rewrite Hfile; done|]. split; [rewrite Hw|rewrite He].
    + change (rt_records_written rt2) with (rt_records_written rt). f_equal; lia.
    + change (rt_record_write_errors rt2) with (incr (rt_record_write_errors rt)).
      unfold incr, add64. rewrite u64_add_u64_l. f_equal; lia.
Qed.

(** Without a file every record is discarded and counted as written. *)
Lemma drain_records_discards ok : forall fuel k (rt : runtime) recs q,
  record_sink_ (rt_engine rt) = Some q -> q_repr q recs -> rt_records_file rt = None -> (length recs < fuel)%nat ->
  ensures (drain_records ok fuel k rt) (fun rt' =>
    (exists q', record_sink_ (rt_engine rt') = Some q' /\ q_repr q' []) /\ rt_records_file rt' = None /\
    u64 (rt_records_written rt') = u64 (rt_records_written rt + size recs)).
Proof.
  induction fuel as [|fuel IH]; intros k rt recs q Hq Hr Hp Hf; [lia|]. cbn [drain_records]. rewrite Hq.
  eapply ensures_bind; [by apply (q_pop_spec q recs)|]. intros [o q'] [_ Hpop].
  set (rt1 := rt <| rt_engine ::= fun e => e <| record_sink_ := Some q' |> |>). destruct recs as [|r recs].
  { destruct Hpop as [-> Hpop]. apply ensures_Ok. split; [by exists q'|]. split; [done|]. change (rt_records_written rt1) with (rt_records_written rt).
    rewrite size_nil. f_equal; lia. }
  destruct Hpop as [-> Hpop]. cbn [length] in Hf. rewrite size_cons.
  change (rt_records_file rt1) with (rt_records_file rt). rewrite Hp.
  set (rt2 := rt1 <| rt_records_written ::= incr |>).
  eapply ensures_mono; [apply (IH k rt2 recs q'); [done|done|done|lia]|]. intros rt' (Hs & Hfile & Hw).
  split; [done|]. split; [done|]. rewrite Hw. change (rt_records_written rt2) with (incr (rt_records_written rt)).
  unfold incr, add64. rewrite u64_add_u64_l. f_equal; lia.
Qed.

(** The reporter loses no record silently.  With an open record file,
    [drain_records] returns with the record ring empty; the queued records whose line could be written are in the
    file, in order, behind what was there; the written and error counters grow
    by the numbers of lines written and not written, so together by the number
    of records popped. *)
Theorem reporter_writes_all ok (rt : runtime) recs f fuel :
  records_queued rt recs -> rt_records_file rt = Some f ->
  (length recs < fuel)%nat ->
  ensures (drain_records ok fuel 0 rt) (fun rt' => exists lines,
    records_queued rt' [] /\ lines `sublist_of` recs /\ ((forall k, ok k = true) -> lines = recs) /\
    rt_records_file rt' = Some (f ++ lines) /\
    u64 (rt_records_written rt') = u64 (rt_records_written rt + size lines) /\
    u64 (rt_record_write_errors rt') = u64 (rt_record_write_errors rt + (size recs - size lines))).
Proof.
  intros (q & Hq & Hr) Hp Hf. eapply ensures_mono; [by apply (drain_records_spec ok fuel 0 rt recs q f)|].
  intros rt' (Hs & Hfile & Hw & He). exists (written ok 0 recs). split_and!; try done.
  - clear. generalize 0%nat. induction recs as [|r recs IH]; intros k; cbn [written]; [constructor|].
    destruct (ok k); cbn [app]; [by apply sublist_skip|by apply sublist_cons].
  - clear. intros Hok. generalize 0%nat. induction recs as [|r recs IH]; intros k; cbn [written]; [done|].
    rewrite Hok. cbn [app]. by rewrite IH.
Qed.
End System.

(** ** Witnesses: the sample engine behind the sample ingest *)

Definition sample_rt_cfg : RuntimeConfig := mkRuntimeConfig 2 100 1 true (mkDetailConfig 4 4 4) 1000.
Definition sample_runtime : Runtime _ (SpscRing UsageRecord) (SpscRing MeterEvent) (SpscRing GyEvent) :=
  runtime_of sample_rt_cfg IngestConfig_init (sample_ring MeterEvent_init) (sample_ring GyEvent_init) (Some []) 7 sample_running.

Lemma sample_runtime_ok : rt_ok sample_runtime [] [].
Proof.
  constructor; [apply sample_running_good|by eexists; split; [reflexivity|apply sample_ring_empty]..|done|done|done|].
  split; [by split_and!|]. cbn. lia.
Qed.

(** The same runtime with two packets and a Gy report on its rings. *)
Definition filled {A} (r : SpscRing A) (l : list A) : SpscRing A :=
  foldl (fun r x => match q_push r x with Ok (_, r') => r' | _ => r end) r l.
Definition sample_queued : list MeterEvent := [sample_packet 100 64 0; sample_packet 201 36 0].
Definition sample_reports : list GyEvent := [GyEvent_init <| gy_imsi := 11 |> <| gy_has_imsi := true |>].
Definition sample_loaded : Runtime _ (SpscRing UsageRecord) (SpscRing MeterEvent) (SpscRing GyEvent) :=
  runtime_of sample_rt_cfg IngestConfig_init (filled (sample_ring MeterEvent_init) sample_queued)
    (filled (sample_ring GyEvent_init) sample_reports) (Some []) 7 sample_running.

Lemma filled_repr {A} (r : SpscRing A) l k : q_repr r k -> size k + size l <= q_cap r -> q_repr (filled r l) (k ++ l).
Proof.
  revert r k. induction l as [|x l IH]; intros r k Hr Hc; [by rewrite app_nil_r|]. rewrite size_cons in Hc. cbn [filled foldl].
  destruct (q_push_spec r k x Hr) as ([ok r'] & -> & Hcap & Hp). pose proof (size_nonneg l).
  replace (size k <? q_cap r) with true in Hp by (symmetry; apply Z.ltb_lt; lia). destruct Hp as [_ Hp].
  replace (k ++ x :: l) with ((k ++ [x]) ++ l) by (by rewrite <- app_assoc). apply IH; [done|].
  rewrite size_app, Hcap. change (size [x]) with 1. lia.
Qed.

Lemma sample_loaded_ok : rt_ok sample_loaded sample_queued sample_reports.
Proof.
  constructor; [apply sample_running_good| | | |done|done|].
  - eexists. split; [reflexivity|]. apply (filled_repr _ sample_queued []); [apply sample_ring_empty|vm_compute; congruence].
  - eexists. split; [reflexivity|]. apply (filled_repr _ sample_reports []); [apply sample_ring_empty|vm_compute; congruence].
  - constructor; [|constructor; [|constructor]]; unfold sound_event, event_ok, UINT64_MAX; cbn; split_and!; lia || done.
  - split; [by split_and!|]. cbn. lia.
Qed.

Lemma meter_loop_drains_witness :
  pend UlBytes (rt_engine sample_loaded) 0 = 700 /\
  ensures (meter_loop sample_wall sample_wall sample_wall (fun _ t => t) 3 sample_loaded) (fun rt' =>
    (exists ops, applied ops = sample_queued /\ reported ops = sample_reports) /\
    (forall i, pend UlBytes (rt_engine rt') i = 0 /\ pend DlBytes (rt_engine rt') i = 0) /\
    exists sn, rt_stats rt' = Some sn /\ sn_meter_ring_depth sn = 0).
Proof.
  split; [vm_compute; reflexivity|]. eapply ensures_mono.
  - apply (meter_loop_drains sample_wall sample_wall sample_wall (fun _ t => t) sample_loaded sample_queued sample_reports 3).
    + apply sample_loaded_ok.
    + cbn. lia.
  - intros rt' (ops & now & recs & H1 & H2 & _ & _ & Hz & _ & _ & _ & _ & sn & H3 & _ & H4 & _).
    split; [exists ops; split; assumption|]. split; [exact Hz|]. exists sn. split; assumption.
Defined.

Lemma session_settles_witness :
  ensures (fresh_engine sample_cfg sample_teids (Some sample_sink)) (fun e0 =>
  ensures (@session_run little _ _ _ _ _ _ _ _ _ sample_wall sample_wall sample_wall (fun _ t => t)
    (runtime_of sample_rt_cfg IngestConfig_init (sample_ring MeterEvent_init) (sample_ring GyEvent_init) (Some []) 7)
    e0 [sample_session 11 0x1001 101] 3 [[(sample_frame, 5)]; []]) (fun '(os, rt') => length os = 1%nat)).
Proof.
  eapply ensures_mono.
  - apply (@session_settles little _ _ _ _ _ _ _ _ _ sample_wall sample_wall sample_wall (fun _ t => t) sample_cfg sample_teids
      sample_sink sample_rt_cfg IngestConfig_init (sample_ring MeterEvent_init) (sample_ring GyEvent_init) (Some []) 7
      [sample_session 11 0x1001 101] 3 [[(sample_frame, 5)]; []]).
    + apply sample_fresh.
    + apply sample_ring_empty.
    + apply sample_ring_empty.
    + cbn. lia.
    + cbn. lia.
    + constructor; [|constructor]. unfold session_ok. cbn. lia.
    + constructor; [|constructor; [constructor|constructor]]. constructor; [|constructor]. split; vm_compute; [reflexivity|].
      split; [congruence|reflexivity].
  - intros e0 He0. eapply ensures_mono; [exact He0|]. intros [os rt'] [H _]. exact H.
Defined.

(** The sample record ring with one record in it. *)
Definition sample_record : UsageRecord := UsageRecord_init <| r_imsi := 11 |>.
Definition sample_sink1 : SpscRing UsageRecord :=
  match q_push sample_sink sample_record with Ok (_, q) => q | _ => sample_sink end.

Lemma sample_sink1_repr : q_repr sample_sink1 [sample_record].
Proof.
  assert (q_repr sample_sink []) as H by apply sample_fresh.
  destruct (q_push_spec sample_sink [] sample_record H) as ([ok q] & E & _ & Hp). unfold sample_sink1. rewrite E.
  change (size [] <? q_cap sample_sink) with true in Hp. apply Hp.
Qed.

Lemma reporter_writes_all_witness :
  ensures (drain_records (fun _ => true) 5 0
    (sample_runtime <| rt_engine ::= fun e => e <| record_sink_ := Some sample_sink1 |> |>)) (fun rt' =>
    rt_records_file rt' = Some [sample_record]).
Proof.
  eapply ensures_mono.
  - apply (reporter_writes_all (fun _ => true)
      (sample_runtime <| rt_engine ::= fun e => e <| record_sink_ := Some sample_sink1 |> |>) [sample_record] [] 5).
    + exists sample_sink1. split; [reflexivity|apply sample_sink1_repr].
    + reflexivity.
    + cbn. lia.
  - intros rt' (lines & _ & _ & Hl & -> & _). rewrite Hl by reflexivity. reflexivity.
Defined.
