(* ===== verification/SessionCsv.v ===== *)
(** * include/gtpm/session.hpp: the session file

    The CSV reader and writer.  Text is a list of bytes; a file that can be
    opened is its contents.  [std::getline] is [getlines]: a line ends at the
    delimiter or at the end of the input, and an empty rest is no line. *)

From Stdlib Require Strings.String.
From S2P Require Import Prelude Session.

Definition ch_tab : byte := x09.
Definition ch_nl : byte := x0a.
Definition ch_cr : byte := x0d.
Definition ch_space : byte := x20.
Definition ch_hash : byte := x23.
Definition ch_comma : byte := x2c.

Fixpoint getlines (d : byte) (s : Bytes) : list Bytes :=
  match s with
  | [] => []
  | c :: s =>
      if decide (c = d) then [] :: getlines d s
      else match getlines d s with [] => [[c]] | l :: ls => (c :: l) :: ls end
  end.

Definition is_blank (c : byte) : bool :=
  bool_decide (c = ch_space) || bool_decide (c = ch_tab) || bool_decide (c = ch_cr).
Fixpoint skip_blanks (s : Bytes) : Bytes :=
  match s with c :: t => if is_blank c then skip_blanks t else s | [] => [] end.
Definition trim (s : Bytes) : Bytes := rev (skip_blanks (rev (skip_blanks s))).

Definition digit_of (base : Z) (c : byte) : option Z :=
  let v := bval c in
  if (48 <=? v) && (v <=? 57) then Some (v - 48)
  else if (base =? 16) && (97 <=? v) && (v <=? 102) then Some (v - 97 + 10)
  else if (base =? 16) && (65 <=? v) && (v <=? 70) then Some (v - 65 + 10)
  else None.

Fixpoint parse_digits (base : Z) (s : Bytes) (v : Z) : option Z :=
  match s with
  | [] => Some v
  | c :: s =>
      match digit_of base c with
      | Some digit => parse_digits base s (add64 (mul64 v base) digit)
      | None => None
      end
  end.

Definition hex_prefix (s : Bytes) : bool :=
  match s with
  | c0 :: c1 :: _ :: _ => (bval c0 =? 48) && ((bval c1 =? 120) || (bval c1 =? 88))
  | _ => false
  end.

Definition parse_u64 (s : Bytes) : option Z :=
  match s with
  | [] => None
  | _ => if hex_prefix s then parse_digits 16 (drop 2 s) 0 else parse_digits 10 s 0
  end.

Record SessionLoadResult := mkLoad {
  sessions : list SessionSpec;
  skipped_lines : Z;
  load_error : option Bytes
}.
#[export] Instance SessionLoadResult_eta : Eta SessionLoadResult := fun r =>
  mkLoad (sessions r) (skipped_lines r) (load_error r).
Definition load_ok (r : SessionLoadResult) : bool := match load_error r with None => true | Some _ => false end.

(** The columns after the three mandatory ones. *)
Definition optional_columns (s : SessionSpec) (rest : list Bytes) : SessionSpec :=
  let s := match rest with
           | c3 :: _ => match parse_u64 c3 with
                        | Some rg => if rg <=? UINT32_MAX then s <| s_rating_group := rg |> else s
                        | None => s
                        end
           | [] => s
           end in
  let s := match rest with _ :: c4 :: _ => s <| s_msisdn := c4 |> | _ => s end in
  match rest with _ :: _ :: c5 :: _ => s <| s_apn := c5 |> | _ => s end.

(** One row: the session, or [None] when the line is counted as skipped. *)
Definition parse_row (trimmed : Bytes) : option SessionSpec :=
  match map trim (getlines ch_comma trimmed) with
  | c0 :: c1 :: c2 :: rest =>
      match parse_u64 c0, parse_u64 c1, parse_u64 c2 with
      | Some imsi, Some ul, Some dl =>
          if (UINT32_MAX <? ul) || (UINT32_MAX <? dl) then None else
          let s := optional_columns (mkSessionSpec imsi ul dl 0 [] []) rest in
          if session_valid s then Some s else None
      | _, _, _ => None
      end
  | _ => None
  end.

Definition csv_header_tag : Bytes := String.list_byte_of_string "imsi".

Definition ignored (trimmed : Bytes) : bool :=
  match trimmed with [] => true | c :: _ => bool_decide (c = ch_hash) end
  || bool_decide (take 4 trimmed = csv_header_tag).

(** The body of the line loop. *)
Definition load_line (r : SessionLoadResult) (line : Bytes) : SessionLoadResult :=
  let trimmed := trim line in
  if ignored trimmed then r else
  match parse_row trimmed with
  | Some s => r <| sessions ::= fun l => l ++ [s] |>
  | None => r <| skipped_lines ::= fun n => add64 n 1 |>
  end.

(** [file] is [None] when the path cannot be opened. *)
Definition load_sessions_csv (path : Bytes) (file : option Bytes) : SessionLoadResult :=
  match file with
  | None => mkLoad [] 0 (Some (String.list_byte_of_string "cannot open session file: " ++ path))
  | Some text => foldl load_line (mkLoad [] 0 None) (getlines ch_nl text)
  end.

(** [out << v] for an unsigned integer; 20 digits hold every 64-bit value. *)
Definition digit_char (d : Z) : byte := to_byte (48 + d).
Fixpoint show_loop (fuel : nat) (v : Z) : Bytes :=
  match fuel with
  | O => []
  | S fuel => if v <? 10 then [digit_char v] else show_loop fuel (v / 10) ++ [digit_char (v mod 10)]
  end.
Definition show_u64 (v : Z) : Bytes := show_loop 20 v.

Definition csv_header : Bytes := String.list_byte_of_string "imsi,ul_teid,dl_teid,rating_group,msisdn,apn".

Definition csv_row (s : SessionSpec) : Bytes :=
  show_u64 (s_imsi s) ++ ch_comma :: show_u64 (s_ul_teid s) ++ ch_comma :: show_u64 (s_dl_teid s) ++ ch_comma ::
  show_u64 (s_rating_group s) ++ ch_comma :: s_msisdn s ++ ch_comma :: s_apn s ++ [ch_nl].

(** The contents [write_sessions_csv] gives the file it truncated. *)
Definition write_sessions_csv (ss : list SessionSpec) : Bytes :=
  csv_header ++ ch_nl :: concat (map csv_row ss).

(** ** Lines and cells *)

Lemma getlines_cons d l rest : Forall (fun c => c <> d) l -> getlines d (l ++ d :: rest) = l :: getlines d rest.
Proof.
  induction 1 as [|c l Hc _ IH]; cbn [app getlines]; [by rewrite decide_True|].
  rewrite decide_False by done. by rewrite IH.
Qed.

Lemma getlines_last d l : Forall (fun c => c <> d) l -> getlines d l = match l with [] => [] | _ => [l] end.
Proof.
  induction 1 as [|c l Hc _ IH]; cbn [getlines]; [done|]. rewrite decide_False by done. rewrite IH. by destruct l.
Qed.

Lemma getlines_no_delim d s : Forall (Forall (fun c => c <> d)) (getlines d s).
Proof.
  induction s as [|c s IH]; cbn [getlines]; [constructor|]. case_decide; [by constructor|].
  destruct (getlines d s) as [|l ls]; [by repeat constructor|].
  apply Forall_cons_iff in IH as [Hl Hls]. by repeat constructor.
Qed.

(** ** Numbers *)

Lemma parse_digits_app base l1 l2 : forall v,
  parse_digits base (l1 ++ l2) v = match parse_digits base l1 v with Some v => parse_digits base l2 v | None => None end.
Proof. induction l1 as [|c l1 IH]; intros v; cbn [app parse_digits]; [done|]. destruct (digit_of base c); [apply IH|done]. Qed.

Lemma bval_digit d : 0 <= d < 10 -> bval (digit_char d) = 48 + d.
Proof. intros. unfold digit_char. rewrite bval_to_byte. apply u8_small. lia. Qed.

Lemma digit_of_char base d : 0 <= d < 10 -> digit_of base (digit_char d) = Some d.
Proof.
  intros H. unfold digit_of. rewrite bval_digit by done.
  destruct (Z.leb_spec 48 (48 + d)); [|lia]. destruct (Z.leb_spec (48 + d) 57); [|lia]. cbn. f_equal. lia.
Qed.

Lemma parse_show base fuel : forall v, base = 10 -> 0 <= v < 2 ^ 64 -> v < 10 ^ Z.of_nat fuel -> (0 < fuel)%nat ->
  parse_digits base (show_loop fuel v) 0 = Some v.
Proof.
  induction fuel as [|fuel IH]; intros v -> Hv Hf H0; [lia|]. cbn [show_loop]. destruct (Z.ltb_spec v 10) as [Hl|Hl].
  - cbn [parse_digits]. rewrite digit_of_char by lia. change (mul64 0 10) with 0. unfold add64. by rewrite u64_small by lia.
  - pose proof (Z.div_mod v 10). pose proof (Z.mod_pos_bound v 10).
    assert (0 < fuel)%nat by (destruct fuel; [change (10 ^ Z.of_nat 1) with 10 in Hf; lia|lia]).
    rewrite Nat2Z.inj_succ, Z.pow_succ_r in Hf by lia.
    rewrite parse_digits_app, IH; [|done|lia| |done].
    + cbn [parse_digits]. rewrite digit_of_char by lia. unfold add64, mul64. rewrite u64_add_u64_l, u64_small by lia. f_equal. lia.
    + apply Z.div_lt_upper_bound; lia.
Qed.

Definition is_dec (c : byte) : Prop := 48 <= bval c <= 57.

Lemma show_dec fuel : forall v, 0 <= v -> Forall is_dec (show_loop fuel v).
Proof.
  induction fuel as [|fuel IH]; intros v Hv; cbn [show_loop]; [constructor|]. pose proof (Z.mod_pos_bound v 10).
  destruct (Z.ltb_spec v 10); [|apply Forall_app_2; [apply IH, Z.div_pos; lia|]];
    (constructor; [|constructor]; unfold is_dec; rewrite bval_digit; lia).
Qed.

Lemma show_ne fuel v : (0 < fuel)%nat -> show_loop fuel v <> [].
Proof. destruct fuel; [lia|]. intros _. cbn [show_loop]. destruct (v <? 10); [done|]. by destruct (show_loop fuel (v / 10)). Qed.

Lemma parse_u64_show v : 0 <= v < 2 ^ 64 -> parse_u64 (show_u64 v) = Some v.
Proof.
  intros Hv. unfold show_u64. pose proof (show_dec 20 v ltac:(lia)) as Hd. pose proof (show_ne 20 v ltac:(lia)) as Hne.
  assert (parse_digits 10 (show_loop 20 v) 0 = Some v) as Hp by (apply parse_show; lia).
  assert (hex_prefix (show_loop 20 v) = false) as Hx.
  { destruct (show_loop 20 v) as [|a [|b [|c s]]]; try done. apply Forall_cons_iff in Hd as [_ [Hb _]%Forall_cons_iff].
    unfold is_dec in Hb. cbn. destruct (Z.eqb_spec (bval b) 120), (Z.eqb_spec (bval b) 88); lia. }
  unfold parse_u64. rewrite Hx, Hp. by destruct (show_loop 20 v).
Qed.

(** ** Blanks *)

Definition head_ok (s : Bytes) : Prop := match s with [] => True | c :: _ => is_blank c = false end.

Lemma skip_blanks_id s : head_ok s -> skip_blanks s = s.
Proof. destruct s as [|c s]; cbn; [done|]. by intros ->. Qed.

Lemma skip_blanks_le s : (length (skip_blanks s) <= length s)%nat.
Proof. induction s as [|c s IH]; cbn; [done|]. destruct (is_blank c); cbn; lia. Qed.

Lemma skip_blanks_head s : length (skip_blanks s) = length s -> head_ok s.
Proof.
  destruct s as [|c s]; cbn; [done|]. destruct (is_blank c) eqn:E; [|done]. pose proof (skip_blanks_le s). lia.
Qed.

Lemma trim_id s : head_ok s -> head_ok (rev s) -> trim s = s.
Proof. intros H1 H2. unfold trim. by rewrite (skip_blanks_id s H1), (skip_blanks_id _ H2), rev_involutive. Qed.

Lemma trim_ends s : trim s = s -> head_ok s /\ head_ok (rev s).
Proof.
  intros H. assert (length (trim s) = length s) as Hl by (by rewrite H). unfold trim in Hl. rewrite length_rev in Hl.
  pose proof (skip_blanks_le s) as H1. pose proof (skip_blanks_le (rev (skip_blanks s))) as H2. rewrite length_rev in H2.
  assert (head_ok s) as Hs by (apply skip_blanks_head; lia). split; [done|].
  rewrite (skip_blanks_id s Hs) in Hl. apply skip_blanks_head. rewrite length_rev. exact Hl.
Qed.

Lemma head_ok_app s t : s <> [] -> head_ok s -> head_ok (s ++ t).
Proof. by destruct s. Qed.

(** A decimal digit is none of the characters the reader looks for. *)
Lemma dec_plain c : is_dec c -> is_blank c = false /\ c <> ch_comma /\ c <> ch_nl /\ c <> ch_hash /\ c <> x69.
Proof.
  unfold is_dec, is_blank. intros H. assert (forall x, bval x < 48 \/ 57 < bval x -> c <> x) as Hne by (intros x Hx ->; lia).
  rewrite !bool_decide_eq_false_2 by (apply Hne; vm_compute; auto). split_and!; [done|apply Hne; vm_compute; auto..].
Qed.

Lemma dec_trim s : Forall is_dec s -> trim s = s.
Proof.
  assert (forall s, Forall is_dec s -> head_ok s) as Hh by (intros ? [|c ? Hc _]; [done|by apply dec_plain]).
  intros H. apply trim_id; apply Hh; [done|by apply Forall_rev].
Qed.

Lemma dec_free d s : d = ch_comma \/ d = ch_nl -> Forall is_dec s -> Forall (fun c => c <> d) s.
Proof. intros Hd. apply Forall_impl. intros c Hc%dec_plain. destruct Hd as [->| ->]; tauto. Qed.

(** ** Round trip *)

(** A text that survives as a cell. *)
Definition cell_text (t : Bytes) : Prop :=
  Forall (fun c => c <> ch_comma) t /\ Forall (fun c => c <> ch_nl) t /\ trim t = t.

Definition storable (s : SessionSpec) : Prop :=
  session_ok s /\ session_valid s = true /\ cell_text (s_msisdn s) /\ cell_text (s_apn s).

(** The row without its newline. *)
Definition csv_line (s : SessionSpec) : Bytes :=
  show_u64 (s_imsi s) ++ ch_comma :: show_u64 (s_ul_teid s) ++ ch_comma :: show_u64 (s_dl_teid s) ++ ch_comma ::
  show_u64 (s_rating_group s) ++ ch_comma :: s_msisdn s ++ ch_comma :: s_apn s.

Lemma csv_row_line s : csv_row s = csv_line s ++ [ch_nl].
Proof. unfold csv_row, csv_line. by repeat (rewrite <- app_assoc; cbn [app]). Qed.

Lemma show_u64_dec v : 0 <= v -> Forall is_dec (show_u64 v).
Proof. apply show_dec. Qed.

Lemma csv_line_cells s : storable s ->
  map trim (getlines ch_comma (csv_line s)) =
    show_u64 (s_imsi s) :: show_u64 (s_ul_teid s) :: show_u64 (s_dl_teid s) :: show_u64 (s_rating_group s) ::
    s_msisdn s :: match s_apn s with [] => [] | _ => [s_apn s] end.
Proof.
  intros (Hok & _ & (Hm & _ & Hmt) & (Ha & _ & Hat)). unfold session_ok in Hok. unfold csv_line.
  do 4 (rewrite getlines_cons by (apply dec_free; [by left|apply show_u64_dec; lia])).
  rewrite getlines_cons, (getlines_last _ _ Ha) by done. cbn [map].
  do 4 (rewrite dec_trim by (apply show_u64_dec; lia)). rewrite Hmt. do 5 f_equal.
  destruct (s_apn s); [done|]. cbn [map]. by rewrite Hat.
Qed.

Lemma parse_csv_line s : storable s -> parse_row (csv_line s) = Some s.
Proof.
  intros Hs. unfold parse_row. rewrite csv_line_cells by done. destruct Hs as (Hok & Hv & _). unfold session_ok in Hok.
  rewrite !parse_u64_show by lia. unfold UINT32_MAX.
  destruct (Z.ltb_spec (2 ^ 32 - 1) (s_ul_teid s)); [lia|]. destruct (Z.ltb_spec (2 ^ 32 - 1) (s_dl_teid s)); [lia|]. cbn [orb].
  replace (optional_columns _ _) with s; [by rewrite Hv|]. unfold optional_columns, UINT32_MAX. rewrite parse_u64_show by lia.
  destruct (Z.leb_spec (s_rating_group s) (2 ^ 32 - 1)); [|lia]. destruct s as [? ? ? ? ? [|]]; reflexivity.
Qed.

Lemma csv_line_trim s : storable s -> trim (csv_line s) = csv_line s.
Proof.
  intros (Hok & _ & _ & (_ & _ & [_ Hr]%trim_ends)). unfold session_ok in Hok. apply trim_id; unfold csv_line.
  - apply head_ok_app; [apply show_ne; lia|]. apply (trim_ends (show_u64 (s_imsi s))), dec_trim, show_u64_dec. lia.
  - repeat (rewrite rev_app_distr; cbn [rev]). rewrite <- !app_assoc. destruct (rev (s_apn s)); done.
Qed.

Lemma dec_kept l t : l <> [] -> Forall is_dec l -> ignored (l ++ t) = false.
Proof.
  destruct l as [|c l]; [done|]. intros _ [(_ & _ & _ & H1 & H2)%dec_plain _]%Forall_cons_iff. unfold ignored.
  change csv_header_tag with [x69; x6d; x73; x69]. cbn [app take]. rewrite !bool_decide_eq_false_2; [done|congruence|done].
Qed.

Lemma csv_line_kept s : storable s -> ignored (csv_line s) = false.
Proof.
  intros (Hok & _). unfold session_ok in Hok. apply dec_kept; [apply show_ne; lia|apply show_u64_dec; lia].
Qed.

Lemma load_csv_line r s : storable s -> load_line r (csv_line s) = r <| sessions ::= fun l => l ++ [s] |>.
Proof. intros Hs. unfold load_line. by rewrite csv_line_trim, csv_line_kept, parse_csv_line. Qed.

Lemma csv_line_no_nl s : storable s -> Forall (fun c => c <> ch_nl) (csv_line s).
Proof.
  intros (Hok & _ & (_ & Hm & _) & (_ & Ha & _)). unfold session_ok in Hok. unfold csv_line.
  do 4 (apply Forall_app_2; [apply dec_free; [by right|apply show_u64_dec; lia]|apply Forall_cons_2; [done|]]).
  apply Forall_app_2; [done|]. by apply Forall_cons_2.
Qed.

Lemma load_rows r ss : Forall storable ss ->
  foldl load_line r (getlines ch_nl (concat (map csv_row ss))) = r <| sessions ::= fun l => l ++ ss |>.
Proof.
  intros H. revert r. induction H as [|s ss Hs _ IH]; intros r; cbn [map concat].
  - destruct r as [l n e]. change (mkLoad l n e = mkLoad (l ++ []) n e). by rewrite app_nil_r.
  - rewrite csv_row_line, <- app_assoc. cbn [app]. rewrite getlines_cons by (by apply csv_line_no_nl).
    cbn [foldl]. rewrite load_csv_line, IH by done. destruct r as [l n e].
    change (mkLoad ((l ++ [s]) ++ ss) n e = mkLoad (l ++ s :: ss) n e). by rewrite <- app_assoc.
Qed.

(** ** What a load can return *)

Lemma digit_of_range base c d : digit_of base c = Some d -> 0 <= d < 16.
Proof. unfold digit_of. intros H. repeat case_if_in H; bool_to_prop; try done; injection H as <-; lia. Qed.

Lemma parse_digits_range base s : forall v r, 0 <= v < 2 ^ 64 -> parse_digits base s v = Some r -> 0 <= r < 2 ^ 64.
Proof.
  induction s as [|c s IH]; intros v r Hv; cbn [parse_digits]; [by intros [= <-]|].
  destruct (digit_of base c); [|done]. apply IH, u64_range.
Qed.

Lemma parse_u64_range s v : parse_u64 s = Some v -> 0 <= v < 2 ^ 64.
Proof. unfold parse_u64. destruct s as [|c s]; [done|]. destruct (hex_prefix _); apply parse_digits_range; lia. Qed.

Lemma optional_columns_ok s rest : session_ok s -> session_ok (optional_columns s rest).
Proof.
  unfold session_ok, optional_columns, UINT32_MAX. intros H. destruct rest as [|c3 rest]; [done|].
  destruct (parse_u64 c3) as [rg|] eqn:E; [apply parse_u64_range in E; destruct (Z.leb_spec rg (2 ^ 32 - 1))|];
    destruct rest as [|c4 [|c5 rest]]; cbn; lia.
Qed.

Lemma parse_row_ok l s : parse_row l = Some s -> session_ok s /\ session_valid s = true.
Proof.
  unfold parse_row, UINT32_MAX. destruct (map trim _) as [|c0 [|c1 [|c2 rest]]]; try done.
  destruct (parse_u64 c0) as [imsi|] eqn:E0, (parse_u64 c1) as [ul|] eqn:E1, (parse_u64 c2) as [dl|] eqn:E2; try done.
  apply parse_u64_range in E0, E1, E2.
  destruct (Z.ltb_spec (2 ^ 32 - 1) ul), (Z.ltb_spec (2 ^ 32 - 1) dl); cbn [orb]; try done.
  destruct (session_valid (optional_columns _ rest)) eqn:Ev; [|done]. intros [= <-]. split; [|done].
  apply optional_columns_ok. unfold session_ok. cbn. lia.
Qed.

(** Lines the reader passes over: blank, comment and header lines. *)
Definition passed_over (line : Bytes) : Prop := ignored (trim line) = true.

Lemma load_line_cases r l :
  (passed_over l /\ load_line r l = r) \/
  (~ passed_over l /\ exists s, (session_ok s /\ session_valid s = true) /\
     load_line r l = r <| sessions ::= fun l => l ++ [s] |>) \/
  (~ passed_over l /\ load_line r l = r <| skipped_lines ::= fun n => add64 n 1 |>).
Proof.
  unfold passed_over, load_line. destruct (ignored (trim l)); [by left|right].
  destruct (parse_row (trim l)) as [s|] eqn:E; [left|by right]. split; [done|]. exists s. by split; [eapply parse_row_ok|].
Qed.

Lemma load_lines_sound ls : forall r,
  Forall (fun s => session_ok s /\ session_valid s = true) (sessions r) ->
  0 <= skipped_lines r -> skipped_lines r + size ls < 2 ^ 64 ->
  let r' := foldl load_line r ls in
  Forall (fun s => session_ok s /\ session_valid s = true) (sessions r') /\ load_error r' = load_error r /\
  size (sessions r') + skipped_lines r' + size (filter passed_over ls) = size (sessions r) + skipped_lines r + size ls.
Proof.
  induction ls as [|l ls IH]; intros r Hr H0 Hb; cbn [foldl].
  { cbn. unfold size. cbn. split_and!; [done|done|lia]. }
  rewrite size_cons in Hb |- *. rewrite filter_cons. pose proof (size_nonneg ls).
  destruct (load_line_cases r l) as [[Hp ->]|[(Hp & s & Hs & ->)|[Hp ->]]].
  - rewrite decide_True by done. rewrite size_cons. destruct (IH r) as (H1 & H2 & H3); [done|done|lia|].
    split_and!; [done|done|]. lia.
  - rewrite decide_False by done. set (r1 := r <| sessions ::= fun l => l ++ [s] |>).
    assert (sessions r1 = sessions r ++ [s]) as E by reflexivity.
    destruct (IH r1) as (H1 & H2 & H3); [rewrite E; by apply Forall_app_2; [|constructor]|done|change (skipped_lines r1) with (skipped_lines r); lia|].
    split_and!; [exact H1|exact H2|]. rewrite H3, E, size_app. change (skipped_lines r1) with (skipped_lines r).
    change (size [s]) with 1. lia.
  - rewrite decide_False by done. set (r1 := r <| skipped_lines ::= fun n => add64 n 1 |>).
    assert (skipped_lines r1 = skipped_lines r + 1) as E.
    { change (add64 (skipped_lines r) 1 = skipped_lines r + 1). apply u64_small. lia. }
    destruct (IH r1) as (H1 & H2 & H3); [done|lia|lia|].
    split_and!; [exact H1|exact H2|]. rewrite H3, E. change (sessions r1) with (sessions r). lia.
Qed.

(** C32: Whatever the session file holds, a load yields only sessions the engine
    can install: non-zero IMSI, at least one TEID, every field within its width;
    and every line is accounted for: it is a blank, comment or header line, it
    gave one session, or it is counted in [skipped_lines]. *)
Theorem csv_load_sound path text : size (getlines ch_nl text) < 2 ^ 64 ->
  let r := load_sessions_csv path (Some text) in
  load_error r = None /\
  Forall (fun s => session_ok s /\ session_valid s = true) (sessions r) /\
  size (sessions r) + skipped_lines r + size (filter passed_over (getlines ch_nl text)) = size (getlines ch_nl text).
Proof.
  intros Hb. cbn zeta. unfold load_sessions_csv.
  destruct (load_lines_sound (getlines ch_nl text) (mkLoad [] 0 None)) as (H1 & H2 & H3); [constructor|done|done|].
  split_and!; [exact H2|exact H1|exact H3].
Qed.

Lemma csv_load_sound_witness :
  let text := String.list_byte_of_string "# x
12,0x10,7
bad,1,2
0,1,2
" in
  let r := load_sessions_csv [] (Some text) in
  sessions r = [mkSessionSpec 12 16 7 0 [] []] /\ skipped_lines r = 2 /\
  Forall (fun s => session_ok s /\ session_valid s = true) (sessions r).
Proof.
  cbn zeta. split; [vm_compute; reflexivity|]. split; [vm_compute; reflexivity|].
  apply csv_load_sound. vm_compute. reflexivity.
Defined.

(** C31: The session file round trip.  What [write_sessions_csv] writes,
    [load_sessions_csv] reads back unchanged and in order, with no line skipped
    and no error, for any sessions that are valid, fit their fields and have
    MSISDN and APN texts that can stand in a cell (no comma, no newline, no
    blanks at the ends); empty texts included. *)
Theorem sessions_csv_roundtrip path ss : Forall storable ss ->
  load_sessions_csv path (Some (write_sessions_csv ss)) = mkLoad ss 0 None.
Proof.
  intros H. unfold load_sessions_csv, write_sessions_csv. rewrite getlines_cons; [|by repeat (constructor; [done|])].
  cbn [foldl]. change (load_line _ csv_header) with (mkLoad [] 0 None). by rewrite load_rows.
Qed.

Lemma sessions_csv_roundtrip_witness :
  let ss := [mkSessionSpec 1010123456789 0x1001 0x2001 7 [x34; x39] []; mkSessionSpec 42 0 9 0 [] [x69; x6d; x73]] in
  load_sessions_csv [] (Some (write_sessions_csv ss)) = mkLoad ss 0 None.
Proof.
  apply sessions_csv_roundtrip. repeat constructor; try done; vm_compute; split_and?; congruence.
Defined.
