(* ===== verification/Pcap.v ===== *)
(** * include/gtpm/pcap.hpp, source.hpp, src/ingest_pcap.cpp: captures

    The classic pcap reader and writer, the link-layer strip and the replay
    source.  A file is its contents; [read_all] says whether [fread] delivered
    all of them.  The packets of a loaded file are sub-lists of it, as the C++
    views are. *)

From Stdlib Require Strings.String.
From S2P Require Import Prelude ByteOrder.

Definition kPcapMagicMicro : Z := 0xA1B2C3D4.
Definition kPcapMagicMicroSwapped : Z := 0xD4C3B2A1.
Definition kPcapMagicNano : Z := 0xA1B23C4D.
Definition kPcapMagicNanoSwapped : Z := 0x4D3CB2A1.
Definition kPcapFileHeaderLen : Z := 24.
Definition kPcapRecordHeaderLen : Z := 16.

Module LinkType.
Definition kEthernet : Z := 1.
Definition kRawIp : Z := 101.
Definition kLinuxSll : Z := 113.
Definition kRawIpv4 : Z := 228.
Definition kRawIpv6 : Z := 229.
End LinkType.

Record PcapPacket := mkPacket { p_data : Bytes; p_ts_ns : Z; p_orig_len : Z }.
Definition truncated (p : PcapPacket) : bool := size (p_data p) <? p_orig_len p.

Record PcapFile := mkPcap {
  bytes_ : Bytes;
  packets_ : list PcapPacket;
  link_type_ : Z;
  snaplen_ : Z;
  version_major_ : Z;
  version_minor_ : Z;
  swapped_ : bool;
  nanosecond_ : bool
}.
#[export] Instance PcapFile_eta : Eta PcapFile := fun f =>
  mkPcap (bytes_ f) (packets_ f) (link_type_ f) (snaplen_ f) (version_major_ f) (version_minor_ f) (swapped_ f) (nanosecond_ f).
Definition PcapFile_init : PcapFile := mkPcap [] [] LinkType.kEthernet 0 2 4 false false.

(** [PcapFile::Result]. *)
Record PcapResult := mkResult { pr_error : option Bytes; malformed_records : Z }.
Definition pcap_failed (message : String.string) (path : Bytes) : PcapResult :=
  mkResult (Some (String.list_byte_of_string message ++ path)) 0.

Definition packets_bytes (f : PcapFile) : Z := foldr (fun p n => add64 n (size (p_data p))) 0 (packets_ f).

Section Pcap.
Context {HE : HostEndian}.

(** The lambdas [u32] and [u16] of [load]. *)
Definition rd32 (swapped : bool) (f : Bytes) (p : Z) : res Z := if swapped then load_be32 f p else load_le32 f p.
Definition rd16 (swapped : bool) (f : Bytes) (p : Z) : res Z := if swapped then load_be16 f p else load_le16 f p.

(** Byte order and resolution by magic. *)
Definition magic_kind (magic_le : Z) : option (bool * bool) :=
  if magic_le =? kPcapMagicMicro then Some (false, false)
  else if magic_le =? kPcapMagicMicroSwapped then Some (true, false)
  else if magic_le =? kPcapMagicNano then Some (false, true)
  else if magic_le =? kPcapMagicNanoSwapped then Some (true, true)
  else None.

Definition packet_ts (nanos : bool) (ts_sec ts_frac : Z) : Z :=
  add64 (mul64 ts_sec 1000000000) (if nanos then ts_frac else mul64 ts_frac 1000).

(** The record loop: the packets and the number of malformed records. *)
Fixpoint pcap_loop (fuel : nat) (swapped nanos : bool) (f : Bytes) (off : Z) : res (list PcapPacket * Z) :=
  match fuel with
  | O => Fuel
  | S fuel =>
      if off + kPcapRecordHeaderLen <=? size f then
        let* ts_sec := rd32 swapped f off in
        let* ts_frac := rd32 swapped f (off + 4) in
        let* incl_len := rd32 swapped f (off + 8) in
        let* orig_len := rd32 swapped f (off + 12) in
        let off := off + kPcapRecordHeaderLen in
        if size f - off <? incl_len then Ok ([], 1) else
        let* data := subspan f off incl_len in
        let* (ps, bad) := pcap_loop fuel swapped nanos f (off + incl_len) in
        Ok (mkPacket data (packet_ts nanos ts_sec ts_frac) orig_len :: ps, bad)
      else Ok ([], 0)
  end.

Definition pcap_parse (path f : Bytes) : res (PcapResult * PcapFile) :=
  let* magic_le := load_le32 f 0 in
  match magic_kind magic_le with
  | None => Ok (pcap_failed "not a pcap file (bad magic); pcapng is not supported: " path, PcapFile_init <| bytes_ := f |>)
  | Some (swapped, nanos) =>
      let* major := rd16 swapped f 4 in
      let* minor := rd16 swapped f 6 in
      let* snaplen := rd32 swapped f 16 in
      let* link := rd32 swapped f 20 in
      let* (ps, bad) := pcap_loop (S (length f)) swapped nanos f kPcapFileHeaderLen in
      Ok (mkResult None bad, mkPcap f ps link snaplen major minor swapped nanos)
  end.

(** [file] is [None] when the path cannot be opened. *)
Definition load (path : Bytes) (file : option Bytes) (read_all : bool) : res (PcapResult * PcapFile) :=
  match file with
  | None => Ok (pcap_failed "cannot open capture: " path, PcapFile_init)
  | Some f =>
      if size f <? kPcapFileHeaderLen then
        Ok (pcap_failed "capture is shorter than a pcap file header: " path, PcapFile_init)
      else if negb read_all then Ok (pcap_failed "short read on capture: " path, PcapFile_init <| bytes_ := f |>)
      else pcap_parse path f
  end.

(** ** The writer: what it appends to its file *)

Definition pcap_open (link snaplen : Z) : res Bytes :=
  let* h := store_le32 (replicate 24 x00) 0 kPcapMagicMicro in
  let* h := store_le16 h 4 2 in
  let* h := store_le16 h 6 4 in
  let* h := store_le32 h 8 0 in
  let* h := store_le32 h 12 0 in
  let* h := store_le32 h 16 snaplen in
  store_le32 h 20 link.

Definition pcap_write (file : Bytes) (ts_ns : Z) (data : Bytes) (orig_len : Z) : res Bytes :=
  let* r := store_le32 (replicate 16 x00) 0 (u32 (ts_ns / 1000000000)) in
  let* r := store_le32 r 4 (u32 ((ts_ns mod 1000000000) / 1000)) in
  let* r := store_le32 r 8 (u32 (size data)) in
  let* r := store_le32 r 12 (if negb (orig_len =? 0) then orig_len else u32 (size data)) in
  Ok (file ++ r ++ data).

Fixpoint pcap_write_all (file : Bytes) (ps : list PcapPacket) : res Bytes :=
  match ps with
  | [] => Ok file
  | p :: ps => let* file := pcap_write file (p_ts_ns p) (p_data p) (p_orig_len p) in pcap_write_all file ps
  end.
End Pcap.

(** ** Link layer *)

Record LinkLayer := mkLink { ll_payload : Bytes; ll_is_ethernet : bool; ll_valid : bool }.

Definition strip_link_layer (link_type : Z) (frame : Bytes) : res LinkLayer :=
  if link_type =? LinkType.kEthernet then Ok (mkLink frame true true)
  else if (link_type =? LinkType.kRawIp) || (link_type =? LinkType.kRawIpv4) || (link_type =? LinkType.kRawIpv6)
  then Ok (mkLink frame false true)
  else if link_type =? LinkType.kLinuxSll then
    if 16 <? size frame then let* p := subspan_from frame 16 in Ok (mkLink p false true) else Ok (mkLink [] false false)
  else Ok (mkLink [] false false).

(** ** Replay *)

Record Replay := mkReplay {
  rp_file : PcapFile;
  rp_loops : Z;
  rp_cursor : Z;
  rp_loop : Z;
  rp_replayed : Z;
  rp_bytes : Z;
  rp_exhausted : bool;
  rp_stopped : bool
}.
#[export] Instance Replay_eta : Eta Replay := fun r =>
  mkReplay (rp_file r) (rp_loops r) (rp_cursor r) (rp_loop r) (rp_replayed r) (rp_bytes r) (rp_exhausted r) (rp_stopped r).

(** [PcapReplaySource::open]: the source or the error. *)
Definition replay_open {HE : HostEndian} (path : Bytes) (file : option Bytes) (read_all : bool) (loops : Z)
    : res (Bytes + Replay) :=
  let* (r, f) := load path file read_all in
  match pr_error r with
  | Some e => Ok (inl e)
  | None =>
      match packets_ f with
      | [] => Ok (inl (String.list_byte_of_string "capture contains no packets: " ++ path))
      | _ => Ok (inr (mkReplay f loops 0 0 0 0 false false))
      end
  end.

(** The loop of [next_batch] with room for [room] more packets. *)
Fixpoint batch_fill (room : nat) (r : Replay) : res (list PcapPacket * Replay) :=
  match room with
  | O => Ok ([], r)
  | S room =>
      let wrap := size (packets_ (rp_file r)) <=? rp_cursor r in
      let loop := u32 (rp_loop r + 1) in
      if wrap && (negb (rp_loops r =? 0) && (rp_loops r <=? loop)) then
        Ok ([], r <| rp_loop := loop |> <| rp_exhausted := true |>)
      else
        let r := if wrap then r <| rp_loop := loop |> <| rp_cursor := 0 |> else r in
        let* p := at_ (packets_ (rp_file r)) (rp_cursor r) in
        let* (ps, r) := batch_fill room (r <| rp_cursor ::= fun c => add64 c 1 |>
          <| rp_bytes ::= fun b => add64 b (size (p_data p)) |> <| rp_replayed ::= fun n => add64 n 1 |>) in
        Ok (p :: ps, r)
  end.

Definition next_batch (r : Replay) (max : nat) : res (list PcapPacket * Replay) :=
  if rp_exhausted r || rp_stopped r then Ok ([], r) else batch_fill max r.
