(* ===== verification/PcapProps.v ===== *)
(** * Captures: what is written is read back

    The reader on captures produced by the writer, whole or cut off in the last
    record, its safety on any file, and the replay source. *)

From S2P Require Import Prelude ByteOrder Pcap.

(** ** Little-endian images *)

Definition le32_bytes (v : Z) : Bytes :=
  [to_byte v; to_byte (Z.shiftr v 8); to_byte (Z.shiftr v 16); to_byte (Z.shiftr v 24)].

Lemma byte_at_image pre b post n : n = size pre -> byte_at (pre ++ b :: post) n = bval b.
Proof. intros ->. rewrite byte_at_app_r, Z.sub_diag by lia. apply byte_at_cons_0. Qed.

Lemma le32_at_image pre v post : le32_at (pre ++ le32_bytes v ++ post) (size pre) = u32 v.
Proof.
  unfold le32_at, le16_at, le32_bytes. cbn [app].
  rewrite (byte_at_image pre) by done.
  rewrite (cons_middle (to_byte v)), app_assoc, (byte_at_image (pre ++ [to_byte v])) by (rewrite size_app; done).
  rewrite (cons_middle (to_byte (Z.shiftr v 8))), app_assoc.
  rewrite (byte_at_image ((pre ++ [to_byte v]) ++ _)) by (rewrite !size_app; unfold size; cbn; lia).
  rewrite (cons_middle (to_byte (Z.shiftr v 16))), app_assoc.
  rewrite (byte_at_image (((pre ++ [to_byte v]) ++ _) ++ _)) by (rewrite !size_app; unfold size; cbn; lia).
  rewrite !bval_to_byte, !byte_of_shift by lia. unfold u32, u8. change (2 ^ 8) with 256.
  Z.to_euclidean_division_equations. lia.
Qed.

Section Pcap.
Context {HE : HostEndian}.

Lemma load_le32_image pre v post : load_le32 (pre ++ le32_bytes v ++ post) (size pre) = Ok (u32 v).
Proof.
  rewrite load_le32_Ok; [by rewrite le32_at_image|apply size_nonneg|].
  rewrite !size_app. pose proof (size_nonneg post). unfold size at 3. cbn. lia.
Qed.

(** The bytes of the header and of a record. *)
Definition pcap_header (link snaplen : Z) : Bytes :=
  le32_bytes kPcapMagicMicro ++ [x02; x00; x04; x00] ++ le32_bytes 0 ++ le32_bytes 0 ++ le32_bytes snaplen ++ le32_bytes link.

Definition record_header (p : PcapPacket) : Bytes :=
  le32_bytes (u32 (p_ts_ns p / 1000000000)) ++ le32_bytes (u32 ((p_ts_ns p mod 1000000000) / 1000)) ++
  le32_bytes (u32 (size (p_data p))) ++
  le32_bytes (if negb (p_orig_len p =? 0) then p_orig_len p else u32 (size (p_data p))).

Definition record_image (p : PcapPacket) : Bytes := record_header p ++ p_data p.

Lemma pcap_open_image link snaplen : pcap_open link snaplen = Ok (pcap_header link snaplen).
Proof. reflexivity. Qed.

Lemma pcap_write_image file p : pcap_write file (p_ts_ns p) (p_data p) (p_orig_len p) = Ok (file ++ record_image p).
Proof. reflexivity. Qed.

Lemma pcap_write_all_image ps : forall file, pcap_write_all file ps = Ok (file ++ concat (map record_image ps)).
Proof.
  induction ps as [|p ps IH]; intros file; cbn [pcap_write_all map concat]; [by rewrite app_nil_r|].
  rewrite pcap_write_image, bind_Ok, IH. by rewrite app_assoc.
Qed.

(** Packets a capture can hold, and what comes back: microsecond timestamps, and
    the captured length for an original length of zero. *)
Definition storable_packet (p : PcapPacket) : Prop :=
  0 <= p_ts_ns p < 2 ^ 32 * 1000000000 /\ size (p_data p) < 2 ^ 32 /\ 0 <= p_orig_len p < 2 ^ 32.

Definition read_back (p : PcapPacket) : PcapPacket :=
  mkPacket (p_data p) (p_ts_ns p - p_ts_ns p mod 1000) (if p_orig_len p =? 0 then size (p_data p) else p_orig_len p).

Lemma record_header_size p : size (record_header p) = 16.
Proof. reflexivity. Qed.

Lemma ts_read_back p : storable_packet p ->
  packet_ts false (u32 (u32 (p_ts_ns p / 1000000000))) (u32 (u32 (p_ts_ns p mod 1000000000 / 1000))) =
  p_ts_ns p - p_ts_ns p mod 1000.
Proof.
  intros (Hts & _ & _). unfold packet_ts, add64, mul64.
  assert (0 <= p_ts_ns p / 1000000000 < 2 ^ 32) by (split; [apply Z.div_pos|apply Z.div_lt_upper_bound]; lia).
  assert (0 <= p_ts_ns p mod 1000000000 / 1000 < 1000000).
  { pose proof (Z.mod_pos_bound (p_ts_ns p) 1000000000). split; [apply Z.div_pos|apply Z.div_lt_upper_bound]; lia. }
  rewrite !u32_small by (rewrite ?u32_small; lia). rewrite !u64_small by (rewrite ?u64_small; lia).
  Z.to_euclidean_division_equations. lia.
Qed.

(** The four header fields of a record at the end of [pre]. *)
Lemma record_fields pre p post : storable_packet p ->
  let f := pre ++ record_header p ++ post in let off := size pre in
  rd32 false f off = Ok (u32 (u32 (p_ts_ns p / 1000000000))) /\
  rd32 false f (off + 4) = Ok (u32 (u32 (p_ts_ns p mod 1000000000 / 1000))) /\
  rd32 false f (off + 8) = Ok (size (p_data p)) /\
  rd32 false f (off + 12) = Ok (p_orig_len (read_back p)).
Proof.
  intros (_ & Hd & Ho) f off. pose proof (size_nonneg (p_data p)). unfold rd32, f, record_header.
  set (a := le32_bytes (u32 (p_ts_ns p / 1000000000))). set (b := le32_bytes (u32 (p_ts_ns p mod 1000000000 / 1000))).
  set (c := le32_bytes (u32 (size (p_data p)))). set (o := if negb _ then _ else _). rewrite <- !app_assoc.
  assert (u32 o = p_orig_len (read_back p)) as Hou.
  { unfold o, read_back. cbn. destruct (Z.eqb_spec (p_orig_len p) 0); cbn [negb]; rewrite ?u32_small; rewrite ?u32_small; lia. }
  split_and!.
  - apply load_le32_image.
  - rewrite (app_assoc pre a). replace (off + 4) with (size (pre ++ a)) by (rewrite size_app; done). apply load_le32_image.
  - rewrite (app_assoc pre a), (app_assoc _ b).
    replace (off + 8) with (size ((pre ++ a) ++ b)) by (rewrite !size_app; unfold off; change (size a) with 4; change (size b) with 4; lia).
    unfold c. rewrite load_le32_image. by rewrite !u32_small by (rewrite ?u32_small; lia).
  - rewrite (app_assoc pre a), (app_assoc _ b), (app_assoc _ c).
    replace (off + 12) with (size (((pre ++ a) ++ b) ++ c))
      by (rewrite !size_app; unfold off; change (size a) with 4; change (size b) with 4; change (size c) with 4; lia).
    rewrite load_le32_image. by rewrite Hou.
Qed.

(** The end of a capture: nothing, or a record that was cut off. *)
Definition cut_record (tail : Bytes) : Prop :=
  tail = [] \/ exists p k, storable_packet p /\ tail = take k (record_image p) /\ (k < length (record_image p))%nat.

Lemma pcap_loop_cut pre tail fuel : cut_record tail -> (0 < fuel)%nat ->
  pcap_loop fuel false false (pre ++ tail) (size pre) = Ok ([], if 16 <=? size tail then 1 else 0).
Proof.
  intros Hcut Hf. destruct fuel as [|fuel]; [lia|]. cbn [pcap_loop]. unfold kPcapRecordHeaderLen. rewrite size_app.
  destruct (Z.leb_spec (size pre + 16) (size pre + size tail)) as [Hle|Hgt]; destruct (Z.leb_spec 16 (size tail)); try lia; [|done].
  destruct Hcut as [->|(p & k & Hp & -> & Hk)]; [rewrite size_nil in *; lia|].
  assert (size (take k (record_image p)) = Z.of_nat k) as Hsz by (unfold size; rewrite length_take; lia). rewrite Hsz in *.
  assert (take k (record_image p) = record_header p ++ take (k - 16) (p_data p)) as ->.
  { unfold record_image. rewrite take_app. f_equal. apply take_ge. change (length (record_header p)) with 16%nat. lia. }
  destruct (record_fields pre p (take (k - 16) (p_data p)) Hp) as (-> & -> & -> & ->). rewrite !bind_Ok.
  assert (size (record_image p) = 16 + size (p_data p)) as Hri by (unfold record_image; rewrite size_app; done).
  destruct (Z.ltb_spec (size pre + Z.of_nat k - (size pre + 16)) (size (p_data p))); [done|]. unfold size in Hri. unfold size in *. lia.
Qed.

Lemma pcap_loop_images ps : Forall storable_packet ps -> forall pre tail fuel, cut_record tail -> (length ps < fuel)%nat ->
  pcap_loop fuel false false (pre ++ concat (map record_image ps) ++ tail) (size pre) =
  Ok (map read_back ps, if 16 <=? size tail then 1 else 0).
Proof.
  induction 1 as [|p ps Hp _ IH]; intros pre tail fuel Hcut Hf; cbn [map concat app]; [apply pcap_loop_cut; [done|cbn in Hf; lia]|].
  destruct fuel as [|fuel]; [lia|]. cbn [pcap_loop length] in *. unfold kPcapRecordHeaderLen.
  set (rest := concat (map record_image ps) ++ tail).
  assert (pre ++ (record_image p ++ concat (map record_image ps)) ++ tail = pre ++ record_header p ++ p_data p ++ rest) as ->.
  { unfold record_image, rest. by rewrite <- !app_assoc. }
  pose proof (size_nonneg rest). pose proof (size_nonneg (p_data p)).
  assert (size (pre ++ record_header p ++ p_data p ++ rest) = size pre + 16 + size (p_data p) + size rest) as Hsz
    by (rewrite !size_app, record_header_size; lia). rewrite Hsz.
  destruct (Z.leb_spec (size pre + 16) (size pre + 16 + size (p_data p) + size rest)); [|lia].
  destruct (record_fields pre p (p_data p ++ rest) Hp) as (-> & -> & -> & ->). rewrite !bind_Ok.
  destruct (Z.ltb_spec (size pre + 16 + size (p_data p) + size rest - (size pre + 16)) (size (p_data p))); [lia|].
  assert (size pre + 16 = size (pre ++ record_header p)) as Hoff by (rewrite size_app; done).
  rewrite subspan_Ok by (rewrite ?Hsz; pose proof (size_nonneg pre); lia). rewrite bind_Ok, Hoff, app_assoc, slice_mid.
  replace (size (pre ++ record_header p) + size (p_data p)) with (size ((pre ++ record_header p) ++ p_data p)) by (by rewrite size_app).
  rewrite (app_assoc _ (p_data p)). unfold rest. rewrite IH, bind_Ok by (done || lia). by rewrite ts_read_back.
Qed.

Lemma images_length ps : (length ps <= length (concat (map record_image ps)))%nat.
Proof. induction ps as [|p ps IH]; cbn; [done|]. rewrite length_app in *. lia. Qed.

Lemma pcap_parse_images path link snaplen ps tail : 0 <= link < 2 ^ 32 -> 0 <= snaplen < 2 ^ 32 ->
  Forall storable_packet ps -> cut_record tail ->
  let f := pcap_header link snaplen ++ concat (map record_image ps) ++ tail in
  pcap_parse path f = Ok (mkResult None (if 16 <=? size tail then 1 else 0),
    mkPcap f (map read_back ps) link snaplen 2 4 false false).
Proof.
  intros Hl Hs Hps Hcut f. unfold pcap_parse.
  assert (size f = 24 + size (concat (map record_image ps) ++ tail)) as Hsz by (unfold f; by rewrite size_app).
  pose proof (size_nonneg (concat (map record_image ps) ++ tail)) as Hnn.
  assert (load_le32 f 0 = Ok kPcapMagicMicro) as ->.
  { unfold f, pcap_header. rewrite <- app_assoc. apply (load_le32_image [] kPcapMagicMicro). }
  rewrite bind_Ok. change (magic_kind kPcapMagicMicro) with (Some (false, false)). unfold rd16, rd32.
  rewrite !load_le16_Ok, !bind_Ok by lia. change (le16_at f 4) with 2. change (le16_at f 6) with 4.
  set (rest := concat (map record_image ps) ++ tail) in *.
  assert (load_le32 f 16 = Ok snaplen) as ->.
  { rewrite <- (u32_small snaplen Hs). unfold f, pcap_header. rewrite <- !app_assoc.
    exact (load_le32_image (le32_bytes kPcapMagicMicro ++ [x02; x00; x04; x00] ++ le32_bytes 0 ++ le32_bytes 0) snaplen (le32_bytes link ++ rest)). }
  assert (load_le32 f 20 = Ok link) as ->.
  { rewrite <- (u32_small link Hl). unfold f, pcap_header. rewrite <- !app_assoc.
    exact (load_le32_image (le32_bytes kPcapMagicMicro ++ [x02; x00; x04; x00] ++ le32_bytes 0 ++ le32_bytes 0 ++ le32_bytes snaplen) link rest). }
  rewrite !bind_Ok.
  assert (pcap_loop (S (length f)) false false f kPcapFileHeaderLen =
    Ok (map read_back ps, if 16 <=? size tail then 1 else 0)) as ->; [|by rewrite bind_Ok].
  apply (pcap_loop_images ps Hps (pcap_header link snaplen) tail); [done|].
  unfold f, rest. rewrite !length_app. pose proof (images_length ps). lia.
Qed.

(** C21: A capture is read back, also when it was cut off.  Write the header and any
    packets whose fields fit, begin one more, and stop anywhere before its last
    byte (or before its first: the intact capture): the reader returns no error,
    exactly the packets written before, in order, with their data, their
    timestamps to the microsecond and their original lengths, and the header
    fields; one malformed record is counted if the record header of the last
    packet was complete. *)
Theorem pcap_roundtrip path link snaplen ps p :
  0 <= link < 2 ^ 32 -> 0 <= snaplen < 2 ^ 32 -> Forall storable_packet ps -> storable_packet p ->
  ensures (let* h := pcap_open link snaplen in pcap_write_all h ps) (fun capture =>
  ensures (pcap_write capture (p_ts_ns p) (p_data p) (p_orig_len p)) (fun longer =>
    forall n, (length capture <= n < length longer)%nat ->
    load path (Some (take n longer)) true =
      Ok (mkResult None (if decide (16 <= n - length capture)%nat then 1 else 0),
          mkPcap (take n longer) (map read_back ps) link snaplen 2 4 false false))).
Proof.
  intros Hl Hs Hps Hp. rewrite pcap_open_image, bind_Ok, pcap_write_all_image. apply ensures_Ok.
  rewrite pcap_write_image. apply ensures_Ok. intros n Hn.
  set (capture := pcap_header link snaplen ++ concat (map record_image ps)) in *.
  set (k := (n - length capture)%nat). rewrite length_app in Hn.
  assert (take n (capture ++ record_image p) = pcap_header link snaplen ++ concat (map record_image ps) ++ take k (record_image p)) as ->.
  { rewrite take_app, take_ge by lia. unfold capture. by rewrite <- app_assoc. }
  assert (cut_record (take k (record_image p))) as Hcut by (right; exists p, k; split_and!; [done|done|unfold k; lia]).
  unfold load. rewrite size_app. pose proof (size_nonneg (concat (map record_image ps) ++ take k (record_image p))).
  change (size (pcap_header link snaplen)) with 24. unfold kPcapFileHeaderLen.
  destruct (Z.ltb_spec (24 + size (concat (map record_image ps) ++ take k (record_image p))) 24); [lia|]. cbn [negb].
  rewrite (pcap_parse_images path link snaplen ps _ Hl Hs Hps Hcut). do 4 f_equal.
  assert (size (take k (record_image p)) = Z.of_nat k) as -> by (unfold size; rewrite length_take; unfold k; lia).
  destruct (Z.leb_spec 16 (Z.of_nat k)); case_decide; lia.
Qed.

(** ** Any file *)

Lemma rd32_Ok swapped f off : 0 <= off -> off + 4 <= size f -> ensures (rd32 swapped f off) (fun v => 0 <= v < 2 ^ 32).
Proof.
  intros H1 H2. unfold rd32. destruct swapped; [rewrite load_be32_Ok by done|rewrite load_le32_Ok by done]; apply ensures_Ok;
    [apply be32_at_range|apply le32_at_range].
Qed.

Lemma rd16_Ok swapped f off : 0 <= off -> off + 2 <= size f -> returns (rd16 swapped f off).
Proof. intros H1 H2. unfold rd16. destruct swapped; [rewrite load_be16_Ok by done|rewrite load_le16_Ok by done]; apply returns_Ok. Qed.

Lemma pcap_loop_safe swapped nanos f : forall fuel off, 0 <= off <= size f -> size f - off < Z.of_nat fuel ->
  ensures (pcap_loop fuel swapped nanos f off) (fun '(ps, bad) =>
    Forall (fun p => view_of f (p_data p)) ps /\ size (concat (map p_data ps)) + 16 * size ps <= size f - off /\ 0 <= bad <= 1).
Proof.
  induction fuel as [|fuel IH]; intros off Hoff Hf; [lia|]. cbn [pcap_loop]. unfold kPcapRecordHeaderLen.
  destruct (Z.leb_spec (off + 16) (size f)); [|apply ensures_Ok; split_and!; [constructor|unfold size; cbn; unfold size in *; lia|lia|lia]].
  eapply ensures_bind; [apply rd32_Ok; lia|intros sec _]. eapply ensures_bind; [apply rd32_Ok; lia|intros frac _].
  eapply ensures_bind; [apply rd32_Ok; lia|intros incl [Hincl _]]. eapply ensures_bind; [apply rd32_Ok; lia|intros orig _].
  cbn zeta. destruct (Z.ltb_spec (size f - (off + 16)) incl);
    [apply ensures_Ok; split_and!; [constructor|unfold size; cbn; unfold size in *; lia|lia|lia]|].
  rewrite subspan_Ok, bind_Ok by lia. eapply ensures_bind; [apply IH; lia|].
  intros [ps bad] (H1 & H2 & H3). apply ensures_Ok. split_and!; [constructor; [|done]| |lia|lia].
  - cbn. apply view_of_slice; lia.
  - cbn [map concat p_data]. rewrite size_app, size_cons, size_slice by lia. lia.
Qed.

(** Loading never faults, every packet is a view of the file, and the file is
    longer than its packets are many. *)
Lemma pcap_load_safe path file read_all : ensures (load path file read_all) (fun '(r, pf) =>
  Forall (fun p => view_of (bytes_ pf) (p_data p)) (packets_ pf) /\ size (packets_ pf) <= size (bytes_ pf) /\
  0 <= malformed_records r <= 1 /\ match file with Some f => bytes_ pf = f \/ bytes_ pf = [] | None => True end).
Proof.
  assert (forall msg, ensures (Ok (pcap_failed msg path, PcapFile_init)) (fun '(r, pf) =>
    Forall (fun p => view_of (bytes_ pf) (p_data p)) (packets_ pf) /\ size (packets_ pf) <= size (bytes_ pf) /\
    0 <= malformed_records r <= 1 /\ match file with Some f => bytes_ pf = f \/ bytes_ pf = [] | None => True end)) as Hfail.
  { intros msg. apply ensures_Ok. split_and!; [constructor|done|done|done|destruct file; [by right|done]]. }
  unfold load. destruct file as [f|]; [|apply Hfail].
  destruct (Z.ltb_spec (size f) kPcapFileHeaderLen) as [?|Hlen]; [apply Hfail|]. unfold kPcapFileHeaderLen in *.
  destruct read_all; cbn [negb];
    [|apply ensures_Ok; split_and!; [constructor|apply size_nonneg|done|done|by left]]. unfold pcap_parse.
  rewrite load_le32_Ok, bind_Ok by lia.
  destruct (magic_kind _) as [[swapped nanos]|]; [|apply ensures_Ok; split_and!; [constructor|apply size_nonneg|done|done|by left]].
  destruct (rd16_Ok swapped f 4) as [major ->]; [lia|lia|]. destruct (rd16_Ok swapped f 6) as [minor ->]; [lia|lia|]. rewrite !bind_Ok.
  do 2 (eapply ensures_bind; [apply rd32_Ok; lia|intros ? _]).
  eapply ensures_bind; [apply pcap_loop_safe; unfold kPcapFileHeaderLen, size in *; lia|].
  intros [ps bad] (Hv & Hsz & Hb). apply ensures_Ok. cbn. split_and!; [done| |lia|lia|by left].
  pose proof (size_nonneg (concat (map p_data ps))). pose proof (size_nonneg ps). unfold kPcapFileHeaderLen in *. lia.
Qed.
End Pcap.

Lemma pcap_roundtrip_witness :
  ensures (let* h := pcap_open 1 65535 in pcap_write_all h [mkPacket [x01; x02] 1234567 0]) (fun capture =>
    size capture = 42 /\ ensures (@load little [] (Some capture) true) (fun '(r, f) =>
      r = mkResult None 0 /\ packets_ f = [mkPacket [x01; x02] 1234000 2])).
Proof.
  assert (forall p, p ∈ [mkPacket [x01; x02] 1234567 0] -> storable_packet p) as Hst.
  { intros p Hp. apply list_elem_of_singleton in Hp as ->. by vm_compute. }
  destruct (@pcap_roundtrip little [] 1 65535 [mkPacket [x01; x02] 1234567 0] (mkPacket [x03] 0 0)) as (c & Hc & longer & Hw & Hread);
    [lia|lia|by apply list.Forall_forall|by vm_compute|].
  exists c. split; [exact Hc|]. vm_compute in Hc. injection Hc as <-. split; [reflexivity|].
  vm_compute in Hw. injection Hw as <-. eexists. split; [exact (Hread 42%nat ltac:(vm_compute; lia))|]. split; reflexivity.
Defined.
