(* ===== verification/Replay.v ===== *)
(** * src/main.cpp (ingest loop): replaying a capture into the pipeline

    What [PcapReplaySource] hands out over any sequence of batches, and the
    program's ingest loop on top of it.  [loop_] counts modulo 2^32, so with
    [loops = 0] the source goes round for ever. *)

From S2P Require Import Prelude ByteOrder Gtpu Net Diameter SpscRing MeterEvent Pipeline PipelineProps Pcap PcapProps.

(** ** The stream of a replay *)

(** The first [n] packets of the endless repetition of [ps]. *)
Definition cycle_take {A} (ps : list A) (n : nat) : list A :=
  omap (fun i => ps !! (i mod length ps)%nat) (List.seq 0 n).

Lemma cycle_take_S {A} (ps : list A) n p : ps !! (n mod length ps)%nat = Some p ->
  cycle_take ps (S n) = cycle_take ps n ++ [p].
Proof. intros H. unfold cycle_take. rewrite seq_S, omap_app. cbn. by rewrite H. Qed.

Lemma cycle_take_length {A} (ps : list A) n : ps <> [] -> length (cycle_take ps n) = n.
Proof.
  intros Hne. induction n as [|n IH]; [done|].
  destruct (lookup_lt_is_Some_2 ps (n mod length ps)) as [p Hp]; [apply Nat.mod_upper_bound; by destruct ps|].
  rewrite (cycle_take_S _ _ p Hp), length_app, IH. cbn. lia.
Qed.

Lemma size_pos_ne {A} (l : list A) : 0 < size l < 2 ^ 63 -> l <> [].
Proof. intros [H _] ->. by vm_compute in H. Qed.

(** After [n] packets: the cursor is [n] minus the completed rounds. *)
Record replay_at (f : PcapFile) (loops : Z) (n : nat) (r : Replay) : Prop := {
  ra_file : rp_file r = f;
  ra_loops : rp_loops r = loops;
  ra_stopped : rp_stopped r = false;
  ra_replayed : rp_replayed r = u64 (Z.of_nat n);
  ra_bytes : rp_bytes r = u64 (size (concat (map p_data (cycle_take (packets_ f) n))));
  ra_pos : rp_exhausted r = false -> exists rounds : nat, rp_loop r = u32 (Z.of_nat rounds) /\
    0 <= rp_cursor r <= size (packets_ f) /\ Z.of_nat n = Z.of_nat rounds * size (packets_ f) + rp_cursor r /\
    (loops <> 0 -> Z.of_nat rounds < loops);
  ra_end : rp_exhausted r = true -> loops <> 0 /\ Z.of_nat n = loops * size (packets_ f)
}.

(** How many of [want] packets are left after [n]. *)
Definition replay_avail (f : PcapFile) (loops : Z) (n want : nat) : nat :=
  if loops =? 0 then want else Nat.min want (Z.to_nat (loops * size (packets_ f)) - n).

Section Replay.
Context (f : PcapFile) (loops : Z).
Hypothesis Hloops : 0 <= loops < 2 ^ 32.
Hypothesis Hsize : 0 < size (packets_ f) < 2 ^ 63.

(** One more packet. *)
Lemma replay_at_step n r p cursor rounds :
  replay_at f loops n r -> packets_ f !! Z.to_nat cursor = Some p ->
  0 <= cursor < size (packets_ f) -> Z.of_nat n = Z.of_nat rounds * size (packets_ f) + cursor ->
  (loops <> 0 -> Z.of_nat rounds < loops) -> rp_exhausted r = false -> forall loop, loop = u32 (Z.of_nat rounds) ->
  replay_at f loops (S n) (mkReplay f loops (add64 cursor 1) loop (add64 (rp_replayed r) 1)
    (add64 (rp_bytes r) (size (p_data p))) false false).
Proof.
  intros Hr Hp Hc Hn Hl He loop Hloop.
  assert (packets_ f !! (n mod length (packets_ f))%nat = Some p) as Hp'.
  { rewrite <- Hp. f_equal. unfold size in *. apply Nat2Z.inj. rewrite Nat2Z.inj_mod, Hn, Z2Nat.id by lia.
    rewrite Z.add_comm, Z_mod_plus_full, Z.mod_small by lia. done. }
  split; try done; cbn [rp_replayed rp_bytes rp_exhausted rp_loop rp_cursor].
  - rewrite (ra_replayed _ _ _ _ Hr). unfold add64. rewrite u64_add_u64_l. f_equal. lia.
  - rewrite (ra_bytes _ _ _ _ Hr), (cycle_take_S _ _ p Hp'), map_app, concat_app, size_app. unfold add64. rewrite u64_add_u64_l.
    cbn [map concat]. by rewrite app_nil_r.
  - intros _. exists rounds. unfold add64. rewrite u64_small by lia. split_and!; [done|lia|lia|lia|done].
Qed.

Lemma batch_fill_spec room : forall n r, replay_at f loops n r -> rp_exhausted r = false ->
  ensures (batch_fill room r) (fun '(ps, r') => let k := replay_avail f loops n room in
    replay_at f loops (n + k) r' /\ cycle_take (packets_ f) (n + k) = cycle_take (packets_ f) n ++ ps /\
    (rp_exhausted r' = true <-> (k < room)%nat)).
Proof.
  induction room as [|room IH]; intros n r Hr He; cbn [batch_fill].
  { apply ensures_Ok. unfold replay_avail. rewrite Nat.min_0_l. destruct (loops =? 0); rewrite Nat.add_0_r, app_nil_r, He; split_and!; (done || (split; [done|lia])). }
  destruct (ra_pos _ _ _ _ Hr He) as (rounds & Hloop & Hc & Hn & Hrl).
  rewrite (ra_file _ _ _ _ Hr), (ra_loops _ _ _ _ Hr), Hloop.
  assert (u32 (u32 (Z.of_nat rounds) + 1) = u32 (Z.of_nat (S rounds))) as -> by (unfold u32; rewrite Zplus_mod_idemp_l; f_equal; lia).
  set (cursor := if size (packets_ f) <=? rp_cursor r then 0 else rp_cursor r).
  set (rounds' := if size (packets_ f) <=? rp_cursor r then S rounds else rounds).
  destruct ((size (packets_ f) <=? rp_cursor r) && _) eqn:Hend.
  { apply andb_true_iff in Hend as [H1%Z.leb_le [H2 H3%Z.leb_le]%andb_true_iff].
    apply negb_true_iff, Z.eqb_neq in H2. rewrite u32_small in H3 by lia.
    assert (Z.of_nat n = loops * size (packets_ f)) as Hfull by nia.
    assert (replay_avail f loops n (S room) = 0)%nat as Hk.
    { unfold replay_avail. apply Z.eqb_neq in H2. rewrite H2. lia. }
    apply ensures_Ok. cbn zeta. rewrite Hk, Nat.add_0_r, app_nil_r. split_and!; [|done|].
    - destruct Hr. split; try done. 
    - split; [lia|done]. }
  assert (loops <> 0 -> Z.of_nat rounds' < loops) as Hrl'.
  { intros Hl0. unfold rounds'. destruct (Z.leb_spec (size (packets_ f)) (rp_cursor r)); [|by apply Hrl].
    cbn in Hend. destruct (Z.eqb_spec loops 0); [done|]. cbn in Hend. apply Z.leb_gt in Hend.
    rewrite u32_small in Hend by (specialize (Hrl Hl0); lia). done. }
  assert (0 <= cursor < size (packets_ f) /\ Z.of_nat n = Z.of_nat rounds' * size (packets_ f) + cursor) as [Hc' Hn'].
  { unfold cursor, rounds'. destruct (Z.leb_spec (size (packets_ f)) (rp_cursor r)); split; lia || nia. }
  destruct (lookup_lt_is_Some_2 (packets_ f) (Z.to_nat cursor)) as [p Hp]; [unfold size in *; lia|].
  pose proof (replay_at_step n r p cursor rounds' Hr Hp Hc' Hn' Hrl' He _ eq_refl) as Hstep.
  set (r1 := if size (packets_ f) <=? rp_cursor r then _ else r).
  assert (r1 = mkReplay f loops cursor (u32 (Z.of_nat rounds')) (rp_replayed r) (rp_bytes r) false false) as Hr1.
  { destruct r. destruct Hr. cbn in *. subst. unfold r1, cursor, rounds'. by destruct (_ <=? _). }
  rewrite Hr1. cbn [rp_file rp_cursor]. rewrite (at_lookup _ _ p) by (done || lia). rewrite bind_Ok.
  eapply ensures_bind; [apply (IH (S n)); [exact Hstep|done]|]. intros [ps r'] (Ha & Hct & Hx). apply ensures_Ok. cbn zeta in *.
  assert (replay_avail f loops n (S room) = S (replay_avail f loops (S n) room)) as Hk.
  { unfold replay_avail. destruct (Z.eqb_spec loops 0); [done|]. specialize (Hrl' ltac:(done)).
    assert (Z.of_nat n < loops * size (packets_ f)) by nia. lia. }
  rewrite Hk, <- Nat.add_succ_comm. split_and!; [done| |rewrite Hx; lia].
  rewrite Hct, (cycle_take_S _ n p), <- app_assoc; [done|].
  rewrite <- Hp. f_equal. unfold size in *. apply Nat2Z.inj. rewrite Nat2Z.inj_mod, Hn', Z2Nat.id by lia.
  rewrite Z.add_comm, Z_mod_plus_full, Z.mod_small by lia. done.
Qed.

Lemma next_batch_spec max n r : replay_at f loops n r ->
  ensures (next_batch r max) (fun '(ps, r') => let k := replay_avail f loops n max in
    replay_at f loops (n + k) r' /\ cycle_take (packets_ f) (n + k) = cycle_take (packets_ f) n ++ ps /\
    (rp_exhausted r' = true <-> rp_exhausted r = true \/ (k < max)%nat)).
Proof.
  intros Hr. unfold next_batch. rewrite (ra_stopped _ _ _ _ Hr), orb_false_r. destruct (rp_exhausted r) eqn:He.
  - apply ensures_Ok. cbn zeta. destruct (ra_end _ _ _ _ Hr He) as [Hl Hn].
    assert (replay_avail f loops n max = 0)%nat as ->. { unfold replay_avail. apply Z.eqb_neq in Hl. rewrite Hl. lia. }
    rewrite Nat.add_0_r, app_nil_r. rewrite He. split_and!; [done|done|split; [by left|done]].
  - eapply ensures_mono; [by apply batch_fill_spec|]. intros [ps r'] (H1 & H2 & H3). cbn zeta in *. split_and!; [done|done|].
    rewrite H3. split; [by right|by intros [?|?]].
Qed.
End Replay.

(** ** The ingest loop of [main] *)

Section Loop.
Context {HE : HostEndian} {R1 R2 : Type}.
Context {Q1 : BoundedQueue MeterEvent R1} {Q2 : BoundedQueue GyEvent R2}.
#[local] Abbreviation ingest := (Ingest R1 R2).

(** One packet: the body of the inner loop. *)
Definition ingest_packet (s : ingest) (link_type : Z) (p : PcapPacket) (ts : Z) : res ingest :=
  let* link := strip_link_layer link_type (p_data p) in
  if negb (ll_valid link) then Ok s
  else if ll_is_ethernet link then let* (_, s) := process_frame s (ll_payload link) ts in Ok s
  else let* (_, s) := process_ip s (ll_payload link) ts (u16 (size (ll_payload link))) in Ok s.

(** [stop k] is what [g_stop] holds at iteration [k], [clock i] what [now_ns] says
    at packet [i], and [env i] what the other threads have done to the rings since
    packet [i - 1]. *)
Context (stop : nat -> bool) (clock : nat -> Z) (env : nat -> ingest -> ingest) (replay : bool).

Fixpoint ingest_batch (s : ingest) (link_type : Z) (i : nat) (ps : list PcapPacket) : res ingest :=
  match ps with
  | [] => Ok s
  | p :: ps =>
      let* s := ingest_packet (env i s) link_type p (if replay then clock i else p_ts_ns p) in
      ingest_batch s link_type (S i) ps
  end.

Fixpoint ingest_loop (fuel : nat) (batch_size : nat) (k i : nat) (s : ingest) (r : Replay) : res (ingest * Replay) :=
  match fuel with
  | O => Fuel
  | S fuel =>
      if stop k then Ok (s, r) else
      let* (ps, r) := next_batch r batch_size in
      match ps with
      | [] => if rp_exhausted r then Ok (s, r) else ingest_loop fuel batch_size (S k) i s r
      | _ =>
          let* s := ingest_batch s (link_type_ (rp_file r)) i ps in
          ingest_loop fuel batch_size (S k) (i + length ps) s r
      end
  end.

Lemma ingest_batch_app ps1 : forall s link i ps2,
  ingest_batch s link i (ps1 ++ ps2) = let* s := ingest_batch s link i ps1 in ingest_batch s link (i + length ps1) ps2.
Proof.
  induction ps1 as [|p ps1 IH]; intros s link i ps2; cbn [app ingest_batch length]; [by rewrite bind_Ok, Nat.add_0_r|].
  destruct (ingest_packet _ _ _ _); [|done|done]. rewrite !bind_Ok, IH. by rewrite Nat.add_succ_comm.
Qed.

Lemma ip_post_ok (s s' : ingest) pkt ts wire o : ip_post s pkt ts wire o s' -> rings_ok s -> rings_ok s'.
Proof.
  intros [ni np _ _ Hp _|outer _ _ _ _ Hg|_ ([gys Hp] & _ & _)] Hr; [by eapply pushes_ok| |by eapply pushes_ok].
  destruct Hg as [st h _ _ _ Hp _|h inner ev ok _ _ _ _ Hp _ _]; by eapply pushes_ok.
Qed.

Lemma strip_link_layer_spec link frame : ensures (strip_link_layer link frame) (fun l => size (ll_payload l) <= size frame).
Proof.
  unfold strip_link_layer. pose proof (size_nonneg frame).
  destruct (link =? LinkType.kEthernet); [by apply ensures_Ok|]. destruct (_ || _); [by apply ensures_Ok|].
  destruct (link =? LinkType.kLinuxSll); [|by apply ensures_Ok]. destruct (Z.ltb_spec 16 (size frame)); [|by apply ensures_Ok].
  rewrite subspan_from_Ok, bind_Ok by lia. apply ensures_Ok. cbn [ll_payload]. rewrite size_drop; lia.
Qed.

Lemma ingest_packet_spec s link p ts : rings_ok s -> size (p_data p) < 2 ^ 63 ->
  ensures (ingest_packet s link p ts) rings_ok.
Proof.
  intros Hr Hs. unfold ingest_packet. eapply ensures_bind; [apply strip_link_layer_spec|]. intros l Hl. cbn in Hl.
  destruct (ll_valid l); cbn [negb]; [|by apply ensures_Ok]. destruct (ll_is_ethernet l).
  - eapply ensures_bind; [apply (process_frame_spec s (ll_payload l) ts Hr); lia|].
    intros [o s'] (e & g & ? & ? & ? & ? & ? & ? & ? & Hp & _)%frame_summary. apply ensures_Ok. by eapply pushes_ok.
  - eapply ensures_bind; [apply (process_ip_spec s (ll_payload l) ts _ Hr); lia|].
    intros [o s'] Hp. apply ensures_Ok. by eapply ip_post_ok.
Qed.

Hypothesis Henv : forall i s, rings_ok s -> rings_ok (env i s).

Lemma ingest_batch_spec ps link : forall s i, rings_ok s -> Forall (fun p => size (p_data p) < 2 ^ 63) ps ->
  ensures (ingest_batch s link i ps) rings_ok.
Proof.
  induction ps as [|p ps IH]; intros s i Hr Hps; cbn [ingest_batch]; [by apply ensures_Ok|].
  apply Forall_cons_iff in Hps as [Hp Hps]. eapply ensures_bind; [apply ingest_packet_spec; auto|]. intros s1 Hr1. by apply IH.
Qed.

Lemma ingest_loop_spec (f : PcapFile) loops batch s0 :
  0 < loops < 2 ^ 32 -> 0 < size (packets_ f) < 2 ^ 63 -> (0 < batch)%nat -> rings_ok s0 ->
  Forall (fun p => size (p_data p) < 2 ^ 63) (packets_ f) ->
  let total := Z.to_nat (loops * size (packets_ f)) in
  forall fuel k n s r, replay_at f loops n r -> (n <= total)%nat ->
  ingest_batch s0 (link_type_ f) 0 (cycle_take (packets_ f) n) = Ok s -> rings_ok s -> (total - n + 1 < fuel)%nat ->
  ensures (ingest_loop fuel batch k n s r) (fun '(s', r') => rings_ok s' /\ exists m, (n <= m <= total)%nat /\ replay_at f loops m r' /\
    ingest_batch s0 (link_type_ f) 0 (cycle_take (packets_ f) m) = Ok s' /\ ((forall j, stop j = false) -> m = total)).
Proof.
  intros Hl Hs Hb Hr0 Hps total. induction fuel as [|fuel IH]; intros k n s r Hat Hn Hrun Hr Hf; [lia|]. cbn [ingest_loop].
  destruct (stop k) eqn:Hstop. { apply ensures_Ok. split; [done|]. exists n. split_and!; [lia|lia|done|done|]. intros Hno. by rewrite Hno in Hstop. }
  eapply ensures_bind; [apply (next_batch_spec f loops ltac:(lia) ltac:(lia) batch n r Hat)|]. intros [ps r1] (Hat1 & Hct & Hex).
  assert (replay_avail f loops n batch = length ps) as Hk.
  { assert (packets_ f <> []) as Hne by (by apply size_pos_ne).
    apply (f_equal length) in Hct. rewrite length_app, !cycle_take_length in Hct by done. lia. }
  assert (n + length ps <= total)%nat as Hle.
  { rewrite <- Hk. unfold replay_avail. destruct (Z.eqb_spec loops 0); unfold total in *; lia. }
  rewrite Hk in *. destruct ps as [|p ps'].
  - assert (rp_exhausted r1 = true) as Hx by (apply Hex; right; done). rewrite Hx. apply ensures_Ok. split; [done|].
    cbn [length] in *. rewrite Nat.add_0_r in Hat1. exists n. split_and!; [lia|lia|done|done|].
    intros _. destruct (ra_end _ _ _ _ Hat1 Hx) as [_ E]. unfold total. lia.
  - set (ps := p :: ps') in *. rewrite (ra_file _ _ _ _ Hat1).
    assert (Forall (fun p => size (p_data p) < 2 ^ 63) ps) as Hsz.
    { apply list.Forall_forall. intros q Hq. assert (q ∈ cycle_take (packets_ f) (n + length ps)) as Hin by (rewrite Hct; apply elem_of_app; by right).
      unfold cycle_take in Hin. apply list_elem_of_omap in Hin as (i & _ & Hi). rewrite list.Forall_forall in Hps.
      eapply Hps, list_elem_of_lookup_2. exact Hi. }
    destruct (ingest_batch_spec ps (link_type_ f) s n Hr Hsz) as (s1 & Hb1 & Hr1). rewrite Hb1, bind_Ok.
    eapply ensures_mono; [apply (IH (S k) (n + length ps)%nat s1 r1 Hat1 Hle)|].
    + rewrite Hct, ingest_batch_app, Hrun, bind_Ok.
      rewrite cycle_take_length by (by apply size_pos_ne). exact Hb1.
    + done.
    + unfold ps in *. cbn [length] in *. lia.
    + intros [s' r'] (Hr' & m & Hm & H1 & H2 & H3). split; [done|]. exists m. split_and!; [lia|lia|done|done|done].
Qed.
End Loop.

(** ** Opening a capture *)

Section Open.
Context {HE : HostEndian}.

Lemma replay_open_at path file loops r : replay_open path (Some file) true loops = Ok (inr r) -> size file < 2 ^ 63 -> 0 <= loops ->
  replay_at (rp_file r) loops 0 r /\ 0 < size (packets_ (rp_file r)) < 2 ^ 63 /\
  Forall (fun p => size (p_data p) < 2 ^ 63) (packets_ (rp_file r)).
Proof.
  intros Hopen Hsz Hl0. unfold replay_open in Hopen.
  destruct (pcap_load_safe path (Some file) true) as ([res pf] & Hload & Hv & Hn & _ & Hb). rewrite Hload, bind_Ok in Hopen.
  assert (size (bytes_ pf) < 2 ^ 63) as Hbs by (destruct Hb as [-> | ->]; [done|by vm_compute]).
  destruct (pr_error res); [done|]. destruct (packets_ pf) as [|p ps] eqn:Hps; [done|]. injection Hopen as <-. cbn [rp_file].
  rewrite Hps. split_and!.
  - split; try done. intros _. exists 0%nat. cbn [rp_loop rp_cursor]. rewrite Hps. pose proof (size_nonneg (p :: ps)).
    split_and!; [done|done|done|done|]. lia.
  - rewrite size_cons. pose proof (size_nonneg ps). lia.
  - lia.
  - revert Hv. apply Forall_impl. intros q Hq%view_of_size. lia.
Qed.

(** Any sequence of batch requests. *)
Fixpoint replay_batches (r : Replay) (maxs : list nat) : res (list PcapPacket * Replay) :=
  match maxs with
  | [] => Ok ([], r)
  | m :: maxs => let* (ps, r) := next_batch r m in let* (qs, r) := replay_batches r maxs in Ok (ps ++ qs, r)
  end.

Lemma replay_batches_spec f loops : 0 <= loops < 2 ^ 32 -> 0 < size (packets_ f) < 2 ^ 63 -> forall maxs n r,
  replay_at f loops n r ->
  ensures (replay_batches r maxs) (fun '(ps, r') => let k := replay_avail f loops n (sum_list maxs) in
    replay_at f loops (n + k) r' /\ cycle_take (packets_ f) (n + k) = cycle_take (packets_ f) n ++ ps /\
    (rp_exhausted r' = true <-> rp_exhausted r = true \/ (k < sum_list maxs)%nat)).
Proof.
  intros Hl Hs. induction maxs as [|m maxs IH]; intros n r Hat; cbn [replay_batches].
  - apply ensures_Ok. cbn zeta. change (sum_list []) with 0%nat. unfold replay_avail. rewrite Nat.min_0_l. destruct (loops =? 0);
      rewrite Nat.add_0_r, app_nil_r; (split_and!; [done|done|split; [by left|intros [?|?]; [done|lia]]]).
  - change (sum_list (m :: maxs)) with (m + sum_list maxs)%nat.
    eapply ensures_bind; [by apply (next_batch_spec f loops Hl Hs m n r)|]. intros [ps r1] (H1 & H2 & H3).
    eapply ensures_bind; [by apply IH|]. intros [qs r2] (H4 & H5 & H6). apply ensures_Ok. cbn zeta in *.
    assert (replay_avail f loops n (m + sum_list maxs) =
      replay_avail f loops n m + replay_avail f loops (n + replay_avail f loops n m) (sum_list maxs))%nat as Hk.
    { unfold replay_avail. destruct (loops =? 0); lia. }
    rewrite Hk, Nat.add_assoc. split_and!; [done|by rewrite H5, H2, app_assoc|]. rewrite H6, H3.
    unfold replay_avail. destruct (loops =? 0); split; intros HH; destruct_or?; (tauto || (left; tauto) || (right; lia) || idtac).
    all: try (destruct (decide (Nat.min m (Z.to_nat (loops * size (packets_ f)) - n) < m)%nat); [left; right; lia|right; lia]).
Qed.

(** The replay source hands out the capture [loops] times, in order, and no more.
    Whatever the sequence of batch sizes asked for, the packets delivered are the
    first ones of the capture repeated, cut at [loops] rounds (or endless for
    [loops = 0]); it reports exhaustion exactly when more was asked for than there
    is; and its counters are the number of packets and bytes delivered. *)
Theorem replay_stream path file loops r maxs :
  replay_open path (Some file) true loops = Ok (inr r) -> size file < 2 ^ 63 -> 0 <= loops < 2 ^ 32 ->
  ensures (replay_batches r maxs) (fun '(ps, r') =>
    let packets := packets_ (rp_file r) in let asked := sum_list maxs in
    let left := Z.to_nat (loops * size packets) in
    ps = cycle_take packets (if loops =? 0 then asked else Nat.min asked left) /\
    (rp_exhausted r' = true <-> loops <> 0 /\ (left < asked)%nat) /\
    rp_replayed r' = u64 (size ps) /\ rp_bytes r' = u64 (size (concat (map p_data ps)))).
Proof.
  intros Hopen Hsz Hl. destruct (replay_open_at _ _ _ _ Hopen Hsz ltac:(lia)) as (Hat & Hs & _).
  assert (rp_exhausted r = false) as Hx.
  { destruct (rp_exhausted r) eqn:E; [|done]. destruct (ra_end _ _ _ _ Hat E) as [H0 H1]. nia. }
  eapply ensures_mono; [by apply (replay_batches_spec (rp_file r) loops Hl Hs maxs 0 r Hat)|].
  intros [ps r'] (H1 & H2 & H3). cbn zeta in *. rewrite !Nat.add_0_l in *. cbn [app] in H2. rewrite Hx in H3.
  change (cycle_take (packets_ (rp_file r)) 0) with (@nil PcapPacket) in H2. cbn [app] in H2.
  assert (replay_avail (rp_file r) loops 0 (sum_list maxs) = if loops =? 0 then sum_list maxs
    else Nat.min (sum_list maxs) (Z.to_nat (loops * size (packets_ (rp_file r))))) as Hk
    by (unfold replay_avail; destruct (loops =? 0); lia).
  rewrite Hk in *. split_and!; [done| | |].
  - rewrite H3. destruct (Z.eqb_spec loops 0); split; intros HH; lia.
  - rewrite (ra_replayed _ _ _ _ H1), <- H2. f_equal. unfold size. by rewrite cycle_take_length by (by apply size_pos_ne).
  - by rewrite (ra_bytes _ _ _ _ H1), H2.
Qed.
End Open.

Section Main.
Context {HE : HostEndian} {R1 R2 : Type}.
Context {Q1 : BoundedQueue MeterEvent R1} {Q2 : BoundedQueue GyEvent R2}.

(** C16: Replaying a capture feeds all of it to the pipeline and ends.  For a capture
    that opens and a finite number of rounds, the ingest loop of [main] returns,
    whatever the other threads do to the rings meanwhile and whenever it is
    stopped; the pipeline has then processed a prefix of the repeated capture,
    packet by packet and in order, without a fault; and if it was not stopped
    that prefix is everything. *)
Theorem replay_ingests_capture stop clock env replay batch path file loops r (s : Ingest R1 R2) :
  replay_open path (Some file) true loops = Ok (inr r) -> size file < 2 ^ 63 -> 0 < loops < 2 ^ 32 -> (0 < batch)%nat ->
  rings_ok s -> (forall i s, rings_ok s -> rings_ok (env i s)) ->
  let packets := packets_ (rp_file r) in let total := Z.to_nat (loops * size packets) in
  ensures (ingest_loop stop clock env replay (total + 2) batch 0 0 s r) (fun '(s', _) => rings_ok s' /\
    exists m, (m <= total)%nat /\
      ingest_batch clock env replay s (link_type_ (rp_file r)) 0 (cycle_take packets m) = Ok s' /\
      ((forall k, stop k = false) -> m = total)).
Proof.
  intros Hopen Hsz Hl Hb Hr Henv packets total. destruct (replay_open_at _ _ _ _ Hopen Hsz ltac:(lia)) as (Hat & Hs & Hps).
  eapply ensures_mono; [apply (ingest_loop_spec stop clock env replay Henv (rp_file r) loops batch s Hl Hs Hb Hr Hps (total + 2) 0 0 s r Hat);
    [lia|done|done|unfold total, packets; lia]|].
  intros [s' r'] (Hr' & m & [_ Hm] & _ & Hrun & Hend). split; [done|]. by exists m.
Qed.
End Main.

(** ** Witnesses *)

Definition sample_capture : Bytes :=
  match (let* h := pcap_open 1 65535 in
         pcap_write_all h [mkPacket sample_frame 1000000 0; mkPacket [x01; x02] 2000000 0]) with Ok b => b | _ => [] end.
Definition sample_replay : Replay :=
  match @replay_open little [] (Some sample_capture) true 2 with Ok (inr r) => r | _ => mkReplay PcapFile_init 0 0 0 0 0 false false end.

Lemma replay_stream_witness :
  @replay_open little [] (Some sample_capture) true 2 = Ok (inr sample_replay) /\
  ensures (replay_batches sample_replay [3; 3]%nat) (fun '(ps, r') => size ps = 4 /\ rp_exhausted r' = true).
Proof.
  split; [reflexivity|]. eapply ensures_mono.
  - apply (@replay_stream little [] sample_capture 2 sample_replay [3; 3]%nat); [reflexivity|vm_compute; reflexivity|lia].
  - intros [ps r'] (-> & Hx & _). split; [vm_compute; reflexivity|]. apply Hx. split; [done|vm_compute; lia].
Defined.

Lemma replay_ingests_capture_witness :
  ensures (@ingest_loop little _ _ _ _ (fun _ => false) (fun _ => 5) (fun _ s => s) true 6 256 0 0 sample_ingest sample_replay)
    (fun '(s', _) => rings_ok s').
Proof.
  eapply ensures_mono.
  - apply (@replay_ingests_capture little _ _ _ _ (fun _ => false) (fun _ => 5) (fun _ s => s) true 256 [] sample_capture 2 sample_replay
             sample_ingest); [reflexivity|vm_compute; reflexivity|lia|lia|apply sample_rings_ok|done].
  - intros [s' r'] [H _]. exact H.
Defined.
