(* ===== verification/Double.v ===== *)
(** * The [double] arithmetic and [printf] conversions of the reports

    IEEE 754 binary64 through the Standard Library's executable specification,
    as far as the reports use it: conversion from an unsigned integer, division,
    and the conversions [%.Nf] and [%.6g], which print the exact value rounded
    half to even. *)

From Stdlib Require Import Floats.SpecFloat.
From S2P Require Import Prelude Session SessionCsv.

Definition double : Type := spec_float.
Definition double_of_u64 (v : Z) : double := binary_normalize 53 1024 v 0 false.
Definition ddiv (x y : double) : double := SFdiv 53 1024 x y.
Definition double_finite (x : double) : bool :=
  match x with S754_zero _ | S754_finite _ _ _ => true | _ => false end.

(** Decimal text of any integer, and of an integer in a field of [w] digits. *)
Definition show_big (v : Z) : Bytes := show_loop 400 v.
Fixpoint show_pad (w : nat) (v : Z) : Bytes :=
  match w with O => [] | S w => show_pad w (v / 10) ++ [digit_char (v mod 10)] end.

(** [n / d] rounded to the nearest integer, ties to even. *)
Definition round_half_even (n d : Z) : Z :=
  let q := n / d in let r := n mod d in
  if (2 * r <? d) || ((2 * r =? d) && Z.even q) then q else q + 1.

(** [m * 2^e] as a fraction. *)
Definition ratio (m : positive) (e : Z) : Z * Z :=
  if 0 <=? e then (Z.pos m * 2 ^ e, 1) else (Z.pos m, 2 ^ (- e)).

Definition sign_text (s : bool) : Bytes := if s then [x2d] else [].

(** [q] units of [10^-p]; without digits after the point there is no point. *)
Definition point_text (p : nat) (v : Z) : Bytes := match p with O => [] | S _ => x2e :: show_pad p v end.
Definition decimal_text (p : nat) (q : Z) : Bytes :=
  show_big (q / 10 ^ Z.of_nat p) ++ point_text p (q mod 10 ^ Z.of_nat p).

(** [%.pf]. *)
Definition fixed (p : nat) (x : double) : Bytes :=
  match x with
  | S754_zero s => sign_text s ++ decimal_text p 0
  | S754_infinity s => sign_text s ++ [x69; x6e; x66]
  | S754_nan => [x6e; x61; x6e]
  | S754_finite s m e =>
      let (n, d) := ratio m e in sign_text s ++ decimal_text p (round_half_even (n * 10 ^ Z.of_nat p) d)
  end.

(** The least [k >= k0] with [n / d < 10^(k+1)]. *)
Fixpoint exponent10 (fuel : nat) (n d k : Z) : Z :=
  match fuel with
  | O => k
  | S fuel =>
      let lt := if 0 <=? k + 1 then n <? d * 10 ^ (k + 1) else n * 10 ^ (- (k + 1)) <? d in
      if lt then k else exponent10 fuel n d (k + 1)
  end.

Fixpoint strip_zeros (rs : Bytes) : Bytes :=
  match rs with c :: rs' => if decide (c = x30) then strip_zeros rs' else rs | [] => [] end.

(** [w] digits after the point, without trailing zeros and without a bare point. *)
Definition fraction_text (w : nat) (v : Z) : Bytes :=
  match rev (strip_zeros (rev (show_pad w v))) with [] => [] | ds => x2e :: ds end.

(** [%.6g]: six significant digits. *)
Definition general6 (x : double) : Bytes :=
  match x with
  | S754_zero s => sign_text s ++ [x30]
  | S754_infinity s => sign_text s ++ [x69; x6e; x66]
  | S754_nan => [x6e; x61; x6e]
  | S754_finite s m e =>
      let (n, d) := ratio m e in
      let k := exponent10 700 n d (-340) in
      let q := if 0 <=? k - 5 then round_half_even n (d * 10 ^ (k - 5)) else round_half_even (n * 10 ^ (5 - k)) d in
      let (k, q) := if q =? 1000000 then (k + 1, 100000) else (k, q) in
      sign_text s ++
      (if (-4 <=? k) && (k <? 6) then
         let w := 5 - k in show_big (q / 10 ^ w) ++ fraction_text (Z.to_nat w) (q mod 10 ^ w)
       else
         digit_char (q / 100000) :: fraction_text 5 (q mod 100000) ++
         x65 :: (if k <? 0 then x2d else x2b) :: (if Z.abs k <? 100 then show_pad 2 (Z.abs k) else show_big (Z.abs k)))
  end.

(** ** The shape of a fixed conversion *)

Lemma show_pad_dec w : forall v, Forall is_dec (show_pad w v).
Proof.
  induction w as [|w IH]; intros v; cbn [show_pad]; [constructor|]. apply Forall_app_2; [apply IH|].
  constructor; [|constructor]. pose proof (Z.mod_pos_bound v 10). unfold is_dec. rewrite bval_digit; lia.
Qed.
Lemma show_pad_length w : forall v, length (show_pad w v) = w.
Proof. induction w as [|w IH]; intros v; cbn [show_pad]; [done|]. rewrite length_app, IH. cbn. lia. Qed.

Lemma parse_show_pad w : forall v, 0 <= v < 2 ^ 64 -> v < 10 ^ Z.of_nat w -> parse_digits 10 (show_pad w v) 0 = Some v.
Proof.
  induction w as [|w IH]; intros v Hv Hw; cbn [show_pad].
  { change (10 ^ Z.of_nat 0) with 1 in Hw. assert (v = 0) as -> by lia. done. }
  pose proof (Z.div_mod v 10). pose proof (Z.mod_pos_bound v 10). rewrite Nat2Z.inj_succ, Z.pow_succ_r in Hw by lia.
  rewrite parse_digits_app, IH; [|lia|apply Z.div_lt_upper_bound; lia].
  cbn [parse_digits]. rewrite digit_of_char by lia. unfold add64, mul64. rewrite u64_add_u64_l, u64_small by lia. f_equal. lia.
Qed.
