(* ===== verification/Text.v ===== *)
(** * Format strings

    [snprintf] as the program uses it: the conversions [%s], [%u], [%d], [%llu],
    [%zu], [%x], [%02u], [%03u], [%.Nf] and [%.6g], with field widths and [-].  In
    the string literals below a backquote stands for the double quote, a tilde for
    a line feed and a caret for a carriage return; of the three only the caret
    occurs in the source's own literals, in two names of [bench_ring].  Integer
    arguments are non-negative. *)

From Stdlib Require Strings.String.
From S2P Require Import Prelude Session SessionCsv Double.

Definition ch_quote : byte := x22.
Definition ch_dash : byte := x2d.
Definition ch_dot : byte := x2e.
Definition ch_colon : byte := x3a.

Definition txt_char (c : byte) : byte :=
  if decide (c = x60) then ch_quote else if decide (c = x7e) then ch_nl else if decide (c = x5e) then ch_cr else c.
Definition txt (s : String.string) : Bytes := map txt_char (String.list_byte_of_string s).

(** [CField l w c] prints [c] in a field of [w] characters, at its left if [l]. *)
Inductive conv := CUInt | CStr | CHex | CPad (w : nat) | CFixed (p : nat) | CGeneral | CField (l : bool) (w : nat) (c : conv).
Inductive piece := PLit (b : Bytes) | PArg (c : conv).
Inductive arg := AInt (v : Z) | AStr (s : Bytes) | ADouble (x : double).

Definition lit_cons (c : byte) (ps : list piece) : list piece :=
  match ps with PLit b :: ps => PLit (c :: b) :: ps | _ => PLit [c] :: ps end.

(** Inside a directive: what was read of its flags, width and precision. *)
Record directive := mkDirective { d_left : bool; d_zero : bool; d_dot : bool; d_width : nat; d_prec : nat }.

(** A digit, a minus sign or a dot of a directive. *)
Definition directive_char (d : directive) (k : Z) : directive :=
  let '(mkDirective l z dot w p) := d in
  if k =? 45 then mkDirective true z dot w p
  else if k =? 46 then mkDirective l z true w p
  else let n := Z.to_nat (k - 48) in
    if dot then mkDirective l z dot w (p * 10 + n)
    else if (k =? 48) && (w =? 0)%nat then mkDirective l true dot w p
    else mkDirective l z dot (w * 10 + n) p.

(** The conversion that the letter [k] ends. *)
Definition directive_end (d : directive) (k : Z) : conv :=
  let c := if k =? 115 then CStr                                            (* s *)
           else if k =? 120 then CHex                                       (* x *)
           else if k =? 102 then CFixed (d_prec d)                          (* f *)
           else if k =? 103 then CGeneral                                   (* g, always with .6 *)
           else if d_zero d then CPad (d_width d) else CUInt in             (* u d *)
  if d_zero d || (d_width d =? 0)%nat then c else CField (d_left d) (d_width d) c.

(** The format string cut at its conversions; the length modifiers [l] and [z]
    say nothing about the text. *)
Fixpoint scan_format (d : option directive) (s : Bytes) : list piece :=
  match s with
  | [] => []
  | c :: r =>
      let k := bval c in
      match d with
      | None => if k =? 37 then scan_format (Some (mkDirective false false false 0 0)) r else lit_cons c (scan_format None r)
      | Some d =>
          if (k =? 108) || (k =? 122) then scan_format (Some d) r
          else if (45 <=? k) && (k <=? 57) then scan_format (Some (directive_char d k)) r
          else PArg (directive_end d k) :: scan_format None r
      end
  end.
Definition pieces (s : Bytes) : list piece := scan_format None s.

Definition hex_char (d : Z) : byte := to_byte (if d <? 10 then 48 + d else 87 + d).
Fixpoint show_hex (fuel : nat) (v : Z) : Bytes :=
  match fuel with
  | O => []
  | S fuel => if v <? 16 then [hex_char v] else show_hex fuel (v / 16) ++ [hex_char (v mod 16)]
  end.

(** Blanks up to the width, after the text if [l]. *)
Definition pad_field (l : bool) (w : nat) (s : Bytes) : Bytes :=
  let blanks := replicate (w - length s) ch_space in if l then s ++ blanks else blanks ++ s.

Fixpoint convert (c : conv) (a : arg) : Bytes :=
  match c, a with
  | CUInt, AInt v => show_u64 v
  | CStr, AStr s => s
  | CHex, AInt v => show_hex 16 v
  | CPad w, AInt v => if v <? 10 ^ Z.of_nat w then show_pad w v else show_u64 v
  | CFixed p, ADouble x => fixed p x
  | CGeneral, ADouble x => general6 x
  | CField l w c, _ => pad_field l w (convert c a)
  | _, _ => []
  end.

Fixpoint render (ps : list piece) (args : list arg) : Bytes :=
  match ps with
  | [] => []
  | PLit b :: ps => b ++ render ps args
  | PArg c :: ps => match args with a :: args => convert c a ++ render ps args | [] => [] end
  end.

Definition sprintf (fmt : String.string) (args : list arg) : Bytes := render (pieces (txt fmt)) args.

(** Evaluates the format strings of the goal. *)
Ltac run_format :=
  unfold sprintf;
  repeat match goal with
  | |- context [pieces (txt ?f)] => let p := eval vm_compute in (pieces (txt f)) in change (pieces (txt f)) with p
  | |- context [txt ?f] => let p := eval vm_compute in (txt f) in change (txt f) with p
  end;
  cbn [render convert].

(** Bounds on the length of what a conversion prints. *)
Lemma show_loop_length fuel : forall v, (length (show_loop fuel v) <= fuel)%nat.
Proof.
  induction fuel as [|fuel IH]; intros v; cbn [show_loop]; [done|]. destruct (v <? 10); [cbn; lia|].
  rewrite length_app. specialize (IH (v / 10)). cbn. lia.
Qed.

Lemma show_u64_length v : (length (show_u64 v) <= 20)%nat.
Proof. apply show_loop_length. Qed.

Lemma show_small k : forall fuel v, v < 10 ^ Z.of_nat k -> (0 < k <= fuel)%nat -> (length (show_loop fuel v) <= k)%nat.
Proof.
  induction k as [|k IH]; intros fuel v Hv Hk; [lia|]. destruct fuel as [|fuel]; [lia|]. cbn [show_loop].
  destruct (Z.ltb_spec v 10); [cbn; lia|]. rewrite length_app. cbn [length]. rewrite Nat2Z.inj_succ, Z.pow_succ_r in Hv by lia.
  assert (k <> 0)%nat by (intros ->; change (10 ^ Z.of_nat 0) with 1 in Hv; lia).
  specialize (IH fuel (v / 10) ltac:(apply Z.div_lt_upper_bound; lia) ltac:(lia)). lia.
Qed.

Lemma show_u32_length v : v < 2 ^ 32 -> (length (show_u64 v) <= 10)%nat.
Proof. intros H. apply show_small; [change (10 ^ Z.of_nat 10) with 10000000000|]; lia. Qed.
