(* ===== verification/Clock.v ===== *)
(** * include/gtpm/clock.hpp: time stamps as text

    [format_rfc3339] with the C library's [gmtime_r] and [strftime]: the proleptic
    Gregorian calendar from 1970.  [timegm] is the reference it is checked
    against. *)

From S2P Require Import Prelude Session SessionCsv Double Text.

Definition leap_year (y : Z) : bool := (y mod 4 =? 0) && (negb (y mod 100 =? 0) || (y mod 400 =? 0)).
Definition days_in_year (y : Z) : Z := if leap_year y then 366 else 365.
Definition month_days (y : Z) : list Z :=
  [31; if leap_year y then 29 else 28; 31; 30; 31; 30; 31; 31; 30; 31; 30; 31].

Fixpoint year_loop (fuel : nat) (y d : Z) : Z * Z :=
  match fuel with
  | O => (y, d)
  | S fuel => if d <? days_in_year y then (y, d) else year_loop fuel (y + 1) (d - days_in_year y)
  end.

Fixpoint month_loop (ms : list Z) (m d : Z) : Z * Z :=
  match ms with
  | [] => (m, d)
  | l :: ms => if d <? l then (m, d) else month_loop ms (m + 1) (d - l)
  end.

Record Tm := mkTm { tm_year : Z; tm_mon : Z; tm_mday : Z; tm_hour : Z; tm_min : Z; tm_sec : Z }.

(** Years count from 0, months from 1; 600 years cover every 64-bit nanosecond count. *)
Definition gmtime (secs : Z) : Tm :=
  let rem := secs mod 86400 in
  let (y, yday) := year_loop 600 1970 (secs / 86400) in
  let (m, d) := month_loop (month_days y) 1 yday in
  mkTm y m (d + 1) (rem / 3600) (rem mod 3600 / 60) (rem mod 60).

(** ["%Y-%m-%dT%H:%M:%S"]. *)
Definition strftime (t : Tm) : Bytes :=
  concat [show_pad 4 (tm_year t); [ch_dash]; show_pad 2 (tm_mon t); [ch_dash]; show_pad 2 (tm_mday t); [x54];
          show_pad 2 (tm_hour t); [ch_colon]; show_pad 2 (tm_min t); [ch_colon]; show_pad 2 (tm_sec t)].

Definition format_rfc3339 (ns : Z) : Bytes :=
  let secs := ns / 1000000000 in
  let millis := (ns mod 1000000000) / 1000000 in
  strftime (gmtime secs) ++ sprintf ".%03uZ" [AInt millis].

(** ** Reference: reading a time stamp back *)

Fixpoint year_days (n : nat) : Z :=
  match n with O => 0 | S n => year_days n + days_in_year (1970 + Z.of_nat n) end.
Definition timegm (t : Tm) : Z :=
  (year_days (Z.to_nat (tm_year t - 1970)) +
   foldr Z.add 0 (take (Z.to_nat (tm_mon t - 1)) (month_days (tm_year t))) + (tm_mday t - 1)) * 86400 +
  tm_hour t * 3600 + tm_min t * 60 + tm_sec t.

Definition num_at (s : Bytes) (off len : nat) : option Z := parse_digits 10 (take len (drop off s)) 0.

(** Milliseconds since the epoch. *)
Definition parse_rfc3339 (s : Bytes) : option Z :=
  y ← num_at s 0 4; m ← num_at s 5 2; d ← num_at s 8 2; h ← num_at s 11 2; mi ← num_at s 14 2; sec ← num_at s 17 2;
  ms ← num_at s 20 3; Some (timegm (mkTm y m d h mi sec) * 1000 + ms).

Lemma days_in_year_bounds y : 365 <= days_in_year y <= 366.
Proof. unfold days_in_year. destruct (leap_year y); lia. Qed.

Lemma year_loop_spec fuel : forall n d, 0 <= d -> d < 365 * Z.of_nat fuel ->
  exists k : nat, year_loop fuel (1970 + Z.of_nat n) d =
    (1970 + Z.of_nat (n + k), d - (year_days (n + k) - year_days n)) /\ (k < fuel)%nat /\
    0 <= d - (year_days (n + k) - year_days n) < days_in_year (1970 + Z.of_nat (n + k)).
Proof.
  induction fuel as [|fuel IH]; intros n d H0 Hd; [lia|]. cbn [year_loop].
  pose proof (days_in_year_bounds (1970 + Z.of_nat n)) as Hb. destruct (Z.ltb_spec d (days_in_year (1970 + Z.of_nat n))).
  - exists 0%nat. rewrite Nat.add_0_r. rewrite Z.sub_diag, Z.sub_0_r. split_and!; [done|lia|lia|lia].
  - destruct (IH (S n) (d - days_in_year (1970 + Z.of_nat n))) as (k & Hk & Hlt & Hr); [lia|lia|].
    exists (S k). rewrite <- Nat.add_succ_comm.
    replace (1970 + Z.of_nat n + 1) with (1970 + Z.of_nat (S n)) by lia. rewrite Hk.
    cbn [year_days] in *. split_and!; [f_equal; lia|lia|lia|lia].
Qed.

Lemma month_loop_spec ms : forall m d, 0 <= d < foldr Z.add 0 ms ->
  exists k : nat, month_loop ms m d = (m + Z.of_nat k, d - foldr Z.add 0 (take k ms)) /\ (k < length ms)%nat /\
    0 <= d - foldr Z.add 0 (take k ms) < nth k ms 0.
Proof.
  induction ms as [|l ms IH]; intros m d Hd; cbn [foldr] in Hd; [lia|]. cbn [month_loop].
  destruct (Z.ltb_spec d l).
  - exists 0%nat. cbn. rewrite Z.add_0_r, Z.sub_0_r. split_and!; [done|lia|lia|lia].
  - destruct (IH (m + 1) (d - l)) as (k & Hk & Hlt & Hr); [lia|]. exists (S k). cbn [take foldr nth length]. rewrite Hk.
    split_and!; [f_equal; lia|lia|lia|lia].
Qed.

Lemma month_days_sum y : foldr Z.add 0 (month_days y) = days_in_year y.
Proof. unfold month_days, days_in_year. by destruct (leap_year y). Qed.
Lemma month_days_le y k : nth k (month_days y) 0 <= 31.
Proof. unfold month_days. do 12 (destruct k as [|k]; [cbn; destruct (leap_year y); lia|]). by destruct k. Qed.

(** The fields of [gmtime] are in range and denote the time given. *)
Lemma gmtime_spec secs : 0 <= secs < 18446744074 -> let t := gmtime secs in
  timegm t = secs /\ 1970 <= tm_year t < 2570 /\ 1 <= tm_mon t <= 12 /\ 1 <= tm_mday t <= 31 /\
  0 <= tm_hour t < 24 /\ 0 <= tm_min t < 60 /\ 0 <= tm_sec t < 60.
Proof.
  intros Hs. unfold gmtime.
  assert (0 <= secs / 86400 < 365 * Z.of_nat 600) as Hd by (Z.to_euclidean_division_equations; lia).
  destruct (year_loop_spec 600 0 (secs / 86400)) as (k & Hk & Hlt & Hr); [lia|lia|].
  change (1970 + Z.of_nat 0) with 1970 in Hk. rewrite Hk. cbn [Nat.add year_days] in *. rewrite Z.sub_0_r in *.
  set (y := 1970 + Z.of_nat k) in *. set (yday := secs / 86400 - year_days k) in *.
  destruct (month_loop_spec (month_days y) 1 yday) as (j & Hj & Hjl & Hjr); [rewrite month_days_sum; lia|].
  rewrite Hj. pose proof (month_days_le y j). change (length (month_days y)) with 12%nat in Hjl. cbn zeta.
  cbn [tm_year tm_mon tm_mday tm_hour tm_min tm_sec]. split_and!; try (unfold y; lia); try (Z.to_euclidean_division_equations; lia).
  unfold timegm. cbn [tm_year tm_mon tm_mday tm_hour tm_min tm_sec].
  replace (Z.to_nat (y - 1970)) with k by (unfold y; lia). replace (Z.to_nat (1 + Z.of_nat j - 1)) with j by lia.
  set (sum := foldr Z.add 0 (take j (month_days y))) in *.
  replace (year_days k + sum + (yday - sum + 1 - 1)) with (secs / 86400) by (unfold yday; lia).
  Z.to_euclidean_division_equations. lia.
Qed.

(** ** The text *)

Lemma num_at_chunk l1 w v l2 off : off = length (concat l1) -> 0 <= v < 10 ^ Z.of_nat w -> v < 2 ^ 64 ->
  num_at (concat (l1 ++ show_pad w v :: l2)) off w = Some v.
Proof.
  intros -> Hv H64. unfold num_at. rewrite concat_app. cbn [concat].
  rewrite drop_app_length, take_app_le, take_ge by (rewrite show_pad_length; lia). apply parse_show_pad; lia.
Qed.

Lemma millis_text ms : 0 <= ms < 1000 -> sprintf ".%03uZ" [AInt ms] = concat [[ch_dot]; show_pad 3 ms; [x5a]].
Proof.
  intros H. run_format. change (10 ^ Z.of_nat 3) with 1000. destruct (Z.ltb_spec ms 1000); [|lia].
  cbn [concat]. by rewrite app_nil_r.
Qed.

(** The number [v] is at [off], after the chunks [l1]. *)
Ltac chunk off w v l1 :=
  match goal with |- context [num_at ?T off w] =>
    replace (num_at T off w) with (Some v) by
      (symmetry; apply (num_at_chunk l1 w v);
       [rewrite ?length_concat; cbn [map list_sum foldr length]; rewrite ?show_pad_length; reflexivity
       |cbn [Z.of_nat Pos.of_succ_nat Pos.succ]; lia|lia])
  end.

(** The fields of a time stamp. *)
Lemma format_rfc3339_fields ns : 0 <= ns < 2 ^ 64 -> exists y m d h mi sec,
  format_rfc3339 ns = concat [show_pad 4 y; [ch_dash]; show_pad 2 m; [ch_dash]; show_pad 2 d; [x54]; show_pad 2 h; [ch_colon];
    show_pad 2 mi; [ch_colon]; show_pad 2 sec; [ch_dot]; show_pad 3 (ns mod 1000000000 / 1000000); [x5a]] /\
  timegm (mkTm y m d h mi sec) = ns / 1000000000 /\ 1970 <= y < 2570 /\ 1 <= m <= 12 /\ 1 <= d <= 31 /\
  0 <= h < 24 /\ 0 <= mi < 60 /\ 0 <= sec < 60.
Proof.
  intros Hns. assert (0 <= ns / 1000000000 < 18446744074) as Hs by (Z.to_euclidean_division_equations; lia).
  assert (0 <= ns mod 1000000000 / 1000000 < 1000) as Hms by (Z.to_euclidean_division_equations; lia).
  pose proof (gmtime_spec _ Hs) as Hg. cbn zeta in Hg. unfold format_rfc3339. rewrite (millis_text _ Hms).
  destruct (gmtime (ns / 1000000000)) as [y m d h mi sec]. exists y, m, d, h, mi, sec. unfold strftime. rewrite <- concat_app. by split.
Qed.

Lemma format_rfc3339_length ns : 0 <= ns < 2 ^ 64 -> length (format_rfc3339 ns) = 24%nat.
Proof.
  intros (y & m & d & h & mi & sec & -> & _)%format_rfc3339_fields. rewrite length_concat. cbn [map list_sum foldr length].
  by rewrite !show_pad_length.
Qed.

Lemma parse_format_rfc3339 ns : 0 <= ns < 2 ^ 64 -> parse_rfc3339 (format_rfc3339 ns) = Some (ns / 1000000).
Proof.
  intros Hns.
  destruct (format_rfc3339_fields ns Hns) as (y & m & d & h & mi & sec & -> & Ht & Hy & Hm & Hd & Hh & Hmi & Hsec).
  assert (0 <= ns mod 1000000000 / 1000000 < 1000) as Hms by (Z.to_euclidean_division_equations; lia).
  set (ms := ns mod 1000000000 / 1000000) in *. set (D := [ch_dash]). set (C := [ch_colon]). unfold parse_rfc3339.
  chunk 0%nat 4%nat y (@nil Bytes). chunk 5%nat 2%nat m [show_pad 4 y; D]. chunk 8%nat 2%nat d [show_pad 4 y; D; show_pad 2 m; D].
  chunk 11%nat 2%nat h [show_pad 4 y; D; show_pad 2 m; D; show_pad 2 d; [x54]].
  chunk 14%nat 2%nat mi [show_pad 4 y; D; show_pad 2 m; D; show_pad 2 d; [x54]; show_pad 2 h; C].
  chunk 17%nat 2%nat sec [show_pad 4 y; D; show_pad 2 m; D; show_pad 2 d; [x54]; show_pad 2 h; C; show_pad 2 mi; C].
  chunk 20%nat 3%nat ms [show_pad 4 y; D; show_pad 2 m; D; show_pad 2 d; [x54]; show_pad 2 h; C; show_pad 2 mi; C; show_pad 2 sec; [ch_dot]].
  cbn [mbind option_bind]. f_equal. rewrite Ht. unfold ms. Z.to_euclidean_division_equations. lia.
Qed.

(** Time stamps are exact to the millisecond.  For every 64-bit count of
    nanoseconds [format_rfc3339] prints 24 characters, and reading its calendar
    fields back (leap years included) gives the same millisecond. *)
Theorem rfc3339_roundtrip ns : 0 <= ns < 2 ^ 64 ->
  length (format_rfc3339 ns) = 24%nat /\ parse_rfc3339 (format_rfc3339 ns) = Some (ns / 1000000).
Proof.
  intros Hns. split; [by apply format_rfc3339_length|].
  by apply parse_format_rfc3339.
Qed.

Lemma rfc3339_roundtrip_witness :
  format_rfc3339 1709210096789000000 = txt "2024-02-29T12:34:56.789Z" /\
  parse_rfc3339 (format_rfc3339 1709210096789000000) = Some 1709210096789.
Proof. split; [vm_compute; reflexivity|]. apply (rfc3339_roundtrip 1709210096789000000). lia. Defined.
