(* ===== verification/Json.v ===== *)
(** * JSON texts

    The reference the reports are checked against: JSON values, their compact
    text, and a reader for compact JSON without escapes or exponents (a subset of
    RFC 8259, enough for what the program writes).  The reader inverts the
    writer. *)

From S2P Require Import Prelude Session SessionCsv Double Text.

#[warnings="-register-all"] Inductive json :=
| JBool (b : bool)
| JNum (t : Bytes)
| JStr (s : Bytes)
| JArr (l : list json)
| JObj (l : list (Bytes * json)).

(** Induction with the hypothesis for every component. *)
Definition json_induction (P : json -> Prop)
    (Hb : forall b, P (JBool b)) (Hn : forall t, P (JNum t)) (Hs : forall s, P (JStr s))
    (Ha : forall l, Forall P l -> P (JArr l)) (Ho : forall l, Forall (fun m => P m.2) l -> P (JObj l)) :=
  fix go (j : json) : P j :=
    match j with
    | JBool b => Hb b
    | JNum t => Hn t
    | JStr s => Hs s
    | JArr l => Ha l ((fix all (l : list json) : Forall P l :=
                         match l with [] => Forall_nil _ | j :: l => Forall_cons _ _ _ (go j) (all l) end) l)
    | JObj l => Ho l ((fix all (l : list (Bytes * json)) : Forall (fun m => P m.2) l :=
                         match l with [] => Forall_nil _ | m :: l => Forall_cons _ m _ (go m.2) (all l) end) l)
    end.

Definition ch_lbrace : byte := x7b.
Definition ch_rbrace : byte := x7d.
Definition ch_lbrack : byte := x5b.
Definition ch_rbrack : byte := x5d.
Definition ch_backslash : byte := x5c.
Definition true_text : Bytes := [x74; x72; x75; x65].
Definition false_text : Bytes := [x66; x61; x6c; x73; x65].

(** ** Writing: the text of a value, followed by [k] *)

Definition put_string (s : Bytes) (k : Bytes) : Bytes := ch_quote :: s ++ ch_quote :: k.

(** The items of a list separated by commas. *)
Fixpoint put_list {A} (put : A -> Bytes -> Bytes) (l : list A) (k : Bytes) : Bytes :=
  match l with
  | [] => k
  | [a] => put a k
  | a :: l => put a (ch_comma :: put_list put l k)
  end.

Fixpoint json_put (j : json) (k : Bytes) : Bytes :=
  match j with
  | JBool b => (if b then true_text else false_text) ++ k
  | JNum t => t ++ k
  | JStr s => put_string s k
  | JArr l => ch_lbrack :: put_list json_put l (ch_rbrack :: k)
  | JObj l => ch_lbrace :: put_list (fun m k => put_string m.1 (ch_colon :: json_put m.2 k)) l (ch_rbrace :: k)
  end.
Definition json_text (j : json) : Bytes := json_put j [].

(** ** Reading *)

Definition plain (c : byte) : bool :=
  (32 <=? bval c) && negb (bool_decide (c = ch_quote)) && negb (bool_decide (c = ch_backslash)).

Fixpoint get_string (s : Bytes) : option (Bytes * Bytes) :=
  match s with
  | [] => None
  | c :: s =>
      if decide (c = ch_quote) then Some ([], s)
      else if plain c then '(t, r) ← get_string s; Some (c :: t, r) else None
  end.

Definition dec_char (c : byte) : bool := (48 <=? bval c) && (bval c <=? 57).
Definition num_char (c : byte) : bool := dec_char c || bool_decide (c = ch_dot).
Fixpoint span (p : byte -> bool) (s : Bytes) : Bytes * Bytes :=
  match s with
  | c :: s' => if p c then let (t, r) := span p s' in (c :: t, r) else ([], s)
  | [] => ([], [])
  end.

Definition digits (s : Bytes) : bool := match s with [] => false | _ => forallb dec_char s end.
Definition integer_part (s : Bytes) : bool :=
  digits s && match s with c :: _ :: _ => negb (bval c =? 48) | _ => true end.
(** An integer without leading zeros, with an optional fraction. *)
Definition number_text (t : Bytes) : bool :=
  let (i, f) := span dec_char t in
  integer_part i && match f with [] => true | c :: f => bool_decide (c = ch_dot) && digits f end.

(** The items up to the closing character. *)
Fixpoint get_list {A} (get : Bytes -> option (A * Bytes)) (close : byte) (n : nat) (s : Bytes) : option (list A * Bytes) :=
  match n with
  | O => None
  | S n =>
      '(a, r) ← get s;
      match r with
      | c :: r =>
          if decide (c = close) then Some ([a], r)
          else if decide (c = ch_comma) then '(l, r) ← get_list get close n r; Some (a :: l, r) else None
      | [] => None
      end
  end.

Definition get_items {A} (get : Bytes -> option (A * Bytes)) (close : byte) (s : Bytes) : option (list A * Bytes) :=
  match s with
  | c :: r => if decide (c = close) then Some ([], r) else get_list get close (S (length s)) s
  | [] => None
  end.

Definition get_member (get : Bytes -> option (json * Bytes)) (s : Bytes) : option ((Bytes * json) * Bytes) :=
  match s with
  | q :: s =>
      if negb (bool_decide (q = ch_quote)) then None else
      '(name, r) ← get_string s;
      match r with
      | c :: r => if decide (c = ch_colon) then '(v, r) ← get r; Some ((name, v), r) else None
      | [] => None
      end
  | [] => None
  end.

Fixpoint get_value (depth : nat) (s : Bytes) : option (json * Bytes) :=
  match depth with
  | O => None
  | S depth =>
      match s with
      | [] => None
      | c :: r =>
          if decide (c = ch_quote) then '(t, r) ← get_string r; Some (JStr t, r)
          else if decide (c = ch_lbrack) then '(l, r) ← get_items (get_value depth) ch_rbrack r; Some (JArr l, r)
          else if decide (c = ch_lbrace) then '(l, r) ← get_items (get_member (get_value depth)) ch_rbrace r; Some (JObj l, r)
          else if decide (take 4 s = true_text) then Some (JBool true, drop 4 s)
          else if decide (take 5 s = false_text) then Some (JBool false, drop 5 s)
          else let (t, r) := span num_char s in if number_text t then Some (JNum t, r) else None
      end
  end.

Definition json_parse (s : Bytes) : option json :=
  match get_value (S (length s)) s with Some (j, []) => Some j | _ => None end.

(** ** Reading inverts writing *)

(** Strings without quotes, backslashes and control characters; numbers as above. *)
Fixpoint json_ok (j : json) : bool :=
  match j with
  | JBool _ => true
  | JNum t => number_text t
  | JStr s => forallb plain s
  | JArr l => forallb json_ok l
  | JObj l => forallb (fun m => forallb plain m.1 && json_ok m.2) l
  end.

Fixpoint json_depth (j : json) : nat :=
  match j with
  | JArr l => S (foldr Nat.max 0 (map json_depth l))
  | JObj l => S (foldr Nat.max 0 (map (fun m => json_depth m.2) l))
  | _ => 0
  end%nat.

(** What may follow a value. *)
Definition ends (k : Bytes) : Prop := match k with c :: _ => num_char c = false | [] => True end.

Lemma plain_not_quote c : plain c = true -> c <> ch_quote.
Proof. unfold plain. intros H ->. vm_compute in H. done. Qed.

Lemma get_string_put s k : forallb plain s = true -> get_string (s ++ ch_quote :: k) = Some (s, k).
Proof.
  induction s as [|c s IH]; intros H; cbn [app get_string]; [done|]. cbn in H. apply andb_true_iff in H as [Hc Hs].
  rewrite decide_False by (by apply plain_not_quote). by rewrite Hc, (IH Hs).
Qed.

Lemma span_app p t k : forallb p t = true -> match k with c :: _ => p c = false | [] => True end -> span p (t ++ k) = (t, k).
Proof.
  intros Ht Hk. induction t as [|c t IH]; cbn [app].
  - destruct k as [|c k]; [done|]. cbn. by rewrite Hk.
  - cbn in Ht |- *. apply andb_true_iff in Ht as [-> Ht]. by rewrite (IH Ht).
Qed.

Lemma span_spec p s : s = (span p s).1 ++ (span p s).2 /\ forallb p (span p s).1 = true.
Proof.
  induction s as [|c s [IH1 IH2]]; cbn; [done|]. destruct (p c) eqn:E; [|done]. destruct (span p s) as [t r]. cbn in *.
  by rewrite E, IH2, <- IH1.
Qed.

Lemma forallb_impl {A} (p q : A -> bool) l : (forall a, p a = true -> q a = true) -> forallb p l = true -> forallb q l = true.
Proof. rewrite !forallb_forall. auto. Qed.

Lemma digits_all s : digits s = true -> forallb dec_char s = true.
Proof. by destruct s. Qed.

(** A number is made of number characters and starts with a digit. *)
Lemma number_text_chars t : number_text t = true -> forallb num_char t = true /\ exists c r, t = c :: r /\ dec_char c = true.
Proof.
  unfold number_text. destruct (span_spec dec_char t) as [Ht Hi]. destruct (span dec_char t) as [i f]. cbn in *.
  intros [[Hdig _]%andb_true_iff Hf]%andb_true_iff. subst t. split.
  - rewrite forallb_app. apply andb_true_iff. split.
    + eapply forallb_impl; [|exact Hi]. intros c Hc. unfold num_char. by rewrite Hc.
    + destruct f as [|c f]; [done|]. apply andb_true_iff in Hf as [Hc%bool_decide_eq_true Hf%digits_all]. subst c. cbn.
      eapply forallb_impl; [|exact Hf]. intros c Hc. unfold num_char. by rewrite Hc.
  - destruct i as [|c i]; [done|]. exists c, (i ++ f). cbn in Hi. apply andb_true_iff in Hi as [Hc _]. done.
Qed.

Lemma dec_char_other c : dec_char c = true ->
  c <> ch_quote /\ c <> ch_lbrack /\ c <> ch_lbrace /\ c <> x74 /\ c <> x66 /\ c <> ch_rbrack /\ c <> ch_rbrace.
Proof. intros H. split_and!; intros ->; vm_compute in H; done. Qed.

Section Lists.
Context {A : Type} (put : A -> Bytes -> Bytes) (get : Bytes -> option (A * Bytes)) (close : byte).
Context (Hclose : close <> ch_comma) (Hends : num_char close = false).

Lemma get_list_put l k : Forall (fun a => forall k, ends k -> get (put a k) = Some (a, k)) l -> l <> [] ->
  forall n, (length l <= n)%nat -> get_list get close n (put_list put l (close :: k)) = Some (l, k).
Proof.
  induction 1 as [|a l Ha Hl IH]; intros Hne n Hn; [done|]. destruct n as [|n]; [cbn in Hn; lia|]. cbn [length] in Hn.
  destruct l as [|b l].
  - cbn [put_list get_list]. rewrite Ha by done. cbn. by rewrite decide_True.
  - change (put_list put (a :: b :: l) (close :: k)) with (put a (ch_comma :: put_list put (b :: l) (close :: k))).
    cbn [get_list]. rewrite Ha by done. cbn [mbind option_bind]. rewrite decide_False by (by intros <-). rewrite decide_True by done.
    by rewrite IH by (done || lia).
Qed.

Lemma get_items_put l k : Forall (fun a => forall k, ends k -> get (put a k) = Some (a, k)) l ->
  Forall (fun a => forall k, exists c r, put a k = c :: r /\ c <> close /\ (length k <= length r)%nat) l ->
  get_items get close (put_list put l (close :: k)) = Some (l, k).
Proof.
  intros Hget Hput. destruct l as [|a l]; [cbn; by rewrite decide_True|].
  assert (length (a :: l) <= S (length (put_list put (a :: l) (close :: k))))%nat as Hlen.
  { clear Hget. induction Hput as [|b m Hb Hm IH]; [cbn; lia|]. destruct m as [|c m].
    - cbn. lia.
    - change (put_list put (b :: c :: m) (close :: k)) with (put b (ch_comma :: put_list put (c :: m) (close :: k))).
      destruct (Hb (ch_comma :: put_list put (c :: m) (close :: k))) as (x & r & -> & _ & Hr). cbn [length] in *. lia. }
  pose proof (get_list_put (a :: l) k Hget ltac:(done) _ Hlen) as HG.
  assert (exists x r, put_list put (a :: l) (close :: k) = x :: r /\ x <> close) as (x & r & E & Hx).
  { apply Forall_cons_iff in Hput as [Ha _]. destruct l as [|b l];
      [destruct (Ha (close :: k)) as (x & r & H1 & H2 & _)|
       destruct (Ha (ch_comma :: put_list put (b :: l) (close :: k))) as (x & r & H1 & H2 & _)]; by exists x, r. }
  unfold get_items. rewrite E in *. by rewrite decide_False by done.
Qed.
End Lists.

Lemma put_list_length {A} (put : A -> Bytes -> Bytes) (d : A -> nat) l k :
  Forall (fun a => forall k, (d a + length k <= length (put a k))%nat) l ->
  (foldr Nat.max 0 (map d l) + length k <= length (put_list put l k))%nat.
Proof.
  induction 1 as [|a l Ha Hl IH]; [done|]. destruct l as [|b l].
  - cbn. specialize (Ha k). lia.
  - change (put_list put (a :: b :: l) k) with (put a (ch_comma :: put_list put (b :: l) k)).
    specialize (Ha (ch_comma :: put_list put (b :: l) k)). cbn [map foldr length] in *. lia.
Qed.

Lemma json_put_depth j : forall k, (json_depth j + length k <= length (json_put j k))%nat.
Proof.
  induction j as [b|t|s|l IH|l IH] using json_induction; intros k; cbn [json_depth json_put].
  - destruct b; cbn; lia.
  - rewrite length_app. lia.
  - unfold put_string. cbn [length]. rewrite length_app. cbn [length]. lia.
  - pose proof (put_list_length json_put json_depth l (ch_rbrack :: k) IH). cbn [length] in *. lia.
  - pose proof (put_list_length (fun m k => put_string m.1 (ch_colon :: json_put m.2 k)) (fun m => json_depth m.2) l (ch_rbrace :: k)) as H.
    cbn [length] in *. apply le_n_S in H; [lia|]. revert IH. apply Forall_impl. intros [n v] Hv k'. cbn in *. unfold put_string.
    cbn [length]. rewrite length_app. cbn [length]. specialize (Hv k'). lia.
Qed.

(** The first character of a value, and that something precedes [k]. *)
Lemma json_put_head j k : json_ok j = true ->
  exists c r, json_put j k = c :: r /\ c <> ch_rbrack /\ c <> ch_rbrace /\ (length k <= length r)%nat.
Proof.
  destruct j as [b|t|s|l|l]; intros Hok; cbn [json_put].
  - destruct b; cbn; (eexists _, _; split_and!; [done|done|done|cbn; lia]).
  - destruct (number_text_chars t Hok) as (_ & c & r & -> & Hc). destruct (dec_char_other c Hc) as (_ & _ & _ & _ & _ & H1 & H2).
    exists c, (r ++ k). split_and!; [done|done|done|rewrite length_app; lia].
  - eexists _, _. split_and!; [done|done|done|rewrite length_app; cbn; lia].
  - eexists _, _. split_and!; [done|done|done|]. pose proof (put_list_length json_put (fun _ => 0%nat) l (ch_rbrack :: k)) as H.
    cbn [length] in H. apply Nat.lt_le_incl. eapply Nat.lt_le_trans; [|apply H]; [lia|].
    apply list.Forall_forall. intros j _ k'. pose proof (json_put_depth j k'). lia.
  - eexists _, _. split_and!; [done|done|done|].
    pose proof (put_list_length (fun m k => put_string m.1 (ch_colon :: json_put m.2 k)) (fun _ => 0%nat) l (ch_rbrace :: k)) as H.
    cbn [length] in H. apply Nat.lt_le_incl. eapply Nat.lt_le_trans; [|apply H]; [lia|].
    apply list.Forall_forall. intros [n v] _ k'. unfold put_string. cbn [length]. rewrite length_app. cbn [length].
    pose proof (json_put_depth v k'). cbn. lia.
Qed.

Lemma get_value_put j : json_ok j = true -> forall d k, (json_depth j < d)%nat -> ends k ->
  get_value d (json_put j k) = Some (j, k).
Proof.
  induction j as [b|t|s|l IH|l IH] using json_induction; intros Hok d k Hd Hk; (destruct d as [|d]; [lia|]); cbn [get_value json_put].
  - by destruct b.
  - destruct (number_text_chars t Hok) as (Hchars & c & r & E & Hc). destruct (dec_char_other c Hc) as (H1 & H2 & H3 & H4 & H5 & _).
    rewrite E at 1. cbn [app]. rewrite !decide_False by (done || (rewrite E; cbn; intros [=]; congruence)).
    rewrite span_app by done. cbn in Hok. by rewrite Hok.
  - unfold put_string. rewrite decide_True by done. by rewrite get_string_put.
  - rewrite decide_False, decide_True by done. cbn [json_ok json_depth] in *. rewrite forallb_forall in Hok.
    rewrite get_items_put; [done|done|done| |].
    + apply Forall_forall. intros a Ha k' Hk'. rewrite Forall_forall in IH. apply IH; [done|by apply Hok| |done].
      assert (json_depth a <= foldr Nat.max 0 (map json_depth l))%nat; [|lia]. clear -Ha. induction l as [|b l IH]; [done|].
      cbn. destruct Ha as [->|Ha]; [lia|]. specialize (IH Ha). lia.
    + apply Forall_forall. intros a Ha k'. destruct (json_put_head a k' (Hok a Ha)) as (c & r & H1 & H2 & _ & H4). by exists c, r.
  - rewrite decide_False, decide_False, decide_True by done. cbn [json_ok json_depth] in *. rewrite forallb_forall in Hok.
    rewrite get_items_put; [done|done|done| |].
    + apply Forall_forall. intros [n v] Ha k' Hk'. specialize (Hok _ Ha). apply andb_true_iff in Hok as [Hn Hv].
      unfold put_string, get_member. cbn [fst snd] in *. rewrite bool_decide_true by done. cbn [negb].
      rewrite get_string_put by done. cbn [mbind option_bind]. rewrite decide_True by done.
      rewrite Forall_forall in IH. rewrite (IH _ Ha); [done|done| |done]. cbn [snd].
      assert (json_depth v <= foldr Nat.max 0 (map (fun m => json_depth m.2) l))%nat; [|lia]. clear -Ha. induction l as [|b l IH]; [done|].
      cbn. destruct Ha as [->|Ha]; [cbn; lia|]. specialize (IH Ha). lia.
    + apply Forall_forall. intros [n v] Ha k'. eexists _, _. split_and!; [done|done|]. cbn [fst snd]. rewrite length_app. cbn [length].
      pose proof (json_put_depth v k'). lia.
Qed.

Lemma json_parse_text j : json_ok j = true -> json_parse (json_text j) = Some j.
Proof.
  intros Hok. unfold json_parse, json_text. pose proof (json_put_depth j []). rewrite get_value_put; [done|done|cbn in *; lia|done].
Qed.

(** ** Numbers *)

Lemma is_dec_char c : is_dec c -> dec_char c = true.
Proof. unfold is_dec, dec_char. intros H. apply andb_true_iff. rewrite !Z.leb_le. lia. Qed.

Lemma dec_digits s : s <> [] -> Forall is_dec s -> digits s = true.
Proof.
  intros Hne Hs. unfold digits. destruct s as [|c s]; [done|]. apply forallb_forall. intros x Hx.
  rewrite Forall_forall in Hs. by apply is_dec_char, Hs.
Qed.

Lemma show_loop_head fuel : forall v, 1 <= v -> v < 10 ^ Z.of_nat fuel ->
  exists c s, show_loop fuel v = c :: s /\ bval c <> 48.
Proof.
  induction fuel as [|fuel IH]; intros v Hv Hf; [change (10 ^ Z.of_nat 0) with 1 in Hf; lia|]. cbn [show_loop].
  rewrite Nat2Z.inj_succ, Z.pow_succ_r in Hf by lia. destruct (Z.ltb_spec v 10).
  - exists (digit_char v), []. rewrite bval_digit by lia. split; [done|lia].
  - destruct (IH (v / 10)) as (c & s & -> & Hc); [apply Z.div_le_lower_bound; lia|apply Z.div_lt_upper_bound; lia|].
    by exists c, (s ++ [digit_char (v mod 10)]).
Qed.

Lemma show_loop_integer fuel v : 0 <= v -> v < 10 ^ Z.of_nat fuel -> (0 < fuel)%nat -> integer_part (show_loop fuel v) = true.
Proof.
  intros Hv Hf H0. unfold integer_part. rewrite dec_digits by (apply show_ne || apply show_dec; lia). cbn [andb].
  destruct (Z.eq_dec v 0) as [->|Hz]; [by destruct fuel|].
  destruct (show_loop_head fuel v ltac:(lia) Hf) as (c & s & -> & Hc). destruct s; [done|]. by apply negb_true_iff, Z.eqb_neq.
Qed.

Lemma dec_char_all s : Forall is_dec s -> forallb dec_char s = true.
Proof. intros H. apply forallb_forall. intros c Hc. rewrite Forall_forall in H. by apply is_dec_char, H. Qed.

Lemma show_u64_number v : 0 <= v < 2 ^ 64 -> number_text (show_u64 v) = true.
Proof.
  intros Hv. unfold number_text, show_u64. pose proof (dec_char_all _ (show_dec 20 v ltac:(lia))) as Hd.
  rewrite <- (app_nil_r (show_loop 20 v)), span_app by done. rewrite show_loop_integer by lia. done.
Qed.

(** A finite, non-negative binary64 value. *)
Definition unsigned_finite (x : double) : bool :=
  match x with
  | SpecFloat.S754_zero s => negb s
  | SpecFloat.S754_finite s m e => negb s && (Z.pos m <? 2 ^ 53) && (e <=? 971)
  | _ => false
  end.

Lemma decimal_text_number p q : (0 < p)%nat -> 0 <= q -> q < 10 ^ 400 -> number_text (decimal_text p q) = true.
Proof.
  intros Hp Hq Hlt. unfold decimal_text, point_text. destruct p as [|p0] eqn:Ep; [lia|]. rewrite <- Ep in *. clear p0 Ep.
  unfold number_text, show_big. set (T := 10 ^ Z.of_nat p).
  assert (1 <= T) by (unfold T; lia). assert (0 <= q / T) by (apply Z.div_pos; lia).
  assert (q / T <= q) by (apply Z.div_le_upper_bound; nia).
  rewrite span_app; [|apply dec_char_all, show_dec; lia|done].
  rewrite show_loop_integer; [|lia|change (Z.of_nat 400) with 400; lia|lia].
  rewrite bool_decide_true by done. apply dec_digits; [|apply show_pad_dec].
  pose proof (show_pad_length p (q mod T)). destruct (show_pad p (q mod T)); [cbn in *; lia|done].
Qed.

Lemma round_half_even_range n d : 0 <= n -> 1 <= d -> 0 <= round_half_even n d <= n + 1.
Proof.
  intros Hn Hd. unfold round_half_even. assert (0 <= n / d) by (apply Z.div_pos; lia).
  assert (n / d <= n) by (apply Z.div_le_upper_bound; nia). destruct (_ || _); lia.
Qed.

Lemma fixed_number p x : (0 < p <= 4)%nat -> unsigned_finite x = true -> number_text (fixed p x) = true.
Proof.
  intros Hp Hx. assert (10 <= 10 ^ Z.of_nat p <= 10000) as HT.
  { change 10000 with (10 ^ 4). split; [change 10 with (10 ^ 1) at 1|]; apply Z.pow_le_mono_r; lia. }
  destruct x as [s|s| |s m e]; cbn in Hx; [| done..|].
  - apply negb_true_iff in Hx. subst s. cbn [fixed sign_text app]. apply decimal_text_number; [lia|lia|]. apply Z.pow_pos_nonneg; lia.
  - apply andb_true_iff in Hx as [[Hs%negb_true_iff Hm%Z.ltb_lt]%andb_true_iff He%Z.leb_le]. subst s. cbn [fixed].
    destruct (ratio m e) as [n d] eqn:E. cbn [sign_text app].
    assert (0 <= n < 2 ^ 1024 /\ 1 <= d) as [Hn Hd].
    { unfold ratio in E. destruct (Z.leb_spec 0 e); injection E as <- <-.
      - assert (2 ^ e <= 2 ^ 971) by (apply Z.pow_le_mono_r; lia). change (2 ^ 1024) with (2 ^ 53 * 2 ^ 971). split; [|lia]. nia.
      - assert (0 < 2 ^ (- e)) by (apply Z.pow_pos_nonneg; lia). assert (2 ^ 53 <= 2 ^ 1024) by (apply Z.pow_le_mono_r; lia). lia. }
    pose proof (round_half_even_range (n * 10 ^ Z.of_nat p) d ltac:(nia) Hd).
    apply decimal_text_number; [lia|lia|]. apply Z.le_lt_trans with (2 ^ 1024 * 10000); [nia|]. vm_compute. reflexivity.
Qed.

(** ** Lists written item by item *)

Lemma put_list_app {A} (put : A -> Bytes -> Bytes) l k : Forall (fun a => forall k, put a k = put a [] ++ k) l ->
  put_list put l k = put_list put l [] ++ k.
Proof.
  induction 1 as [|a l Ha Hl IH]; [done|]. destruct l as [|b l]; [apply Ha|].
  change (put a (ch_comma :: put_list put (b :: l) k) = put a (ch_comma :: put_list put (b :: l) []) ++ k).
  rewrite Ha, (Ha (ch_comma :: put_list put (b :: l) [])), <- app_assoc, IH. done.
Qed.

Lemma json_put_app j : forall k, json_put j k = json_text j ++ k.
Proof.
  unfold json_text. induction j as [b|t|s|l IH|l IH] using json_induction; intros k; cbn [json_put].
  - by destruct b.
  - by rewrite app_nil_r.
  - unfold put_string. cbn [app]. by rewrite <- app_assoc.
  - rewrite (put_list_app _ _ (ch_rbrack :: k)), (put_list_app _ _ [ch_rbrack]) by done. cbn [app]. by rewrite <- app_assoc.
  - assert (Forall (fun a : Bytes * json => forall k, put_string a.1 (ch_colon :: json_put a.2 k) =
      put_string a.1 (ch_colon :: json_put a.2 []) ++ k) l) as Hl.
    { revert IH. apply Forall_impl. intros [n v] H k'. cbn [fst snd] in *. unfold put_string. rewrite (H k'). cbn [app].
      by rewrite <- app_assoc. }
    rewrite (put_list_app _ _ (ch_rbrace :: k) Hl), (put_list_app _ _ [ch_rbrace] Hl). cbn [app]. by rewrite <- app_assoc.
Qed.

(** A separator before every item but the first. *)
Fixpoint comma_list (first : bool) (l : list Bytes) : Bytes :=
  match l with [] => [] | a :: l => (if first then [] else [ch_comma]) ++ a ++ comma_list false l end.

Lemma comma_list_false l : l <> [] -> comma_list false l = ch_comma :: comma_list true l.
Proof. by destruct l. Qed.

Lemma put_list_comma l k : put_list json_put l k = comma_list true (map json_text l) ++ k.
Proof.
  induction l as [|a l IH]; [done|]. destruct l as [|b l].
  - cbn. by rewrite json_put_app, app_nil_r.
  - change (json_put a (ch_comma :: put_list json_put (b :: l) k) = (json_text a ++ comma_list false (map json_text (b :: l))) ++ k).
    rewrite <- app_assoc, comma_list_false by done. by rewrite json_put_app, IH.
Qed.

(** Lines of plain characters. *)
Lemma plain_no_nl s : forallb plain s = true -> Forall (fun c => c <> ch_nl) s.
Proof. intros H. apply Forall_forall. rewrite forallb_forall in H. intros c Hc ->. specialize (H _ Hc). by vm_compute in H. Qed.

Lemma number_no_nl t : number_text t = true -> Forall (fun c => c <> ch_nl) t.
Proof.
  intros [H _]%number_text_chars. apply Forall_forall. rewrite forallb_forall in H. intros c Hc ->. specialize (H _ Hc). by vm_compute in H.
Qed.

(** The text of a value is one line. *)
Lemma json_text_no_nl j : json_ok j = true -> forall k, Forall (fun c => c <> ch_nl) k -> Forall (fun c => c <> ch_nl) (json_put j k).
Proof.
  assert (forall A (put : A -> Bytes -> Bytes) l k, Forall (fun a => forall k, Forall (fun c => c <> ch_nl) k -> Forall (fun c => c <> ch_nl) (put a k)) l ->
    Forall (fun c => c <> ch_nl) k -> Forall (fun c => c <> ch_nl) (put_list put l k)) as Hlist.
  { intros A put l k Hl Hk. induction Hl as [|a l Ha Hl IH]; [done|]. destruct l as [|b l]; [by apply Ha|].
    change (Forall (fun c => c <> ch_nl) (put a (ch_comma :: put_list put (b :: l) k))). apply Ha. by constructor. }
  induction j as [b|t|s|l IH|l IH] using json_induction; intros Hok k Hk; cbn [json_put json_ok] in *.
  - apply Forall_app_2; [|done]. destruct b; by repeat constructor.
  - apply Forall_app_2; [by apply number_no_nl|done].
  - unfold put_string. constructor; [done|]. apply Forall_app_2; [by apply plain_no_nl|]. by constructor.
  - constructor; [done|]. apply Hlist; [|by constructor]. rewrite forallb_forall in Hok. apply Forall_forall. intros a Ha.
    rewrite Forall_forall in IH. apply IH; [done|by apply Hok].
  - constructor; [done|]. apply Hlist; [|by constructor]. rewrite forallb_forall in Hok. apply Forall_forall. intros [n v] Ha k' Hk'.
    specialize (Hok _ Ha). apply andb_true_iff in Hok as [Hn Hv]. unfold put_string. constructor; [done|].
    apply Forall_app_2; [by apply plain_no_nl|]. constructor; [done|]. constructor; [done|].
    rewrite Forall_forall in IH. apply (IH _ Ha); [done|done].
Qed.

(** ** A text cut short is not read *)

(** The reader does not look past a value that is complete. *)
Definition complete (j : json) (r : Bytes) : Prop := match j with JNum _ => r <> [] | _ => True end.

Lemma get_string_extend s : forall t r k, get_string s = Some (t, r) -> get_string (s ++ k) = Some (t, r ++ k).
Proof.
  induction s as [|c s IH]; intros t r k H; cbn [get_string app] in *; [done|]. case_decide; [by injection H as <- <-|].
  destruct (plain c); [|done]. destruct (get_string s) as [[t' r']|] eqn:E; [|done]. cbn in H. injection H as <- <-.
  by rewrite (IH _ _ k eq_refl).
Qed.

Lemma span_extend p s k : (span p s).2 <> [] -> span p (s ++ k) = ((span p s).1, (span p s).2 ++ k).
Proof.
  induction s as [|c s IH]; cbn [span app]; [done|]. destruct (p c); [|done]. destruct (span p s) as [t r] eqn:E. cbn in *.
  intros H. by rewrite (IH H).
Qed.

Lemma get_list_extend {A} (get : Bytes -> option (A * Bytes)) close :
  (forall s a r k, get s = Some (a, r) -> r <> [] -> get (s ++ k) = Some (a, r ++ k)) ->
  forall n m s l r k, (n <= m)%nat -> get_list get close n s = Some (l, r) -> get_list get close m (s ++ k) = Some (l, r ++ k).
Proof.
  intros Hget. induction n as [|n IH]; intros m s l r k Hm H; cbn [get_list] in H; [done|]. destruct m as [|m]; [lia|]. cbn [get_list].
  destruct (get s) as [[a r']|] eqn:E; [|done]. cbn in H. destruct r' as [|c r']; [done|].
  rewrite (Hget _ _ _ k E) by done. cbn. case_decide; [by injection H as <- <-|]. case_decide; [|done].
  destruct (get_list get close n r') as [[l' r'']|] eqn:E'; [|done]. cbn in H. injection H as <- <-.
  by rewrite (IH m _ _ _ k ltac:(lia) E').
Qed.

Lemma get_items_extend {A} (get : Bytes -> option (A * Bytes)) close s l r k :
  (forall s a r k, get s = Some (a, r) -> r <> [] -> get (s ++ k) = Some (a, r ++ k)) ->
  get_items get close s = Some (l, r) -> get_items get close (s ++ k) = Some (l, r ++ k).
Proof.
  intros Hget H. destruct s as [|c s]; [done|]. unfold get_items in *. cbn [app]. case_decide; [by injection H as <- <-|].
  eapply (get_list_extend get close Hget (S (length (c :: s))) _ (c :: s)); [|exact H]. cbn. rewrite length_app. lia.
Qed.

Lemma get_value_extend d : forall s j r k, get_value d s = Some (j, r) -> complete j r -> get_value d (s ++ k) = Some (j, r ++ k).
Proof.
  induction d as [|d IH]; intros s j r k H Hc; [done|]. destruct s as [|c s]; [done|].
  assert (forall s a r k, get_value d s = Some (a, r) -> r <> [] -> get_value d (s ++ k) = Some (a, r ++ k)) as Hget
    by (intros ? a ? ? E Hr; apply IH; [done|by destruct a]).
  assert (forall s a r k, get_member (get_value d) s = Some (a, r) -> r <> [] -> get_member (get_value d) (s ++ k) = Some (a, r ++ k)) as Hmem.
  { clear -Hget. intros [|q s] a r k E Hr; [done|]. unfold get_member in *. cbn [app]. destruct (negb _); [done|].
    destruct (get_string s) as [[n r1]|] eqn:E1; [|done]. rewrite (get_string_extend _ _ _ k E1). cbn in E |- *.
    destruct r1 as [|c r1]; [done|]. cbn [app]. case_decide; [|done]. destruct (get_value d r1) as [[v r2]|] eqn:E2; [|done].
    cbn in E. injection E as <- <-. by rewrite (Hget _ _ _ k E2 Hr). }
  cbn [get_value app] in *. case_decide.
  { destruct (get_string s) as [[t r']|] eqn:E; [|done]. cbn in H. injection H as <- <-. by rewrite (get_string_extend _ _ _ k E). }
  case_decide.
  { destruct (get_items _ _ s) as [[l r']|] eqn:E; [|done]. cbn in H. injection H as <- <-. by rewrite (get_items_extend _ _ _ _ _ k Hget E). }
  case_decide.
  { destruct (get_items _ _ s) as [[l r']|] eqn:E; [|done]. cbn in H. injection H as <- <-. by rewrite (get_items_extend _ _ _ _ _ k Hmem E). }
  change (c :: s ++ k) with ((c :: s) ++ k).
  assert (forall n t, length t = n -> take n (c :: s) = t -> take n ((c :: s) ++ k) = t /\ drop n ((c :: s) ++ k) = drop n (c :: s) ++ k) as Hw.
  { intros n t Hn Ht. assert (n <= length (c :: s))%nat by (rewrite <- Hn, <- Ht, length_take; lia).
    rewrite take_app_le, drop_app_le by done. done. }
  case_decide as Htrue.
  { destruct (Hw 4%nat true_text eq_refl Htrue) as [Ht Hd]. rewrite decide_True by done. injection H as <- <-. by rewrite Hd. }
  case_decide as Hfalse.
  { destruct (Hw 5%nat false_text eq_refl Hfalse) as [Ht Hd]. rewrite decide_False, decide_True; [|done|].
    - injection H as <- <-. by rewrite Hd.
    - cbn in Hfalse |- *. intros [= -> _]. done. }
  destruct (span num_char (c :: s)) as [t r'] eqn:E. destruct (number_text t) eqn:Hnum; [|done]. injection H as <- <-. cbn in Hc.
  assert (span num_char ((c :: s) ++ k) = (t, r' ++ k)) as -> by (rewrite span_extend; rewrite E; done).
  destruct (number_text_chars t Hnum) as (_ & x & r0 & -> & Hx). destruct (dec_char_other x Hx) as (_ & _ & _ & H4 & H5 & _).
  assert (x = c) as ->. { cbn in E. destruct (num_char c); [|done]. destruct (span num_char s). by injection E. }
  rewrite !decide_False by (cbn; intros [= ? _]; done). by rewrite Hnum.
Qed.

(** A proper prefix of a document is not a document. *)
Lemma json_parse_prefix l n : json_ok (JObj l) = true -> (json_depth (JObj l) <= n)%nat -> (n < length (json_text (JObj l)))%nat ->
  json_parse (take n (json_text (JObj l))) = None.
Proof.
  intros Hok Hd Hn. set (text := json_text (JObj l)) in *. unfold json_parse. rewrite length_take, Nat.min_l by lia.
  destruct (get_value (S n) (take n text)) as [[j r]|] eqn:E; [|done]. destruct r; [|done].
  assert (complete j []) as Hc.
  { destruct j as [ |t| | | ]; try done. exfalso. destruct n as [|n]; [cbn in Hd; lia|]. unfold text, json_text in E. cbn [json_put take] in E.
    cbn [get_value] in E. rewrite decide_False, decide_False, decide_True in E by done. by destruct (get_items _ _ _) as [[? ?]|]. }
  pose proof (get_value_extend (S n) _ _ _ (drop n text) E Hc) as E2. rewrite take_drop in E2.
  assert (get_value (S n) text = Some (JObj l, [])) as E4 by (apply get_value_put; (done || lia)). rewrite E4 in E2. injection E2 as _ E3.
  apply (f_equal length) in E3. rewrite length_drop in E3. cbn [length] in E3. lia.
Qed.
