(* ===== verification/RecordJson.v ===== *)
(** * include/gtpm/usage_record.hpp: records as NDJSON

    [to_ndjson] with its fixed buffer, and the file of records it produces:
    every record is one line, and the lines read back as the records. *)

From S2P Require Import Prelude UsageRecord Session SessionCsv Double Text Clock Json.
From Stdlib Require Strings.String.

(** [snprintf] into [char buf[cap]] followed by [out.append(buf, n)]: past the
    buffer the copy reads bytes that were not written. *)
Definition snprintf_append (cap : Z) (out : Bytes) (text : Bytes) : res Bytes :=
  let n := size text in
  if n <? cap then Ok (out ++ text)
  else if n =? cap then Ok (out ++ take (Z.to_nat (cap - 1)) text ++ [x00])
  else UB.

Definition reason_text (r : Z) : Bytes := String.list_byte_of_string (RecordReason.to_string r).
Definition is_qfi (id : Z) : bool := negb (Z.land id kQfiBucketTag =? 0).
Definition bucket_id (id : Z) : Z := Z.land id (UINT32_MAX - kQfiBucketTag).

Fixpoint bucket_loop (n : nat) (r : UsageRecord) (i : Z) (first : bool) (out : Bytes) : res Bytes :=
  match n with
  | O => Ok out
  | S n =>
      let* id := at_ (r_bucket_ids r) i in
      let* bytes := at_ (r_bucket_bytes r) i in
      if (id =? kUnsetBucket) && (bytes =? 0) then bucket_loop n r (i + 1) first out else
      let* out := snprintf_append 512 out (sprintf "%s{`kind`:`%s`,`id`:%u,`bytes`:%llu,`aggregate`:%s}"
        [AStr (if first then [] else [ch_comma]); AStr (txt (if is_qfi id then "qfi" else "rating-group")); AInt (bucket_id id);
         AInt bytes; AStr (txt (if (i =? kAggregateSlot) && r_bucket_aggregated r then "true" else "false"))]) in
      bucket_loop n r (i + 1) false out
  end.

Definition to_ndjson (r : UsageRecord) : res Bytes :=
  let* out := snprintf_append 512 [] (sprintf
    "{`ts`:`%s`,`imsi`:`%llu`,`sub`:%u,`seq`:%u,`reason`:`%s`,`ul_bytes`:%llu,`dl_bytes`:%llu,`ul_pkts`:%llu,`dl_pkts`:%llu,`interval_ns`:%llu,`buckets`:["
    [AStr (format_rfc3339 (r_record_wall_ns r)); AInt (r_imsi r); AInt (r_subscriber_index r); AInt (r_record_seq r);
     AStr (reason_text (r_reason r)); AInt (r_ul_bytes r); AInt (r_dl_bytes r); AInt (r_ul_packets r); AInt (r_dl_packets r);
     AInt (sub64 (r_interval_end_ns r) (r_interval_start_ns r))]) in
  let* out := bucket_loop (Z.to_nat kBucketSlots) r 0 true out in
  Ok (out ++ txt "]}").

(** ** The JSON value of a record *)

Definition jint (v : Z) : json := JNum (show_u64 v).
Definition jmember (name : String.string) (v : json) : Bytes * json := (txt name, v).

Definition bucket_json (r : UsageRecord) (i id bytes : Z) : json :=
  JObj [jmember "kind" (JStr (txt (if is_qfi id then "qfi" else "rating-group"))); jmember "id" (jint (bucket_id id));
        jmember "bytes" (jint bytes); jmember "aggregate" (JBool ((i =? kAggregateSlot) && r_bucket_aggregated r))].

(** The slots in use. *)
Definition slot_used (id bytes : Z) : bool := negb ((id =? kUnsetBucket) && (bytes =? 0)).
Definition slot_json (r : UsageRecord) (i : Z) : option json :=
  match r_bucket_ids r !! Z.to_nat i, r_bucket_bytes r !! Z.to_nat i with
  | Some id, Some bytes => if slot_used id bytes then Some (bucket_json r i id bytes) else None
  | _, _ => None
  end.
Definition buckets_json (r : UsageRecord) : list json := omap (slot_json r) (seqZ 0 kBucketSlots).

Definition record_json (r : UsageRecord) : json :=
  JObj [jmember "ts" (JStr (format_rfc3339 (r_record_wall_ns r))); jmember "imsi" (JStr (show_u64 (r_imsi r)));
        jmember "sub" (jint (r_subscriber_index r)); jmember "seq" (jint (r_record_seq r));
        jmember "reason" (JStr (reason_text (r_reason r))); jmember "ul_bytes" (jint (r_ul_bytes r));
        jmember "dl_bytes" (jint (r_dl_bytes r)); jmember "ul_pkts" (jint (r_ul_packets r)); jmember "dl_pkts" (jint (r_dl_packets r));
        jmember "interval_ns" (jint (sub64 (r_interval_end_ns r) (r_interval_start_ns r))); jmember "buckets" (JArr (buckets_json r))].

(** The C++ types of the fields. *)
Definition record_typed (r : UsageRecord) : Prop :=
  0 <= r_record_wall_ns r < 2 ^ 64 /\ 0 <= r_imsi r < 2 ^ 64 /\ 0 <= r_subscriber_index r < 2 ^ 32 /\ 0 <= r_record_seq r < 2 ^ 32 /\
  0 <= r_ul_bytes r < 2 ^ 64 /\ 0 <= r_dl_bytes r < 2 ^ 64 /\ 0 <= r_ul_packets r < 2 ^ 64 /\ 0 <= r_dl_packets r < 2 ^ 64 /\
  size (r_bucket_ids r) = 3 /\ size (r_bucket_bytes r) = 3 /\
  Forall (fun id => 0 <= id < 2 ^ 32) (r_bucket_ids r) /\ Forall (fun b => 0 <= b < 2 ^ 64) (r_bucket_bytes r).

(** ** The text is the JSON value *)

Lemma snprintf_append_Ok cap out text : size text < cap -> snprintf_append cap out text = Ok (out ++ text).
Proof. intros H. unfold snprintf_append. by destruct (Z.ltb_spec (size text) cap); [|lia]. Qed.

(** Lengths of texts made of literals and conversions. *)
Ltac text_length := unfold size; repeat (rewrite ?length_app; cbn [length]);
  repeat match goal with |- context [length (show_u64 ?v)] =>
    lazymatch goal with H : (length (show_u64 v) <= _)%nat |- _ => fail | _ => pose proof (show_u64_length v) end end.

Lemma bucket_id_range id : 0 <= id < 2 ^ 32 -> 0 <= bucket_id id < 2 ^ 32.
Proof.
  intros H. unfold bucket_id. change (UINT32_MAX - kQfiBucketTag) with (Z.ones 31). rewrite Z.land_ones by lia.
  pose proof (Z.mod_pos_bound id (2 ^ 31)). lia.
Qed.

Lemma bucket_text (r : UsageRecord) i id bytes (first : bool) :
  let text := sprintf "%s{`kind`:`%s`,`id`:%u,`bytes`:%llu,`aggregate`:%s}"
    [AStr (if first then [] else [ch_comma]); AStr (txt (if is_qfi id then "qfi" else "rating-group")); AInt (bucket_id id);
     AInt bytes; AStr (txt (if (i =? kAggregateSlot) && r_bucket_aggregated r then "true" else "false"))] in
  text = (if first then [] else [ch_comma]) ++ json_text (bucket_json r i id bytes) /\ size text < 512.
Proof.
  cbn zeta. unfold bucket_json, jmember, jint, json_text. destruct (is_qfi id), ((i =? kAggregateSlot) && r_bucket_aggregated r), first;
    run_format; (split; [reflexivity|]); text_length; lia.
Qed.

Lemma bucket_loop_json r n : forall i first out, 0 <= i -> i + Z.of_nat n <= size (r_bucket_ids r) ->
  i + Z.of_nat n <= size (r_bucket_bytes r) ->
  bucket_loop n r i first out = Ok (out ++ comma_list first (map json_text (omap (slot_json r) (seqZ i (Z.of_nat n))))).
Proof.
  induction n as [|n IH]; intros i first out Hi H1 H2; cbn [bucket_loop]; [by rewrite app_nil_r|].
  destruct (lookup_lt_is_Some_2 (r_bucket_ids r) (Z.to_nat i)) as [id Hid]; [unfold size in *; lia|].
  destruct (lookup_lt_is_Some_2 (r_bucket_bytes r) (Z.to_nat i)) as [bytes Hbytes]; [unfold size in *; lia|].
  rewrite (at_lookup _ _ id Hi Hid), bind_Ok, (at_lookup _ _ bytes Hi Hbytes), bind_Ok.
  rewrite seqZ_cons by lia. change (Z.succ i) with (i + 1). replace (Z.pred (Z.of_nat (S n))) with (Z.of_nat n) by lia.
  assert (slot_json r i = if slot_used id bytes then Some (bucket_json r i id bytes) else None) as Hslot
    by (unfold slot_json; by rewrite Hid, Hbytes).
  cbn [omap list_omap]. rewrite Hslot. unfold slot_used. destruct ((id =? kUnsetBucket) && (bytes =? 0)); cbn [negb].
  - apply IH; lia.
  - destruct (bucket_text r i id bytes first) as [Ht Hs]. cbn zeta in *. rewrite Ht in *.
    rewrite snprintf_append_Ok, bind_Ok, IH by (done || lia). cbn [map comma_list]. by rewrite <- !app_assoc.
Qed.

Lemma reason_text_length r : (length (reason_text r) <= 10)%nat.
Proof. unfold reason_text, RecordReason.to_string. repeat case_match; cbn; lia. Qed.

Lemma to_ndjson_text r : record_typed r -> to_ndjson r = Ok (json_text (record_json r)).
Proof.
  intros (Hw & _ & _ & _ & _ & _ & _ & _ & Hi & Hb & _). unfold to_ndjson.
  assert (length (format_rfc3339 (r_record_wall_ns r)) = 24%nat) as Hts by (by apply format_rfc3339_length).
  pose proof (reason_text_length (r_reason r)) as Hr.
  rewrite snprintf_append_Ok by (run_format; text_length; lia).
  rewrite bind_Ok. change (Z.to_nat kBucketSlots) with 3%nat. rewrite bucket_loop_json, bind_Ok by lia.
  unfold record_json, jmember, jint, json_text. cbn [json_put put_list fst snd]. unfold put_string. rewrite put_list_comma.
  run_format. repeat (cbn [app]; rewrite <- app_assoc). reflexivity.
Qed.

(** ** Reading records back *)

Lemma dec_plain_char c : is_dec c -> plain c = true.
Proof.
  unfold is_dec, plain. intros H. apply andb_true_iff; split; [apply andb_true_iff; split|].
  - apply Z.leb_le. lia.
  - apply negb_true_iff, bool_decide_eq_false. intros ->. vm_compute in H. by destruct H.
  - apply negb_true_iff, bool_decide_eq_false. intros ->. vm_compute in H. by destruct H.
Qed.

Lemma dec_all_plain s : Forall is_dec s -> forallb plain s = true.
Proof. intros H. apply forallb_forall. intros c Hc. rewrite Forall_forall in H. by apply dec_plain_char, H. Qed.

Lemma show_u64_plain v : 0 <= v -> forallb plain (show_u64 v) = true.
Proof. intros H. by apply dec_all_plain, show_u64_dec. Qed.

Lemma format_rfc3339_plain ns : 0 <= ns < 2 ^ 64 -> forallb plain (format_rfc3339 ns) = true.
Proof.
  intros (y & m & d & h & mi & sec & -> & _)%format_rfc3339_fields. cbn [concat].
  rewrite !forallb_app, !(dec_all_plain (show_pad _ _)) by apply show_pad_dec. reflexivity.
Qed.

Lemma reason_text_plain r : forallb plain (reason_text r) = true.
Proof. unfold reason_text, RecordReason.to_string. by repeat case_match. Qed.

Lemma bucket_json_ok r i id bytes : 0 <= id < 2 ^ 32 -> 0 <= bytes < 2 ^ 64 -> json_ok (bucket_json r i id bytes) = true.
Proof.
  intros Hid Hb. pose proof (bucket_id_range id Hid). unfold bucket_json, jint. cbn [json_ok forallb jmember fst snd].
  rewrite !show_u64_number by lia. by destruct (is_qfi id).
Qed.

Lemma record_json_ok r : record_typed r -> json_ok (record_json r) = true.
Proof.
  intros (Hw & Himsi & Hsub & Hseq & Hul & Hdl & Hup & Hdp & Hi & Hb & Hids & Hbytes).
  unfold record_json, jint. cbn [json_ok forallb jmember fst snd].
  rewrite !show_u64_number by (lia || apply u64_range). rewrite show_u64_plain, format_rfc3339_plain, reason_text_plain by lia.
  assert (forallb json_ok (buckets_json r) = true) as ->; [|reflexivity].
  apply forallb_forall. intros j Hj%list_elem_of_In. unfold buckets_json in Hj. apply list_elem_of_omap in Hj as (i & _ & Hslot).
  unfold slot_json in Hslot. destruct (r_bucket_ids r !! Z.to_nat i) as [id|] eqn:E1; [|done].
  destruct (r_bucket_bytes r !! Z.to_nat i) as [bytes|] eqn:E2; [|done].
  destruct (slot_used id bytes); [|done]. injection Hslot as <-.
  apply bucket_json_ok; [by eapply (Forall_lookup_1 _ _ _ _ Hids)|by eapply (Forall_lookup_1 _ _ _ _ Hbytes)].
Qed.

(** What a consumer of the records reads: the fields, and the buckets in use. *)
Record Usage := mkUsage {
  us_ts_ms : Z; us_imsi : Z; us_sub : Z; us_seq : Z; us_reason : Bytes; us_ul_bytes : Z; us_dl_bytes : Z;
  us_ul_pkts : Z; us_dl_pkts : Z; us_interval_ns : Z; us_buckets : list (Bytes * Z * Z * bool)
}.

Fixpoint assoc (name : Bytes) (ms : list (Bytes * json)) : option json :=
  match ms with [] => None | (n, v) :: ms => if decide (n = name) then Some v else assoc name ms end.
Definition field (name : String.string) (j : json) : option json :=
  match j with JObj ms => assoc (txt name) ms | _ => None end.
Definition as_int (j : json) : option Z := match j with JNum t => parse_digits 10 t 0 | _ => None end.
Definition as_string (j : json) : option Bytes := match j with JStr s => Some s | _ => None end.
Definition as_bool (j : json) : option bool := match j with JBool b => Some b | _ => None end.
Definition as_list (j : json) : option (list json) := match j with JArr l => Some l | _ => None end.
Definition int_field (name : String.string) (j : json) : option Z := field name j ≫= as_int.
Definition string_field (name : String.string) (j : json) : option Bytes := field name j ≫= as_string.

Definition read_bucket (j : json) : option (Bytes * Z * Z * bool) :=
  kind ← string_field "kind" j; id ← int_field "id" j; bytes ← int_field "bytes" j;
  aggregate ← field "aggregate" j ≫= as_bool; Some (kind, id, bytes, aggregate).

Definition read_usage (j : json) : option Usage :=
  ts ← string_field "ts" j; ms ← parse_rfc3339 ts; imsi ← string_field "imsi" j; n ← parse_u64 imsi;
  sub ← int_field "sub" j; seq ← int_field "seq" j; reason ← string_field "reason" j;
  ul ← int_field "ul_bytes" j; dl ← int_field "dl_bytes" j; up ← int_field "ul_pkts" j; dp ← int_field "dl_pkts" j;
  interval ← int_field "interval_ns" j; l ← field "buckets" j ≫= as_list; bs ← mapM read_bucket l;
  Some (mkUsage ms n sub seq reason ul dl up dp interval bs).

(** The record as its consumer should see it. *)
Definition usage_buckets (r : UsageRecord) : list (Bytes * Z * Z * bool) :=
  omap (fun i => match r_bucket_ids r !! Z.to_nat i, r_bucket_bytes r !! Z.to_nat i with
    | Some id, Some bytes => if slot_used id bytes then
        Some (txt (if is_qfi id then "qfi" else "rating-group"), bucket_id id, bytes, (i =? kAggregateSlot) && r_bucket_aggregated r)
        else None
    | _, _ => None end) (seqZ 0 kBucketSlots).
Definition usage_of (r : UsageRecord) : Usage :=
  mkUsage (r_record_wall_ns r / 1000000) (r_imsi r) (r_subscriber_index r) (r_record_seq r) (reason_text (r_reason r))
    (r_ul_bytes r) (r_dl_bytes r) (r_ul_packets r) (r_dl_packets r) (sub64 (r_interval_end_ns r) (r_interval_start_ns r)) (usage_buckets r).

(** What [drain_records] writes for records that all succeed. *)
Fixpoint records_bytes (rs : list UsageRecord) : res Bytes :=
  match rs with
  | [] => Ok []
  | r :: rs => let* line := to_ndjson r in let* rest := records_bytes rs in Ok (line ++ ch_nl :: rest)
  end.

Definition read_line (line : Bytes) : option Usage := json_parse line ≫= read_usage.

Lemma as_int_jint v : 0 <= v < 2 ^ 64 -> as_int (jint v) = Some v.
Proof. intros H. unfold jint, as_int, show_u64. apply parse_show; lia. Qed.
Lemma read_bucket_json r i id bytes : 0 <= id < 2 ^ 32 -> 0 <= bytes < 2 ^ 64 ->
  read_bucket (bucket_json r i id bytes) =
    Some (txt (if is_qfi id then "qfi" else "rating-group"), bucket_id id, bytes, (i =? kAggregateSlot) && r_bucket_aggregated r).
Proof.
  intros Hid Hb. pose proof (bucket_id_range id Hid). unfold read_bucket, int_field, string_field.
  change (field "kind" _) with (Some (JStr (txt (if is_qfi id then "qfi" else "rating-group")))).
  change (field "id" _) with (Some (jint (bucket_id id))). change (field "bytes" _) with (Some (jint bytes)).
  change (field "aggregate" _) with (Some (JBool ((i =? kAggregateSlot) && r_bucket_aggregated r))).
  cbn [mbind option_bind as_string as_bool]. by rewrite !as_int_jint by lia.
Qed.

Lemma read_buckets_json r : record_typed r -> mapM read_bucket (buckets_json r) = Some (usage_buckets r).
Proof.
  intros (_ & _ & _ & _ & _ & _ & _ & _ & _ & _ & Hids & Hbytes). unfold buckets_json, usage_buckets.
  induction (seqZ 0 kBucketSlots) as [|i l IH]; [done|]. cbn [omap list_omap]. unfold slot_json at 1.
  destruct (r_bucket_ids r !! Z.to_nat i) as [id|] eqn:E1; [|done]. destruct (r_bucket_bytes r !! Z.to_nat i) as [bytes|] eqn:E2; [|done].
  destruct (slot_used id bytes); [|done]. cbn [mapM]. rewrite read_bucket_json, IH; [done| |];
    [by eapply (Forall_lookup_1 _ _ _ _ Hids)|by eapply (Forall_lookup_1 _ _ _ _ Hbytes)].
Qed.

Lemma some_bind {A B} (x : A) (f : A -> option B) : (Some x ≫= f) = f x.
Proof. reflexivity. Qed.
Lemma as_string_JStr s : as_string (JStr s) = Some s.
Proof. reflexivity. Qed.
Lemma as_list_JArr l : as_list (JArr l) = Some l.
Proof. reflexivity. Qed.

Lemma read_usage_json r : record_typed r -> read_usage (record_json r) = Some (usage_of r).
Proof.
  intros Ht. pose proof (read_buckets_json r Ht) as Hbs.
  destruct Ht as (Hw & Himsi & Hsub & Hseq & Hul & Hdl & Hup & Hdp & _). unfold read_usage, int_field, string_field.
  assert (field "ts" (record_json r) = Some (JStr (format_rfc3339 (r_record_wall_ns r)))) as -> by reflexivity.
  assert (field "imsi" (record_json r) = Some (JStr (show_u64 (r_imsi r)))) as -> by reflexivity.
  assert (field "reason" (record_json r) = Some (JStr (reason_text (r_reason r)))) as -> by reflexivity.
  assert (field "sub" (record_json r) = Some (jint (r_subscriber_index r))) as -> by reflexivity. assert (field "seq" (record_json r) = Some (jint (r_record_seq r))) as -> by reflexivity.
  assert (field "ul_bytes" (record_json r) = Some (jint (r_ul_bytes r))) as -> by reflexivity. assert (field "dl_bytes" (record_json r) = Some (jint (r_dl_bytes r))) as -> by reflexivity.
  assert (field "ul_pkts" (record_json r) = Some (jint (r_ul_packets r))) as -> by reflexivity. assert (field "dl_pkts" (record_json r) = Some (jint (r_dl_packets r))) as -> by reflexivity.
  assert (field "interval_ns" (record_json r) = Some (jint (sub64 (r_interval_end_ns r) (r_interval_start_ns r)))) as -> by reflexivity.
  assert (field "buckets" (record_json r) = Some (JArr (buckets_json r))) as -> by reflexivity.
  repeat first [rewrite some_bind | rewrite as_string_JStr | rewrite as_list_JArr | rewrite parse_format_rfc3339 by done
    | rewrite parse_u64_show by done | rewrite as_int_jint by (lia || apply u64_range) | rewrite Hbs].
  reflexivity.
Qed.

(** C17: The usage-record file can be read back.  For any records with fields of
    their types, rendering never overruns its 512-byte buffer, every record is one
    line of valid JSON, and reading the file line by line gives for each record, in
    order, its time to the millisecond, IMSI, sequence number, reason, byte and
    packet counts, interval and exactly the accounting slots in use. *)
Theorem records_file_roundtrip rs : Forall record_typed rs ->
  ensures (records_bytes rs) (fun bytes => map read_line (getlines ch_nl bytes) = map (fun r => Some (usage_of r)) rs).
Proof.
  induction 1 as [|r rs Hr Hrs IH]; cbn [records_bytes]; [by apply ensures_Ok|].
  rewrite (to_ndjson_text r Hr), bind_Ok. eapply ensures_bind; [exact IH|]. intros rest Hrest. apply ensures_Ok. cbn in Hrest.
  rewrite getlines_cons by (apply json_text_no_nl; [by apply record_json_ok|constructor]). cbn [map]. rewrite Hrest. f_equal.
  unfold read_line. rewrite json_parse_text by (by apply record_json_ok). cbn. by apply read_usage_json.
Qed.

Definition sample_record : UsageRecord :=
  mkUsageRecord 1709210096789000000 5 1000 262011234567890 1500 9000000000 12 34 [10490; 7; 0] [kQfiBucketTag + 9; 7; kUnsetBucket] 3 8 1 false.

Lemma records_file_roundtrip_witness :
  record_typed sample_record /\
  ensures (records_bytes [sample_record; UsageRecord_init]) (fun bytes =>
    map read_line (getlines ch_nl bytes) = [Some (usage_of sample_record); Some (usage_of UsageRecord_init)]).
Proof.
  assert (record_typed sample_record) as H1.
  { unfold record_typed, sample_record, kQfiBucketTag, kUnsetBucket. cbn. split_and!; try lia; repeat constructor; lia. }
  split; [exact H1|]. apply (records_file_roundtrip [sample_record; UsageRecord_init]). constructor; [exact H1|]. constructor; [|constructor].
  unfold record_typed, UsageRecord_init, kUnsetBucket. cbn. split_and!; try lia; repeat constructor; lia.
Defined.
