(* ===== verification/Report.v ===== *)
(** * src/reporter.cpp: the reports

    The Prometheus text and the JSON documents, with the 1024-byte buffer of
    [append] that every piece of them goes through. *)

From Stdlib Require Strings.String.
From S2P Require Import Prelude ByteOrder SpscRing MeterEvent UsageRecord Session SessionCsv Meter Pipeline Histogram Snapshot TopN DetailScan Runtime.
From S2P Require Import Double Text Clock Json RecordJson.

(** The [double] members of the snapshot. *)
Record SnapshotRatios := mkRatios { sx_teid_load_factor : double; sx_teid_probes_per_lookup : double; sx_latency_mean_ns : double }.

Definition append (out text : Bytes) : Bytes :=
  let n := size text in
  if 0 <? n then out ++ take (Z.to_nat (if n <? 1024 then n else 1023)) text else out.

Definition counter (out : Bytes) (name help : String.string) (value : Z) : Bytes :=
  append out (sprintf "# HELP %s %s~# TYPE %s counter~%s %llu~"
    [AStr (txt name); AStr (txt help); AStr (txt name); AStr (txt name); AInt value]).

Definition gauge (out : Bytes) (name help : String.string) (value : double) : Bytes :=
  append out (sprintf "# HELP %s %s~# TYPE %s gauge~%s %.6g~"
    [AStr (txt name); AStr (txt help); AStr (txt name); AStr (txt name); ADouble value]).

(** [format_ip] into [char buf[64]]. *)
Definition format_ip {HE : HostEndian} (addr : Bytes) (version : Z) : res Bytes :=
  if version =? 4 then
    let* a := rd addr 0 in let* b := rd addr 1 in let* c := rd addr 2 in let* d := rd addr 3 in
    Ok (take 63 (sprintf "%u.%u.%u.%u" [AInt a; AInt b; AInt c; AInt d]))
  else if version =? 6 then
    let* a := load_be16 addr 0 in let* b := load_be16 addr 2 in let* c := load_be16 addr 4 in let* d := load_be16 addr 6 in
    let* e := load_be16 addr 8 in let* f := load_be16 addr 10 in let* g := load_be16 addr 12 in let* h := load_be16 addr 14 in
    Ok (take 63 (sprintf "%x:%x:%x:%x:%x:%x:%x:%x" [AInt a; AInt b; AInt c; AInt d; AInt e; AInt f; AInt g; AInt h]))
  else Ok (txt "-").

Definition ip_string {HE : HostEndian} (addr version : Z) : res Bytes :=
  let* a := store_be32 (replicate 16 x00) 0 addr in
  format_ip a (if version =? 0 then 4 else version).

(** ** Prometheus *)

Definition series_rows (out : Bytes) (rows : list SubscriberSnapshot) : Bytes :=
  foldl (fun out row => append out (sprintf
    "gtpm_subscriber_bytes_total{imsi=`%llu`,direction=`uplink`} %llu~gtpm_subscriber_bytes_total{imsi=`%llu`,direction=`downlink`} %llu~"
    [AInt (sr_imsi row); AInt (sr_ul_bytes row); AInt (sr_imsi row); AInt (sr_dl_bytes row)])) out rows.

Definition dbl (v : Z) : double := double_of_u64 v.
Definition giga : double := double_of_u64 1000000000.

(** Installed plus learned minus released, in 64-bit arithmetic. *)
Definition subscribers_active (m : PipelineStats) : Z :=
  sub64 (add64 (st_subscribers_installed m) (st_subscribers_learned m)) (st_sessions_released m).

Definition render_ingest_counters (i : IngestStats) (out : Bytes) : Bytes :=
  let out := counter out "gtpm_ingest_frames_total" "Frames handed to the ingest path" (in_frames i) in
  let out := counter out "gtpm_ingest_frame_bytes_total" "Bytes handed to the ingest path" (in_frames_bytes i) in
  let out := counter out "gtpm_ingest_gpdus_total" "GTP-U G-PDUs parsed" (in_gtpu_gpdus i) in
  let out := counter out "gtpm_ingest_gtpu_control_total" "GTP-U control PDUs (echo, end marker)" (in_gtpu_control i) in
  let out := counter out "gtpm_ingest_parse_errors_total" "GTP-U PDUs rejected by the parser" (in_gtpu_parse_errors i) in
  let out := counter out "gtpm_ingest_inner_parse_errors_total" "Tunnelled payloads that were not IP" (in_inner_parse_errors i) in
  let out := counter out "gtpm_ingest_not_our_traffic_total" "Frames that were neither GTP-U nor Diameter"
    (add64 (in_not_gtpu_port i) (in_non_ip i)) in
  let out := counter out "gtpm_ingest_events_pushed_total" "Meter events published to the ring" (in_events_pushed i) in
  let out := counter out "gtpm_ingest_events_dropped_total" "Meter events dropped because the metering ring was full" (in_events_dropped i) in
  let out := counter out "gtpm_diameter_messages_total" "Diameter messages parsed" (in_diameter_messages i) in
  counter out "gtpm_diameter_parse_errors_total" "Diameter messages rejected" (in_diameter_parse_errors i).

Definition render_meter_counters (m : PipelineStats) (records_written : Z) (out : Bytes) : Bytes :=
  let out := counter out "gtpm_meter_events_total" "Events applied by the metering thread" (st_events m) in
  let out := counter out "gtpm_meter_bytes_total" "Bytes metered" (st_bytes m) in
  let out := append out (sprintf
    "# HELP gtpm_meter_direction_bytes_total Metered bytes by direction~# TYPE gtpm_meter_direction_bytes_total counter~gtpm_meter_direction_bytes_total{direction=`uplink`} %llu~gtpm_meter_direction_bytes_total{direction=`downlink`} %llu~"
    [AInt (st_ul_bytes m); AInt (st_dl_bytes m)]) in
  let out := append out (sprintf
    "# HELP gtpm_meter_direction_packets_total Metered packets by direction~# TYPE gtpm_meter_direction_packets_total counter~gtpm_meter_direction_packets_total{direction=`uplink`} %llu~gtpm_meter_direction_packets_total{direction=`downlink`} %llu~"
    [AInt (st_ul_packets m); AInt (st_dl_packets m)]) in
  let out := counter out "gtpm_teid_bind_failures_total" "Sessions that could not be bound because the TEID table is full" (st_teid_bind_failures m) in
  let out := counter out "gtpm_meter_unknown_teid_events_total" "Packets on a TEID with no installed session" (st_unknown_teid_events m) in
  let out := counter out "gtpm_meter_unknown_teid_bytes_total" "Bytes on a TEID with no installed session" (st_unknown_teid_bytes m) in
  let out := counter out "gtpm_meter_flow_inserts_total" "Flow table insertions" (st_flow_inserts m) in
  let out := counter out "gtpm_meter_flow_evictions_total" "Flow table LRU evictions" (st_flow_evictions m) in
  let out := counter out "gtpm_usage_records_emitted_total" "Usage records emitted by the meter" (st_records_emitted m) in
  let out := counter out "gtpm_usage_records_dropped_total" "Usage records dropped because the reporter was behind" (st_records_dropped m) in
  let out := counter out "gtpm_usage_records_written_total" "Usage records written to disk" records_written in
  let out := counter out "gtpm_gy_events_total" "Gy charging events applied" (st_gy_events m) in
  counter out "gtpm_gy_reported_octets_total" "Octets reported by the charging plane" (st_gy_reported_octets m).

Definition render_gauges (s : PipelineSnapshot) (x : SnapshotRatios) (out : Bytes) : Bytes :=
  let out := gauge out "gtpm_subscribers_active" "Sessions installed in the metering table" (dbl (subscribers_active (sn_meter s))) in
  let out := gauge out "gtpm_flows_active" "Entries in the flow table" (dbl (st_flows_active (sn_meter s))) in
  let out := gauge out "gtpm_meter_ring_depth" "Meter ring occupancy" (dbl (sn_meter_ring_depth s)) in
  let out := gauge out "gtpm_meter_ring_capacity" "Meter ring capacity" (dbl (sn_meter_ring_capacity s)) in
  let out := gauge out "gtpm_meter_ring_utilization" "Meter ring occupancy as a fraction of capacity"
    (if sn_meter_ring_capacity s =? 0 then dbl 0 else ddiv (dbl (sn_meter_ring_depth s)) (dbl (sn_meter_ring_capacity s))) in
  let out := gauge out "gtpm_teid_table_load_factor" "TEID hash table load factor" (sx_teid_load_factor x) in
  let out := gauge out "gtpm_teid_probes_per_lookup" "Average probes per TEID lookup" (sx_teid_probes_per_lookup x) in
  gauge out "gtpm_uptime_seconds" "Pipeline uptime" (ddiv (dbl (sn_uptime_ns s)) giga).

Definition render_latency (l : LatencySummary) (out : Bytes) : Bytes :=
  append out (sprintf
    "# HELP gtpm_e2e_latency_ns Ingest-to-counter latency, sampled~# TYPE gtpm_e2e_latency_ns summary~gtpm_e2e_latency_ns{quantile=`0.5`} %llu~gtpm_e2e_latency_ns{quantile=`0.9`} %llu~gtpm_e2e_latency_ns{quantile=`0.99`} %llu~gtpm_e2e_latency_ns{quantile=`0.999`} %llu~gtpm_e2e_latency_ns{quantile=`0.9999`} %llu~gtpm_e2e_latency_ns_max %llu~gtpm_e2e_latency_ns_count %llu~"
    [AInt (ls_p50_ns l); AInt (ls_p90_ns l); AInt (ls_p99_ns l); AInt (ls_p999_ns l); AInt (ls_p9999_ns l); AInt (ls_max_ns l);
     AInt (ls_count l)]).

(** [detail] is [None] for a null pointer. *)
Definition render_prometheus (s : PipelineSnapshot) (x : SnapshotRatios) (detail : option DetailSnapshot) (subscriber_series : Z) : Bytes :=
  let out := render_ingest_counters (sn_ingest s) [] in
  let out := render_meter_counters (sn_meter s) (sn_records_written s) out in
  let out := render_gauges s x out in
  let out := render_latency (sn_latency s) out in
  match detail with
  | Some d =>
      if 0 <? subscriber_series then
        let out := append out (sprintf
          "# HELP gtpm_subscriber_bytes_total Per-subscriber metered bytes (top talkers only)~# TYPE gtpm_subscriber_bytes_total counter~" []) in
        let n := Z.min subscriber_series (size (subscribers d)) in
        series_rows out (take (Z.to_nat n) (subscribers d))
      else out
  | None => out
  end.

(** ** JSON documents *)

Definition render_stats_json (s : PipelineSnapshot) (x : SnapshotRatios) : Bytes :=
  let i := sn_ingest s in let m := sn_meter s in let l := sn_latency s in
  append [] (sprintf
    "{`uptime_s`:%.3f,`published_at`:`%s`,`ingest`:{`frames`:%llu,`bytes`:%llu,`gpdus`:%llu,`control`:%llu,`parse_errors`:%llu,`events_pushed`:%llu,`events_dropped`:%llu,`diameter_messages`:%llu},`meter`:{`events`:%llu,`bytes`:%llu,`ul_bytes`:%llu,`dl_bytes`:%llu,`ul_packets`:%llu,`dl_packets`:%llu,`unknown_teid_events`:%llu,`unknown_teid_bytes`:%llu,`teid_bind_failures`:%llu,`flows_active`:%llu,`flow_evictions`:%llu,`records_emitted`:%llu,`records_dropped`:%llu,`records_written`:%llu,`gy_events`:%llu},`rings`:{`meter_depth`:%llu,`meter_capacity`:%llu,`gy_depth`:%llu,`record_depth`:%llu},`teid_table`:{`size`:%llu,`capacity`:%llu,`load_factor`:%.4f,`probes_per_lookup`:%.4f},`latency_ns`:{`count`:%llu,`min`:%llu,`p50`:%llu,`p90`:%llu,`p99`:%llu,`p999`:%llu,`p9999`:%llu,`max`:%llu,`mean`:%.1f}}"
    [ADouble (ddiv (dbl (sn_uptime_ns s)) giga); AStr (format_rfc3339 (sn_publish_wall_ns s));
     AInt (in_frames i); AInt (in_frames_bytes i); AInt (in_gtpu_gpdus i); AInt (in_gtpu_control i); AInt (in_gtpu_parse_errors i);
     AInt (in_events_pushed i); AInt (in_events_dropped i); AInt (in_diameter_messages i);
     AInt (st_events m); AInt (st_bytes m); AInt (st_ul_bytes m); AInt (st_dl_bytes m); AInt (st_ul_packets m); AInt (st_dl_packets m);
     AInt (st_unknown_teid_events m); AInt (st_unknown_teid_bytes m); AInt (st_teid_bind_failures m); AInt (st_flows_active m);
     AInt (st_flow_evictions m); AInt (st_records_emitted m); AInt (st_records_dropped m); AInt (sn_records_written s);
     AInt (st_gy_events m); AInt (sn_meter_ring_depth s); AInt (sn_meter_ring_capacity s); AInt (sn_gy_ring_depth s);
     AInt (sn_record_ring_depth s); AInt (sn_teid_table_size s); AInt (sn_teid_table_capacity s);
     ADouble (sx_teid_load_factor x); ADouble (sx_teid_probes_per_lookup x);
     AInt (ls_count l); AInt (ls_min_ns l); AInt (ls_p50_ns l); AInt (ls_p90_ns l); AInt (ls_p99_ns l); AInt (ls_p999_ns l);
     AInt (ls_p9999_ns l); AInt (ls_max_ns l); ADouble (sx_latency_mean_ns x)]).

(** The slots of one subscriber. *)
Fixpoint subscriber_buckets (n : nat) (row : SubscriberSnapshot) (b : Z) (first : bool) (out : Bytes) : res Bytes :=
  match n with
  | O => Ok out
  | S n =>
      let* id := at_ (sr_bucket_ids row) b in
      let* bytes := at_ (sr_bucket_bytes row) b in
      if (id =? kUnsetBucket) && (bytes =? 0) then subscriber_buckets n row (b + 1) first out else
      subscriber_buckets n row (b + 1) false (append out (sprintf "%s{`kind`:`%s`,`id`:%u,`bytes`:%llu}"
        [AStr (if first then [] else [ch_comma]); AStr (txt (if is_qfi id then "qfi" else "rating-group")); AInt (bucket_id id); AInt bytes]))
  end.

Definition append_subscriber (out : Bytes) (row : SubscriberSnapshot) : res Bytes :=
  let out := append out (sprintf
    "{`imsi`:`%llu`,`sub`:%u,`ul_teid`:%u,`dl_teid`:%u,`ul_bytes`:%llu,`dl_bytes`:%llu,`ul_packets`:%llu,`dl_packets`:%llu,`gy_reported_octets`:%llu,`gy_reports`:%u,`buckets`:["
    [AInt (sr_imsi row); AInt (sr_sub_idx row); AInt (sr_ul_teid row); AInt (sr_dl_teid row); AInt (sr_ul_bytes row);
     AInt (sr_dl_bytes row); AInt (sr_ul_packets row); AInt (sr_dl_packets row); AInt (sr_gy_reported_octets row); AInt (sr_gy_reports row)]) in
  let* out := subscriber_buckets (Z.to_nat kBucketSlots) row 0 true out in
  Ok (append out (sprintf "],`bucket_aggregated`:%s}" [AStr (txt (if sr_bucket_aggregated row then "true" else "false"))])).

(** [out += ','] before every item but the first. *)
Fixpoint append_items {A} (item : Bytes -> A -> res Bytes) (first : bool) (out : Bytes) (l : list A) : res Bytes :=
  match l with
  | [] => Ok out
  | a :: l => let* out := item (if first then out else out ++ [ch_comma]) a in append_items item false out l
  end.

Definition render_subscribers_json (detail : DetailSnapshot) (limit : Z) : res Bytes :=
  let n := Z.min limit (size (subscribers detail)) in
  let* out := append_items append_subscriber true (txt "{`subscribers`:[") (take (Z.to_nat n) (subscribers detail)) in
  Ok (append out (sprintf "],`returned`:%zu,`total`:%llu}" [AInt n; AInt (total_subscribers detail)])).

Fixpoint find_subscriber (imsi : Z) (rows : list SubscriberSnapshot) : option SubscriberSnapshot :=
  match rows with
  | [] => None
  | row :: rows => if negb (sr_imsi row =? imsi) then find_subscriber imsi rows else Some row
  end.
Definition render_subscriber_json (detail : DetailSnapshot) (imsi : Z) : res Bytes :=
  match find_subscriber imsi (subscribers detail) with Some row => append_subscriber [] row | None => Ok [] end.

Definition direction_text (d : Z) : Bytes := String.list_byte_of_string (Direction.to_string d).

Definition append_flow {HE : HostEndian} (out : Bytes) (f : FlowEntry) : res Bytes :=
  let* src := ip_string (f_src_ip f) (f_ip_version f) in
  let* dst := ip_string (f_dst_ip f) (f_ip_version f) in
  Ok (append out (sprintf
    "{`teid`:%u,`sub`:%u,`src`:`%s`,`dst`:`%s`,`src_port`:%u,`dst_port`:%u,`proto`:%u,`qfi`:%u,`direction`:`%s`,`bytes`:%llu,`packets`:%llu}"
    [AInt (f_teid f); AInt (f_sub_idx f); AStr src; AStr dst; AInt (f_src_port f); AInt (f_dst_port f); AInt (f_proto f);
     AInt (f_qfi f); AStr (direction_text (f_dir f)); AInt (f_bytes f); AInt (f_packets f)])).

Definition render_flows_json {HE : HostEndian} (detail : DetailSnapshot) (limit : Z) : res Bytes :=
  let n := Z.min limit (size (d_top_flows detail)) in
  let* out := append_items append_flow true (txt "{`flows`:[") (take (Z.to_nat n) (d_top_flows detail)) in
  Ok (append out (sprintf "],`returned`:%zu}" [AInt n])).
