(* ===== verification/ReportProps.v ===== *)
(** * The reports are the JSON documents they should be

    Every document of the HTTP interface against its JSON value, and the one
    that its buffer can cut short. *)

From Stdlib Require Strings.String.
From S2P Require Import Prelude ByteOrder SpscRing MeterEvent UsageRecord Session SessionCsv Meter Pipeline Histogram Snapshot TopN DetailScan Runtime.
From S2P Require Import Double Text Clock Json RecordJson Report.

Lemma append_short out text : size text < 1024 -> append out text = out ++ text.
Proof.
  intros H. unfold append. pose proof (size_nonneg text). destruct (Z.ltb_spec 0 (size text)).
  - destruct (Z.ltb_spec (size text) 1024); [|lia]. by rewrite take_ge by (unfold size; lia).
  - destruct text; [by rewrite app_nil_r|]. rewrite size_cons in *. pose proof (size_nonneg text). lia.
Qed.

Lemma append_items_text {A} (item : Bytes -> A -> res Bytes) (text : A -> Bytes) l :
  Forall (fun a => forall out, item out a = Ok (out ++ text a)) l -> forall first out,
  append_items item first out l = Ok (out ++ comma_list first (map text l)).
Proof.
  induction 1 as [|a l Ha Hl IH]; intros first out; cbn [append_items map comma_list]; [by rewrite app_nil_r|].
  rewrite Ha, bind_Ok, IH. destruct first; cbn [app]; by rewrite <- !app_assoc.
Qed.

(** ** Subscribers *)

Definition row_bucket_json (id bytes : Z) : json :=
  JObj [jmember "kind" (JStr (txt (if is_qfi id then "qfi" else "rating-group"))); jmember "id" (jint (bucket_id id));
        jmember "bytes" (jint bytes)].
Definition row_slot_json (row : SubscriberSnapshot) (i : Z) : option json :=
  match sr_bucket_ids row !! Z.to_nat i, sr_bucket_bytes row !! Z.to_nat i with
  | Some id, Some bytes => if slot_used id bytes then Some (row_bucket_json id bytes) else None
  | _, _ => None
  end.

Definition subscriber_json (row : SubscriberSnapshot) : json :=
  JObj [jmember "imsi" (JStr (show_u64 (sr_imsi row))); jmember "sub" (jint (sr_sub_idx row)); jmember "ul_teid" (jint (sr_ul_teid row));
        jmember "dl_teid" (jint (sr_dl_teid row)); jmember "ul_bytes" (jint (sr_ul_bytes row)); jmember "dl_bytes" (jint (sr_dl_bytes row));
        jmember "ul_packets" (jint (sr_ul_packets row)); jmember "dl_packets" (jint (sr_dl_packets row));
        jmember "gy_reported_octets" (jint (sr_gy_reported_octets row)); jmember "gy_reports" (jint (sr_gy_reports row));
        jmember "buckets" (JArr (omap (row_slot_json row) (seqZ 0 kBucketSlots)));
        jmember "bucket_aggregated" (JBool (sr_bucket_aggregated row))].

Definition subscribers_json (detail : DetailSnapshot) (limit : Z) : json :=
  let n := Z.min limit (size (subscribers detail)) in
  JObj [jmember "subscribers" (JArr (map subscriber_json (take (Z.to_nat n) (subscribers detail)))); jmember "returned" (jint n);
        jmember "total" (jint (total_subscribers detail))].

Definition row_typed (row : SubscriberSnapshot) : Prop :=
  0 <= sr_imsi row < 2 ^ 64 /\ 0 <= sr_sub_idx row < 2 ^ 32 /\ 0 <= sr_ul_teid row < 2 ^ 32 /\ 0 <= sr_dl_teid row < 2 ^ 32 /\
  0 <= sr_ul_bytes row < 2 ^ 64 /\ 0 <= sr_dl_bytes row < 2 ^ 64 /\ 0 <= sr_ul_packets row < 2 ^ 64 /\ 0 <= sr_dl_packets row < 2 ^ 64 /\
  0 <= sr_gy_reported_octets row < 2 ^ 64 /\ 0 <= sr_gy_reports row < 2 ^ 32 /\
  size (sr_bucket_ids row) = 3 /\ size (sr_bucket_bytes row) = 3 /\
  Forall (fun id => 0 <= id < 2 ^ 32) (sr_bucket_ids row) /\ Forall (fun b => 0 <= b < 2 ^ 64) (sr_bucket_bytes row).

Lemma row_bucket_text id bytes (first : bool) :
  let text := sprintf "%s{`kind`:`%s`,`id`:%u,`bytes`:%llu}"
    [AStr (if first then [] else [ch_comma]); AStr (txt (if is_qfi id then "qfi" else "rating-group")); AInt (bucket_id id); AInt bytes] in
  text = (if first then [] else [ch_comma]) ++ json_text (row_bucket_json id bytes) /\ size text < 1024.
Proof.
  cbn zeta. unfold row_bucket_json, jmember, jint, json_text. destruct (is_qfi id), first;
    run_format; (split; [reflexivity|]); text_length; lia.
Qed.

Lemma subscriber_buckets_json row n : forall i first out, 0 <= i -> i + Z.of_nat n <= size (sr_bucket_ids row) ->
  i + Z.of_nat n <= size (sr_bucket_bytes row) ->
  subscriber_buckets n row i first out = Ok (out ++ comma_list first (map json_text (omap (row_slot_json row) (seqZ i (Z.of_nat n))))).
Proof.
  induction n as [|n IH]; intros i first out Hi H1 H2; cbn [subscriber_buckets]; [by rewrite app_nil_r|].
  destruct (lookup_lt_is_Some_2 (sr_bucket_ids row) (Z.to_nat i)) as [id Hid]; [unfold size in *; lia|].
  destruct (lookup_lt_is_Some_2 (sr_bucket_bytes row) (Z.to_nat i)) as [bytes Hbytes]; [unfold size in *; lia|].
  rewrite (at_lookup _ _ id Hi Hid), bind_Ok, (at_lookup _ _ bytes Hi Hbytes), bind_Ok.
  rewrite seqZ_cons by lia. change (Z.succ i) with (i + 1). replace (Z.pred (Z.of_nat (S n))) with (Z.of_nat n) by lia.
  assert (row_slot_json row i = if slot_used id bytes then Some (row_bucket_json id bytes) else None) as Hslot
    by (unfold row_slot_json; by rewrite Hid, Hbytes).
  cbn [omap list_omap]. rewrite Hslot. unfold slot_used. destruct ((id =? kUnsetBucket) && (bytes =? 0)); cbn [negb].
  - apply IH; lia.
  - destruct (row_bucket_text id bytes first) as [Ht Hs]. cbn zeta in *. rewrite append_short by exact Hs. rewrite Ht.
    rewrite IH by lia. cbn [map comma_list]. by rewrite <- !app_assoc.
Qed.

(** Brings the text of a document and its JSON value to the same nested form. *)
Ltac same_text :=
  unfold jmember, jint, json_text; cbn [json_put put_list fst snd]; unfold put_string; rewrite ?put_list_comma;
  run_format; repeat (cbn [app]; rewrite <- app_assoc); reflexivity.

Lemma append_subscriber_text row : size (sr_bucket_ids row) = 3 -> size (sr_bucket_bytes row) = 3 -> forall out,
  append_subscriber out row = Ok (out ++ json_text (subscriber_json row)).
Proof.
  intros Hi Hb out. unfold append_subscriber.
  rewrite append_short by (run_format; text_length; lia).
  change (Z.to_nat kBucketSlots) with 3%nat. rewrite subscriber_buckets_json, bind_Ok by lia.
  rewrite append_short by (destruct (sr_bucket_aggregated row); run_format; text_length; lia).
  unfold subscriber_json. rewrite <- !app_assoc. f_equal. f_equal. destruct (sr_bucket_aggregated row); same_text.
Qed.

Lemma row_typed_ok row : row_typed row -> json_ok (subscriber_json row) = true.
Proof.
  intros (Himsi & Hsub & Hut & Hdt & Hul & Hdl & Hup & Hdp & Hgo & Hgr & _ & _ & Hids & Hbytes).
  unfold subscriber_json, jint. cbn [json_ok forallb jmember fst snd]. rewrite !show_u64_number, show_u64_plain by lia.
  assert (forallb json_ok (omap (row_slot_json row) (seqZ 0 kBucketSlots)) = true) as ->; [|reflexivity].
  apply forallb_forall. intros j Hj%list_elem_of_In. apply list_elem_of_omap in Hj as (i & _ & Hslot).
  unfold row_slot_json in Hslot. destruct (sr_bucket_ids row !! Z.to_nat i) as [id|] eqn:E1; [|done].
  destruct (sr_bucket_bytes row !! Z.to_nat i) as [bytes|] eqn:E2; [|done]. destruct (slot_used id bytes); [|done]. injection Hslot as <-.
  pose proof (bucket_id_range id ltac:(by eapply (Forall_lookup_1 _ _ _ _ Hids))).
  pose proof (Forall_lookup_1 _ _ _ _ Hbytes E2) as Hb. cbn beta in Hb.
  unfold row_bucket_json, jint. cbn [json_ok forallb jmember fst snd]. rewrite !show_u64_number by lia. by destruct (is_qfi id).
Qed.

(** The list of subscribers, and one of them. *)
Lemma render_subscribers_text detail limit : Forall row_typed (subscribers detail) -> 0 <= limit ->
  render_subscribers_json detail limit = Ok (json_text (subscribers_json detail limit)).
Proof.
  intros Hrows Hl. unfold render_subscribers_json. set (n := Z.min limit _). set (rows := take (Z.to_nat n) (subscribers detail)).
  rewrite (append_items_text append_subscriber (fun row => json_text (subscriber_json row))).
  - rewrite bind_Ok, append_short by (run_format; text_length; lia).
    unfold subscribers_json. fold n. fold rows. rewrite <- (map_map subscriber_json json_text). do 2 f_equal. same_text.
  - apply Forall_forall. intros row Hin out. apply append_subscriber_text; eapply Forall_forall in Hin; try (apply Forall_take, Hrows); apply Hin.
Qed.

Lemma subscribers_json_ok detail limit : Forall row_typed (subscribers detail) -> 0 <= limit ->
  size (subscribers detail) < 2 ^ 64 -> 0 <= total_subscribers detail < 2 ^ 64 -> json_ok (subscribers_json detail limit) = true.
Proof.
  intros Hrows Hl Hs Ht. pose proof (size_nonneg (subscribers detail)). unfold subscribers_json, jint. cbn [json_ok forallb jmember fst snd].
  rewrite !show_u64_number by lia.
  assert (forallb json_ok (map subscriber_json (take (Z.to_nat (Z.min limit (size (subscribers detail)))) (subscribers detail))) = true)
    as ->; [|reflexivity]. apply forallb_forall. intros j Hj. apply in_map_iff in Hj as (row & <- & Hin).
  apply row_typed_ok. eapply Forall_forall in Hin; [exact Hin|]. by apply Forall_take.
Qed.

(** ** Flows *)

Definition ip_text (addr version : Z) : Bytes :=
  let b k := u8 (Z.shiftr addr k) in
  if (version =? 0) || (version =? 4) then
    show_u64 (b 24) ++ ch_dot :: show_u64 (b 16) ++ ch_dot :: show_u64 (b 8) ++ ch_dot :: show_u64 (b 0)
  else if version =? 6 then
    show_hex 16 (b 24 * 256 + b 16) ++ ch_colon :: show_hex 16 (b 8 * 256 + b 0) ++ txt ":0:0:0:0:0:0"
  else txt "-".

Lemma show_byte_length v : (length (show_u64 (u8 v)) <= 3)%nat.
Proof. pose proof (u8_range v). apply show_small; [change (10 ^ Z.of_nat 3) with 1000|]; lia. Qed.

Lemma show_hex_length k : forall fuel v, v < 16 ^ Z.of_nat k -> (0 < k <= fuel)%nat -> (length (show_hex fuel v) <= k)%nat.
Proof.
  induction k as [|k IH]; intros fuel v Hv Hk; [lia|]. destruct fuel as [|fuel]; [lia|]. cbn [show_hex].
  destruct (Z.ltb_spec v 16); [cbn; lia|]. rewrite length_app. cbn [length]. rewrite Nat2Z.inj_succ, Z.pow_succ_r in Hv by lia.
  assert (k <> 0)%nat by (intros ->; change (16 ^ Z.of_nat 0) with 1 in Hv; lia).
  specialize (IH fuel (v / 16) ltac:(apply Z.div_lt_upper_bound; lia) ltac:(lia)). lia.
Qed.

Lemma show_word_length a b : (length (show_hex 16 (u8 a * 256 + u8 b)) <= 4)%nat.
Proof. pose proof (u8_range a). pose proof (u8_range b). apply show_hex_length; [change (16 ^ Z.of_nat 4) with 65536|]; lia. Qed.

Lemma ip_string_text {HE : HostEndian} addr version : ip_string addr version = Ok (ip_text addr version).
Proof.
  unfold ip_string.
  assert (store_be32 (replicate 16 x00) 0 addr = Ok ([to_byte (Z.shiftr addr 24); to_byte (Z.shiftr addr 16); to_byte (Z.shiftr addr 8);
    to_byte addr] ++ replicate 12 x00)) as -> by reflexivity.
  rewrite bind_Ok. set (a := _ ++ replicate 12 x00).
  assert (byte_at a 0 = u8 (Z.shiftr addr 24)) as B0 by apply bval_to_byte.
  assert (byte_at a 1 = u8 (Z.shiftr addr 16)) as B1 by apply bval_to_byte.
  assert (byte_at a 2 = u8 (Z.shiftr addr 8)) as B2 by apply bval_to_byte.
  assert (byte_at a 3 = u8 (Z.shiftr addr 0)) as B3 by apply bval_to_byte.
  assert (size a = 16) as Hsz by reflexivity.
  unfold format_ip, ip_text. assert (((if version =? 0 then 4 else version) =? 4) = (version =? 0) || (version =? 4)) as ->
    by (by destruct (Z.eqb_spec version 0)).
  destruct ((version =? 0) || (version =? 4)) eqn:Hv.
  - rewrite !rd_Ok, !bind_Ok, B0, B1, B2, B3 by lia. rewrite take_ge; run_format; rewrite app_nil_r; [reflexivity|].
    pose proof (show_byte_length (Z.shiftr addr 24)). pose proof (show_byte_length (Z.shiftr addr 16)).
    pose proof (show_byte_length (Z.shiftr addr 8)). pose proof (show_byte_length (Z.shiftr addr 0)).
    repeat (rewrite ?length_app; cbn [length]). lia.
  - apply orb_false_iff in Hv as [H0 _]. rewrite H0. destruct (version =? 6); [|reflexivity].
    rewrite !load_be16_Ok, !bind_Ok by lia.
    assert (be16_at a 0 = u8 (Z.shiftr addr 24) * 256 + u8 (Z.shiftr addr 16)) as -> by exact (f_equal2 (fun x y => x * 256 + y) B0 B1).
    assert (be16_at a 2 = u8 (Z.shiftr addr 8) * 256 + u8 (Z.shiftr addr 0)) as -> by exact (f_equal2 (fun x y => x * 256 + y) B2 B3).
    assert (be16_at a 4 = 0 /\ be16_at a 6 = 0 /\ be16_at a 8 = 0 /\ be16_at a 10 = 0 /\ be16_at a 12 = 0 /\ be16_at a 14 = 0)
      as (-> & -> & -> & -> & -> & ->) by (split_and!; reflexivity).
    pose proof (show_word_length (Z.shiftr addr 24) (Z.shiftr addr 16)). pose proof (show_word_length (Z.shiftr addr 8) (Z.shiftr addr 0)).
    run_format. change (show_hex 16 0) with [x30]. rewrite take_ge; [reflexivity|].
    repeat (rewrite ?length_app; cbn [length app]). lia.
Qed.

Definition flow_json (f : FlowEntry) : json :=
  JObj [jmember "teid" (jint (f_teid f)); jmember "sub" (jint (f_sub_idx f)); jmember "src" (JStr (ip_text (f_src_ip f) (f_ip_version f)));
        jmember "dst" (JStr (ip_text (f_dst_ip f) (f_ip_version f))); jmember "src_port" (jint (f_src_port f));
        jmember "dst_port" (jint (f_dst_port f)); jmember "proto" (jint (f_proto f)); jmember "qfi" (jint (f_qfi f));
        jmember "direction" (JStr (direction_text (f_dir f))); jmember "bytes" (jint (f_bytes f)); jmember "packets" (jint (f_packets f))].

Definition flows_json (detail : DetailSnapshot) (limit : Z) : json :=
  let n := Z.min limit (size (d_top_flows detail)) in
  JObj [jmember "flows" (JArr (map flow_json (take (Z.to_nat n) (d_top_flows detail)))); jmember "returned" (jint n)].

Definition flow_typed (f : FlowEntry) : Prop :=
  0 <= f_teid f < 2 ^ 32 /\ 0 <= f_sub_idx f < 2 ^ 32 /\ 0 <= f_src_port f < 2 ^ 16 /\ 0 <= f_dst_port f < 2 ^ 16 /\
  0 <= f_proto f < 2 ^ 8 /\ 0 <= f_qfi f < 2 ^ 8 /\ 0 <= f_bytes f < 2 ^ 64 /\ 0 <= f_packets f < 2 ^ 64.

Lemma ip_text_length addr version : (length (ip_text addr version) <= 30)%nat.
Proof.
  unfold ip_text. pose proof (show_byte_length (Z.shiftr addr 24)). pose proof (show_byte_length (Z.shiftr addr 16)).
  pose proof (show_byte_length (Z.shiftr addr 8)). pose proof (show_byte_length (Z.shiftr addr 0)).
  pose proof (show_word_length (Z.shiftr addr 24) (Z.shiftr addr 16)). pose proof (show_word_length (Z.shiftr addr 8) (Z.shiftr addr 0)).
  destruct (_ || _); [|destruct (version =? 6); [|cbn; lia]]; run_format; repeat (rewrite ?length_app; cbn [length]); lia.
Qed.

Lemma plain_bval c : 32 <= bval c -> bval c <> 34 -> bval c <> 92 -> plain c = true.
Proof.
  intros H1 H2 H3. unfold plain. apply Z.leb_le in H1. rewrite H1, !bool_decide_false; [done| |]; intros ->; by vm_compute in H2, H3.
Qed.

Lemma hex_char_plain d : 0 <= d < 16 -> plain (hex_char d) = true.
Proof.
  intros H. assert (bval (hex_char d) = if d <? 10 then 48 + d else 87 + d) as E.
  { unfold hex_char. rewrite bval_to_byte. apply u8_small. destruct (Z.ltb_spec d 10); lia. }
  apply plain_bval; rewrite E; destruct (Z.ltb_spec d 10); lia.
Qed.

Lemma show_hex_plain fuel : forall v, 0 <= v -> forallb plain (show_hex fuel v) = true.
Proof.
  induction fuel as [|fuel IH]; intros v Hv; cbn [show_hex]; [done|]. pose proof (Z.mod_pos_bound v 16). destruct (Z.ltb_spec v 16).
  - cbn. by rewrite hex_char_plain by lia.
  - rewrite forallb_app, IH by (apply Z.div_pos; lia). cbn. by rewrite hex_char_plain by lia.
Qed.

Lemma ip_text_plain addr version : forallb plain (ip_text addr version) = true.
Proof.
  unfold ip_text. pose proof (u8_range (Z.shiftr addr 24)). pose proof (u8_range (Z.shiftr addr 16)).
  pose proof (u8_range (Z.shiftr addr 8)). pose proof (u8_range (Z.shiftr addr 0)).
  destruct (_ || _); [|destruct (version =? 6); [|reflexivity]].
  - rewrite forallb_app. cbn [forallb]. rewrite forallb_app. cbn [forallb]. rewrite forallb_app. cbn [forallb].
    by rewrite !show_u64_plain by lia.
  - rewrite forallb_app. cbn [forallb]. rewrite forallb_app. by rewrite !show_hex_plain by lia.
Qed.

Lemma direction_text_spec d : (length (direction_text d) <= 8)%nat /\ forallb plain (direction_text d) = true.
Proof. unfold direction_text, Direction.to_string. repeat case_match; (split; [cbn; lia|reflexivity]). Qed.

Lemma append_flow_text {HE : HostEndian} f out : append_flow out f = Ok (out ++ json_text (flow_json f)).
Proof.
  unfold append_flow. rewrite !ip_string_text, !bind_Ok.
  pose proof (ip_text_length (f_src_ip f) (f_ip_version f)). pose proof (ip_text_length (f_dst_ip f) (f_ip_version f)).
  destruct (direction_text_spec (f_dir f)) as [Hd _]. rewrite append_short by (run_format; text_length; lia).
  reflexivity.
Qed.

Lemma flow_typed_ok f : flow_typed f -> json_ok (flow_json f) = true.
Proof.
  intros (H1 & H2 & H3 & H4 & H5 & H6 & H7 & H8). destruct (direction_text_spec (f_dir f)) as [_ Hd].
  unfold flow_json, jint. cbn [json_ok forallb jmember fst snd]. by rewrite !show_u64_number, !ip_text_plain, Hd by lia.
Qed.

Lemma render_flows_text {HE : HostEndian} detail limit : 0 <= limit -> render_flows_json detail limit = Ok (json_text (flows_json detail limit)).
Proof.
  intros Hl. unfold render_flows_json. set (n := Z.min limit _). set (fs := take (Z.to_nat n) (d_top_flows detail)).
  rewrite (append_items_text append_flow (fun f => json_text (flow_json f))).
  - rewrite bind_Ok, append_short by (run_format; text_length; lia).
    unfold flows_json. fold n. fold fs. rewrite <- (map_map flow_json json_text). do 2 f_equal. same_text.
  - apply Forall_forall. intros f _ out. apply append_flow_text.
Qed.

Lemma flows_json_ok detail limit : Forall flow_typed (d_top_flows detail) -> 0 <= limit -> size (d_top_flows detail) < 2 ^ 64 ->
  json_ok (flows_json detail limit) = true.
Proof.
  intros Hfs Hl Hs. pose proof (size_nonneg (d_top_flows detail)). unfold flows_json, jint. cbn [json_ok forallb jmember fst snd].
  rewrite !show_u64_number by lia.
  assert (forallb json_ok (map flow_json (take (Z.to_nat (Z.min limit (size (d_top_flows detail)))) (d_top_flows detail))) = true)
    as ->; [|reflexivity]. apply forallb_forall. intros j Hj. apply in_map_iff in Hj as (f & <- & Hin).
  apply flow_typed_ok. eapply Forall_forall in Hin; [exact Hin|]. by apply Forall_take.
Qed.

(** ** The statistics document *)

Definition stats_json (s : PipelineSnapshot) (x : SnapshotRatios) : json :=
  let i := sn_ingest s in let m := sn_meter s in let l := sn_latency s in
  JObj [jmember "uptime_s" (JNum (fixed 3 (ddiv (dbl (sn_uptime_ns s)) giga)));
    jmember "published_at" (JStr (format_rfc3339 (sn_publish_wall_ns s)));
    jmember "ingest" (JObj [jmember "frames" (jint (in_frames i)); jmember "bytes" (jint (in_frames_bytes i));
      jmember "gpdus" (jint (in_gtpu_gpdus i)); jmember "control" (jint (in_gtpu_control i));
      jmember "parse_errors" (jint (in_gtpu_parse_errors i)); jmember "events_pushed" (jint (in_events_pushed i));
      jmember "events_dropped" (jint (in_events_dropped i)); jmember "diameter_messages" (jint (in_diameter_messages i))]);
    jmember "meter" (JObj [jmember "events" (jint (st_events m)); jmember "bytes" (jint (st_bytes m));
      jmember "ul_bytes" (jint (st_ul_bytes m)); jmember "dl_bytes" (jint (st_dl_bytes m));
      jmember "ul_packets" (jint (st_ul_packets m)); jmember "dl_packets" (jint (st_dl_packets m));
      jmember "unknown_teid_events" (jint (st_unknown_teid_events m)); jmember "unknown_teid_bytes" (jint (st_unknown_teid_bytes m));
      jmember "teid_bind_failures" (jint (st_teid_bind_failures m)); jmember "flows_active" (jint (st_flows_active m));
      jmember "flow_evictions" (jint (st_flow_evictions m)); jmember "records_emitted" (jint (st_records_emitted m));
      jmember "records_dropped" (jint (st_records_dropped m)); jmember "records_written" (jint (sn_records_written s));
      jmember "gy_events" (jint (st_gy_events m))]);
    jmember "rings" (JObj [jmember "meter_depth" (jint (sn_meter_ring_depth s)); jmember "meter_capacity" (jint (sn_meter_ring_capacity s));
      jmember "gy_depth" (jint (sn_gy_ring_depth s)); jmember "record_depth" (jint (sn_record_ring_depth s))]);
    jmember "teid_table" (JObj [jmember "size" (jint (sn_teid_table_size s)); jmember "capacity" (jint (sn_teid_table_capacity s));
      jmember "load_factor" (JNum (fixed 4 (sx_teid_load_factor x))); jmember "probes_per_lookup" (JNum (fixed 4 (sx_teid_probes_per_lookup x)))]);
    jmember "latency_ns" (JObj [jmember "count" (jint (ls_count l)); jmember "min" (jint (ls_min_ns l)); jmember "p50" (jint (ls_p50_ns l));
      jmember "p90" (jint (ls_p90_ns l)); jmember "p99" (jint (ls_p99_ns l)); jmember "p999" (jint (ls_p999_ns l));
      jmember "p9999" (jint (ls_p9999_ns l)); jmember "max" (jint (ls_max_ns l)); jmember "mean" (JNum (fixed 1 (sx_latency_mean_ns x)))])].

(** The numbers the document prints. *)
Definition stats_numbers (s : PipelineSnapshot) : list Z :=
  let i := sn_ingest s in let m := sn_meter s in let l := sn_latency s in
  [in_frames i; in_frames_bytes i; in_gtpu_gpdus i; in_gtpu_control i; in_gtpu_parse_errors i; in_events_pushed i; in_events_dropped i;
   in_diameter_messages i; st_events m; st_bytes m; st_ul_bytes m; st_dl_bytes m; st_ul_packets m; st_dl_packets m;
   st_unknown_teid_events m; st_unknown_teid_bytes m; st_teid_bind_failures m; st_flows_active m; st_flow_evictions m;
   st_records_emitted m; st_records_dropped m; sn_records_written s; st_gy_events m; sn_meter_ring_depth s; sn_meter_ring_capacity s;
   sn_gy_ring_depth s; sn_record_ring_depth s; sn_teid_table_size s; sn_teid_table_capacity s; ls_count l; ls_min_ns l; ls_p50_ns l;
   ls_p90_ns l; ls_p99_ns l; ls_p999_ns l; ls_p9999_ns l; ls_max_ns l].

Definition snapshot_typed (s : PipelineSnapshot) (x : SnapshotRatios) : Prop :=
  0 <= sn_publish_wall_ns s < 2 ^ 64 /\ Forall (fun v => 0 <= v < 2 ^ 64) (stats_numbers s) /\
  unsigned_finite (ddiv (dbl (sn_uptime_ns s)) giga) = true /\ unsigned_finite (sx_teid_load_factor x) = true /\
  unsigned_finite (sx_teid_probes_per_lookup x) = true /\ unsigned_finite (sx_latency_mean_ns x) = true.

Lemma append_take text : append [] text = take 1023 text.
Proof.
  unfold append. pose proof (size_nonneg text). destruct (Z.ltb_spec 0 (size text)).
  - cbn [app]. destruct (Z.ltb_spec (size text) 1024); [|done]. rewrite !take_ge by (unfold size in *; lia). done.
  - destruct text; [done|]. rewrite size_cons in *. pose proof (size_nonneg text). lia.
Qed.

Lemma stats_text s x : render_stats_json s x = take 1023 (json_text (stats_json s x)).
Proof.
  unfold render_stats_json. rewrite append_take. reflexivity.
Qed.

Lemma stats_json_ok s x : snapshot_typed s x -> json_ok (stats_json s x) = true.
Proof.
  intros (Hw & Hn & Hu & Hl & Hp & Hm). unfold stats_numbers in Hn. repeat (apply Forall_cons_iff in Hn as [? Hn]).
  unfold stats_json, jint. cbn [json_ok forallb jmember fst snd].
  by rewrite !fixed_number, format_rfc3339_plain, !show_u64_number by (done || lia).
Qed.

(** C34: The statistics document is valid JSON exactly when it fits in 1023 bytes.  For
    every snapshot, with the ratios finite, the text of [render_stats_json] is read
    back as the intended document (all 37 counters, the time and the ratios under
    their names) if that document is shorter than the buffer of [append], and is
    no JSON at all otherwise. *)
Theorem stats_json_iff_fits s x : snapshot_typed s x ->
  json_parse (render_stats_json s x) = if size (json_text (stats_json s x)) <? 1024 then Some (stats_json s x) else None.
Proof.
  intros Hty. pose proof (stats_json_ok s x Hty) as Hok. rewrite stats_text.
  destruct (Z.ltb_spec (size (json_text (stats_json s x))) 1024) as [Hlt|Hge].
  - rewrite take_ge by (unfold size in Hlt; lia). by apply json_parse_text.
  - unfold stats_json at 1. cbn zeta. apply json_parse_prefix; [exact Hok|apply Nat.leb_le; reflexivity|].
    unfold size, stats_json in Hge. cbn zeta in Hge. lia.
Qed.

(** A snapshot of a pipeline that is still small, and one after it has counted to
    ten digits. *)
Definition sample_snapshot (v : Z) : PipelineSnapshot :=
  mkSnapshot (mkStats v v v v v v v v v v v v v v v v v v v v v) (mkIngestStats v v v v v v v v v v v v v v v)
    (mkLatencySummary v v v v v v v v) 1709210096789000000 0 86400000000000 v v v v v v v v v v.
Definition sample_ratios : SnapshotRatios := mkRatios (ddiv (dbl 1) (dbl 2)) (dbl 1) (dbl 250).

Lemma stats_json_iff_fits_witness :
  json_parse (render_stats_json (sample_snapshot 1000) sample_ratios) = Some (stats_json (sample_snapshot 1000) sample_ratios) /\
  json_parse (render_stats_json (sample_snapshot 9999999999) sample_ratios) = None.
Proof.
  assert (forall v, 0 <= v < 2 ^ 64 -> snapshot_typed (sample_snapshot v) sample_ratios) as Hty.
  { intros v Hv. split_and!; [done|done| |vm_compute; reflexivity..]. repeat (constructor; [exact Hv|]). constructor. }
  split; (rewrite stats_json_iff_fits by (apply Hty; lia)).
  - assert ((size (json_text (stats_json (sample_snapshot 1000) sample_ratios)) <? 1024) = true) as -> by (vm_compute; reflexivity). reflexivity.
  - assert ((size (json_text (stats_json (sample_snapshot 9999999999) sample_ratios)) <? 1024) = false) as -> by (vm_compute; reflexivity). reflexivity.
Defined.

(** The C++ types of the detail tables. *)
Definition detail_typed (d : DetailSnapshot) : Prop :=
  Forall row_typed (subscribers d) /\ Forall flow_typed (d_top_flows d) /\ size (subscribers d) < 2 ^ 64 /\ size (d_top_flows d) < 2 ^ 64 /\
  0 <= total_subscribers d < 2 ^ 64.

(** The detail documents are the JSON they should be.  For every published detail
    and every limit, [render_subscribers_json] and [render_flows_json] return a
    text that reads back as the first min(limit, size) rows with their counts;
    [render_subscriber_json] is the document of the first row with the IMSI asked
    for, and empty when there is none.  No buffer is too small for a row. *)
Theorem detail_reports_json {HE : HostEndian} detail limit : detail_typed detail -> 0 <= limit < 2 ^ 64 ->
  ensures (render_subscribers_json detail limit) (fun b => json_parse b = Some (subscribers_json detail limit)) /\
  ensures (render_flows_json detail limit) (fun b => json_parse b = Some (flows_json detail limit)) /\
  forall imsi, ensures (render_subscriber_json detail imsi) (fun b =>
    match find_subscriber imsi (subscribers detail) with Some row => json_parse b = Some (subscriber_json row) | None => b = [] end).
Proof.
  intros (Hrows & Hfs & Hs & Hf & Ht) Hl. split_and!.
  - rewrite render_subscribers_text by (done || lia). apply ensures_Ok, json_parse_text. apply subscribers_json_ok; (done || lia).
  - rewrite render_flows_text by lia. apply ensures_Ok, json_parse_text. apply flows_json_ok; (done || lia).
  - intros imsi. unfold render_subscriber_json.
    assert (forall row, find_subscriber imsi (subscribers detail) = Some row -> row_typed row) as Hfind.
    { intros row. induction Hrows as [|r rows Hr _ IH]; [done|]. cbn. destruct (negb _); [|intros [= <-]; done]. apply IH. cbn in Hs.
      rewrite size_cons in Hs. lia. }
    destruct (find_subscriber imsi (subscribers detail)) as [row|]; [|by apply ensures_Ok].
    specialize (Hfind row eq_refl). rewrite append_subscriber_text by apply Hfind. apply ensures_Ok, json_parse_text. by apply row_typed_ok.
Qed.

Definition sample_row : SubscriberSnapshot := mkRow 262011234567890 1500 9000 12 34 99 [10490; 0; 10] 5 [9; kUnsetBucket; kQfiBucketTag + 5] 3 257 258 1 true.
Definition sample_detail : DetailSnapshot := mkDetail [sample_row] [mkFlow 1 9000 34 99 167772161 134744072 3 257 1234 443 6 4 9 1] 0 7.

Lemma detail_reports_json_witness :
  detail_typed sample_detail /\
  ensures (@render_flows_json little sample_detail 20) (fun b => json_parse b = Some (flows_json sample_detail 20)).
Proof.
  assert (detail_typed sample_detail) as H.
  { split_and!; try done; (constructor; [|constructor]); unfold row_typed, flow_typed, sample_row, kUnsetBucket, kQfiBucketTag; cbn;
      split_and!; try lia; repeat constructor; lia. }
  split; [exact H|]. apply (@detail_reports_json little sample_detail 20 H). lia.
Defined.
