(* ===== verification/Http.v ===== *)
(** * src/reporter.cpp: the HTTP interface

    Request parsing, routing and the response.  Strings are byte lists; [find] and
    [substr] are [std::string]'s ([None] is [npos]; [substr] past the end throws,
    which is [UB] here).  What the runtime answers ([snapshot()], [running()],
    [detail()]) is a [RuntimeView].  The response is what is handed to [send]; the
    source ignores the results of [send], so a client may see a prefix of it. *)

From Stdlib Require Strings.String.
From S2P Require Import Prelude ByteOrder SpscRing MeterEvent UsageRecord Session SessionCsv Meter Pipeline Histogram Snapshot TopN DetailScan Runtime.
From S2P Require Import Double Text Clock Json RecordJson Report.

Definition ch_query : byte := x3f.
Definition ch_amp : byte := x26.
Definition ch_equals : byte := x3d.
Definition ch_slash : byte := x2f.

(** ** std::string *)

(** [s.find(c, pos)]. *)
Fixpoint find_char (c : byte) (s : Bytes) (i pos : Z) : option Z :=
  match s with
  | [] => None
  | x :: s => if (pos <=? i) && bool_decide (x = c) then Some i else find_char c s (i + 1) pos
  end.
Definition find (c : byte) (s : Bytes) (pos : Z) : option Z := find_char c s 0 pos.

(** [s.substr(pos, n)]; [None] is [npos]. *)
Definition substr (s : Bytes) (pos : Z) (n : option Z) : res Bytes :=
  if (0 <=? pos) && (pos <=? size s) then
    let rest := drop (Z.to_nat pos) s in
    Ok (match n with Some n => take (Z.to_nat n) rest | None => rest end)
  else UB.

(** [s.find(needle)] for a needle of several characters: the first position. *)
Fixpoint find_text (needle s : Bytes) (i : Z) : option Z :=
  if bool_decide (take (length needle) s = needle) then Some i
  else match s with [] => None | _ :: s => find_text needle s (i + 1) end.

(** ** Requests *)

Record HttpRequest := mkRequest { rq_method : Bytes; rq_path : Bytes; rq_query : Bytes; rq_valid : bool }.
Definition HttpRequest_init : HttpRequest := mkRequest [] [] [] false.

Definition parse_request_line (line : Bytes) : res HttpRequest :=
  match find ch_space line 0 with
  | None => Ok HttpRequest_init
  | Some sp1 =>
      let sp2 := find ch_space line (sp1 + 1) in
      let* method := substr line 0 (Some sp1) in
      let* target := substr line (sp1 + 1) (match sp2 with None => None | Some sp2 => Some (sp2 - sp1 - 1) end) in
      let* (path, query) :=
        match find ch_query target 0 with
        | None => Ok (target, [])
        | Some q => let* p := substr target 0 (Some q) in let* r := substr target (q + 1) None in Ok (p, r)
        end in
      let valid := negb (bool_decide (method = [])) && negb (bool_decide (path = [])) &&
        match path with c :: _ => bool_decide (c = ch_slash) | [] => false end in
      Ok (mkRequest method path query valid)
  end.

(** The digits of a value, with 64-bit wrap-around; [None] at anything else. *)
Fixpoint parse_decimal (s : Bytes) (parsed : Z) : option Z :=
  match s with
  | [] => Some parsed
  | c :: s =>
      if (bval c <? 48) || (57 <? bval c) then None else parse_decimal s (add64 (mul64 parsed 10) (bval c - 48))
  end.

Definition param_value (value : Bytes) (fallback : Z) : Z :=
  match value with [] => fallback | _ => match parse_decimal value 0 with Some v => v | None => fallback end end.

Fixpoint query_loop (fuel : nat) (query key : Bytes) (fallback pos : Z) : res Z :=
  match fuel with
  | O => Fuel
  | S fuel =>
      if pos <? size query then
        let amp := find ch_amp query pos in
        let* kv := substr query pos (match amp with None => None | Some amp => Some (amp - pos) end) in
        let* hit :=
          match find ch_equals kv 0 with
          | None => Ok None
          | Some eq =>
              let* k := substr kv 0 (Some eq) in
              if bool_decide (k = key) then let* value := substr kv (eq + 1) None in Ok (Some (param_value value fallback)) else Ok None
          end in
        match hit with
        | Some v => Ok v
        | None => match amp with None => Ok fallback | Some amp => query_loop fuel query key fallback (amp + 1) end
        end
      else Ok fallback
  end.
Definition query_param (query key : Bytes) (fallback : Z) : res Z := query_loop (S (length query)) query key fallback 0.

(** ** Responses *)

Record HttpResponse := mkResponse { rs_status : Z; rs_content_type : Bytes; rs_body : Bytes }.
#[export] Instance HttpResponse_eta : Eta HttpResponse := fun r => mkResponse (rs_status r) (rs_content_type r) (rs_body r).
Definition text_plain : Bytes := txt "text/plain; version=0.0.4; charset=utf-8".
Definition application_json : Bytes := txt "application/json".
Definition HttpResponse_init : HttpResponse := mkResponse 200 text_plain [].

Definition status_text (status : Z) : String.string :=
  if status =? 200 then "OK" else if status =? 400 then "Bad Request" else if status =? 404 then "Not Found"
  else if status =? 405 then "Method Not Allowed" else if status =? 503 then "Service Unavailable" else "Unknown".

(** [rv_detail] is [None] when no detail has been published. *)
Record RuntimeView := mkView {
  rv_snapshot : PipelineSnapshot; rv_ratios : SnapshotRatios; rv_running : bool; rv_detail : option DetailSnapshot
}.

Definition not_found_body : Bytes := txt "gtp-meter~~  /metrics            Prometheus text (?subscribers=N adds top-N series)~  /stats              pipeline counters as JSON~  /subscribers        top subscribers (?limit=N)~  /subscribers/{imsi} one subscriber~  /flows              busiest flows (?limit=N)~  /healthz            liveness~".

(** The IMSI in the path: [None] is answered with 400. *)
Definition path_imsi (imsi_str : Bytes) : option Z := match imsi_str with [] => None | _ => parse_decimal imsi_str 0 end.

Definition subscribers_prefix : Bytes := txt "/subscribers/".
Definition json_response (status : Z) (body : Bytes) : HttpResponse := mkResponse status application_json body.

Section Route.
Context {HE : HostEndian}.

Definition route_subscribers (v : RuntimeView) (req : HttpRequest) : res HttpResponse :=
  let single := negb (bool_decide (rq_path req = txt "/subscribers")) in
  let* imsi := (if single then let* s := substr (rq_path req) (size subscribers_prefix) None in Ok (path_imsi s) else Ok (Some 0)) in
  match imsi with
  | None => Ok (json_response 400 (txt "{`error`:`imsi must be numeric`}~"))
  | Some imsi =>
      match rv_detail v with
      | None => Ok (json_response 503 (txt "{`error`:`no snapshot published yet`}~"))
      | Some detail =>
          if negb single then
            let* limit := query_param (rq_query req) (txt "limit") 50 in
            let* body := render_subscribers_json detail limit in
            Ok (json_response 200 (body ++ [ch_nl]))
          else
            let* body := render_subscriber_json detail imsi in
            match body with
            | [] => Ok (json_response 404 (txt "{`error`:`no such subscriber in the current snapshot`}~"))
            | _ => Ok (json_response 200 (body ++ [ch_nl]))
            end
      end
  end.

Definition route (v : RuntimeView) (req : HttpRequest) : res HttpResponse :=
  if negb (rq_valid req) then Ok (mkResponse 400 text_plain (txt "bad request~"))
  else if negb (bool_decide (rq_method req = txt "GET")) && negb (bool_decide (rq_method req = txt "HEAD")) then
    Ok (mkResponse 405 text_plain (txt "method not allowed~"))
  else if bool_decide (rq_path req = txt "/healthz") then
    Ok (mkResponse 200 text_plain (txt (if rv_running v then "ok~" else "stopped~")))
  else if bool_decide (rq_path req = txt "/metrics") then
    let* series := query_param (rq_query req) (txt "subscribers") 0 in
    Ok (mkResponse 200 text_plain (render_prometheus (rv_snapshot v) (rv_ratios v) (rv_detail v) series))
  else if bool_decide (rq_path req = txt "/stats") then
    Ok (json_response 200 (render_stats_json (rv_snapshot v) (rv_ratios v) ++ [ch_nl]))
  else if bool_decide (rq_path req = txt "/flows") then
    match rv_detail v with
    | None => Ok (json_response 503 (txt "{`error`:`no snapshot published yet`}~"))
    | Some detail =>
        let* limit := query_param (rq_query req) (txt "limit") 20 in
        let* body := render_flows_json detail limit in
        Ok (json_response 200 (body ++ [ch_nl]))
    end
  else if bool_decide (rq_path req = txt "/subscribers") || bool_decide (take (length subscribers_prefix) (rq_path req) = subscribers_prefix) then
    route_subscribers v req
  else Ok (mkResponse 404 text_plain not_found_body).

(** ** One connection *)

Definition crlf : Bytes := [ch_cr; ch_nl].

(** The bounded read: at most four chunks of at most 2048 bytes, until the blank
    line.  [recvs] is what the socket delivers; a poll that times out, an error or
    the end of the stream is the end of the list. *)
Fixpoint read_head (n : nat) (recvs : list Bytes) (request : Bytes) : Bytes :=
  match n, recvs with
  | S n, chunk :: recvs =>
      match chunk with
      | [] => request
      | _ =>
          let request := request ++ take 2048 chunk in
          if match find_text (crlf ++ crlf) request 0 with Some _ => true | None => false end || (8192 <? size request) then request
          else read_head n recvs request
      end
  | _, _ => request
  end.

(** [snprintf] into [char head[512]], of which the full length is sent. *)
Definition response_head (r : HttpResponse) : res Bytes :=
  snprintf_append 512 [] (sprintf "HTTP/1.1 %d %s^~Content-Type: %s^~Content-Length: %zu^~Connection: close^~^~"
    [AInt (rs_status r); AStr (txt (status_text (rs_status r))); AStr (rs_content_type r); AInt (size (rs_body r))]).

(** What is sent back for a request head. *)
Definition respond (v : RuntimeView) (request : Bytes) : res Bytes :=
  let* line := match find_text crlf request 0 with None => Ok request | Some eol => substr request 0 (Some eol) end in
  let* req := parse_request_line line in
  let* r := route v req in
  let* head := response_head r in
  Ok (head ++ (if bool_decide (rq_method req = txt "HEAD") then [] else rs_body r)).

Definition serve_one (v : RuntimeView) (recvs : list Bytes) : res Bytes := respond v (read_head 4 recvs []).
End Route.
