(* ===== verification/HttpProps.v ===== *)
(** * The HTTP interface: requests, answers, safety *)

From Stdlib Require Strings.String.
From S2P Require Import Prelude ByteOrder SpscRing MeterEvent UsageRecord Session SessionCsv Meter Pipeline Histogram Snapshot TopN DetailScan Runtime.
From S2P Require Import Double Text Clock Json RecordJson Report ReportProps Http.

(** ** Searching *)

Definition free (c : byte) (s : Bytes) : Prop := Forall (fun x => x <> c) s.

Lemma split_first c s : free c s \/ exists a b, s = a ++ c :: b /\ free c a.
Proof.
  induction s as [|x s IH]; [left; constructor|]. destruct (decide (x = c)) as [->|Hx]; [right; exists [], s; split; [done|constructor]|].
  destruct IH as [H|(a & b & -> & Ha)]; [left; by constructor|right]. exists (x :: a), b. split; [done|by constructor].
Qed.

Lemma find_char_free c s : free c s -> forall i pos, find_char c s i pos = None.
Proof. induction 1 as [|x s Hx _ IH]; intros i pos; cbn; [done|]. by rewrite bool_decide_false, andb_false_r. Qed.

Lemma find_char_first c a b : free c a -> forall i pos, pos <= i -> find_char c (a ++ c :: b) i pos = Some (i + size a).
Proof.
  induction 1 as [|x a Hx _ IH]; intros i pos Hp; cbn [app find_char].
  - rewrite bool_decide_true by done. destruct (Z.leb_spec pos i); [|lia]. cbn. f_equal. rewrite size_nil. lia.
  - rewrite bool_decide_false, andb_false_r by done. rewrite IH by lia. rewrite size_cons. f_equal. lia.
Qed.

Lemma find_char_skip c pre s : forall i pos, i + size pre = pos -> find_char c (pre ++ s) i pos = find_char c s pos pos.
Proof.
  induction pre as [|x pre IH]; intros i pos Hp; cbn [app find_char]; [rewrite size_nil in Hp; f_equal; lia|].
  rewrite size_cons in Hp. pose proof (size_nonneg pre). destruct (Z.leb_spec pos i); [lia|]. cbn [andb]. apply IH. lia.
Qed.

Lemma find_free c s : free c s -> find c s 0 = None.
Proof. intros H. by apply find_char_free. Qed.
Lemma find_first c a b : free c a -> find c (a ++ c :: b) 0 = Some (size a).
Proof. intros H. unfold find. by rewrite find_char_first by (done || lia). Qed.
Lemma find_from_free c pre s : free c s -> find c (pre ++ s) (size pre) = None.
Proof. intros H. unfold find. rewrite find_char_skip by lia. by apply find_char_free. Qed.
Lemma find_from_first c pre a b : free c a -> find c (pre ++ a ++ c :: b) (size pre) = Some (size pre + size a).
Proof. intros H. unfold find. rewrite find_char_skip by lia. by rewrite find_char_first by (done || lia). Qed.

Lemma substr_mid pre a b : substr (pre ++ a ++ b) (size pre) (Some (size a)) = Ok a.
Proof.
  unfold substr. rewrite size_app. pose proof (size_nonneg (a ++ b)). pose proof (size_nonneg pre).
  destruct (Z.leb_spec 0 (size pre)), (Z.leb_spec (size pre) (size pre + size (a ++ b))); try lia. cbn [andb]. unfold size.
  by rewrite !Nat2Z.id, drop_app_length, take_app_length.
Qed.
Lemma substr_end pre a : substr (pre ++ a) (size pre) None = Ok a.
Proof.
  unfold substr. rewrite size_app. pose proof (size_nonneg a). pose proof (size_nonneg pre).
  destruct (Z.leb_spec 0 (size pre)), (Z.leb_spec (size pre) (size pre + size a)); try lia. cbn [andb]. unfold size.
  by rewrite Nat2Z.id, drop_app_length.
Qed.
Lemma substr_start a b : substr (a ++ b) 0 (Some (size a)) = Ok a.
Proof. exact (substr_mid [] a b). Qed.
Lemma substr_after pre c a : substr (pre ++ c :: a) (size pre + 1) None = Ok a.
Proof.
  rewrite cons_middle, app_assoc. replace (size pre + 1) with (size (pre ++ [c])) by (rewrite size_app; done). apply substr_end.
Qed.

(** ** The request line *)

Definition target_text (path query : Bytes) (has_query : bool) : Bytes := if has_query then path ++ ch_query :: query else path.

Lemma parse_target method target tail :
  free ch_space method -> free ch_space target -> (tail = [] \/ exists rest, tail = ch_space :: rest) ->
  parse_request_line (method ++ ch_space :: target ++ tail) =
    let* (path, query) :=
      match find ch_query target 0 with
      | None => Ok (target, [])
      | Some q => let* p := substr target 0 (Some q) in let* r := substr target (q + 1) None in Ok (p, r)
      end in
    Ok (mkRequest method path query (negb (bool_decide (method = [])) && negb (bool_decide (path = [])) &&
        match path with c :: _ => bool_decide (c = ch_slash) | [] => false end)).
Proof.
  intros Hm Ht Htail. unfold parse_request_line. rewrite find_first by done. set (line := method ++ ch_space :: target ++ tail).
  assert (line = (method ++ [ch_space]) ++ target ++ tail) as Hline by (unfold line; by rewrite <- app_assoc).
  assert (size method + 1 = size (method ++ [ch_space])) as Hsz by (by rewrite size_app).
  assert (substr line 0 (Some (size method)) = Ok method) as -> by apply substr_start. rewrite bind_Ok.
  assert (substr line (size method + 1) (match find ch_space line (size method + 1) with None => None | Some sp2 => Some (sp2 - size method - 1) end)
    = Ok target) as ->; [|by rewrite bind_Ok].
  rewrite Hsz, Hline. destruct Htail as [->|[rest ->]].
  - rewrite app_nil_r, find_from_free by done. apply substr_end.
  - rewrite find_from_first by done. rewrite <- Hsz at 2.
    replace (size method + 1 + size target - size method - 1) with (size target) by lia. apply substr_mid.
Qed.

Lemma parse_request_returns line : returns (parse_request_line line).
Proof.
  destruct (split_first ch_space line) as [H|(method & rest & -> & Hm)].
  { unfold parse_request_line. rewrite find_free by done. apply returns_Ok. }
  assert (exists target tail, rest = target ++ tail /\ free ch_space target /\ (tail = [] \/ exists r, tail = ch_space :: r)) as (target & tail & -> & Ht & Hl).
  { destruct (split_first ch_space rest) as [H|(a & b & -> & Ha)]; [exists rest, []; rewrite app_nil_r; auto|].
    exists a, (ch_space :: b). eauto. }
  rewrite parse_target by done. destruct (split_first ch_query target) as [H|(p & q & -> & Hp)].
  - rewrite find_free, bind_Ok by done. apply returns_Ok.
  - rewrite find_first, substr_start, substr_after, !bind_Ok by done. apply returns_Ok.
Qed.

(** Request lines are taken apart as HTTP writes them.  For a method, a path and an
    optional query without spaces (and no question mark in the path), the line
    "method target version" parses to exactly these parts, and is valid iff the
    method is not empty and the path starts with a slash; the version may be
    missing. *)
Theorem request_line_roundtrip method path query (has_query : bool) tail :
  free ch_space method -> free ch_space path -> free ch_query path -> free ch_space query -> (has_query = false -> query = []) ->
  (tail = [] \/ exists version, tail = ch_space :: version) ->
  parse_request_line (method ++ ch_space :: target_text path query has_query ++ tail) =
    Ok (mkRequest method path query (negb (bool_decide (method = [])) && bool_decide (take 1 path = [ch_slash]))).
Proof.
  intros Hm Hp Hq Hs Hno Htail. rewrite parse_target; [|done| |done].
  2: { unfold target_text. destruct has_query; [|done]. apply Forall_app_2; [done|]. by constructor. }
  assert (forall valid, negb (bool_decide (method = [])) && negb (bool_decide (path = [])) &&
    match path with c :: _ => bool_decide (c = ch_slash) | [] => false end = valid ->
    negb (bool_decide (method = [])) && bool_decide (take 1 path = [ch_slash]) = valid) as Hv.
  { intros valid <-. destruct path as [|c path]; [by rewrite !andb_false_r|]. cbn [take].
    rewrite (bool_decide_false (c :: path = [])), andb_true_r by done. f_equal. apply bool_decide_ext. split; [by intros [=]|by intros ->]. }
  unfold target_text. destruct has_query.
  - rewrite find_first, substr_start, substr_after, !bind_Ok by done. by rewrite (Hv _ eq_refl).
  - rewrite find_free, bind_Ok, (Hno eq_refl) by done. by rewrite (Hv _ eq_refl).
Qed.

Lemma request_line_roundtrip_witness :
  parse_request_line (txt "GET /flows?limit=5 HTTP/1.1") = Ok (mkRequest (txt "GET") (txt "/flows") (txt "limit=5") true).
Proof.
  apply (request_line_roundtrip (txt "GET") (txt "/flows") (txt "limit=5") true (txt " HTTP/1.1")).
  - by apply (bool_decide_unpack _); vm_compute.
  - by apply (bool_decide_unpack _); vm_compute.
  - by apply (bool_decide_unpack _); vm_compute.
  - by apply (bool_decide_unpack _); vm_compute.
  - done.
  - right. exists (txt "HTTP/1.1"). reflexivity.
Defined.

(** ** Query parameters *)

(** Reference: the first pair that starts with [key=]. *)
Definition key_value (key kv : Bytes) : option Bytes :=
  if bool_decide (take (length key + 1) kv = key ++ [ch_equals]) then Some (drop (length key + 1) kv) else None.
Fixpoint query_ref (pairs : list Bytes) (key : Bytes) (fallback : Z) : Z :=
  match pairs with
  | [] => fallback
  | kv :: pairs => match key_value key kv with Some v => param_value v fallback | None => query_ref pairs key fallback end
  end.

Lemma key_value_hit key v : key_value key (key ++ ch_equals :: v) = Some v.
Proof.
  unfold key_value. rewrite cons_middle, app_assoc. replace (length key + 1)%nat with (length (key ++ [ch_equals])) by (by rewrite length_app).
  by rewrite take_app_length, drop_app_length, bool_decide_true.
Qed.

Lemma key_value_inv key kv v : key_value key kv = Some v -> kv = key ++ ch_equals :: v.
Proof.
  unfold key_value. case_bool_decide as H; [|done]. intros [= <-]. rewrite <- (take_drop (length key + 1) kv) at 1.
  rewrite H, <- app_assoc. done.
Qed.

Lemma free_app_inj c a b a' b' : free c a -> free c a' -> a ++ c :: b = a' ++ c :: b' -> a = a' /\ b = b'.
Proof.
  intros Ha. revert a'. induction Ha as [|x a Hx _ IH]; intros a' Ha' E.
  - destruct Ha' as [|x' a' Hx' _]; [by injection E as ->|]. injection E as -> _. done.
  - destruct Ha' as [|x' a' Hx' Ha']; injection E as -> E; [done|]. by destruct (IH a' Ha' E) as [-> ->].
Qed.

(** One pair. *)
Lemma pair_hit key kv fallback : free ch_equals key ->
  match find ch_equals kv 0 with
  | None => Ok None
  | Some eq =>
      let* k := substr kv 0 (Some eq) in
      if bool_decide (k = key) then let* value := substr kv (eq + 1) None in Ok (Some (param_value value fallback)) else Ok None
  end = Ok ((fun v => param_value v fallback) <$> key_value key kv).
Proof.
  intros Hkey. destruct (split_first ch_equals kv) as [H|(k & v & -> & Hk)].
  - rewrite find_free by done. destruct (key_value key kv) as [v|] eqn:E; [|done]. apply key_value_inv in E. subst kv.
    unfold free in H. rewrite Forall_app in H. destruct H as [_ H%Forall_cons_iff]. by destruct H.
  - rewrite find_first, substr_start, substr_after by done. rewrite !bind_Ok. case_bool_decide as Hkk.
    + subst k. by rewrite key_value_hit.
    + destruct (key_value key (k ++ ch_equals :: v)) as [w|] eqn:E; [|done]. apply key_value_inv in E.
      by destruct (free_app_inj _ _ _ _ _ Hk Hkey E).
Qed.

Lemma query_loop_spec key fallback : free ch_equals key -> forall fuel pre q, (length q < fuel)%nat ->
  query_loop fuel (pre ++ q) key fallback (size pre) = Ok (query_ref (getlines ch_amp q) key fallback).
Proof.
  intros Hkey. induction fuel as [|fuel IH]; intros pre q Hf; [lia|]. cbn [query_loop]. rewrite size_app.
  destruct (Z.ltb_spec (size pre) (size pre + size q)) as [Hlt|Hge].
  2: { destruct q; [done|]. rewrite size_cons in Hge. pose proof (size_nonneg q). lia. }
  destruct (split_first ch_amp q) as [H|(kv & rest & -> & Hkv)].
  - rewrite find_from_free, substr_end, bind_Ok, (pair_hit key q fallback Hkey), bind_Ok by done.
    rewrite getlines_last by done. destruct q as [|c q]; [rewrite size_nil in Hlt; lia|]. cbn [query_ref].
    by destruct (key_value key (c :: q)).
  - rewrite find_from_first by done. replace (size pre + size kv - size pre) with (size kv) by lia.
    rewrite substr_mid, bind_Ok, (pair_hit key kv fallback Hkey), bind_Ok. rewrite getlines_cons by done. cbn [query_ref].
    destruct (key_value key kv) as [v|]; cbn; [done|].
    replace (pre ++ kv ++ ch_amp :: rest) with ((pre ++ kv ++ [ch_amp]) ++ rest) by (by rewrite <- !app_assoc).
    replace (size pre + size kv + 1) with (size (pre ++ kv ++ [ch_amp])) by (rewrite !size_app; change (size [ch_amp]) with 1; lia).
    apply IH. rewrite length_app in Hf. cbn in Hf. lia.
Qed.

(** Query parameters are looked up as documented.  For every query string and every
    key without an equals sign, the position-juggling scan of [query_param]
    terminates without leaving the string, and returns what the list of
    "&"-separated pairs gives: the value of the first pair that starts with
    "key=", if it is a non-empty run of digits, and the fallback otherwise. *)
Theorem query_param_reference query key fallback : free ch_equals key ->
  query_param query key fallback = Ok (query_ref (getlines ch_amp query) key fallback).
Proof. intros Hkey. apply (query_loop_spec key fallback Hkey (S (length query)) [] query). lia. Qed.

Lemma query_param_reference_witness : query_param (txt "a=1&limit=25&limit=9") (txt "limit") 20 = Ok 25.
Proof. rewrite query_param_reference; [reflexivity|]. by apply (bool_decide_unpack _); vm_compute. Defined.

Lemma parse_decimal_range s : forall v r, 0 <= v < 2 ^ 64 -> parse_decimal s v = Some r -> 0 <= r < 2 ^ 64.
Proof.
  induction s as [|c s IH]; intros v r Hv H; cbn in H; [by injection H as <-|]. destruct (_ || _); [done|].
  eapply IH; [|exact H]. apply u64_range.
Qed.

Lemma query_param_range query key fallback : free ch_equals key -> 0 <= fallback < 2 ^ 64 ->
  ensures (query_param query key fallback) (fun v => 0 <= v < 2 ^ 64).
Proof.
  intros Hkey Hf. unfold query_param. pose proof (query_loop_spec key fallback Hkey (S (length query)) [] query ltac:(lia)) as E.
  cbn [app] in E. change (size []) with 0 in E. rewrite E. clear E. apply ensures_Ok.
  induction (getlines ch_amp query) as [|kv l IH]; cbn; [done|]. destruct (key_value key kv) as [v|]; [|done].
  unfold param_value. destruct v as [|c v]; [done|]. destruct (parse_decimal (c :: v) 0) as [r|] eqn:E; [|done].
  by apply (parse_decimal_range (c :: v) 0).
Qed.

(** ** Answers *)

Definition view_typed (v : RuntimeView) : Prop := match rv_detail v with Some d => detail_typed d | None => True end.

Definition known_status (n : Z) : Prop := n = 200 \/ n = 400 \/ n = 404 \/ n = 405 \/ n = 503.

(** A JSON document followed by a line feed. *)
Definition json_line (b : Bytes) : Prop := exists j, json_parse (take (length b - 1) b) = Some j /\ drop (length b - 1) b = [ch_nl].

Lemma json_line_intro j : json_ok j = true -> json_line (json_text j ++ [ch_nl]).
Proof.
  intros H. exists j. rewrite length_app. cbn [length]. replace (length (json_text j) + 1 - 1)%nat with (length (json_text j)) by lia.
  rewrite take_app_length, drop_app_length. split; [by apply json_parse_text|done].
Qed.

(** The guarantee for an answer: a status of the table, one of the two content
    types, and JSON where JSON is announced (the statistics apart). *)
Definition answer_ok (req : HttpRequest) (r : HttpResponse) : Prop :=
  known_status (rs_status r) /\ (rs_content_type r = text_plain \/ rs_content_type r = application_json) /\
  (rs_content_type r = application_json -> rq_path req <> txt "/stats" -> json_line (rs_body r)).

Lemma text_answer req status body : known_status status -> answer_ok req (mkResponse status text_plain body).
Proof. intros H. split_and!; [done|by left|]. cbn. intros E. exfalso. revert E. vm_compute. done. Qed.

Lemma json_answer req status body : known_status status -> (rq_path req <> txt "/stats" -> json_line body) ->
  answer_ok req (json_response status body).
Proof. intros H Hj. split_and!; [done|by right|]. cbn. auto. Qed.

Lemma error_line msg j : json_ok j = true -> txt msg = json_text j ++ [ch_nl] -> json_line (txt msg).
Proof. intros Hj ->. by apply json_line_intro. Qed.

Definition error_json (msg : String.string) : json := JObj [(txt "error", JStr (txt msg))].

Section Route.
Context {HE : HostEndian}.

Lemma route_subscribers_spec v req : view_typed v ->
  rq_path req = txt "/subscribers" \/ take (length subscribers_prefix) (rq_path req) = subscribers_prefix ->
  ensures (route_subscribers v req) (answer_ok req).
Proof.
  intros Hv Hpath. unfold route_subscribers. cbn zeta. set (single := negb (bool_decide (rq_path req = txt "/subscribers"))).
  assert (ensures (if single then let* s := substr (rq_path req) (size subscribers_prefix) None in Ok (path_imsi s) else Ok (Some 0))
    (fun _ => True)) as (imsi & -> & _).
  { destruct single eqn:E; [|by apply ensures_Ok]. destruct Hpath as [Hp|Hp]; [unfold single in E; rewrite Hp, bool_decide_true in E by done; done|].
    rewrite <- (take_drop (length subscribers_prefix) (rq_path req)), Hp. rewrite substr_end, bind_Ok. by apply ensures_Ok. }
  rewrite bind_Ok. destruct imsi as [imsi|].
  2: { apply ensures_Ok, json_answer; [by unfold known_status; auto|]. intros _. by apply (error_line _ (error_json "imsi must be numeric")). }
  unfold view_typed in Hv. destruct (rv_detail v) as [d|].
  2: { apply ensures_Ok, json_answer; [by unfold known_status; auto 6|]. intros _. by apply (error_line _ (error_json "no snapshot published yet")). }
  pose proof Hv as (Hrows & Hfs & Hs & Hf & Ht). destruct (negb single).
  - eapply ensures_bind; [apply query_param_range; [by apply (bool_decide_unpack _); vm_compute|lia]|]. intros limit [Hl _].
    rewrite render_subscribers_text, bind_Ok by (done || lia). apply ensures_Ok, json_answer; [by left|]. intros _.
    apply json_line_intro, subscribers_json_ok; (done || lia).
  - unfold render_subscriber_json. destruct (find_subscriber imsi (subscribers d)) as [row|] eqn:E; rewrite ?bind_Ok.
    + assert (row_typed row) as Hrow.
      { revert E. clear -Hrows. induction Hrows as [|r rows Hr _ IH]; cbn; [done|]. destruct (negb _); [done|by intros [= <-]]. }
      rewrite append_subscriber_text, bind_Ok by apply Hrow. cbn [app].
      pose proof (json_put_head (subscriber_json row) [] (row_typed_ok row Hrow)) as (c & s & Htext & _).
      unfold json_text. rewrite Htext. apply ensures_Ok, json_answer; [by left|]. intros _. rewrite <- Htext.
      apply json_line_intro. by apply row_typed_ok.
    + apply ensures_Ok, json_answer; [by unfold known_status; auto|]. intros _.
      by apply (error_line _ (error_json "no such subscriber in the current snapshot")).
Qed.

Lemma route_spec v req : view_typed v -> ensures (route v req) (answer_ok req).
Proof.
  intros Hv. unfold route. destruct (negb (rq_valid req)); [apply ensures_Ok, text_answer; unfold known_status; auto|].
  destruct (_ && _); [apply ensures_Ok, text_answer; unfold known_status; auto|].
  case_bool_decide; [apply ensures_Ok, text_answer; by left|].
  case_bool_decide.
  { eapply ensures_bind; [apply (query_param_range (rq_query req) (txt "subscribers") 0); [by apply (bool_decide_unpack _); vm_compute|lia]|].
    intros series _. apply ensures_Ok, text_answer. by left. }
  case_bool_decide as Hst; [apply ensures_Ok, json_answer; [by left|by intros []]|].
  case_bool_decide.
  { unfold view_typed in Hv. destruct (rv_detail v) as [d|].
    - destruct Hv as (Hrows & Hfs & Hs & Hf & Ht).
      eapply ensures_bind; [apply query_param_range; [by apply (bool_decide_unpack _); vm_compute|lia]|]. intros limit [Hl _].
      rewrite render_flows_text, bind_Ok by lia. apply ensures_Ok, json_answer; [by left|]. intros _.
      apply json_line_intro, flows_json_ok; (done || lia).
    - apply ensures_Ok, json_answer; [by unfold known_status; auto 6|]. intros _. by apply (error_line _ (error_json "no snapshot published yet")). }
  destruct (bool_decide (rq_path req = txt "/subscribers") || _) eqn:E; [|apply ensures_Ok, text_answer; unfold known_status; auto].
  apply route_subscribers_spec; [done|]. by apply orb_true_iff in E as [Hp%bool_decide_eq_true|Hp%bool_decide_eq_true]; [left|right].
Qed.

(** ** A connection *)

(** The response as HTTP writes it. *)
Definition response_text (r : HttpResponse) (head_only : bool) : Bytes :=
  concat [txt "HTTP/1.1 "; show_u64 (rs_status r); txt " "; txt (status_text (rs_status r)); crlf;
          txt "Content-Type: "; rs_content_type r; crlf; txt "Content-Length: "; show_u64 (size (rs_body r)); crlf;
          txt "Connection: close"; crlf; crlf; if head_only then [] else rs_body r].

Lemma status_text_length n : (length (txt (status_text n)) <= 19)%nat.
Proof. unfold status_text. repeat case_match; vm_compute; lia. Qed.

Lemma response_head_text r : rs_content_type r = text_plain \/ rs_content_type r = application_json ->
  response_head r = Ok (response_text r true).
Proof.
  intros Hc. unfold response_head. pose proof (status_text_length (rs_status r)) as Hs.
  assert (length (rs_content_type r) <= 40)%nat as Hl by (destruct Hc as [-> | ->]; vm_compute; lia).
  set (st := txt (status_text (rs_status r))) in *. set (ct := rs_content_type r) in *.
  rewrite snprintf_append_Ok by (run_format; text_length; lia). unfold response_text, crlf. fold st ct. cbn [concat].
  run_format. repeat (cbn [app]; rewrite <- ?app_assoc). by rewrite ?app_nil_r.
Qed.

(** The request line: everything before the first CR LF. *)
Fixpoint first_line (s : Bytes) : Bytes :=
  match s with
  | [] => []
  | c :: s' => if bool_decide (take 2 s = crlf) then [] else c :: first_line s'
  end.

Lemma find_crlf s : forall i, match find_text crlf s i with
  | Some eol => i <= eol <= i + size s /\ take (Z.to_nat (eol - i)) s = first_line s
  | None => first_line s = s
  end.
Proof.
  induction s as [|c s IH]; intros i; cbn [find_text first_line]; change (length crlf) with 2%nat; [by rewrite bool_decide_false by done|].
  case_bool_decide; [rewrite size_cons; pose proof (size_nonneg s); rewrite Z.sub_diag; split; [lia|done]|].
  specialize (IH (i + 1)). destruct (find_text crlf s (i + 1)) as [eol|]; [|by rewrite IH].
  destruct IH as [Hr <-]. rewrite size_cons. split; [lia|]. replace (Z.to_nat (eol - i)) with (S (Z.to_nat (eol - (i + 1)))) by lia. done.
Qed.

Lemma respond_spec v request : view_typed v -> ensures (respond v request) (fun out => exists req r,
  parse_request_line (first_line request) = Ok req /\ answer_ok req r /\ route v req = Ok r /\
  out = response_text r (bool_decide (rq_method req = txt "HEAD"))).
Proof.
  intros Hv. unfold respond. pose proof (find_crlf request 0) as Hfind.
  assert ((match find_text crlf request 0 with None => Ok request | Some eol => substr request 0 (Some eol) end) = Ok (first_line request)) as ->.
  { destruct (find_text crlf request 0) as [eol|]; [|by rewrite Hfind]. destruct Hfind as [Hr <-]. unfold substr.
    pose proof (size_nonneg request). destruct (Z.leb_spec 0 (size request)); [|lia]. cbn [drop]. by rewrite Z.sub_0_r. }
  rewrite bind_Ok. destruct (parse_request_returns (first_line request)) as [req Hreq]. rewrite Hreq, bind_Ok.
  destruct (route_spec v req Hv) as (r & Hr & Ha). rewrite Hr, bind_Ok, response_head_text, bind_Ok by apply Ha.
  apply ensures_Ok. exists req, r. split_and!; try apply Ha; try done.
  unfold response_text. cbn [concat]. rewrite <- !app_assoc. destruct (bool_decide _); [by rewrite ?app_nil_r|]. by rewrite ?app_nil_r.
Qed.

Lemma read_head_bound n : forall recvs request, size (read_head n recvs request) <= size request + 2048 * Z.of_nat n.
Proof.
  induction n as [|n IH]; intros recvs request; cbn [read_head]; [lia|]. destruct recvs as [|chunk recvs]; [lia|].
  destruct chunk as [|c chunk]; [lia|]. set (piece := take 2048 (c :: chunk)).
  assert (size piece <= 2048) by (unfold size, piece; rewrite length_take; lia).
  destruct (_ || _); [rewrite size_app; lia|]. etransitivity; [apply IH|]. rewrite size_app. lia.
Qed.

(** C19: The HTTP endpoint answers anything.  Whatever bytes a client sends, in whatever
    chunks, at most 8192 of them are read, and the connection is answered without
    a fault with the well-formed response to its first line: a known status, its Content-Length the
    length of the body, the body withheld exactly for HEAD, and every body that is
    announced as JSON is one JSON document and a line feed ([/stats] apart, see
    [stats_json_iff_fits]). *)
Theorem http_answers_anything v recvs : view_typed v ->
  size (read_head 4 recvs []) <= 8192 /\
  ensures (serve_one v recvs) (fun out => exists req r, parse_request_line (first_line (read_head 4 recvs [])) = Ok req /\ route v req = Ok r /\
    known_status (rs_status r) /\ out = response_text r (bool_decide (rq_method req = txt "HEAD")) /\
    (rs_content_type r = application_json -> rq_path req <> txt "/stats" -> json_line (rs_body r))).
Proof.
  intros Hv. split; [pose proof (read_head_bound 4 recvs []); rewrite size_nil in *; lia|].
  eapply ensures_mono; [by apply respond_spec|]. intros out (req & r & Hp & (Hk & _ & Hj) & Hr & Hout).
  exists req, r. split_and!; (done || auto).
Qed.
End Route.

Definition sample_view : RuntimeView := mkView (sample_snapshot 1000) sample_ratios true (Some sample_detail).

Lemma http_answers_anything_witness :
  ensures (@serve_one little sample_view [txt "GET /subscri"; txt "bers?limit=1 HTTP/1.1^~^~"]) (fun out =>
    take 15 out = txt "HTTP/1.1 200 OK").
Proof.
  assert (view_typed sample_view) as Hv.
  { split_and!; try done; (constructor; [|constructor]); unfold row_typed, flow_typed, sample_row, kUnsetBucket, kQfiBucketTag; cbn;
      split_and!; try lia; repeat constructor; lia. }
  destruct (@http_answers_anything little sample_view [txt "GET /subscri"; txt "bers?limit=1 HTTP/1.1^~^~"] Hv) as [_ (out & Hout & _)].
  exists out. split; [exact Hout|]. vm_compute in Hout. injection Hout as <-. reflexivity.
Defined.
