(* ===== verification/PrometheusProps.v ===== *)
(** * The metrics text: every counter under its name

    A scraper's view of [render_prometheus]: the text is a list of lines, and a
    metric's value is what follows its name on the first line that starts with
    it. *)

From Stdlib Require Strings.String.
From S2P Require Import Prelude ByteOrder SpscRing MeterEvent UsageRecord Session SessionCsv Meter Pipeline Histogram Snapshot TopN DetailScan Runtime.
From S2P Require Import Double Text Clock Json RecordJson Report ReportProps Http HttpProps.

Definition lines_text (ls : list Bytes) : Bytes := concat (map (fun l => l ++ [ch_nl]) ls).

Lemma lines_text_app l1 l2 : lines_text (l1 ++ l2) = lines_text l1 ++ lines_text l2.
Proof. unfold lines_text. by rewrite map_app, concat_app. Qed.

Lemma getlines_lines ls rest : Forall (Forall (fun c => c <> ch_nl)) ls -> getlines ch_nl (lines_text ls ++ rest) = ls ++ getlines ch_nl rest.
Proof.
  induction 1 as [|l ls Hl _ IH]; [done|]. unfold lines_text in *. cbn [map concat app]. rewrite <- !app_assoc. cbn [app].
  by rewrite getlines_cons, IH.
Qed.

Definition counter_lines (name help : String.string) (v : Z) : list Bytes :=
  [txt "# HELP " ++ txt name ++ ch_space :: txt help; txt "# TYPE " ++ txt name ++ txt " counter"; txt name ++ ch_space :: show_u64 v].

Lemma counter_text out name help v : (3 * length (txt name) + length (txt help) < 900)%nat ->
  counter out name help v = out ++ lines_text (counter_lines name help v).
Proof.
  intros H. unfold counter. set (n := txt name) in *. set (h := txt help) in *. rewrite append_short by (run_format; text_length; lia).
  f_equal. unfold lines_text, counter_lines. fold n. fold h. run_format. cbn [map concat]. repeat (cbn [app]; rewrite <- ?app_assoc). reflexivity.
Qed.

Lemma append_prefix a out text : a `prefix_of` out -> a `prefix_of` append out text.
Proof. intros [m ->]. unfold append. destruct (0 <? size text); [|by exists m]. eexists. by rewrite <- app_assoc. Qed.

Lemma series_prefix a rows : forall out, a `prefix_of` out -> a `prefix_of` series_rows out rows.
Proof. induction rows as [|r rows IH]; intros out H; [done|]. apply IH. by apply append_prefix. Qed.

(** What follows the counters does not change them. *)
Lemma prometheus_prefix s x detail n :
  render_meter_counters (sn_meter s) (sn_records_written s) (render_ingest_counters (sn_ingest s) []) `prefix_of`
  render_prometheus s x detail n.
Proof.
  unfold render_prometheus. generalize (render_meter_counters (sn_meter s) (sn_records_written s) (render_ingest_counters (sn_ingest s) [])).
  intros out. assert (out `prefix_of` render_latency (sn_latency s) (render_gauges s x out)) as H.
  { unfold render_latency, render_gauges, gauge. repeat apply append_prefix. done. }
  destruct detail as [d|]; [|done]. destruct (0 <? n); [|done]. cbn zeta. by apply series_prefix, append_prefix.
Qed.

(** ** The counters *)

Definition ingest_table (i : IngestStats) : list (String.string * String.string * Z) :=
  [("gtpm_ingest_frames_total", "Frames handed to the ingest path", in_frames i);
   ("gtpm_ingest_frame_bytes_total", "Bytes handed to the ingest path", in_frames_bytes i);
   ("gtpm_ingest_gpdus_total", "GTP-U G-PDUs parsed", in_gtpu_gpdus i);
   ("gtpm_ingest_gtpu_control_total", "GTP-U control PDUs (echo, end marker)", in_gtpu_control i);
   ("gtpm_ingest_parse_errors_total", "GTP-U PDUs rejected by the parser", in_gtpu_parse_errors i);
   ("gtpm_ingest_inner_parse_errors_total", "Tunnelled payloads that were not IP", in_inner_parse_errors i);
   ("gtpm_ingest_not_our_traffic_total", "Frames that were neither GTP-U nor Diameter", add64 (in_not_gtpu_port i) (in_non_ip i));
   ("gtpm_ingest_events_pushed_total", "Meter events published to the ring", in_events_pushed i);
   ("gtpm_ingest_events_dropped_total", "Meter events dropped because the metering ring was full", in_events_dropped i);
   ("gtpm_diameter_messages_total", "Diameter messages parsed", in_diameter_messages i);
   ("gtpm_diameter_parse_errors_total", "Diameter messages rejected", in_diameter_parse_errors i)].
Definition event_table (m : PipelineStats) : list (String.string * String.string * Z) :=
  [("gtpm_meter_events_total", "Events applied by the metering thread", st_events m); ("gtpm_meter_bytes_total", "Bytes metered", st_bytes m)].
Definition meter_table (m : PipelineStats) (written : Z) : list (String.string * String.string * Z) :=
  [("gtpm_teid_bind_failures_total", "Sessions that could not be bound because the TEID table is full", st_teid_bind_failures m);
   ("gtpm_meter_unknown_teid_events_total", "Packets on a TEID with no installed session", st_unknown_teid_events m);
   ("gtpm_meter_unknown_teid_bytes_total", "Bytes on a TEID with no installed session", st_unknown_teid_bytes m);
   ("gtpm_meter_flow_inserts_total", "Flow table insertions", st_flow_inserts m);
   ("gtpm_meter_flow_evictions_total", "Flow table LRU evictions", st_flow_evictions m);
   ("gtpm_usage_records_emitted_total", "Usage records emitted by the meter", st_records_emitted m);
   ("gtpm_usage_records_dropped_total", "Usage records dropped because the reporter was behind", st_records_dropped m);
   ("gtpm_usage_records_written_total", "Usage records written to disk", written);
   ("gtpm_gy_events_total", "Gy charging events applied", st_gy_events m);
   ("gtpm_gy_reported_octets_total", "Octets reported by the charging plane", st_gy_reported_octets m)].

Definition table_lines (t : list (String.string * String.string * Z)) : list Bytes :=
  concat (map (fun '(name, help, v) => counter_lines name help v) t).
Definition direction_lines (what : String.string) (name : String.string) (ul dl : Z) : list Bytes :=
  [txt "# HELP " ++ txt name ++ ch_space :: txt what; txt "# TYPE " ++ txt name ++ txt " counter";
   txt name ++ txt "{direction=`uplink`} " ++ show_u64 ul; txt name ++ txt "{direction=`downlink`} " ++ show_u64 dl].

Definition counters_lines (s : PipelineSnapshot) : list Bytes :=
  let m := sn_meter s in
  table_lines (ingest_table (sn_ingest s)) ++ table_lines (event_table m) ++
  direction_lines "Metered bytes by direction" "gtpm_meter_direction_bytes_total" (st_ul_bytes m) (st_dl_bytes m) ++
  direction_lines "Metered packets by direction" "gtpm_meter_direction_packets_total" (st_ul_packets m) (st_dl_packets m) ++
  table_lines (meter_table m (sn_records_written s)).

Lemma ingest_counters_text i out : render_ingest_counters i out = out ++ lines_text (table_lines (ingest_table i)).
Proof.
  unfold render_ingest_counters. cbn zeta. rewrite !counter_text by (apply Nat.ltb_lt; reflexivity).
  rewrite <- !app_assoc, <- !lines_text_app. reflexivity.
Qed.

(** The two families with a label. *)
Lemma direction_bytes_text out ul dl : append out (sprintf
    "# HELP gtpm_meter_direction_bytes_total Metered bytes by direction~# TYPE gtpm_meter_direction_bytes_total counter~gtpm_meter_direction_bytes_total{direction=`uplink`} %llu~gtpm_meter_direction_bytes_total{direction=`downlink`} %llu~"
    [AInt ul; AInt dl]) = out ++ lines_text (direction_lines "Metered bytes by direction" "gtpm_meter_direction_bytes_total" ul dl).
Proof.
  rewrite append_short by (run_format; text_length; lia). f_equal. unfold lines_text, direction_lines. run_format. cbn [map concat].
  repeat (cbn [app]; rewrite <- ?app_assoc). reflexivity.
Qed.
Lemma direction_packets_text out ul dl : append out (sprintf
    "# HELP gtpm_meter_direction_packets_total Metered packets by direction~# TYPE gtpm_meter_direction_packets_total counter~gtpm_meter_direction_packets_total{direction=`uplink`} %llu~gtpm_meter_direction_packets_total{direction=`downlink`} %llu~"
    [AInt ul; AInt dl]) = out ++ lines_text (direction_lines "Metered packets by direction" "gtpm_meter_direction_packets_total" ul dl).
Proof.
  rewrite append_short by (run_format; text_length; lia). f_equal. unfold lines_text, direction_lines. run_format. cbn [map concat].
  repeat (cbn [app]; rewrite <- ?app_assoc). reflexivity.
Qed.

Lemma meter_counters_text m written out : render_meter_counters m written out = out ++ lines_text (table_lines (event_table m) ++
  direction_lines "Metered bytes by direction" "gtpm_meter_direction_bytes_total" (st_ul_bytes m) (st_dl_bytes m) ++
  direction_lines "Metered packets by direction" "gtpm_meter_direction_packets_total" (st_ul_packets m) (st_dl_packets m) ++
  table_lines (meter_table m written)).
Proof.
  unfold render_meter_counters. cbn zeta. rewrite !counter_text by (apply Nat.ltb_lt; reflexivity).
  rewrite direction_bytes_text, direction_packets_text.
  rewrite <- !app_assoc, <- !lines_text_app. reflexivity.
Qed.

Lemma counters_text s : render_meter_counters (sn_meter s) (sn_records_written s) (render_ingest_counters (sn_ingest s) []) =
  lines_text (counters_lines s).
Proof. rewrite meter_counters_text, ingest_counters_text. cbn [app]. by rewrite <- lines_text_app. Qed.

(** ** What a scraper reads *)

(** The value of the first line that starts with the metric's name and a space. *)
Fixpoint line_value (name : Bytes) (lines : list Bytes) : option Bytes :=
  match lines with
  | [] => None
  | l :: lines => if bool_decide (take (S (length name)) l = name ++ [ch_space]) then Some (drop (S (length name)) l) else line_value name lines
  end.
Definition metric (name : String.string) (text : Bytes) : option Z := line_value (txt name) (getlines ch_nl text) ≫= parse_u64.

(** A line is a comment or a sample. *)
Inductive item := Note (l : Bytes) | Sample (name : String.string) (v : Z).
Definition item_line (it : item) : Bytes :=
  match it with Note l => l | Sample name v => txt name ++ ch_space :: show_u64 v end.

Definition counter_items (name help : String.string) (v : Z) : list item :=
  [Note (txt "# HELP " ++ txt name ++ ch_space :: txt help); Note (txt "# TYPE " ++ txt name ++ txt " counter"); Sample name v].
Definition table_items (t : list (String.string * String.string * Z)) : list item :=
  concat (map (fun '(name, help, v) => counter_items name help v) t).
Definition direction_items (what name uplink downlink : String.string) (ul dl : Z) : list item :=
  [Note (txt "# HELP " ++ txt name ++ ch_space :: txt what); Note (txt "# TYPE " ++ txt name ++ txt " counter"); Sample uplink ul; Sample downlink dl].
Definition counters_items (s : PipelineSnapshot) : list item :=
  let m := sn_meter s in
  table_items (ingest_table (sn_ingest s)) ++ table_items (event_table m) ++
  direction_items "Metered bytes by direction" "gtpm_meter_direction_bytes_total" "gtpm_meter_direction_bytes_total{direction=`uplink`}"
    "gtpm_meter_direction_bytes_total{direction=`downlink`}" (st_ul_bytes m) (st_dl_bytes m) ++
  direction_items "Metered packets by direction" "gtpm_meter_direction_packets_total" "gtpm_meter_direction_packets_total{direction=`uplink`}"
    "gtpm_meter_direction_packets_total{direction=`downlink`}" (st_ul_packets m) (st_dl_packets m) ++
  table_items (meter_table m (sn_records_written s)).

Lemma counters_lines_items s : counters_lines s = map item_line (counters_items s).
Proof.
  assert (forall t, table_lines t = map item_line (table_items t)) as Ht.
  { induction t as [|[[n h] v] t IH]; [done|]. unfold table_lines, table_items in *. cbn [map concat]. rewrite map_app, <- IH. reflexivity. }
  unfold counters_lines, counters_items. rewrite !map_app, !Ht. reflexivity.
Qed.

(** The counters by metric name. *)
Definition metrics (s : PipelineSnapshot) : list (String.string * Z) :=
  omap (fun it => match it with Sample name v => Some (name, v) | Note _ => None end) (counters_items s).

(** The part of an item that does not depend on a value. *)
Definition item_head (it : item) : bool * Bytes := match it with Note l => (false, l) | Sample name _ => (true, txt name) end.
Definition head_well (h : bool * Bytes) : bool :=
  if h.1 then bool_decide (free ch_space h.2) && bool_decide (free ch_nl h.2) && negb (bool_decide (take 1 h.2 = [ch_hash]))
  else bool_decide (take 1 h.2 = [ch_hash]) && bool_decide (free ch_nl h.2).
Definition sample_heads (hs : list (bool * Bytes)) : list Bytes := omap (fun h => if h.1 : bool then Some h.2 else None) hs.

Lemma line_value_app name l1 l2 v : line_value name l1 = Some v -> line_value name (l1 ++ l2) = Some v.
Proof. induction l1 as [|l l1 IH]; cbn; [done|]. case_bool_decide; [done|exact IH]. Qed.

Lemma item_line_hit name it : free ch_space (txt name) -> take 1 (txt name) <> [ch_hash] -> head_well (item_head it) = true ->
  bool_decide (take (S (length (txt name))) (item_line it) = txt name ++ [ch_space]) =
  match it with Note _ => false | Sample n _ => bool_decide (txt n = txt name) end.
Proof.
  intros Hf Hh Hw. set (nm := txt name) in *. destruct it as [l|n v]; cbn in Hw.
  - apply bool_decide_eq_false. intros E. apply andb_true_iff in Hw as [H%bool_decide_eq_true _].
    destruct l as [|c l]; [done|]. destruct nm as [|x nm]; cbn in E, H, Hh; rewrite ?take_0 in *.
    + assert (c = ch_space) by congruence. assert (c = ch_hash) by congruence. subst c. done.
    + assert (c = x) by congruence. apply Hh. congruence.
  - apply andb_true_iff in Hw as [[Hn%bool_decide_eq_true _]%andb_true_iff _]. cbn [item_line]. apply bool_decide_ext. split.
    + intros E. pose proof (take_drop (S (length nm)) (txt n ++ ch_space :: show_u64 v)) as Heq. rewrite E, <- app_assoc in Heq.
      by destruct (free_app_inj _ _ _ _ _ Hf Hn Heq).
    + intros ->. rewrite cons_middle, app_assoc. replace (S (length nm)) with (length (nm ++ [ch_space])) by (rewrite length_app; cbn; lia).
      apply take_app_length.
Qed.

Lemma lookup_sample its name v : forallb head_well (map item_head its) = true -> NoDup (sample_heads (map item_head its)) ->
  Sample name v ∈ its -> line_value (txt name) (map item_line its) = Some (show_u64 v).
Proof.
  intros Hw Hnd Hin. assert (head_well (true, txt name) = true) as Hwn.
  { rewrite forallb_forall in Hw. apply Hw. apply in_map_iff. exists (Sample name v). split; [done|]. by apply list_elem_of_In. }
  cbn in Hwn. apply andb_true_iff in Hwn as [[Hf%bool_decide_eq_true _]%andb_true_iff Hh%negb_true_iff%bool_decide_eq_false].
  revert Hw Hnd Hin. induction its as [|it its IH]; intros Hw Hnd Hin; [by apply not_elem_of_nil in Hin|].
  cbn [map forallb] in Hw. apply andb_true_iff in Hw as [Hit Hw]. cbn [map line_value]. rewrite item_line_hit by done.
  apply elem_of_cons in Hin. destruct it as [l|n w]; cbn [map item_head sample_heads omap list_omap fst snd] in Hnd.
  - destruct Hin as [?|Hin]; [done|]. by apply IH.
  - apply list.NoDup_cons in Hnd as [Hni Hnd]. destruct Hin as [E|Hin].
    + injection E as <- <-. rewrite bool_decide_true by done. cbn [item_line]. f_equal. rewrite cons_middle, app_assoc.
      replace (S (length (txt name))) with (length (txt name ++ [ch_space])) by (rewrite length_app; cbn; lia). apply drop_app_length.
    + rewrite bool_decide_false; [by apply IH|]. intros E. apply Hni. rewrite E. apply list_elem_of_omap.
      exists (true, txt name). split; [|done]. apply list_elem_of_fmap. by exists (Sample name v).
Qed.

(** The names are as they must be: no blanks, no line feeds, all different. *)
Lemma counters_heads s : forallb head_well (map item_head (counters_items s)) = true /\ NoDup (sample_heads (map item_head (counters_items s))).
Proof. split; [vm_compute; reflexivity|]. apply (bool_decide_unpack _). vm_compute. exact I. Qed.

Lemma item_line_no_nl it : head_well (item_head it) = true -> match it with Sample _ v => 0 <= v | Note _ => True end -> free ch_nl (item_line it).
Proof.
  destruct it as [l|n v]; cbn; intros Hw Hv.
  - by apply andb_true_iff in Hw as [_ H%bool_decide_eq_true].
  - apply andb_true_iff in Hw as [[_ H%bool_decide_eq_true]%andb_true_iff _]. apply Forall_app_2; [done|]. constructor; [done|].
    apply dec_free; [by right|]. by apply show_u64_dec.
Qed.

(** A scraper reads the program's counters.  For every snapshot whose counters are
    64-bit values, with any detail and any number of per-subscriber series, each
    of the 27 counter metrics of [/metrics] is found under its documented name
    (the direction label included) with exactly the value the snapshot holds. *)
Theorem prometheus_counters_exact s x detail n : Forall (fun p => 0 <= p.2 < 2 ^ 64) (metrics s) ->
  length (metrics s) = 27%nat /\
  Forall (fun '(name, v) => metric name (render_prometheus s x detail n) = Some v) (metrics s).
Proof.
  intros Hr. split; [reflexivity|]. destruct (counters_heads s) as [Hw Hnd].
  destruct (prometheus_prefix s x detail n) as [rest ->]. rewrite counters_text, counters_lines_items.
  apply Forall_forall. intros [name v] Hin. pose proof (proj1 (Forall_forall _ _) Hr _ Hin) as Hv. cbn in Hv.
  assert (forall it, it ∈ counters_items s -> match it with Sample _ v => 0 <= v | Note _ => True end) as Hpos.
  { intros [l|nm w] Hit; [done|]. assert (In (nm, w) (metrics s)) as Hm.
    { apply list_elem_of_In, list_elem_of_omap. exists (Sample nm w). split; [exact Hit|reflexivity]. } pose proof (proj1 (Forall_forall _ _) Hr _ Hm) as H. cbn in H. lia. }
  unfold metric. rewrite getlines_lines.
  - apply list_elem_of_In in Hin. apply list_elem_of_omap in Hin as ([l|nm w] & Hit & E); [done|]. injection E as -> ->.
    rewrite (line_value_app _ _ _ _ (lookup_sample _ name v Hw Hnd Hit)). cbn. by apply parse_u64_show.
  - apply Forall_forall. intros l Hl. apply in_map_iff in Hl as (it & <- & Hit). rewrite forallb_forall in Hw.
    apply item_line_no_nl; [apply Hw, in_map_iff; by exists it|apply Hpos; by apply list_elem_of_In].
Qed.

Lemma prometheus_counters_exact_witness :
  metric "gtpm_meter_bytes_total" (render_prometheus (sample_snapshot 1234) sample_ratios (Some sample_detail) 5) = Some 1234.
Proof.
  assert (Forall (fun p => 0 <= p.2 < 2 ^ 64) (metrics (sample_snapshot 1234))) as H
    by (apply (bool_decide_unpack _); vm_compute; exact I).
  destruct (prometheus_counters_exact (sample_snapshot 1234) sample_ratios (Some sample_detail) 5 H) as [_ Hall].
  exact (proj1 (Forall_forall _ _) Hall ("gtpm_meter_bytes_total"%string, 1234) ltac:(apply list_elem_of_In, (bool_decide_unpack _); vm_compute; exact I)).
Defined.
