(* ===== verification/CommandLine.v ===== *)
(** * src/main.cpp: the command line

    Option parsing with the C library's [strtoull] (base 0) and [atoi], and the
    configuration made from the options.  Arguments are byte lists; [Exit] is the
    process's exit code. *)

From Stdlib Require Strings.String.
From S2P Require Import Prelude SpscRing UsageRecord Session SessionCsv Meter Snapshot TopN DetailScan Runtime Double Text Json.

(** ** Numbers of the C library *)

Definition is_space (c : byte) : bool := (bval c =? 32) || ((9 <=? bval c) && (bval c <=? 13)).
Fixpoint skip_space (s : Bytes) : Bytes :=
  match s with c :: s' => if is_space c then skip_space s' else s | [] => [] end.

(** An optional sign: negative or not, and the rest. *)
Definition take_sign (s : Bytes) : bool * Bytes :=
  match s with
  | c :: s' => if bval c =? 45 then (true, s') else if bval c =? 43 then (false, s') else (false, s)
  | [] => (false, [])
  end.

Definition base_digit (base : Z) (c : byte) : option Z :=
  match digit_of 16 c with Some d => if d <? base then Some d else None | None => None end.
Fixpoint take_digits (base : Z) (s : Bytes) (v : Z) : Z * Bytes :=
  match s with
  | c :: s' => match base_digit base c with Some d => take_digits base s' (v * base + d) | None => (v, s) end
  | [] => (v, [])
  end.

(** The base that base 0 selects, and the digits: "0x" counts only before a hex digit. *)
Definition take_base (s : Bytes) : Z * Bytes :=
  match s with
  | z :: s1 =>
      if bval z =? 48 then
        match s1 with
        | x :: ((d :: _) as s2) =>
            if ((bval x =? 120) || (bval x =? 88)) && match base_digit 16 d with Some _ => true | None => false end then (16, s2) else (8, s)
        | _ => (8, s)
        end
      else (10, s)
  | [] => (10, [])
  end.

(** [strtoull(s, &end, 0)]: the value and what [end] points at; [None] when nothing
    was converted.  Too large saturates; a minus sign negates modulo 2^64. *)
Definition strtoull (s : Bytes) : option (Z * Bytes) :=
  let (negative, s) := take_sign (skip_space s) in
  let (base, s) := take_base s in
  match s with
  | c :: _ =>
      match base_digit base c with
      | None => None
      | Some _ =>
          let (v, rest) := take_digits base s 0 in
          Some (if UINT64_MAX <? v then UINT64_MAX else if negative then u64 (- v) else v, rest)
      end
  | [] => None
  end.

(** [atoi]; a value that is no [int] is undefined behaviour. *)
Definition atoi (s : Bytes) : res Z :=
  let (negative, s) := take_sign (skip_space s) in
  let (v, _) := take_digits 10 s 0 in
  let v := if negative then - v else v in
  if (- 2 ^ 31 <=? v) && (v <? 2 ^ 31) then Ok v else UB.

Definition parse_u64_arg (value : Bytes) : option Z :=
  match value with
  | [] => None
  | _ => match strtoull value with Some (parsed, []) => Some parsed | _ => None end
  end.

(** ** Options *)

Record Options := mkOptions {
  pcap_path : Bytes; interface : Bytes; sessions_path : Bytes; records_path : Bytes; http_bind : Bytes;
  loops : Z; max_pps : Z; http_port : Z; report_interval_s : Z; volume_threshold_mb : Z; ring_size : Z; latency_sample : Z;
  ingest_cpu : Z; meter_cpu : Z; reporter_cpu : Z;
  learn_teids : bool; opt_track_flows : bool; opt_measure_latency : bool; quiet : bool; busy_poll : bool
}.
#[export] Instance Options_eta : Eta Options := fun o =>
  mkOptions (pcap_path o) (interface o) (sessions_path o) (records_path o) (http_bind o) (loops o) (max_pps o) (http_port o)
    (report_interval_s o) (volume_threshold_mb o) (ring_size o) (latency_sample o) (ingest_cpu o) (meter_cpu o) (reporter_cpu o)
    (learn_teids o) (opt_track_flows o) (opt_measure_latency o) (quiet o) (busy_poll o).
Definition Options_init : Options :=
  mkOptions [] [] [] [] (txt "127.0.0.1") 1 0 0 10 100 65536 8 (-1) (-1) (-1) false true true false false.

(** What one argument does: stop with an exit code, set a flag, or set an option
    from the next argument. *)
Inductive arg_effect := Stop (code : Z) | Flag (o : Options) | Took (o : Options).

Definition with_value (next : option Bytes) (k : Bytes -> res arg_effect) : res arg_effect :=
  match next with None => Ok (Stop 2) | Some v => k v end.
Definition set_number (next : option Bytes) (set : Z -> Options) : res arg_effect :=
  with_value next (fun v => match parse_u64_arg v with Some n => Ok (Took (set n)) | None => Ok (Stop 2) end).
Definition set_cpu (next : option Bytes) (set : Z -> Options) : res arg_effect :=
  with_value next (fun v => let* n := atoi v in Ok (Took (set n))).

Definition is_arg (arg : Bytes) (name : String.string) : bool := bool_decide (arg = txt name).

Definition apply_arg (o : Options) (arg : Bytes) (next : option Bytes) : res arg_effect :=
  if is_arg arg "-h" || is_arg arg "--help" then Ok (Stop 0)
  else if is_arg arg "--pcap" then with_value next (fun v => Ok (Took (o <| pcap_path := v |>)))
  else if is_arg arg "--interface" then with_value next (fun v => Ok (Took (o <| interface := v |>)))
  else if is_arg arg "--sessions" then with_value next (fun v => Ok (Took (o <| sessions_path := v |>)))
  else if is_arg arg "--records" then with_value next (fun v => Ok (Took (o <| records_path := v |>)))
  else if is_arg arg "--http" then set_number next (fun n => o <| http_port := n |>)
  else if is_arg arg "--http-bind" then with_value next (fun v => Ok (Took (o <| http_bind := v |>)))
  else if is_arg arg "--loops" then set_number next (fun n => o <| loops := n |>)
  else if is_arg arg "--max-pps" then set_number next (fun n => o <| max_pps := n |>)
  else if is_arg arg "--report-interval" then set_number next (fun n => o <| report_interval_s := n |>)
  else if is_arg arg "--volume-threshold" then set_number next (fun n => o <| volume_threshold_mb := n |>)
  else if is_arg arg "--ring-size" then set_number next (fun n => o <| ring_size := n |>)
  else if is_arg arg "--latency-sample" then set_number next (fun n => o <| latency_sample := n |>)
  else if is_arg arg "--ingest-cpu" then set_cpu next (fun n => o <| ingest_cpu := n |>)
  else if is_arg arg "--meter-cpu" then set_cpu next (fun n => o <| meter_cpu := n |>)
  else if is_arg arg "--reporter-cpu" then set_cpu next (fun n => o <| reporter_cpu := n |>)
  else if is_arg arg "--learn-teids" then Ok (Flag (o <| learn_teids := true |>))
  else if is_arg arg "--no-flows" then Ok (Flag (o <| opt_track_flows := false |>))
  else if is_arg arg "--no-latency" then Ok (Flag (o <| opt_measure_latency := false |>))
  else if is_arg arg "--busy-poll" then Ok (Flag (o <| busy_poll := true |>))
  else if is_arg arg "--quiet" then Ok (Flag (o <| quiet := true |>))
  else Ok (Stop 2).

Inductive outcome := Run (o : Options) | Exit (code : Z).

Fixpoint parse_args (args : list Bytes) (o : Options) : res outcome :=
  match args with
  | [] => Ok (Run o)
  | arg :: rest =>
      let* e := apply_arg o arg (head rest) in
      match e with
      | Stop code => Ok (Exit code)
      | Flag o => parse_args rest o
      | Took o => match rest with _ :: rest => parse_args rest o | [] => Ok (Exit 2) end
      end
  end.

(** Exactly one input. *)
Definition main_options (args : list Bytes) : res outcome :=
  let* r := parse_args args Options_init in
  match r with
  | Exit code => Ok (Exit code)
  | Run o => if Bool.eqb (bool_decide (pcap_path o = [])) (bool_decide (interface o = [])) then Ok (Exit 2) else Ok (Run o)
  end.

(** ** The configuration made from the options *)

Definition replay_loops (o : Options) : Z := u32 (loops o).
Definition listen_port (o : Options) : Z := u16 (http_port o).
Definition batch_size (o : Options) : nat := if negb (max_pps o =? 0) then 32 else 256.

Definition meter_config (o : Options) : MeterConfig :=
  let d := MeterConfig_init in
  mkConfig (max_subscribers d) (teid_table_capacity d) (flow_table_capacity d) (flow_probe_window d)
    (mul64 (report_interval_s o) 1000000000) (u64 (Z.shiftl (volume_threshold_mb o) 20)) (sweep_period_ns d) (sweep_fraction d)
    (opt_track_flows o) (learn_teids o).

Definition runtime_config (d : RuntimeConfig) (o : Options) : RuntimeConfig :=
  mkRuntimeConfig (meter_batch d) (publish_interval_ns d) (u32 (if latency_sample o =? 0 then 1 else latency_sample o))
    (opt_measure_latency o) (rc_detail d) (detail_demand_ttl_ns d).

(** ** Writing options *)

Definition show_int (v : Z) : Bytes := if v <? 0 then x2d :: show_u64 (- v) else show_u64 v.

(** The command line that sets every option to the value it has in [o]. *)
Definition options_args (o : Options) : list Bytes :=
  [txt "--pcap"; pcap_path o; txt "--interface"; interface o; txt "--sessions"; sessions_path o; txt "--records"; records_path o;
   txt "--http"; show_u64 (http_port o); txt "--http-bind"; http_bind o; txt "--loops"; show_u64 (loops o);
   txt "--max-pps"; show_u64 (max_pps o); txt "--report-interval"; show_u64 (report_interval_s o);
   txt "--volume-threshold"; show_u64 (volume_threshold_mb o); txt "--ring-size"; show_u64 (ring_size o);
   txt "--latency-sample"; show_u64 (latency_sample o); txt "--ingest-cpu"; show_int (ingest_cpu o); txt "--meter-cpu"; show_int (meter_cpu o);
   txt "--reporter-cpu"; show_int (reporter_cpu o)] ++
  (if learn_teids o then [txt "--learn-teids"] else []) ++ (if opt_track_flows o then [] else [txt "--no-flows"]) ++
  (if opt_measure_latency o then [] else [txt "--no-latency"]) ++ (if busy_poll o then [txt "--busy-poll"] else []) ++
  (if quiet o then [txt "--quiet"] else []).

Definition options_typed (o : Options) : Prop :=
  Forall (fun v => 0 <= v < 2 ^ 64) [http_port o; loops o; max_pps o; report_interval_s o; volume_threshold_mb o; ring_size o; latency_sample o] /\
  Forall (fun v => - 2 ^ 31 <= v < 2 ^ 31) [ingest_cpu o; meter_cpu o; reporter_cpu o].

Lemma base_digit_dec c : is_dec c -> base_digit 10 c = Some (bval c - 48).
Proof.
  unfold is_dec, base_digit, digit_of. intros H. destruct (Z.leb_spec 48 (bval c)); [|lia]. destruct (Z.leb_spec (bval c) 57); [|lia].
  cbn [andb]. destruct (Z.ltb_spec (bval c - 48) 10); [done|lia].
Qed.

Lemma take_digits_app base l1 l2 : Forall is_dec l1 -> base = 10 -> forall v,
  take_digits base (l1 ++ l2) v = take_digits base l2 (take_digits base l1 v).1.
Proof.
  intros H ->. induction H as [|c l1 Hc _ IH]; intros v; cbn [app take_digits]; [done|]. by rewrite (base_digit_dec c Hc), IH.
Qed.

Lemma take_digits_show fuel : forall v, 0 <= v -> v < 10 ^ Z.of_nat fuel -> (0 < fuel)%nat -> take_digits 10 (show_loop fuel v) 0 = (v, []).
Proof.
  induction fuel as [|fuel IH]; intros v Hv Hf H0; [lia|]. cbn [show_loop]. rewrite Nat2Z.inj_succ, Z.pow_succ_r in Hf by lia.
  destruct (Z.ltb_spec v 10).
  - cbn [take_digits]. rewrite base_digit_dec by (unfold is_dec; rewrite bval_digit; lia). rewrite bval_digit by lia. f_equal. lia.
  - pose proof (Z.div_mod v 10). pose proof (Z.mod_pos_bound v 10). assert (0 <= v / 10) by (apply Z.div_pos; lia).
    assert (0 < fuel)%nat by (destruct fuel; [change (10 ^ Z.of_nat 0) with 1 in Hf; lia|lia]).
    rewrite take_digits_app by (done || by apply show_dec). rewrite IH; [|done|apply Z.div_lt_upper_bound; lia|done].
    cbn [fst take_digits]. rewrite base_digit_dec by (unfold is_dec; rewrite bval_digit; lia). rewrite bval_digit by lia. f_equal. lia.
Qed.

(** Nothing precedes the digits. *)
Lemma skip_sign_dec c s : is_dec c -> take_sign (skip_space (c :: s)) = (false, c :: s).
Proof.
  unfold is_dec. intros H. cbn [skip_space]. assert (is_space c = false) as ->.
  { unfold is_space. destruct (Z.eqb_spec (bval c) 32), (Z.leb_spec 9 (bval c)), (Z.leb_spec (bval c) 13); cbn; lia. }
  cbn [take_sign]. destruct (Z.eqb_spec (bval c) 45); [lia|]. destruct (Z.eqb_spec (bval c) 43); [lia|]. done.
Qed.

Lemma show_u64_head v : 1 <= v < 2 ^ 64 -> exists c s, show_u64 v = c :: s /\ is_dec c /\ bval c <> 48.
Proof.
  intros Hv. destruct (show_loop_head 20 v) as (c & s & E & Hc); [lia|lia|]. exists c, s. split_and!; [done| |done].
  pose proof (show_u64_dec v ltac:(lia)) as Hd. unfold show_u64 in Hd. rewrite E in Hd. by apply Forall_cons_iff in Hd as [? _].
Qed.

Lemma parse_u64_arg_show v : 0 <= v < 2 ^ 64 -> parse_u64_arg (show_u64 v) = Some v.
Proof.
  intros Hv. destruct (Z.eq_dec v 0) as [->|Hz]; [reflexivity|].
  destruct (show_u64_head v) as (c & s & E & Hd & Hc); [lia|]. unfold parse_u64_arg, strtoull. rewrite E, skip_sign_dec by done.
  cbn [take_base]. destruct (Z.eqb_spec (bval c) 48); [done|]. rewrite base_digit_dec, <- E by done. unfold show_u64.
  rewrite take_digits_show by lia. unfold UINT64_MAX. destruct (Z.ltb_spec (2 ^ 64 - 1) v); [lia|]. done.
Qed.

Lemma atoi_show v : - 2 ^ 31 <= v < 2 ^ 31 -> atoi (show_int v) = Ok v.
Proof.
  intros Hv. unfold atoi, show_int. destruct (Z.ltb_spec v 0).
  - cbn [skip_space]. change (is_space x2d) with false. cbn [take_sign]. change (bval x2d =? 45) with true. unfold show_u64.
    rewrite take_digits_show by lia. destruct (Z.leb_spec (- 2 ^ 31) (- - v)), (Z.ltb_spec (- - v) (2 ^ 31)); try lia. cbn. f_equal. lia.
  - assert (exists c s, show_u64 v = c :: s /\ is_dec c) as (c & s & E & Hd).
    { pose proof (show_u64_dec v ltac:(lia)) as Hd. pose proof (show_ne 20 v ltac:(lia)). unfold show_u64 in *.
      destruct (show_loop 20 v) as [|c s]; [done|]. exists c, s. by apply Forall_cons_iff in Hd as [? _]. }
    rewrite E, skip_sign_dec, <- E by done. unfold show_u64. rewrite take_digits_show by lia.
    destruct (Z.leb_spec (- 2 ^ 31) v), (Z.ltb_spec v (2 ^ 31)); try lia. done.
Qed.

(** One option and its value, and one flag. *)
Lemma parse_took arg v rest o o' : apply_arg o arg (Some v) = Ok (Took o') -> parse_args (arg :: v :: rest) o = parse_args rest o'.
Proof. intros H. cbn [parse_args head]. by rewrite H, bind_Ok. Qed.
Lemma parse_flag arg rest o o' : (forall next, apply_arg o arg next = Ok (Flag o')) -> parse_args (arg :: rest) o = parse_args rest o'.
Proof. intros H. cbn [parse_args]. by rewrite H, bind_Ok. Qed.
Lemma parse_flag_if (b : bool) arg rest o o' : (forall next, apply_arg o arg next = Ok (Flag o')) ->
  parse_args ((if b then [arg] else []) ++ rest) o = parse_args rest (if b then o' else o).
Proof. intros H. destruct b; [by apply parse_flag|done]. Qed.

Lemma parse_flag_unless (b : bool) arg rest o o' : (forall next, apply_arg o arg next = Ok (Flag o')) ->
  parse_args ((if b then [] else [arg]) ++ rest) o = parse_args rest (if b then o else o').
Proof. intros H. destruct b; [done|by apply parse_flag]. Qed.

Lemma set_number_show v set : 0 <= v < 2 ^ 64 -> set_number (Some (show_u64 v)) set = Ok (Took (set v)).
Proof. intros H. unfold set_number, with_value. by rewrite parse_u64_arg_show. Qed.
Lemma set_cpu_show v set : - 2 ^ 31 <= v < 2 ^ 31 -> set_cpu (Some (show_int v)) set = Ok (Took (set v)).
Proof. intros H. unfold set_cpu, with_value. by rewrite atoi_show, bind_Ok. Qed.

(** C37: Every configuration can be written on the command line and is read back.  For
    any paths, any 64-bit numbers, any CPU numbers and any flags, the command line
    that names all of them parses to exactly these options; and the program then
    runs with them iff exactly one of capture and interface is given, and exits
    with status 2 otherwise. *)
Theorem options_roundtrip o : options_typed o ->
  main_options (options_args o) =
    Ok (if Bool.eqb (bool_decide (pcap_path o = [])) (bool_decide (interface o = [])) then Exit 2 else Run o).
Proof.
  intros [Hn Hc]. repeat (apply Forall_cons_iff in Hn as [? Hn]). repeat (apply Forall_cons_iff in Hc as [? Hc]).
  assert (parse_args (options_args o) Options_init = Ok (Run o)) as Hp.
  2: { unfold main_options. rewrite Hp, bind_Ok. by destruct (Bool.eqb _ _). }
  unfold options_args. cbn [app].
  do 4 (erewrite parse_took by reflexivity).
  erewrite parse_took by (apply (set_number_show _ (fun n => _ <| http_port := n |>)); done).
  erewrite parse_took by reflexivity.
  erewrite parse_took by (apply (set_number_show _ (fun n => _ <| loops := n |>)); done).
  erewrite parse_took by (apply (set_number_show _ (fun n => _ <| max_pps := n |>)); done).
  erewrite parse_took by (apply (set_number_show _ (fun n => _ <| report_interval_s := n |>)); done).
  erewrite parse_took by (apply (set_number_show _ (fun n => _ <| volume_threshold_mb := n |>)); done).
  erewrite parse_took by (apply (set_number_show _ (fun n => _ <| ring_size := n |>)); done).
  erewrite parse_took by (apply (set_number_show _ (fun n => _ <| latency_sample := n |>)); done).
  erewrite parse_took by (apply (set_cpu_show _ (fun n => _ <| ingest_cpu := n |>)); done).
  erewrite parse_took by (apply (set_cpu_show _ (fun n => _ <| meter_cpu := n |>)); done).
  erewrite parse_took by (apply (set_cpu_show _ (fun n => _ <| reporter_cpu := n |>)); done).
  erewrite parse_flag_if by reflexivity. erewrite parse_flag_unless by reflexivity. erewrite parse_flag_unless by reflexivity.
  erewrite parse_flag_if by reflexivity. rewrite <- (app_nil_r (if quiet o then _ else _)). erewrite parse_flag_if by reflexivity.
  clear. destruct o as [? ? ? ? ? ? ? ? ? ? ? ? ? ? ? b1 b2 b3 b4 b5]. cbn [parse_args]. by destruct b1, b2, b3, b4, b5.
Qed.

Definition sample_options : Options :=
  Options_init <| pcap_path := txt "a.pcap" |> <| loops := 3 |> <| meter_cpu := 2 |> <| learn_teids := true |>.

Lemma options_roundtrip_witness : main_options (options_args sample_options) = Ok (Run sample_options).
Proof.
  rewrite options_roundtrip; [reflexivity|]. split; repeat (constructor; [(vm_compute; split; [discriminate|reflexivity])|]); constructor.
Defined.

(** The number of rounds is cut to 32 bits: 2^32 rounds are endless ones. *)
Example loops_truncated : exists o,
  main_options [txt "--pcap"; txt "a.pcap"; txt "--loops"; txt "4294967296"] = Ok (Run o) /\ loops o = 2 ^ 32 /\ replay_loops o = 0.
Proof. eexists. split; [vm_compute; reflexivity|]. split; reflexivity. Qed.
