(* ===== verification/LiveCapture.v ===== *)
(** * src/ingest_rawsock.cpp: live capture on Linux

    [LiveCaptureSource::next_batch] with its buffer as a C++ vector: the packets it
    hands out are views into the vector's storage, and growing the vector past its
    capacity moves the storage.  Allocations are numbered; a view names the
    allocation it points into, and reading it after the vector has moved is
    reading freed memory.  The kernel is a list of events: what [poll] and [recv]
    deliver. *)

From S2P Require Import Prelude.

Record View := mkV { v_alloc : nat; v_off : Z; v_len : Z }.
Record LivePacket := mkLive { lp_data : View; lp_ts_ns : Z; lp_orig_len : Z }.

Record LiveSource := mkSource {
  lv_fd : Z;
  lv_stopped : bool;
  lv_snaplen : Z;
  lv_alloc : nat;
  lv_buffer : Bytes;
  lv_capacity : Z
}.
#[export] Instance LiveSource_eta : Eta LiveSource := fun s =>
  mkSource (lv_fd s) (lv_stopped s) (lv_snaplen s) (lv_alloc s) (lv_buffer s) (lv_capacity s).

(** Outcome of one [poll]: nothing to read, or a [recv] with these bytes ([[]] when
    it returns 0 or fails). *)
Inductive sock_event := NotReady | Recv (data : Bytes).

Section Live.
(** The capacity a vector of capacity [c] takes to hold [n] elements. *)
Context (grow : Z -> Z -> Z).

(** [buffer_.resize(n)] for [n] above the size. *)
Definition resize (s : LiveSource) (n : Z) : LiveSource :=
  let buffer := lv_buffer s ++ replicate (Z.to_nat (n - size (lv_buffer s))) x00 in
  if n <=? lv_capacity s then s <| lv_buffer := buffer |>
  else s <| lv_buffer := buffer |> <| lv_capacity := grow (lv_capacity s) n |> <| lv_alloc := S (lv_alloc s) |>.

(** [recv] stores at [off]. *)
Definition store_at (f : Bytes) (off : Z) (data : Bytes) : Bytes :=
  take (Z.to_nat off) f ++ data ++ drop (Z.to_nat off + length data) f.

Fixpoint live_loop (room : nat) (events : list sock_event) (clock : nat -> Z) (produced : nat) (s : LiveSource) : list LivePacket * LiveSource :=
  match room, events with
  | S room, Recv data :: events =>
      let offset := Z.of_nat produced * lv_snaplen s in
      let s := if size (lv_buffer s) <? offset + lv_snaplen s then resize s (offset + lv_snaplen s) else s in
      let data := take (Z.to_nat (lv_snaplen s)) data in
      match data with
      | [] => ([], s)
      | _ =>
          let s := s <| lv_buffer ::= fun f => store_at f offset data |> in
          let p := mkLive (mkV (lv_alloc s) offset (size data)) (clock produced) (u32 (size data)) in
          let (ps, s) := live_loop room events clock (S produced) s in (p :: ps, s)
      end
  | _, _ => ([], s)
  end.

Definition live_next_batch (s : LiveSource) (max : nat) (events : list sock_event) (clock : nat -> Z) : list LivePacket * LiveSource :=
  if lv_stopped s || (lv_fd s <? 0) then ([], s) else live_loop max events clock 0 s.

(** The end of [open]: the buffer for one packet, in an allocation of its own. *)
Definition live_open (fd snaplen : Z) : LiveSource :=
  mkSource fd false snaplen 1 (replicate (Z.to_nat snaplen) x00) (grow 0 snaplen).

(** Reading a packet: [None] when its storage has been freed. *)
Definition read_view (s : LiveSource) (v : View) : option Bytes :=
  if decide (v_alloc v = lv_alloc s) then Some (slice (v_off v) (v_len v) (lv_buffer s)) else None.

(** ** Reference: what was received *)

(** The packets of a batch, and the number of [recv] calls made for it. *)
Fixpoint received (room : nat) (snaplen : Z) (events : list sock_event) : list Bytes :=
  match room, events with
  | S room, Recv data :: events =>
      match take (Z.to_nat snaplen) data with [] => [] | d => d :: received room snaplen events end
  | _, _ => []
  end.
Fixpoint attempts (room : nat) (snaplen : Z) (events : list sock_event) : nat :=
  match room, events with
  | S room, Recv data :: events =>
      match take (Z.to_nat snaplen) data with [] => 1 | _ => S (attempts room snaplen events) end
  | _, _ => 0
  end.

(** The vector's size never exceeds its capacity, and the slots used so far exist. *)
Definition buffer_ok (s : LiveSource) (produced : nat) : Prop :=
  0 < lv_snaplen s /\ size (lv_buffer s) <= lv_capacity s /\ Z.of_nat produced * lv_snaplen s <= size (lv_buffer s).

Hypothesis Hgrow : forall c n, n <= grow c n.

Lemma store_at_size f off data : 0 <= off -> off + size data <= size f -> size (store_at f off data) = size f.
Proof. intros H1 H2. unfold store_at, size in *. rewrite !length_app, length_take, length_drop. lia. Qed.

Lemma store_at_before f off data : 0 <= off <= size f -> take (Z.to_nat off) (store_at f off data) = take (Z.to_nat off) f.
Proof. intros H. unfold store_at. rewrite take_app_le by (rewrite length_take; unfold size in *; lia). by rewrite take_take, Nat.min_id. Qed.

Lemma store_at_slice f off data : 0 <= off -> off + size data <= size f -> slice off (size data) (store_at f off data) = data.
Proof.
  intros H1 H2. unfold store_at. assert (off = size (take (Z.to_nat off) f)) as E by (unfold size in *; rewrite length_take; lia).
  rewrite E at 1. apply slice_mid.
Qed.

(** A view below [n] does not see what happens above. *)
Lemma slice_take {A} (f g : list A) off len n : 0 <= off -> 0 <= len -> off + len <= n ->
  take (Z.to_nat n) f = take (Z.to_nat n) g -> slice off len f = slice off len g.
Proof.
  intros H1 H2 H3 E. assert (forall h : list A, slice off len h = slice off len (take (Z.to_nat n) h)) as Hs.
  { intros h. unfold slice. rewrite skipn_firstn_comm, take_take. f_equal. lia. }
  by rewrite (Hs f), (Hs g), E.
Qed.

Lemma resize_fields s n : resize s n = mkSource (lv_fd s) (lv_stopped s) (lv_snaplen s)
  (if n <=? lv_capacity s then lv_alloc s else S (lv_alloc s))
  (lv_buffer s ++ replicate (Z.to_nat (n - size (lv_buffer s))) x00) (if n <=? lv_capacity s then lv_capacity s else grow (lv_capacity s) n).
Proof. unfold resize. by destruct s, (n <=? _). Qed.

(** Making room for one more packet. *)
Definition with_room (s : LiveSource) (n : Z) : LiveSource := if size (lv_buffer s) <? n then resize s n else s.

Lemma with_room_spec s produced : buffer_ok s produced ->
  let n := Z.of_nat (S produced) * lv_snaplen s in let s1 := with_room s n in
  lv_snaplen s1 = lv_snaplen s /\ buffer_ok s1 (S produced) /\
  lv_alloc s1 = (if n <=? lv_capacity s then lv_alloc s else S (lv_alloc s)) /\
  (n <= lv_capacity s -> lv_capacity s1 = lv_capacity s) /\
  take (Z.to_nat (Z.of_nat produced * lv_snaplen s)) (lv_buffer s1) = take (Z.to_nat (Z.of_nat produced * lv_snaplen s)) (lv_buffer s).
Proof.
  intros (Hs & Hc & Hp) n s1. unfold s1, with_room. destruct (Z.ltb_spec (size (lv_buffer s)) n) as [Hlt|Hge].
  - assert (size (lv_buffer s ++ replicate (Z.to_nat (n - size (lv_buffer s))) x00) = n) as Hsz
      by (rewrite size_app; unfold size at 2; rewrite length_replicate; lia).
    pose proof (Hgrow (lv_capacity s) n). rewrite resize_fields. unfold buffer_ok. cbn [lv_alloc lv_buffer lv_capacity lv_snaplen].
    rewrite Hsz. split_and!; [done|done| |unfold n; lia|done| |].
    + destruct (Z.leb_spec n (lv_capacity s)); lia.
    + by destruct (Z.leb_spec n (lv_capacity s)); [|lia].
    + by rewrite take_app_le by (unfold size in *; lia).
  - destruct (Z.leb_spec n (lv_capacity s)); [|lia]. split_and!; (done || lia).
Qed.

Lemma live_loop_spec clock room : forall events produced s, buffer_ok s produced ->
  let snap := lv_snaplen s in let a := attempts room snap events in
  let (ps, s') := live_loop room events clock produced s in
  length ps = length (received room snap events) /\
  (if (Z.of_nat (produced + a) * snap <=? lv_capacity s) then lv_alloc s' = lv_alloc s else (lv_alloc s < lv_alloc s')%nat) /\
  take (Z.to_nat (Z.of_nat produced * snap)) (lv_buffer s') = take (Z.to_nat (Z.of_nat produced * snap)) (lv_buffer s) /\
  (lv_alloc s' = lv_alloc s -> Forall2 (fun p d => read_view s' (lp_data p) = Some d) ps (received room snap events)) /\
  match ps with p :: _ => Z.of_nat (S produced) * snap <= lv_capacity s -> v_alloc (lp_data p) = lv_alloc s | [] => True end.
Proof.
  induction room as [|room IH]; intros events produced s Hok.
  { cbn. rewrite Nat.add_0_r. destruct Hok as (H1 & H2 & H3). destruct (Z.leb_spec (Z.of_nat produced * lv_snaplen s) (lv_capacity s)); [|lia]. by split_and!. }
  destruct events as [|[|data] events]; try (cbn; rewrite Nat.add_0_r; destruct Hok as (H1 & H2 & H3);
    destruct (Z.leb_spec (Z.of_nat produced * lv_snaplen s) (lv_capacity s)); [by split_and!|lia]).
  cbn [live_loop received attempts]. cbn zeta.
  replace (Z.of_nat produced * lv_snaplen s + lv_snaplen s) with (Z.of_nat (S produced) * lv_snaplen s) by lia.
  fold (with_room s (Z.of_nat (S produced) * lv_snaplen s)).
  destruct (with_room_spec s produced Hok) as (Hsnap & Hok1 & Halloc & Hcap & Htake). cbn zeta in *.
  set (s1 := with_room s (Z.of_nat (S produced) * lv_snaplen s)) in *. rewrite Hsnap in *. set (snap := lv_snaplen s) in *.
  set (off := Z.of_nat produced * snap) in *. assert (0 <= off) as Hoff by (unfold off; destruct Hok; nia).
  assert (off + snap = Z.of_nat (S produced) * snap) as Hoffs by (unfold off; lia).
  destruct (take (Z.to_nat snap) data) as [|b d] eqn:Hd.
  { replace (produced + 1)%nat with (S produced) by lia.
    split_and!; try done. rewrite Halloc. destruct (Z.leb_spec (Z.of_nat (S produced) * snap) (lv_capacity s)); lia. }
  assert (size (b :: d) <= snap) as Hsize by (rewrite <- Hd; unfold size; rewrite length_take; destruct Hok; lia).
  set (dd := b :: d) in *. set (s2 := setf lv_buffer _ s1).
  assert (lv_alloc s2 = lv_alloc s1 /\ lv_capacity s2 = lv_capacity s1 /\ lv_snaplen s2 = snap /\ lv_buffer s2 = store_at (lv_buffer s1) off dd)
    as (Ha2 & Hc2 & Hsn2 & Hb2) by (split_and!; done).
  destruct Hok1 as (H1 & H2 & H3). rewrite Hsnap in H1, H3. pose proof (size_nonneg dd) as Hdd.
  assert (size (lv_buffer s2) = size (lv_buffer s1)) as Hsz2 by (rewrite Hb2; apply store_at_size; lia).
  assert (buffer_ok s2 (S produced)) as Hok2 by (unfold buffer_ok; rewrite Hsn2, Hsz2, Hc2; done).
  specialize (IH events (S produced) s2 Hok2). rewrite Hsn2 in IH. cbn zeta in IH. clearbody s2.
  destruct (live_loop room events clock (S produced) s2) as [ps s']. destruct IH as (Hlen & Hal & Htk & Hall & _).
  rewrite Nat.add_succ_r. replace (S (produced + attempts room snap events)) with (S produced + attempts room snap events)%nat by lia.
  rewrite Ha2, Hc2 in *. split_and!.
  - cbn [length]. by rewrite Hlen.
  - destruct (Z.leb_spec (Z.of_nat (S produced) * snap) (lv_capacity s)) as [Hin|Hout].
    + rewrite (Hcap Hin) in Hal. by rewrite Halloc in Hal.
    + destruct (Z.leb_spec (Z.of_nat (S produced + attempts room snap events) * snap) (lv_capacity s)); [nia|].
      destruct (Z.of_nat (S produced + attempts room snap events) * snap <=? lv_capacity s1); lia.
  - etransitivity; [|exact Htake]. fold off. rewrite <- (store_at_before (lv_buffer s1) off dd) by lia. rewrite <- Hb2.
    apply (f_equal (take (Z.to_nat off))) in Htk. rewrite !take_take, !Nat.min_l in Htk by lia. exact Htk.
  - intros Heq. assert (lv_alloc s' = lv_alloc s1) as Heq1.
    { destruct (Z.leb_spec (Z.of_nat (S produced) * snap) (lv_capacity s)); [congruence|].
      destruct (Z.of_nat (S produced + attempts room snap events) * snap <=? lv_capacity s1); lia. }
    constructor; [|by apply Hall]. cbn [lp_data]. unfold read_view. cbn [v_alloc v_off v_len]. rewrite decide_True by done. f_equal.
    rewrite (slice_take _ (lv_buffer s2) off (size dd) (Z.of_nat (S produced) * snap)) by (done || lia).
    rewrite Hb2. apply store_at_slice; lia.
  - intros Hin. cbn [lp_data v_alloc]. rewrite Halloc. by destruct (Z.leb_spec (Z.of_nat (S produced) * snap) (lv_capacity s)); [|lia].
Qed.

Lemma attempts_le room snap : forall events, (attempts room snap events <= S (length (received room snap events)))%nat.
Proof.
  induction room as [|room IH]; intros [|[|data] events]; cbn [attempts received length]; try lia.
  destruct (take (Z.to_nat snap) data); cbn [length]; [lia|]. specialize (IH events). lia.
Qed.

(** C20: A live batch is intact exactly when the capture buffer did not have to move.
    From any state with room for one packet, a batch delivers one packet per
    non-empty [recv]; after it, all the packets handed out read back as what was
    received if and only if one slot of the snap length for every [recv] fitted
    into the vector's capacity.  Otherwise the storage was reallocated under the
    batch, and at least the first packet is a view of freed memory. *)
Theorem live_batch_intact_iff s max events clock : lv_stopped s = false -> 0 <= lv_fd s -> buffer_ok s 1 ->
  let (ps, s') := live_next_batch s max events clock in
  let ds := received max (lv_snaplen s) events in
  let needed := Z.of_nat (attempts max (lv_snaplen s) events) * lv_snaplen s in
  length ps = length ds /\
  (Forall2 (fun p d => read_view s' (lp_data p) = Some d) ps ds <-> needed <= lv_capacity s) /\
  (lv_capacity s < needed -> exists p rest, ps = p :: rest /\ read_view s' (lp_data p) = None).
Proof.
  intros Hst Hfd Hok. unfold live_next_batch. rewrite Hst. destruct (Z.ltb_spec (lv_fd s) 0); [lia|]. cbn [orb].
  assert (buffer_ok s 0) as Hok0 by (destruct Hok as (H1 & H2 & H3); split_and!; [done|done|pose proof (size_nonneg (lv_buffer s)); lia]).
  pose proof (live_loop_spec clock max events 0 s Hok0) as HL. cbn zeta in HL.
  pose proof (attempts_le max (lv_snaplen s) events) as Hatt.
  destruct (live_loop max events clock 0 s) as [ps s']. destruct HL as (Hlen & Hal & _ & Hall & Hfirst). cbn [Nat.add] in Hal.
  set (needed := Z.of_nat (attempts max (lv_snaplen s) events) * lv_snaplen s) in *. destruct Hok as (H1 & H2 & H3).
  assert (lv_capacity s < needed -> exists p rest, ps = p :: rest /\ read_view s' (lp_data p) = None) as Hbad.
  { intros Hn. destruct (Z.leb_spec needed (lv_capacity s)); [lia|]. destruct ps as [|p rest].
    - rewrite <- Hlen in Hatt. cbn in Hatt. unfold needed in *. nia.
    - exists p, rest. split; [done|]. unfold read_view. rewrite decide_False; [done|]. rewrite Hfirst by lia. lia. }
  split_and!; [done| |done]. split.
  - intros HF. destruct (Z.le_gt_cases needed (lv_capacity s)) as [|Hgt]; [done|]. destruct (Hbad Hgt) as (p & rest & -> & Hnone).
    inversion HF as [|? ? ? ? Hp]; subst. congruence.
  - intros Hle. destruct (Z.leb_spec needed (lv_capacity s)); [|lia]. by apply Hall.
Qed.
End Live.

(** The growth of libstdc++: at least double. *)
Definition doubling (c n : Z) : Z := Z.max (2 * c) n.

(** Two packets in the first batch: the first is lost; one alone is delivered. *)
Lemma live_batch_intact_iff_witness :
  (exists p rest, (live_next_batch doubling (live_open doubling 3 4) 8 [Recv [x01]; Recv [x02]; NotReady] (fun _ => 7)).1 = p :: rest /\
     read_view (live_next_batch doubling (live_open doubling 3 4) 8 [Recv [x01]; Recv [x02]; NotReady] (fun _ => 7)).2 (lp_data p) = None) /\
  Forall2 (fun p d => read_view (live_next_batch doubling (live_open doubling 3 4) 8 [Recv [x01]] (fun _ => 7)).2 (lp_data p) = Some d)
    (live_next_batch doubling (live_open doubling 3 4) 8 [Recv [x01]] (fun _ => 7)).1 [[x01]].
Proof.
  assert (forall c n, n <= doubling c n) as Hg by (unfold doubling; lia).
  assert (buffer_ok (live_open doubling 3 4) 1) as Hok by (unfold buffer_ok; vm_compute; split_and!; congruence).
  split.
  - pose proof (live_batch_intact_iff doubling Hg (live_open doubling 3 4) 8 [Recv [x01]; Recv [x02]; NotReady] (fun _ => 7) eq_refl ltac:(done) Hok) as H.
    destruct (live_next_batch doubling (live_open doubling 3 4) 8 [Recv [x01]; Recv [x02]; NotReady] (fun _ => 7)) as [ps s'].
    apply (proj2 (proj2 H)). vm_compute. reflexivity.
  - pose proof (live_batch_intact_iff doubling Hg (live_open doubling 3 4) 8 [Recv [x01]] (fun _ => 7) eq_refl ltac:(done) Hok) as H.
    destruct (live_next_batch doubling (live_open doubling 3 4) 8 [Recv [x01]] (fun _ => 7)) as [ps s'].
    apply (proj1 (proj2 H)). vm_compute. congruence.
Defined.
