(* ===== verification/BpfCapture.v ===== *)
(** * src/ingest_rawsock.cpp: live capture through /dev/bpf (macOS)

    One [read] fills the buffer with several records; the batch walks them, and
    reads again when the buffer is used up.  The record header and its alignment
    are the operating system's ([<net/bpf.h>]): parameters here.  A packet is a
    view of the buffer as it is after the [bv_read]-th read. *)

From S2P Require Import Prelude.

Record BpfHdr := mkBpfHdr { bh_sec : Z; bh_usec : Z; bh_caplen : Z; bh_datalen : Z; bh_hdrlen : Z }.

(** [struct bpf_hdr] and [BPF_WORDALIGN]: lengths are unsigned, alignment rounds up. *)
Class BpfAbi := {
  bpf_sizeof : Z;
  bpf_decode : Bytes -> BpfHdr;
  bpf_wordalign : Z -> Z;
  bpf_sizeof_pos : 0 < bpf_sizeof;
  bpf_decode_range b : 0 <= bh_caplen (bpf_decode b) < 2 ^ 32 /\ 0 <= bh_hdrlen (bpf_decode b) < 2 ^ 16;
  bpf_wordalign_le x : x <= bpf_wordalign x
}.

Record BpfView := mkBpfView { bv_read : nat; bv_off : Z; bv_len : Z }.
Record BpfPacket := mkBpf { bp_data : BpfView; bp_ts_ns : Z; bp_orig_len : Z }.
Record BpfSource := mkBpfSource { bs_buffer : Bytes; bs_used : Z; bs_offset : Z; bs_reads : nat }.

Section Bpf.
Context {ABI : BpfAbi}.

(** [read] into the whole buffer. *)
Definition bpf_read (s : BpfSource) (data : Bytes) : BpfSource :=
  let d := take (length (bs_buffer s)) data in
  mkBpfSource (d ++ drop (length d) (bs_buffer s)) (size d) 0 (S (bs_reads s)).

(** [reads] is what [poll] and [read] deliver: [[]] for an error or the end, the end
    of the list for a time-out. *)
Fixpoint bpf_loop (fuel room : nat) (reads : list Bytes) (s : BpfSource) : res (list BpfPacket * BpfSource) :=
  match fuel with
  | O => Fuel
  | S fuel =>
      match room with
      | O => Ok ([], s)
      | S room' =>
          let refill := bs_used s <=? bs_offset s in
          let stop := refill && match reads with [] | [] :: _ => true | _ => false end in
          if stop then Ok ([], s) else
          let (s, reads) := match reads with d :: reads' => if refill then (bpf_read s d, reads') else (s, reads) | [] => (s, reads) end in
          if bs_used s <? bs_offset s + bpf_sizeof then
            bpf_loop fuel room reads (mkBpfSource (bs_buffer s) (bs_used s) (bs_used s) (bs_reads s))
          else
          let* raw := subspan (bs_buffer s) (bs_offset s) bpf_sizeof in
          let hdr := bpf_decode raw in
          let data_off := bs_offset s + bh_hdrlen hdr in
          if bs_used s <? data_off + bh_caplen hdr then
            bpf_loop fuel room reads (mkBpfSource (bs_buffer s) (bs_used s) (bs_used s) (bs_reads s))
          else
          let* _ := subspan (bs_buffer s) data_off (bh_caplen hdr) in
          let p := mkBpf (mkBpfView (bs_reads s) data_off (bh_caplen hdr))
            (add64 (mul64 (bh_sec hdr) 1000000000) (mul64 (bh_usec hdr) 1000)) (bh_datalen hdr) in
          let* (ps, s) := bpf_loop fuel room' reads
            (mkBpfSource (bs_buffer s) (bs_used s) (bs_offset s + bpf_wordalign (bh_hdrlen hdr + bh_caplen hdr)) (bs_reads s)) in
          Ok (p :: ps, s)
      end
  end.

(** [stopped] and [fd] are the members of the source of those names. *)
Definition bpf_next_batch (stopped : bool) (fd : Z) (s : BpfSource) (max : nat) (reads : list Bytes) : res (list BpfPacket * BpfSource) :=
  if stopped || (fd <? 0) then Ok ([], s) else bpf_loop (S (max + 2 * length reads + 2)) max reads s.

Definition bpf_ok (s : BpfSource) : Prop := 0 <= bs_offset s /\ 0 <= bs_used s <= size (bs_buffer s).
(** Whether the next iteration reads. *)
Definition drained (s : BpfSource) : nat := if bs_used s <=? bs_offset s then 0 else 1.

Lemma bpf_read_ok s d : bpf_ok s -> bpf_ok (bpf_read s d) /\ size (bs_buffer (bpf_read s d)) = size (bs_buffer s).
Proof.
  intros _. unfold bpf_ok, bpf_read. cbn [bs_offset bs_used bs_buffer]. unfold size. rewrite !length_app, !length_drop, !length_take. lia.
Qed.

(** A batch ends, never touches a byte outside the buffer, and every packet lies
    inside the bytes that were read. *)
Lemma bpf_loop_safe fuel : forall room reads s, bpf_ok s -> (room + 2 * length reads + drained s < fuel)%nat ->
  ensures (bpf_loop fuel room reads s) (fun '(ps, s') => bpf_ok s' /\ size (bs_buffer s') = size (bs_buffer s) /\ (bs_reads s <= bs_reads s')%nat /\ (length ps <= room)%nat /\
    Forall (fun p => (bs_reads s <= bv_read (bp_data p) <= bs_reads s')%nat /\ 0 <= bv_off (bp_data p) /\
      bv_off (bp_data p) + bv_len (bp_data p) <= size (bs_buffer s)) ps).
Proof.
  induction fuel as [|fuel IH]; intros room reads s Hok Hf; [lia|]. cbn [bpf_loop].
  destruct room as [|room']; [apply ensures_Ok; split_and!; [done|done|lia|cbn; lia|constructor]|].
  destruct ((bs_used s <=? bs_offset s) && _) eqn:Hstop; [apply ensures_Ok; split_and!; [done|done|lia|cbn; lia|constructor]|].
  set (next := match reads with d :: reads' => _ | [] => _ end).
  assert (exists s1 reads1, next = (s1, reads1) /\ bpf_ok s1 /\ size (bs_buffer s1) = size (bs_buffer s) /\ (bs_reads s <= bs_reads s1)%nat /\
    (S room' + 2 * length reads1 < fuel)%nat) as (s1 & reads1 & -> & Hok1 & Hsz1 & Hr1 & Hf1).
  { unfold next, drained in *. destruct (bs_used s <=? bs_offset s) eqn:E; cbn [andb] in Hstop.
    - destruct reads as [|d reads']; [done|]. destruct (bpf_read_ok s d Hok) as [H1 H2]. exists (bpf_read s d), reads'.
      split_and!; [done|done|done|cbn; lia|cbn in *; lia].
    - exists s, reads. split_and!; [by destruct reads|done|done|lia|lia]. }
  assert (forall off, drained (mkBpfSource (bs_buffer s1) (bs_used s1) off (bs_reads s1)) <= 1)%nat as Hd1 by (intros off; unfold drained; cbn; destruct (bs_used s1 <=? off); lia).
  assert (drained (mkBpfSource (bs_buffer s1) (bs_used s1) (bs_used s1) (bs_reads s1)) = 0)%nat as Hd0 by (unfold drained; cbn; by rewrite Z.leb_refl).
  assert (ensures (bpf_loop fuel (S room') reads1 (mkBpfSource (bs_buffer s1) (bs_used s1) (bs_used s1) (bs_reads s1)))
    (fun '(ps, s') => bpf_ok s' /\ size (bs_buffer s') = size (bs_buffer s) /\ (bs_reads s <= bs_reads s')%nat /\ (length ps <= S room')%nat /\
    Forall (fun p => (bs_reads s <= bv_read (bp_data p) <= bs_reads s')%nat /\ 0 <= bv_off (bp_data p) /\
      bv_off (bp_data p) + bv_len (bp_data p) <= size (bs_buffer s)) ps)) as Hskip.
  { eapply ensures_mono; [apply IH; [destruct Hok1 as (H1 & H2); split; cbn; lia|rewrite Hd0; lia]|].
    intros [ps s'] (H1 & H2 & Hm & H3 & H4). cbn in H2, Hm. split_and!; [done|lia|lia|done|]. revert H4. apply Forall_impl. cbn. intros p. rewrite Hsz1. lia. }
  destruct Hok1 as (Ho1 & Hu1). pose proof bpf_sizeof_pos. destruct (Z.ltb_spec (bs_used s1) (bs_offset s1 + bpf_sizeof)); [exact Hskip|].
  rewrite subspan_Ok, bind_Ok by lia. set (hdr := bpf_decode _). destruct (bpf_decode_range (slice (bs_offset s1) bpf_sizeof (bs_buffer s1))) as [Hc Hh].
  fold hdr in Hc, Hh. cbn zeta. destruct (Z.ltb_spec (bs_used s1) (bs_offset s1 + bh_hdrlen hdr + bh_caplen hdr)); [exact Hskip|].
  rewrite subspan_Ok, bind_Ok by lia. pose proof (bpf_wordalign_le (bh_hdrlen hdr + bh_caplen hdr)).
  eapply ensures_bind; [apply IH; [split; cbn; lia|]|].
  { specialize (Hd1 (bs_offset s1 + bpf_wordalign (bh_hdrlen hdr + bh_caplen hdr))). lia. }
  intros [ps s'] (Hk & Hb & Hm & Hl & Hall). cbn [bs_buffer bs_reads] in Hb, Hm. apply ensures_Ok. split_and!; [done|lia|lia|cbn; lia|].
  constructor; [cbn; lia|]. revert Hall. apply Forall_impl. cbn. intros p. rewrite Hsz1. lia.
Qed.

(** What a packet reads as. *)
Definition bpf_bytes (s : BpfSource) (p : BpfPacket) : Bytes := slice (bv_off (bp_data p)) (bv_len (bp_data p)) (bs_buffer s).
End Bpf.

(** A minimal layout: one byte of header length, one byte of capture length. *)
Definition tiny_decode (b : Bytes) : BpfHdr := mkBpfHdr 0 0 (byte_at b 1) (byte_at b 1) (byte_at b 0).
Lemma tiny_range b : 0 <= bh_caplen (tiny_decode b) < 2 ^ 32 /\ 0 <= bh_hdrlen (tiny_decode b) < 2 ^ 16.
Proof. pose proof (byte_at_range b 0). pose proof (byte_at_range b 1). cbn. lia. Qed.
#[export] Instance tiny_abi : BpfAbi := {|
  bpf_sizeof := 2; bpf_decode := tiny_decode; bpf_wordalign x := x;
  bpf_sizeof_pos := eq_refl; bpf_decode_range := tiny_range; bpf_wordalign_le := Z.le_refl
|}.

(** When the buffer runs out within a batch it is read again, over the packets the
    batch has already handed out: the first packet of two ([0x0a]) has become the
    second ([0x0b]). *)
Example bpf_second_read_overwrites :
  exists ps s, bpf_next_batch false 3 (mkBpfSource (replicate 8 x00) 0 0 0) 4 [[x02; x01; x0a]; [x02; x01; x0b]] = Ok (ps, s) /\
    map (bpf_bytes s) ps = [[x0b]; [x0b]].
Proof. eexists _, _. split; vm_compute; reflexivity. Qed.
