(* ===== verification/Threads.v ===== *)
(** * src/main.cpp, src/meter_thread.cpp: the three threads

    The main thread (start, ingest loop, stop), the metering thread and the
    reporter thread as programs with a program counter, each advanced by one
    action at a time, in any interleaving; and the environment: a signal, and
    readers that ask for the detail tables.  An action is one ring operation or
    one engine operation, with the bookkeeping around it: the threads share only
    the rings (each with one producer and one consumer, see [SpscRing.spsc_fifo]),
    the flags and the record counters.  In particular the reporter's pops fall
    between engine operations, not between the records of one sweep.

    [fwrite_ok k] says whether the [k]-th line of the record file is written;
    packets come in batches with the timestamps the ingest loop gives them. *)

From S2P Require Import Prelude ByteOrder SpscRing FlatHash MeterEvent UsageRecord Session Meter MeterLedger.
From S2P Require Import Pipeline PipelineProps Histogram Snapshot TopN DetailScan Runtime RuntimeProps Pcap Replay.

Abbreviation batch := (list (PcapPacket * Z)).

(** [main], from [runtime.start()] on. *)
Inductive MainPc :=
| MainStart (batches : list batch)
| MainRun (current : batch) (batches : list batch)
| MainStop
| MainJoinMeter
| MainJoinReporter
| MainDrain
| MainDone.

(** [meter_loop]; [idle] is [n == 0]. *)
Inductive MeterPc :=
| MeterOff
| MeterPop
| MeterBatch (rest : list MeterEvent)
| MeterGy (idle : bool)
| MeterPoll (idle : bool)
| MeterCheck
| MeterFlush
| MeterDone.

(** [reporter_loop]. *)
Inductive ReporterPc := ReporterOff | ReporterCheck | ReporterDrain | ReporterFinal | ReporterDone.

Record System (M R R1 R2 : Type) := mkSystem {
  sy_rt : Runtime M R R1 R2;
  sy_running : bool;
  sy_g_stop : bool;
  sy_meter_stop : bool;
  sy_reporter_stop : bool;
  sy_main : MainPc;
  sy_meter : MeterPc;
  sy_reporter : ReporterPc;
  sy_writes : nat
}.
Arguments mkSystem {M R R1 R2}.
Arguments sy_rt {M R R1 R2}.
Arguments sy_running {M R R1 R2}.
Arguments sy_g_stop {M R R1 R2}.
Arguments sy_meter_stop {M R R1 R2}.
Arguments sy_reporter_stop {M R R1 R2}.
Arguments sy_main {M R R1 R2}.
Arguments sy_meter {M R R1 R2}.
Arguments sy_reporter {M R R1 R2}.
Arguments sy_writes {M R R1 R2}.
#[export] Instance System_eta {M R R1 R2} : Eta (System M R R1 R2) := fun s =>
  mkSystem (sy_rt s) (sy_running s) (sy_g_stop s) (sy_meter_stop s) (sy_reporter_stop s) (sy_main s) (sy_meter s)
    (sy_reporter s) (sy_writes s).

Section Threads.
Context {HE : HostEndian} {AL : Algorithms} {M R R1 R2 : Type}.
Context {KT : KeyTable TeidBinding M} {BQ : BoundedQueue UsageRecord R}.
Context {Q1 : BoundedQueue MeterEvent R1} {Q2 : BoundedQueue GyEvent R2}.
Context (wall_ns now_ns publish_wall : nat -> Z) (rank : Z -> Z -> Z).
Context (link_type : Z) (start_ns : Z) (opened : option (list UsageRecord)) (fwrite_ok : nat -> bool).
Abbreviation runtime := (Runtime M R R1 R2).
Abbreviation system := (System M R R1 R2).

(** Before [runtime.start()]. *)
Definition system_init (rt : runtime) (batches : list batch) : system :=
  mkSystem rt false false false false (MainStart batches) MeterOff ReporterOff 0.

(** What [drain_records] does with a record. *)
Definition write_record (k : nat) (rt : runtime) (rec : UsageRecord) : nat * runtime :=
  match rt_records_file rt with
  | None => (k, rt <| rt_records_written ::= incr |>)
  | Some f =>
      if fwrite_ok k then (S k, rt <| rt_records_file := Some (f ++ [rec]) |> <| rt_records_written ::= incr |>)
      else (S k, rt <| rt_record_write_errors ::= incr |>)
  end.

(** One turn of the loop of [drain_records]: whether it goes on. *)
Definition report_one (k : nat) (rt : runtime) : res (bool * nat * runtime) :=
  match record_sink_ (rt_engine rt) with
  | None => UB
  | Some q =>
      let* (o, q) := q_pop q in
      let rt := rt <| rt_engine ::= fun e => e <| record_sink_ := Some q |> |> in
      match o with
      | None => Ok (false, k, rt)
      | Some rec => let '(k, rt) := write_record k rt rec in Ok (true, k, rt)
      end
  end.

(** One action of each thread; [None] for a thread that waits or has ended. *)
Definition main_step (s : system) : res (option system) :=
  match sy_main s with
  | MainStart batches =>
      if sy_running s then Ok (Some (s <| sy_main := MainRun [] batches |>)) else
      Ok (Some (s <| sy_running := true |> <| sy_rt ::= fun rt => start rt opened start_ns |>
        <| sy_meter_stop := false |> <| sy_reporter_stop := false |>
        <| sy_meter := MeterPop |> <| sy_reporter := ReporterCheck |> <| sy_main := MainRun [] batches |>))
  | MainRun ((p, ts) :: current) batches =>
      let* i := ingest_packet (rt_ingest (sy_rt s)) link_type p ts in
      Ok (Some (s <| sy_rt ::= fun rt => rt <| rt_ingest := i |> |> <| sy_main := MainRun current batches |>))
  | MainRun [] batches =>
      if sy_g_stop s then Ok (Some (s <| sy_main := MainStop |>)) else
      match batches with
      | [] => Ok (Some (s <| sy_main := MainStop |>))
      | b :: batches => Ok (Some (s <| sy_main := MainRun b batches |>))
      end
  | MainStop =>
      if sy_running s then Ok (Some (s <| sy_running := false |> <| sy_meter_stop := true |> <| sy_main := MainJoinMeter |>))
      else Ok (Some (s <| sy_main := MainDone |>))
  | MainJoinMeter =>
      match sy_meter s with
      | MeterDone => Ok (Some (s <| sy_reporter_stop := true |> <| sy_main := MainJoinReporter |>))
      | _ => Ok None
      end
  | MainJoinReporter =>
      match sy_reporter s with ReporterDone => Ok (Some (s <| sy_main := MainDrain |>)) | _ => Ok None end
  | MainDrain =>
      let* (res, rt) := report_one (sy_writes s) (sy_rt s) in
      let s := s <| sy_rt := rt |> <| sy_writes := res.2 |> in
      Ok (Some (if (res.1 : bool) then s else s <| sy_main := MainDone |>))
  | MainDone => Ok None
  end.

Definition meter_step (s : system) : res (option system) :=
  let rt := sy_rt s in
  match sy_meter s with
  | MeterOff | MeterDone => Ok None
  | MeterPop =>
      match meter_ring_ (rt_ingest rt) with
      | None => UB
      | Some q =>
          let* (batch, q) := q_pop_bulk q (meter_batch (rt_cfg rt)) in
          let rt := rt <| rt_ingest ::= fun i => i <| meter_ring_ := Some q |> |> in
          Ok (Some (match batch with
            | [] => s <| sy_rt := rt <| rt_meter_idle_polls ::= incr |> |> <| sy_meter := MeterGy true |>
            | _ => s <| sy_rt := rt <| rt_meter_batches ::= incr |> |> <| sy_meter := MeterBatch batch |>
            end))
      end
  | MeterBatch [] => Ok (Some (s <| sy_meter := MeterGy false |>))
  | MeterBatch (ev :: rest) =>
      let* e := apply (rt_engine rt) ev in
      let* rt := sample_latency now_ns (rt <| rt_engine := e |>) ev in
      Ok (Some (s <| sy_rt := rt |> <| sy_meter := MeterBatch rest |>))
  | MeterGy idle =>
      match gy_ring_ (rt_ingest rt) with
      | None => UB
      | Some q =>
          let* (o, q) := q_pop q in
          let rt := rt <| rt_ingest ::= fun i => i <| gy_ring_ := Some q |> |> in
          match o with
          | None => Ok (Some (s <| sy_rt := rt |> <| sy_meter := MeterPoll idle |>))
          | Some g => let* e := apply_gy (rt_engine rt) g in Ok (Some (s <| sy_rt := rt <| rt_engine := e |> |>))
          end
      end
  | MeterPoll idle =>
      let '(now, rt) := read_clock now_ns rt in
      let* e := poll wall_ns (rt_engine rt) now in
      let rt := rt <| rt_engine := e |> in
      let* rt := (if publish_interval_ns (rt_cfg rt) <=? sub64 now (rt_last_publish_ns rt)
                  then publish_locked publish_wall rank rt now else Ok rt) in
      Ok (Some (s <| sy_rt := rt |> <| sy_meter := if (idle : bool) then MeterCheck else MeterPop |>))
  | MeterCheck =>
      Ok (Some (s <| sy_meter :=
        if sy_meter_stop s && (depth_of (meter_ring_ (rt_ingest rt)) =? 0) && (depth_of (gy_ring_ (rt_ingest rt)) =? 0)
        then MeterFlush else MeterPop |>))
  | MeterFlush =>
      let* rt := meter_flush wall_ns now_ns publish_wall rank rt in
      Ok (Some (s <| sy_rt := rt |> <| sy_meter := MeterDone |>))
  end.

Definition reporter_step (s : system) : res (option system) :=
  match sy_reporter s with
  | ReporterOff | ReporterDone => Ok None
  | ReporterCheck => Ok (Some (s <| sy_reporter := if sy_reporter_stop s then ReporterFinal else ReporterDrain |>))
  | ReporterDrain =>
      let* (res, rt) := report_one (sy_writes s) (sy_rt s) in
      let s := s <| sy_rt := rt |> <| sy_writes := res.2 |> in
      Ok (Some (if (res.1 : bool) then s else s <| sy_reporter := ReporterCheck |>))
  | ReporterFinal =>
      let* (res, rt) := report_one (sy_writes s) (sy_rt s) in
      let s := s <| sy_rt := rt |> <| sy_writes := res.2 |> in
      Ok (Some (if (res.1 : bool) then s else s <| sy_reporter := ReporterDone |>))
  end.

(** Interleavings. *)
Inductive sys_step (s : system) : system -> Prop :=
| by_main s' : main_step s = Ok (Some s') -> sys_step s s'
| by_meter s' : meter_step s = Ok (Some s') -> sys_step s s'
| by_reporter s' : reporter_step s = Ok (Some s') -> sys_step s s'
| by_signal : sys_step s (s <| sy_g_stop := true |>)
| by_reader now : sys_step s (s <| sy_rt ::= fun rt => request_detail rt now |>).

Definition sys_steps : system -> system -> Prop := rtc sys_step.

(** [report_one] is the body of [drain_records]. *)
Lemma drain_records_report fuel k rt : drain_records fwrite_ok (S fuel) k rt =
  let* (res, rt) := report_one k rt in if (res.1 : bool) then drain_records fwrite_ok fuel res.2 rt else Ok rt.
Proof.
  cbn [drain_records]. unfold report_one. destruct (record_sink_ (rt_engine rt)) as [q|]; [|done].
  destruct (q_pop q) as [[o q']| |]; [|done|done]. rewrite !bind_Ok. destruct o as [rec|]; [|done].
  unfold write_record. destruct (rt_records_file _); [|done]. by destruct (fwrite_ok k).
Qed.

(** The actions of the metering thread, run without interruption, are an iteration
    of its loop. *)
Definition meter_acts_alone (s s' : system) : Prop := meter_step s = Ok (Some s').

Lemma batch_loop_actions b : forall s rt', batch_loop now_ns (sy_rt s) b = Ok rt' -> sy_meter s = MeterBatch b ->
  rtc meter_acts_alone s (s <| sy_rt := rt' |> <| sy_meter := MeterGy false |>).
Proof.
  induction b as [|ev b IH]; intros s rt' H Hpc; cbn [batch_loop] in H.
  - injection H as <-. apply rtc_once. unfold meter_acts_alone, meter_step. rewrite Hpc. by destruct s.
  - apply bind_Ok_inv in H as (e & He & H). apply bind_Ok_inv in H as (rt1 & Hl & H).
    apply rtc_l with (s <| sy_rt := rt1 |> <| sy_meter := MeterBatch b |>).
    + unfold meter_acts_alone, meter_step. rewrite Hpc, He, bind_Ok, Hl, bind_Ok. done.
    + exact (IH (s <| sy_rt := rt1 |> <| sy_meter := MeterBatch b |>) rt' H eq_refl).
Qed.

Lemma gy_drain_actions idle : forall fuel s rt', gy_drain fuel (sy_rt s) = Ok rt' -> sy_meter s = MeterGy idle ->
  rtc meter_acts_alone s (s <| sy_rt := rt' |> <| sy_meter := MeterPoll idle |>).
Proof.
  induction fuel as [|fuel IH]; intros s rt' H Hpc; cbn [gy_drain] in H; [done|].
  destruct (gy_ring_ (rt_ingest (sy_rt s))) as [q|] eqn:Hq; [|done]. apply bind_Ok_inv in H as ([o q'] & Hp & H).
  destruct o as [g|].
  - apply bind_Ok_inv in H as (e & He & H). set (rt1 := setf rt_engine _ _) in H.
    apply rtc_l with (s <| sy_rt := rt1 |> <| sy_meter := MeterGy idle |>).
    + unfold meter_acts_alone, meter_step. rewrite Hpc, Hq, Hp, bind_Ok. cbn zeta. rewrite He, bind_Ok. destruct s. cbn in Hpc. by subst.
    + exact (IH (s <| sy_rt := rt1 |> <| sy_meter := MeterGy idle |>) rt' H eq_refl).
  - injection H as <-. apply rtc_once. unfold meter_acts_alone, meter_step. by rewrite Hpc, Hq, Hp, bind_Ok.
Qed.

Lemma iteration_actions s leave rt' : meter_iteration wall_ns now_ns publish_wall rank (sy_meter_stop s) (sy_rt s) = Ok (leave, rt') ->
  sy_meter s = MeterPop ->
  rtc meter_acts_alone s (s <| sy_rt := rt' |> <| sy_meter := if leave : bool then MeterFlush else MeterPop |>).
Proof.
  unfold meter_iteration. destruct (meter_ring_ (rt_ingest (sy_rt s))) as [q|] eqn:Hq; [|done].
  intros ([b q'] & Hpop & H)%bind_Ok_inv Hpc. set (rt1 := setf rt_ingest _ (sy_rt s)) in H. cbn zeta in H.
  apply bind_Ok_inv in H as (rt2 & Hb & H). apply bind_Ok_inv in H as (rt3 & Hgy & H). unfold read_clock in H. set (now := now_ns _) in H.
  set (rt4 := setf rt_clock_reads _ rt3) in H. apply bind_Ok_inv in H as (e & He & H). apply bind_Ok_inv in H as (rt6 & Hpub & H).
  injection H as <- <-. set (idle := size b =? 0) in *.
  assert (rtc meter_acts_alone s (s <| sy_rt := rt2 |> <| sy_meter := MeterGy idle |>)) as H1.
  { unfold idle in *. destruct b as [|ev b].
    - injection Hb as <-. apply rtc_once. unfold meter_acts_alone, meter_step. by rewrite Hpc, Hq, Hpop, bind_Ok.
    - assert ((size (ev :: b) =? 0) = false) as E by (rewrite size_cons; apply Z.eqb_neq; pose proof (size_nonneg b); lia).
      rewrite E in *. cbn [negb] in Hb. set (rt1' := setf rt_meter_batches _ rt1) in Hb.
      apply rtc_l with (s <| sy_rt := rt1' |> <| sy_meter := MeterBatch (ev :: b) |>).
      + unfold meter_acts_alone, meter_step. by rewrite Hpc, Hq, Hpop, bind_Ok.
      + exact (batch_loop_actions (ev :: b) (s <| sy_rt := rt1' |> <| sy_meter := MeterBatch (ev :: b) |>) rt2 Hb eq_refl). }
  assert (rtc meter_acts_alone s (s <| sy_rt := rt3 |> <| sy_meter := MeterPoll idle |>)) as H2.
  { etransitivity; [exact H1|]. exact (gy_drain_actions idle _ (s <| sy_rt := rt2 |> <| sy_meter := MeterGy idle |>) rt3 Hgy eq_refl). }
  assert (rtc meter_acts_alone s (s <| sy_rt := rt6 |> <| sy_meter := if idle then MeterCheck else MeterPop |>)) as H3.
  { assert (forall s0 : system, sy_meter s0 = MeterPoll idle -> sy_rt s0 = rt3 ->
      meter_step s0 = Ok (Some (s0 <| sy_rt := rt6 |> <| sy_meter := if idle then MeterCheck else MeterPop |>))) as Hstep.
    { intros s0 Hp Hr. unfold meter_step. rewrite Hp, Hr. unfold read_clock. fold now. fold rt4. rewrite He, bind_Ok. cbn zeta. by rewrite Hpub, bind_Ok. }
    etransitivity; [exact H2|]. apply rtc_once. exact (Hstep (s <| sy_rt := rt3 |> <| sy_meter := MeterPoll idle |>) eq_refl eq_refl). }
  destruct idle; cbn [andb]; [|exact H3]. eapply rtc_r; [exact H3|]. unfold meter_acts_alone, meter_step. done.
Qed.
End Threads.
