(* ===== verification/ThreadsProps.v ===== *)
(** * The threads together

    The invariant of the interleaved system, and what holds when it has stopped:
    whatever the schedule, every event on the rings is applied exactly once and in
    order, every charged byte is billed in a usage record, and every record that
    was kept has reached the record file or is counted as a failed write. *)

From S2P Require Import Prelude ByteOrder SpscRing FlatHash MeterEvent UsageRecord Session Meter MeterProps MeterControl MeterLedger.
From S2P Require Import Pipeline PipelineProps Histogram Snapshot TopN DetailScan DetailProps Runtime RuntimeProps Pcap Replay Threads.

(** Events off the ring that are not applied yet. *)
Definition in_hand (pc : MeterPc) : list MeterEvent := match pc with MeterBatch rest => rest | _ => [] end.

(** The packets the main thread still has to hand over. *)
Definition to_ingest (pc : MainPc) : list (PcapPacket * Z) :=
  match pc with MainStart bs => concat bs | MainRun cur bs => cur ++ concat bs | _ => [] end.
Definition packet_ok (p : PcapPacket * Z) : Prop := size (p_data p.1) < 2 ^ 63 /\ 0 <= p.2 < UINT64_MAX.

Lemma written_snoc ok r : forall l k, written ok k (l ++ [r]) = written ok k l ++ (if ok (k + length l)%nat then [r] else []).
Proof.
  induction l as [|x l IH]; intros k; cbn [written app length]; [by rewrite Nat.add_0_r, app_nil_r|].
  rewrite IH, <- app_assoc. by rewrite Nat.add_succ_r.
Qed.

Section Props.
Context {HE : HostEndian} {AL : Algorithms} {M R R1 R2 : Type}.
Context {KT : KeyTable TeidBinding M} {BQ : BoundedQueue UsageRecord R}.
Context {Q1 : BoundedQueue MeterEvent R1} {Q2 : BoundedQueue GyEvent R2}.
Context (wall_ns now_ns publish_wall : nat -> Z) (rank : Z -> Z -> Z).
Context (link_type : Z) (start_ns : Z) (opened : option (list UsageRecord)) (fwrite_ok : nat -> bool).
Abbreviation runtime := (Runtime M R R1 R2).
Abbreviation system := (System M R R1 R2).
Abbreviation engine := (MeterEngine M R).
Abbreviation ingest := (Ingest R1 R2).
Abbreviation main_step := (main_step link_type start_ns opened fwrite_ok).
Abbreviation meter_step := (meter_step wall_ns now_ns publish_wall rank).
Abbreviation reporter_step := (reporter_step fwrite_ok).
Abbreviation sys_step := (sys_step wall_ns now_ns publish_wall rank link_type start_ns opened fwrite_ok).
Abbreviation sys_steps := (sys_steps wall_ns now_ns publish_wall rank link_type start_ns opened fwrite_ok).

(** ** What the actions change *)

Definition file_state (rt : runtime) : option (list UsageRecord) * Z * Z :=
  (rt_records_file rt, rt_records_written rt, rt_record_write_errors rt).

Lemma sample_latency_files (rt rt' : runtime) ev : sample_latency now_ns rt ev = Ok rt' -> file_state rt' = file_state rt.
Proof.
  unfold sample_latency, read_clock. repeat case_match; try (by intros [= <-]).
  all: intros (h & _ & [= <-])%bind_Ok_inv; done.
Qed.

Lemma publish_files (rt rt' : runtime) now : publish_locked publish_wall rank rt now = Ok rt' ->
  file_state rt' = file_state rt.
Proof. unfold publish_locked. case_match; [intros (d & _ & [= <-])%bind_Ok_inv|intros [= <-]]; done. Qed.

Lemma flush_files (rt rt' : runtime) : meter_flush wall_ns now_ns publish_wall rank rt = Ok rt' ->
  file_state rt' = file_state rt /\ rt_ingest rt' = rt_ingest rt.
Proof.
  unfold meter_flush, read_clock. intros ([n e] & _ & Hp)%bind_Ok_inv. split; [by apply publish_files in Hp|].
  revert Hp. unfold publish_locked. case_match; [intros (d & _ & [= <-])%bind_Ok_inv|intros [= <-]]; done.
Qed.

(** A packet puts its events behind those on the rings and counts them. *)
Definition feeds (s s' : ingest) : Prop := exists evs gys, pushes s s' evs gys /\ Forall sound_event evs /\
  u64 (in_events_pushed (in_stats_ s')) = u64 (in_events_pushed (in_stats_ s) + size evs).

Lemma ip_feeds (s s' : ingest) pkt ts wire o : ip_post s pkt ts wire o s' -> 0 <= ts < UINT64_MAX -> feeds s s'.
Proof.
  intros Hip Hts. destruct Hip as [ni np -> Hsum Hp Hc|outer _ _ _ _ Hg|Hpd (Hgy & Hfc & Ho)].
  - exists [], []. split_and!; [done|constructor|apply Hc].
  - destruct Hg as [st h _ _ -> Hp Hc|h inner ev ok _ _ Hev Hroom Hp -> Hc].
    + exists [], []. split_and!; [done|constructor|apply Hc].
    + exists (if ok then [ev] else []), []. split_and!; [done| |destruct ok; apply Hc].
      destruct ok; [|constructor]. constructor; [|constructor]. unfold UINT64_MAX in Hts.
      split; [apply (eo_ok _ _ _ _ _ _ Hev); lia|]. destruct (eo_ids _ _ _ _ _ _ Hev) as [-> _]. unfold UINT64_MAX. lia.
  - destruct Hgy as [gys Hp]. exists [], gys. split_and!; [done|constructor|apply (counts_same _ _ Hfc)].
Qed.

Lemma packet_feeds (s : ingest) p ts : rings_ok s -> packet_ok (p, ts) ->
  ensures (ingest_packet s link_type p ts) (feeds s).
Proof.
  intros Hr [Hs Hts]. cbn in Hs, Hts. unfold ingest_packet. eapply ensures_bind; [apply strip_link_layer_spec|]. intros l Hl. cbn in Hl.
  destruct (ll_valid l); cbn [negb].
  2: { apply ensures_Ok. exists [], []. split_and!; [apply pushes_refl|constructor|by rewrite size_nil, Z.add_0_r]. }
  destruct (ll_is_ethernet l).
  - eapply ensures_bind; [apply (process_frame_spec s (ll_payload l) ts Hr); lia|].
    intros [o s'] (e & g & ? & ? & ? & ? & ? & ? & ? & Hp & Hc & _ & <- & Hok & _)%frame_summary. apply ensures_Ok. exists e, g.
    split_and!; [done| |apply Hc]. unfold UINT64_MAX in Hts. specialize (Hok ltac:(lia)). revert Hok. apply Forall_impl.
    intros ev [? Ht]. split; [done|unfold UINT64_MAX; lia].
  - eapply ensures_bind; [apply (process_ip_spec s (ll_payload l) ts _ Hr); lia|].
    intros [o s'] Hp. apply ensures_Ok. by eapply ip_feeds.
Qed.

(** ** The invariant *)

Definition meter_live (pc : MeterPc) : Prop := pc <> MeterOff /\ pc <> MeterFlush /\ pc <> MeterDone.
Definition reporter_live (pc : ReporterPc) : Prop := pc = ReporterCheck \/ pc = ReporterDrain.

(** How far the threads are when the main thread is at its program counter. *)
Definition pcs_ok (s : system) : Prop :=
  match sy_main s with
  | MainStart _ => sy_running s = false /\ sy_meter s = MeterOff /\ sy_reporter s = ReporterOff
  | MainRun _ _ | MainStop => sy_running s = true /\ sy_meter_stop s = false /\ sy_reporter_stop s = false /\
      meter_live (sy_meter s) /\ reporter_live (sy_reporter s)
  | MainJoinMeter => sy_meter_stop s = true /\ sy_reporter_stop s = false /\ sy_meter s <> MeterOff /\ reporter_live (sy_reporter s)
  | MainJoinReporter => sy_reporter_stop s = true /\ sy_meter s = MeterDone /\ sy_reporter s <> ReporterOff
  | MainDrain | MainDone => sy_meter s = MeterDone /\ sy_reporter s = ReporterDone
  end.

Definition settled (e : engine) : Prop := forall i, pend UlBytes e i = 0 /\ pend DlBytes e i = 0.

(** The record file after [out] has been taken off the record ring. *)
Definition filed_as (rt : runtime) (writes : nat) (out : list UsageRecord) : Prop :=
  match opened with
  | None => rt_records_file rt = None /\ u64 (rt_records_written rt) = u64 (size out)
  | Some f0 => let lines := written fwrite_ok 0 out in
      rt_records_file rt = Some (f0 ++ lines) /\ writes = length out /\
      u64 (rt_records_written rt) = u64 (size lines) /\
      u64 (rt_record_write_errors rt) = u64 (size out - size lines)
  end.
Definition filed (s : system) (out : list UsageRecord) : Prop :=
  match sy_main s with
  | MainStart _ => file_state (sy_rt s) = (None, 0, 0) /\ out = [] /\ sy_writes s = 0%nat
  | _ => filed_as (sy_rt s) (sy_writes s) out
  end.

Lemma u64_succ a b : u64 a = u64 b -> u64 (incr a) = u64 (b + 1).
Proof. intros H. by rewrite u64_incr, <- u64_add_u64_l, H, u64_add_u64_l. Qed.

Lemma write_filed (rt : runtime) k out rec : filed_as rt k out ->
  filed_as (write_record fwrite_ok k rt rec).2 (write_record fwrite_ok k rt rec).1 (out ++ [rec]).
Proof.
  unfold filed_as, write_record. destruct opened as [f0|].
  - intros (Hf & -> & Hw & He). rewrite Hf, written_snoc, Nat.add_0_l. rewrite !size_app, length_app.
    destruct (fwrite_ok (length out)); cbn -[size]; change (size [rec]) with 1; rewrite ?(@size_nil UsageRecord), ?app_assoc, ?app_nil_r, ?Z.add_0_r;
      (split_and!; [done|lia| |]); try done.
    + by apply u64_succ.
    + rewrite He. f_equal. lia.
    + rewrite (u64_succ _ _ He). f_equal. lia.
  - intros [Hf Hw]. rewrite Hf. cbn. split; [done|]. rewrite size_app. by apply u64_succ.
Qed.

(** What happened before a state: the engine the threads started with, and the
    events and Gy reports the main thread has put on the rings since. *)
Record history := mkHistory { h_engine : engine; h_events : list MeterEvent; h_gys : list GyEvent }.
Definition extend (h : history) (new : list MeterEvent) (newg : list GyEvent) : history :=
  mkHistory (h_engine h) (h_events h ++ new) (h_gys h ++ newg).

(** The engine operations of the threads: those of the metering loop, its final
    drain, and the reporter taking a record. *)
Definition thread_op (o : op) : Prop :=
  match o with OpApply _ | OpGy _ | OpPoll _ | OpDrain _ | OpTake => True | _ => False end.

(** [ops] has been run on the engine, [out] taken off the record ring; the rings
    hold [evs] and [gys].  What was put on the event ring is what was applied,
    what the metering thread has in hand and what is still queued, in this order. *)
Record sys_ok (h : history) (s : system) (ops : list op) (out : list UsageRecord) (evs : list MeterEvent) (gys : list GyEvent) : Prop := {
  so_run : run wall_ns (h_engine h) ops = Ok (out, rt_engine (sy_rt s));
  so_ops : Forall op_ok ops /\ Forall thread_op ops;
  so_rt : rt_ok (sy_rt s) evs gys;
  so_hand : Forall sound_event (in_hand (sy_meter s));
  so_history : h_events h = applied ops ++ in_hand (sy_meter s) ++ evs /\ h_gys h = reported ops ++ gys /\
    u64 (in_events_pushed (in_stats_ (rt_ingest (sy_rt s)))) = u64 (size (h_events h));
  so_todo : Forall packet_ok (to_ingest (sy_main s));
  so_filed : filed s out;
  so_pcs : pcs_ok s;
  so_sink : exists queued, records_queued (sy_rt s) queued /\ (sy_reporter s = ReporterDone -> queued = []);
  so_flushed : sy_meter s = MeterFlush \/ sy_meter s = MeterDone -> evs = [] /\ gys = [];
  so_settled : sy_meter s = MeterDone -> settled (rt_engine (sy_rt s));
  so_reporter : sy_reporter s = ReporterFinal \/ sy_reporter s = ReporterDone -> sy_meter s = MeterDone
}.

Definition sys_inv (h : history) (s : system) : Prop := exists ops out evs gys, sys_ok h s ops out evs gys.

Lemma run_then e0 ops out (e : engine) ops' e' : run wall_ns e0 ops = Ok (out, e) -> ran wall_ns e ops' e' ->
  run wall_ns e0 (ops ++ ops') = Ok (out, e').
Proof. intros H1 H2. rewrite run_app, H1, bind_Ok, H2, bind_Ok. by rewrite app_nil_r. Qed.

(** The record ring stays, with what an operation keeps behind and [out] taken off. *)
Lemma exec_queued (e e' : engine) o out q l : good e -> op_ok o -> exec wall_ns e o = Ok (out, e') ->
  record_sink_ e = Some q -> q_repr q l -> exists q' l' kept, record_sink_ e' = Some q' /\ q_repr q' l' /\ l ++ kept = out ++ l'.
Proof.
  intros Hg Ho Hex Hq Hl. destruct (exec_spec wall_ns e o Hg Ho) as ([out' e1] & Hex' & _ & recs & kept & [_ _ Hs _ _ _]).
  rewrite Hex in Hex'. injection Hex' as <- <-. unfold sink_moved in Hs. rewrite Hq in Hs. destruct (record_sink_ e') as [q'|]; [|done].
  destruct (Hs l Hl) as (l' & Hl' & E). by exists q', l', kept.
Qed.

Lemma ran_queued ops : forall (e e' : engine) q l, good e -> Forall op_ok ops -> ran wall_ns e ops e' ->
  record_sink_ e = Some q -> q_repr q l -> exists q' l', record_sink_ e' = Some q' /\ q_repr q' l'.
Proof.
  unfold ran. induction ops as [|o ops IH]; intros e e' q l Hg Hops Hrun Hq Hl; cbn [run] in Hrun; [injection Hrun as <-; eauto|].
  apply Forall_cons_iff in Hops as [Ho Hops]. apply bind_Ok_inv in Hrun as ([o1 e1] & Hex & Hrun). apply bind_Ok_inv in Hrun as ([o2 e2] & Hrun & Heq).
  injection Heq as Hnil <-. apply app_eq_nil in Hnil as [-> ->].
  destruct (exec_queued e e1 o [] q l Hg Ho Hex Hq Hl) as (q1 & l1 & _ & Hq1 & Hl1 & _).
  destruct (exec_spec wall_ns e o Hg Ho) as ([out' e1'] & Hex' & Hg1 & _). rewrite Hex in Hex'. injection Hex' as <- <-.
  by eapply IH.
Qed.

(** The metering thread moves from [pc] to [pc'] by running [ops']. *)
Definition pc_reaches (s : system) (pc' : MeterPc) (evs' : list MeterEvent) (gys' : list GyEvent) (e' : engine) : Prop :=
  pc' <> MeterOff /\ (pc' = MeterFlush -> sy_meter_stop s = true /\ evs' = [] /\ gys' = []) /\
  (pc' = MeterDone -> sy_meter s = MeterFlush /\ evs' = [] /\ gys' = [] /\ settled e').

Lemma meter_moved h s ops out evs gys rt' pc' ops' evs' gys' : sys_ok h s ops out evs gys ->
  sy_meter s <> MeterOff -> sy_meter s <> MeterDone ->
  ran wall_ns (rt_engine (sy_rt s)) ops' (rt_engine rt') -> Forall op_ok ops' /\ Forall thread_op ops' -> rt_ok rt' evs' gys' ->
  file_state rt' = file_state (sy_rt s) -> in_stats_ (rt_ingest rt') = in_stats_ (rt_ingest (sy_rt s)) ->
  Forall sound_event (in_hand pc') -> applied ops' ++ in_hand pc' ++ evs' = in_hand (sy_meter s) ++ evs -> reported ops' ++ gys' = gys ->
  pc_reaches s pc' evs' gys' (rt_engine rt') ->
  sys_ok h (s <| sy_rt := rt' |> <| sy_meter := pc' |>) (ops ++ ops') out evs' gys'.
Proof.
  intros [Hrun [Hops Hth] Hrt Hhand (HE1 & HE2 & Hpush) Htodo Hfile Hpcs (ql & (q & Hq & Hl) & _) Hfl Hset Hrep] Hoff Hdone Hran [Hops' Hth'] Hrt' Hfs Hst Hhand' Hevs Hgys (Hp1 & Hp2 & Hp3).
  constructor; try done.
  - by eapply run_then.
  - by rewrite !Forall_app.
  - cbn. rewrite Hst, Hpush, applied_app, reported_app, HE1, HE2, <- Hevs, <- Hgys. by rewrite <- !app_assoc.
  - unfold filed, filed_as in *. injection Hfs as Hf1 Hf2 Hf3. cbn. unfold file_state in *. cbn. rewrite Hf1, Hf2, Hf3. done.
  - unfold pcs_ok in *. cbn. assert (sy_meter_stop s = false -> meter_live (sy_meter s) -> meter_live pc') as Hlive.
    { intros Hs (_ & Hf & _). split_and!; [done|intros ->; destruct (Hp2 eq_refl); congruence|intros ->; by destruct (Hp3 eq_refl)]. }
    destruct (sy_main s); [by destruct Hpcs as (_ & ? & _)| | | |by destruct Hpcs as (_ & ? & _)|by destruct Hpcs..].
    + destruct Hpcs as (? & ? & ? & ? & ?). split_and!; auto.
    + destruct Hpcs as (? & ? & ? & ? & ?). split_and!; auto.
    + destruct Hpcs as (? & ? & _ & ?). done.
  - destruct (ran_queued ops' _ _ q ql (ro_engine _ _ _ Hrt) Hops' Hran Hq Hl) as (q' & l' & Hq' & Hl').
    exists l'. split; [by exists q'|]. cbn. intros Hr. destruct Hdone. auto.
  - cbn. intros [->| ->]; [apply Hp2|destruct (Hp3 eq_refl) as (_ & ? & ? & _)]; done.
  - cbn. intros ->. by apply Hp3.
  - cbn. intros Hr. destruct Hdone. auto.
Qed.

(** ** The metering thread *)

(** Where the metering thread goes next. *)
Definition meter_next (stop : bool) (pc : MeterPc) (evs : list MeterEvent) (gys : list GyEvent) (pc' : MeterPc)
    (evs' : list MeterEvent) (gys' : list GyEvent) : Prop :=
  match pc with
  | MeterOff | MeterDone => False
  | MeterPop => gys' = gys /\ exists batch, evs = batch ++ evs' /\
      match batch with [] => evs = [] /\ pc' = MeterGy true | _ => pc' = MeterBatch batch end
  | MeterBatch rest => evs' = evs /\ gys' = gys /\ pc' = match rest with [] => MeterGy false | _ :: rest => MeterBatch rest end
  | MeterGy idle => evs' = evs /\ match gys with [] => gys' = [] /\ pc' = MeterPoll idle | _ :: gys => gys' = gys /\ pc' = MeterGy idle end
  | MeterPoll idle => evs' = evs /\ gys' = gys /\ pc' = if idle then MeterCheck else MeterPop
  | MeterCheck => evs' = evs /\ gys' = gys /\
      pc' = if stop && bool_decide (evs = []) && bool_decide (gys = []) then MeterFlush else MeterPop
  | MeterFlush => evs' = evs /\ gys' = gys /\ pc' = MeterDone
  end.

(** What an action of the metering thread guarantees. *)
Definition meter_post (h : history) (s : system) (out : list UsageRecord) (evs : list MeterEvent) (gys : list GyEvent) (o : option system) : Prop :=
  exists rt' pc' ops' evs' gys', o = Some (s <| sy_rt := rt' |> <| sy_meter := pc' |>) /\
    sys_ok h (s <| sy_rt := rt' |> <| sy_meter := pc' |>) ops' out evs' gys' /\
    meter_next (sy_meter_stop s) (sy_meter s) evs gys pc' evs' gys'.

Lemma exec_ok (e : engine) o : good e -> op_ok o -> match o with OpPop _ | OpTake => False | _ => True end ->
  exists e', exec wall_ns e o = Ok ([], e') /\ ran wall_ns e [o] e' /\ good e'.
Proof.
  intros Hg Ho Hm. destruct (exec_ran wall_ns e o Hg Ho Hm) as ([out e'] & Hex & Hr & Hg'). exists e'. split_and!; [|done|done].
  unfold ran in Hr. cbn [run] in Hr. rewrite Hex, !bind_Ok, app_nil_r in Hr. by injection Hr as ->.
Qed.

Lemma meter_pop_step h s ops out evs gys : sys_ok h s ops out evs gys -> sy_meter s = MeterPop ->
  ensures (meter_step s) (meter_post h s out evs gys).
Proof.
  intros Hok Hpc. pose proof (so_rt _ _ _ _ _ _ Hok) as [Hg (q & Hq & Hr) Hgy Hev Hl Hb Hd].
  unfold Threads.meter_step. rewrite Hpc, Hq. eapply ensures_bind; [apply (q_pop_bulk_spec q evs _ Hr); lia|].
  intros [b q'] (_ & rest & -> & Hr' & _ & He). cbn zeta. set (rt1 := setf rt_ingest _ (sy_rt s)). apply ensures_Ok.
  assert (rt_ok rt1 rest gys) as Hok1.
  { constructor; try done; [by exists q'|by apply Forall_app in Hev as [_ ?]]. }
  apply Forall_app in Hev as [Hev _]. destruct b as [|ev b].
  - exists (rt1 <| rt_meter_idle_polls ::= incr |>), (MeterGy true), (ops ++ []), rest, gys. split; [done|]. destruct (He eq_refl) as [|E]; [lia|].
    split; [|rewrite Hpc; split; [done|exists []; done]].
    apply (meter_moved h s ops out rest gys); rewrite ?Hpc; try done. by destruct Hok1; constructor.
  - exists (rt1 <| rt_meter_batches ::= incr |>), (MeterBatch (ev :: b)), (ops ++ []), rest, gys. split; [done|].
    split; [|rewrite Hpc; split; [done|by exists (ev :: b)]].
    apply (meter_moved h s ops out ((ev :: b) ++ rest) gys); rewrite ?Hpc; try done. by destruct Hok1; constructor.
Qed.

Lemma meter_batch_step h s ops out evs gys rest : sys_ok h s ops out evs gys -> sy_meter s = MeterBatch rest ->
  ensures (meter_step s) (meter_post h s out evs gys).
Proof.
  intros Hok Hpc. pose proof (so_rt _ _ _ _ _ _ Hok) as [Hg Hm Hgy Hev Hl Hb Hd]. pose proof (so_hand _ _ _ _ _ _ Hok) as Hh.
  unfold Threads.meter_step. rewrite Hpc in *. destruct rest as [|ev rest].
  { apply ensures_Ok. exists (sy_rt s), (MeterGy false), (ops ++ []), evs, gys. split; [by destruct s|]. split; [|by rewrite Hpc].
    apply (meter_moved h s ops out evs gys); rewrite ?Hpc; try done. }
  apply Forall_cons_iff in Hh as [He Hh]. destruct (exec_ok (rt_engine (sy_rt s)) (OpApply ev) Hg He I) as (e & Hex & Hrun & Hge).
  cbn [exec] in Hex. apply bind_Ok_inv in Hex as (e1 & Hap & [= <-]). rewrite Hap, bind_Ok.
  set (rt1 := setf rt_engine _ (sy_rt s)). destruct (sample_latency_spec now_ns rt1 ev Hl) as (rt2 & Hsl & E1 & E2 & E3 & E4 & E5).
  rewrite Hsl, bind_Ok. apply ensures_Ok. exists rt2, (MeterBatch rest), (ops ++ [OpApply ev]), evs, gys. split; [done|]. split; [|by rewrite Hpc].
  apply (meter_moved h s ops out evs gys); rewrite ?Hpc; try done.
  - by rewrite E1.
  - split; by constructor.
  - constructor; rewrite ?E1, ?E2, ?E3, ?E4, ?E5; done.
  - by rewrite (sample_latency_files _ _ _ Hsl).
  - by rewrite E2.
Qed.

Lemma meter_gy_step h s ops out evs gys idle : sys_ok h s ops out evs gys -> sy_meter s = MeterGy idle ->
  ensures (meter_step s) (meter_post h s out evs gys).
Proof.
  intros Hok Hpc. pose proof (so_rt _ _ _ _ _ _ Hok) as [Hg Hm (q & Hq & Hr) Hev Hl Hb Hd].
  unfold Threads.meter_step. rewrite Hpc, Hq. eapply ensures_bind; [apply (q_pop_spec q gys Hr)|].
  intros [o q'] [_ Hp]. cbn zeta. set (rt1 := setf rt_ingest _ (sy_rt s)). destruct gys as [|g gys]; destruct Hp as [-> Hr'].
  - apply ensures_Ok. exists rt1, (MeterPoll idle), (ops ++ []), evs, []. split; [done|]. split; [|by rewrite Hpc].
    apply (meter_moved h s ops out evs []); rewrite ?Hpc; try done. constructor; try done. by exists q'.
  - destruct (exec_ok (rt_engine (sy_rt s)) (OpGy g) Hg I I) as (e & Hex & Hrun & Hge).
    cbn [exec] in Hex. apply bind_Ok_inv in Hex as (e1 & Hap & [= <-]). change (rt_engine rt1) with (rt_engine (sy_rt s)). rewrite Hap, bind_Ok.
    apply ensures_Ok. exists (rt1 <| rt_engine := e1 |>), (MeterGy idle), (ops ++ [OpGy g]), evs, gys.
    split; [by destruct s; cbn in Hpc; subst|]. split; [|by rewrite Hpc].
    apply (meter_moved h s ops out evs (g :: gys)); rewrite ?Hpc; try done.
    + split; by constructor.
    + constructor; try done. by exists q'.
Qed.

Lemma meter_poll_step h s ops out evs gys idle : sys_ok h s ops out evs gys -> sy_meter s = MeterPoll idle ->
  ensures (meter_step s) (meter_post h s out evs gys).
Proof.
  intros Hok Hpc. pose proof (so_rt _ _ _ _ _ _ Hok) as [Hg Hm Hgy Hev Hl Hb [Hd Hlim]].
  unfold Threads.meter_step. rewrite Hpc. unfold read_clock. set (now := now_ns _). set (rt1 := setf rt_clock_reads _ (sy_rt s)).
  destruct (exec_ok (rt_engine (sy_rt s)) (OpPoll now) Hg I I) as (e & Hex & Hrun & Hge).
  cbn [exec] in Hex. apply bind_Ok_inv in Hex as (e1 & Hap & [= <-]). change (rt_engine rt1) with (rt_engine (sy_rt s)). rewrite Hap, bind_Ok.
  cbn zeta. set (rt2 := setf rt_engine _ rt1).
  eapply (ensures_bind _ _ (fun rt3 => published_as rt2 rt3 /\ scan_ok (rt_detail rt3) /\ file_state rt3 = file_state rt2)).
  { match goal with |- context [if ?c then _ else _] => destruct c end; [|by apply ensures_Ok].
    destruct (publish_spec publish_wall rank rt2 now) as (rt3 & Hp & H1 & H2 & _); [done..|]. exists rt3. split_and!; [done|done|done|].
    by apply publish_files in Hp. }
  intros rt3 ((E1 & E2 & E3 & E4) & Hd3 & Hf). apply ensures_Ok.
  exists rt3, (if idle then MeterCheck else MeterPop), (ops ++ [OpPoll now]), evs, gys. split; [done|]. split; [|by rewrite Hpc].
  apply (meter_moved h s ops out evs gys); rewrite ?Hpc; try done.
  - by rewrite E1.
  - split; by constructor.
  - constructor; rewrite ?E1, ?E2, ?E3, ?E4; done.
  - by rewrite E2.
  - by destruct idle.
  - by destruct idle.
  - split_and!; by destruct idle.
Qed.

Lemma depth_empty {T Q} {B : BoundedQueue T Q} (q : Q) l : q_repr q l -> (depth_of (Some q) =? 0) = bool_decide (l = []).
Proof.
  intros H. unfold depth_of. rewrite (q_depth_spec q l H). destruct l; [done|]. rewrite size_cons, bool_decide_false by done.
  apply Z.eqb_neq. pose proof (size_nonneg l). lia.
Qed.

Lemma meter_check_step h s ops out evs gys : sys_ok h s ops out evs gys -> sy_meter s = MeterCheck ->
  ensures (meter_step s) (meter_post h s out evs gys).
Proof.
  intros Hok Hpc. pose proof (so_rt _ _ _ _ _ _ Hok) as [Hg (q & Hq & Hr) (qg & Hqg & Hrg) Hev Hl Hb Hd].
  unfold Threads.meter_step. rewrite Hpc, Hq, Hqg, (depth_empty q evs Hr), (depth_empty qg gys Hrg).
  apply ensures_Ok. set (pc' := if _ && _ then _ else _). exists (sy_rt s), pc', (ops ++ []), evs, gys. split; [by destruct s|].
  split; [|by rewrite Hpc]. apply (meter_moved h s ops out evs gys); rewrite ?Hpc; unfold pc'; try done.
  - constructor; try done; [by exists q|by exists qg].
  - by case_match.
  - by case_match.
  - split_and!; [by case_match| |by case_match].
    destruct (sy_meter_stop s); cbn [andb]; [|done]. do 2 (case_bool_decide; cbn [andb]; try done).
Qed.

Lemma meter_flush_step h s ops out evs gys : sys_ok h s ops out evs gys -> sy_meter s = MeterFlush ->
  ensures (meter_step s) (meter_post h s out evs gys).
Proof.
  intros Hok Hpc. pose proof (so_rt _ _ _ _ _ _ Hok) as Hrt. destruct (so_flushed _ _ _ _ _ _ Hok (or_introl Hpc)) as [-> ->].
  unfold Threads.meter_step. rewrite Hpc. destruct (meter_flush_spec wall_ns now_ns publish_wall rank (sy_rt s) Hrt) as (rt' & Hf & now & Hrun & Hrt' & _).
  rewrite Hf, bind_Ok. destruct (flush_files _ _ Hf) as [Hfs Hin]. apply ensures_Ok.
  exists rt', MeterDone, (ops ++ [OpDrain now]), [], []. split; [done|]. split; [|by rewrite Hpc].
  apply (meter_moved h s ops out [] []); rewrite ?Hpc; try done.
  - split; by constructor.
  - by rewrite Hin.
  - split_and!; [done|done|]. intros _. split_and!; [done|done|done|].
    destruct (drain_all wall_ns (rt_engine (sy_rt s)) now (ro_engine _ _ _ Hrt)) as ([o e'] & Hex & Hz).
    unfold ran in Hrun. cbn [run] in Hrun. rewrite Hex, !bind_Ok in Hrun. by injection Hrun as _ <-.
Qed.

Lemma meter_acts h s ops out evs gys : sys_ok h s ops out evs gys -> sy_meter s <> MeterOff -> sy_meter s <> MeterDone ->
  ensures (meter_step s) (meter_post h s out evs gys).
Proof.
  intros Hok H1 H2. destruct (sy_meter s) eqn:E; try done; [by eapply meter_pop_step|by eapply meter_batch_step|
    by eapply meter_gy_step|by eapply meter_poll_step|by eapply meter_check_step|by eapply meter_flush_step].
Qed.

(** ** The record ring's consumer *)

Definition started (pc : MainPc) : Prop := match pc with MainStart _ => False | _ => True end.

(** Taking the next record: the books stay in order and the file grows. *)
Lemma report_ok h s ops out evs gys queued : sys_ok h s ops out evs gys -> started (sy_main s) ->
  records_queued (sy_rt s) queued -> (sy_reporter s = ReporterDone -> queued = []) ->
  ensures (report_one fwrite_ok (sy_writes s) (sy_rt s)) (fun '(res, rt') => exists ops' out',
    sys_ok h (s <| sy_rt := rt' |> <| sy_writes := res.2 |>) ops' out' evs gys /\ rt_ingest rt' = rt_ingest (sy_rt s) /\
    records_queued rt' (tail queued) /\ res.1 = negb (bool_decide (queued = []))).
Proof.
  intros [Hrun [Hops Hth] [Hg Hm Hgy Hev Hl Hb Hd] Hhand Hpush Htodo Hfile Hpcs _ Hfl Hset Hrep] Hst (q & Hq & Hr) Hqd.
  unfold report_one. rewrite Hq.
  destruct (exec_spec wall_ns (rt_engine (sy_rt s)) OpTake Hg I) as ([o1 e1] & Hex & Hge & _). pose proof Hex as Hex0.
  cbn [exec] in Hex. rewrite Hq in Hex. apply bind_Ok_inv in Hex as ([o q'] & Hpop & [= <- <-]). rewrite Hpop, bind_Ok. cbn zeta.
  set (rt1 := setf rt_engine _ (sy_rt s)). destruct (q_pop_spec q queued Hr) as ([o2 q2] & Hpop2 & _ & Hr2).
  rewrite Hpop in Hpop2. injection Hpop2 as <- <-.
  assert (run wall_ns (h_engine h) (ops ++ [OpTake]) = Ok (out ++ option_list o, rt_engine rt1)) as Hrun1.
  { rewrite run_app, Hrun, bind_Ok. cbn [run]. rewrite Hex0, !bind_Ok. by rewrite app_nil_r. }
  assert (Forall op_ok (ops ++ [OpTake]) /\ Forall thread_op (ops ++ [OpTake])) as Hops1 by (rewrite !Forall_app; split_and!; [done|by constructor|done|by constructor]).
  assert (applied (ops ++ [OpTake]) = applied ops) as Happ by (rewrite applied_app; apply app_nil_r).
  assert (reported (ops ++ [OpTake]) = reported ops) as Hrpt by (rewrite reported_app; apply app_nil_r).
  assert (forall rt' k, rt_engine rt' = rt_engine rt1 -> rt_ingest rt' = rt_ingest (sy_rt s) -> rt_cfg rt' = rt_cfg (sy_rt s) ->
    rt_latency rt' = rt_latency (sy_rt s) -> rt_detail rt' = rt_detail (sy_rt s) ->
    filed (s <| sy_rt := rt' |> <| sy_writes := k |>) (out ++ option_list o) ->
    sys_ok h (s <| sy_rt := rt' |> <| sy_writes := k |>) (ops ++ [OpTake]) (out ++ option_list o) evs gys) as Hmk.
  { intros rt' k E1 E2 E3 E4 E5 Hf. constructor; cbn -[rt_engine rt_ingest rt_cfg rt_latency rt_detail]; rewrite ?E1, ?E2, ?Happ, ?Hrpt; try done.
    - constructor; rewrite ?E1, ?E2, ?E3, ?E4, ?E5; done.
    - exists (tail queued). split; [exists q'; rewrite E1; split; [done|]; by destruct queued, Hr2|]. intros ->%Hqd. done. }
  assert (filed_as (sy_rt s) (sy_writes s) out) as Hfa by (unfold filed in Hfile; by destruct (sy_main s)).
  assert (forall rt' k o, filed_as rt' k o -> filed (s <| sy_rt := rt' |> <| sy_writes := k |>) o) as Hfd
    by (intros rt' k o' H; unfold filed; cbn; by destruct (sy_main s)).
  destruct queued as [|rec queued]; destruct Hr2 as [-> Hr2].
  { apply ensures_Ok. exists (ops ++ [OpTake]), (out ++ []). split; [|split; [done|split; [by exists q'|done]]]. apply Hmk; try done.
    cbn [option_list option_rect]. rewrite app_nil_r. by apply Hfd. }
  pose proof (write_filed rt1 (sy_writes s) out rec Hfa) as Hw.
  destruct (write_record fwrite_ok (sy_writes s) rt1 rec) as [k rt2] eqn:Ew. cbn [fst snd] in Hw. apply ensures_Ok.
  assert (rt_engine rt2 = rt_engine rt1 /\ rt_ingest rt2 = rt_ingest rt1 /\ rt_cfg rt2 = rt_cfg rt1 /\ rt_latency rt2 = rt_latency rt1 /\
    rt_detail rt2 = rt_detail rt1) as (E1 & E2 & E3 & E4 & E5).
  { revert Ew. unfold write_record. repeat case_match; by intros [= _ <-]. }
  exists (ops ++ [OpTake]), (out ++ [rec]). split; [|split; [by rewrite E2|split; [exists q'; by rewrite E1|done]]]. apply Hmk; try done. by apply Hfd.
Qed.

(** ** The reporter thread *)

Definition reporter_busy (pc : ReporterPc) : Prop := pc <> ReporterOff /\ pc <> ReporterDone.

Lemma reporter_moved h s ops out evs gys pc' queued : sys_ok h s ops out evs gys -> reporter_busy (sy_reporter s) ->
  records_queued (sy_rt s) queued -> pc' <> ReporterOff ->
  reporter_live pc' \/ sy_reporter_stop s = true \/ sy_reporter s = ReporterFinal -> (pc' = ReporterDone -> queued = []) ->
  sys_ok h (s <| sy_reporter := pc' |>) ops out evs gys.
Proof.
  intros [Hrun Hops Hrt Hhand Hpush Htodo Hfile Hpcs _ Hfl Hset Hrep] [Hb1 Hb2] Hq Hoff Hlive Hdone. constructor; try done.
  - assert (sy_reporter_stop s = false -> reporter_live (sy_reporter s) -> reporter_live pc') as Hl.
    { intros Hs Hl. destruct Hlive as [?|[?|E]]; [done|congruence|]. rewrite E in Hl. by destruct Hl. }
    unfold pcs_ok in *. cbn. destruct (sy_main s); [by destruct Hpcs as (_ & _ & ?)| | | |by destruct Hpcs as (? & ? & _)|by destruct Hpcs..].
    + destruct Hpcs as (? & ? & ? & ? & ?). split_and!; auto.
    + destruct Hpcs as (? & ? & ? & ? & ?). split_and!; auto.
    + destruct Hpcs as (? & ? & ? & ?). split_and!; auto.
  - by exists queued.
  - cbn. intros Hp. destruct Hlive as [[->| ->]|[Hs|E]]; [by destruct Hp..| |by apply Hrep; left].
    unfold pcs_ok in Hpcs. destruct (sy_main s); [by destruct Hpcs as (_ & _ & ?)| | | |by destruct Hpcs as (? & ? & _)|by destruct Hpcs..].
    + destruct Hpcs as (_ & _ & ? & _). congruence.
    + destruct Hpcs as (_ & _ & ? & _). congruence.
    + destruct Hpcs as (_ & ? & _). congruence.
Qed.

(** Where the reporter goes with [queued] on the record ring. *)
Definition reporter_next (stop : bool) (pc : ReporterPc) (queued : list UsageRecord) (pc' : ReporterPc) (queued' : list UsageRecord) : Prop :=
  match pc with
  | ReporterOff | ReporterDone => False
  | ReporterCheck => queued' = queued /\ pc' = if stop then ReporterFinal else ReporterDrain
  | ReporterDrain => queued' = tail queued /\ pc' = match queued with [] => ReporterCheck | _ => ReporterDrain end
  | ReporterFinal => queued' = tail queued /\ pc' = match queued with [] => ReporterDone | _ => ReporterFinal end
  end.

Definition reporter_post (h : history) (s : system) (evs : list MeterEvent) (gys : list GyEvent) (queued : list UsageRecord) (o : option system) : Prop :=
  exists rt' k pc' ops' out' queued', o = Some (s <| sy_rt := rt' |> <| sy_writes := k |> <| sy_reporter := pc' |>) /\
    sys_ok h (s <| sy_rt := rt' |> <| sy_writes := k |> <| sy_reporter := pc' |>) ops' out' evs gys /\
    records_queued rt' queued' /\ reporter_next (sy_reporter_stop s) (sy_reporter s) queued pc' queued'.

Lemma busy_started h s ops out evs gys : sys_ok h s ops out evs gys -> reporter_busy (sy_reporter s) -> started (sy_main s).
Proof. intros [] [H _]. unfold pcs_ok, started in *. destruct (sy_main s); [|done..]. by destruct so_pcs0 as (_ & _ & ?). Qed.

(** A turn of the drain loop, in either drain of the reporter. *)
Lemma drain_step h s ops out evs gys queued (pc pc' : ReporterPc) : sys_ok h s ops out evs gys -> sy_reporter s = pc ->
  pc = ReporterDrain /\ pc' = ReporterCheck \/ pc = ReporterFinal /\ pc' = ReporterDone -> records_queued (sy_rt s) queued ->
  ensures (let* (res, rt) := report_one fwrite_ok (sy_writes s) (sy_rt s) in
    let s := s <| sy_rt := rt |> <| sy_writes := res.2 |> in
    Ok (Some (if (res.1 : bool) then s else s <| sy_reporter := pc' |>))) (reporter_post h s evs gys queued).
Proof.
  intros Hok Hpc Hcase Hq. assert (reporter_busy (sy_reporter s)) as Hbusy by (rewrite Hpc; by destruct Hcase as [[-> _]|[-> _]]).
  eapply ensures_bind; [apply (report_ok h s ops out evs gys queued Hok)|]; [by eapply busy_started|done|by rewrite Hpc; destruct Hcase as [[-> _]|[-> _]]|].
  intros [[more k] rt'] (ops' & out' & Hok' & _ & Hq' & Hmore). cbn [fst snd] in *. cbn zeta. apply ensures_Ok.
  exists rt', k, (if more then pc else pc'), ops', out', (tail queued).
  assert ((if more then s <| sy_rt := rt' |> <| sy_writes := k |> else s <| sy_rt := rt' |> <| sy_writes := k |> <| sy_reporter := pc' |>) =
    s <| sy_rt := rt' |> <| sy_writes := k |> <| sy_reporter := if more then pc else pc' |>) as ->.
  { destruct more; [|done]. destruct s. cbn in Hpc. by subst pc. }
  split; [done|]. split; [|split; [done|]].
  - apply (reporter_moved h _ ops' out' evs gys _ (tail queued)); try done.
    + rewrite Hmore. destruct Hcase as [[-> ->]|[-> ->]]; by destruct (bool_decide _).
    + destruct Hcase as [[-> ->]|[-> ->]]; [left; destruct more; [by right|by left]|]. right. by right.
    + rewrite Hmore. destruct queued; [done|]. cbn. by destruct Hcase as [[-> ->]|[-> ->]].
  - rewrite Hpc, Hmore. destruct Hcase as [[-> ->]|[-> ->]]; (split; [done|]); by destruct queued.
Qed.

Lemma reporter_acts h s ops out evs gys queued : sys_ok h s ops out evs gys -> reporter_busy (sy_reporter s) ->
  records_queued (sy_rt s) queued -> ensures (reporter_step s) (reporter_post h s evs gys queued).
Proof.
  intros Hok Hb Hq. unfold Threads.reporter_step. destruct (sy_reporter s) eqn:Hpc; [by destruct Hb| | | |by destruct Hb].
  - apply ensures_Ok. set (pc' := if sy_reporter_stop s then _ else _). exists (sy_rt s), (sy_writes s), pc', ops, out, queued.
    assert (s <| sy_rt := sy_rt s |> <| sy_writes := sy_writes s |> = s) as E by (by destruct s).
    rewrite E. split_and!; [done| |done|by rewrite Hpc]. apply (reporter_moved h s ops out evs gys pc' queued); rewrite ?Hpc; try done; unfold pc'.
    + by destruct (sy_reporter_stop s).
    + destruct (sy_reporter_stop s); [by right; left|left; by right].
    + by destruct (sy_reporter_stop s).
  - eapply drain_step; [done|done|by left|done].
  - eapply drain_step; [done|done|by right|done].
Qed.

(** ** The main thread *)

(** The main thread acts, unless it waits for a thread that has not ended. *)
Definition main_waits (s : system) : Prop :=
  match sy_main s with
  | MainJoinMeter => sy_meter s <> MeterDone
  | MainJoinReporter => sy_reporter s <> ReporterDone
  | MainDone => True
  | _ => False
  end.

(** An action of the main thread put [new] and [newg] behind what was on the rings. *)
Definition rings_fed (s s' : system) (new : list MeterEvent) (newg : list GyEvent) : Prop :=
  ring_pushed (meter_ring_ (rt_ingest (sy_rt s))) (meter_ring_ (rt_ingest (sy_rt s'))) new /\
  ring_pushed (gy_ring_ (rt_ingest (sy_rt s))) (gy_ring_ (rt_ingest (sy_rt s'))) newg.

Lemma unfed (s s' : system) : rt_ingest (sy_rt s') = rt_ingest (sy_rt s) -> rings_fed s s' [] [].
Proof. intros E. unfold rings_fed. rewrite E. split; apply ring_pushed_refl. Qed.

Definition main_post (h : history) (s : system) (o : option system) : Prop :=
  match o with
  | Some s' => exists new newg, rings_fed s s' new newg /\ sys_inv (extend h new newg) s' /\ ~ main_waits s
  | None => main_waits s
  end.

Lemma main_quiet h s s' : sys_inv h s' -> rt_ingest (sy_rt s') = rt_ingest (sy_rt s) -> ~ main_waits s -> main_post h s (Some s').
Proof.
  intros Hi E Hw. exists [], []. split_and!; [by apply unfed| |done]. unfold extend. rewrite !app_nil_r. by destruct h.
Qed.

Lemma main_start_step h s ops out evs gys bs : sys_ok h s ops out evs gys -> sy_main s = MainStart bs ->
  ensures (main_step s) (main_post h s).
Proof.
  intros [Hrun Hops [Hg Hm Hgy Hev Hl Hb Hd] Hhand Hpush Htodo Hfile Hpcs (ql & Hq & _) Hfl Hset Hrep] Hpc.
  unfold Threads.main_step. unfold pcs_ok in Hpcs. unfold filed in Hfile. rewrite Hpc in *.
  destruct Hpcs as (Hr & Hmo & Hro), Hfile as (Hfs & -> & Hw). rewrite Hr, Hmo in *. apply ensures_Ok. apply main_quiet; [|done|unfold main_waits; rewrite Hpc; by intros []].
  exists ops, [], evs, gys. constructor; try done.
  - unfold filed, filed_as. cbn. injection Hfs as Hf1 Hf2 Hf3. rewrite Hf1, Hf2, Hf3, Hw. destruct opened as [f0|]; cbn; [|done]. by rewrite app_nil_r.
  - by split_and!; [..|by left].
  - exists ql. split; [done|]. cbn. done.
  - cbn. by intros [?|?].
  - cbn. by intros [?|?].
Qed.

Lemma main_packet_step h s ops out evs gys p ts cur bs : sys_ok h s ops out evs gys -> sy_main s = MainRun ((p, ts) :: cur) bs ->
  ensures (main_step s) (main_post h s).
Proof.
  intros [Hrun Hops [Hg (q & Hq & Hr) (qg & Hqg & Hrg) Hev Hl Hb Hd] Hhand (HE1 & HE2 & Hpush) Htodo Hfile Hpcs Hsink Hfl Hset Hrep] Hpc.
  unfold Threads.main_step. unfold pcs_ok in Hpcs. unfold filed in Hfile. rewrite Hpc in *. cbn [to_ingest app] in Htodo.
  apply Forall_cons_iff in Htodo as [Hp Htodo].
  eapply ensures_bind; [apply packet_feeds; [|done]|].
  { split; [rewrite Hq; by exists evs|rewrite Hqg; by exists gys]. }
  intros i (new & newg & [Hcf Hpm Hpg] & Hsound & Hst). apply ensures_Ok. exists new, newg.
  split; [done|]. split; [|unfold main_waits; rewrite Hpc; by intros []].
  destruct Hpcs as (? & ? & ? & (Hm1 & Hm2 & Hm3) & ?). exists ops, out, (evs ++ new), (gys ++ newg). constructor; try done.
  - constructor; try done; [by eapply ring_some|by eapply ring_some|by apply Forall_app].
  - cbn. rewrite Hst, <- u64_add_u64_l, Hpush, u64_add_u64_l, HE1, HE2, <- !app_assoc, !size_app. split_and!; [done|done|]. f_equal. lia.
  - cbn. by intros [?|?].
Qed.

Lemma main_loop_step h s ops out evs gys bs : sys_ok h s ops out evs gys -> sy_main s = MainRun [] bs ->
  ensures (main_step s) (main_post h s).
Proof.
  intros [Hrun Hops Hrt Hhand Hpush Htodo Hfile Hpcs Hsink Hfl Hset Hrep] Hpc.
  unfold Threads.main_step. unfold pcs_ok in Hpcs. unfold filed in Hfile. rewrite Hpc in *.
  assert (main_post h s (Some (s <| sy_main := MainStop |>))) as Hstop.
  { apply main_quiet; [|done|unfold main_waits; rewrite Hpc; by intros []]. exists ops, out, evs, gys. by constructor. }
  destruct (sy_g_stop s); [by apply ensures_Ok|]. destruct bs as [|b bs]; [by apply ensures_Ok|]. apply ensures_Ok.
  apply main_quiet; [|done|unfold main_waits; rewrite Hpc; by intros []]. exists ops, out, evs, gys. by constructor.
Qed.

Lemma main_stop_step h s ops out evs gys : sys_ok h s ops out evs gys -> sy_main s = MainStop ->
  ensures (main_step s) (main_post h s).
Proof.
  intros [Hrun Hops Hrt Hhand Hpush Htodo Hfile Hpcs Hsink Hfl Hset Hrep] Hpc.
  unfold Threads.main_step. unfold pcs_ok in Hpcs. unfold filed in Hfile. rewrite Hpc in *.
  destruct Hpcs as (-> & Hs1 & Hs2 & (Hm & _) & Hr). apply ensures_Ok.
  apply main_quiet; [|done|unfold main_waits; rewrite Hpc; by intros []]. exists ops, out, evs, gys. by constructor.
Qed.

Lemma main_join_step h s ops out evs gys : sys_ok h s ops out evs gys -> sy_main s = MainJoinMeter \/ sy_main s = MainJoinReporter ->
  ensures (main_step s) (main_post h s).
Proof.
  intros [Hrun Hops Hrt Hhand Hpush Htodo Hfile Hpcs Hsink Hfl Hset Hrep] Hpc.
  unfold Threads.main_step. unfold pcs_ok in Hpcs. unfold filed in Hfile. destruct Hpc as [Hpc|Hpc]; rewrite Hpc in *.
  - destruct (sy_meter s) eqn:Hm; try (apply ensures_Ok; unfold main_post, main_waits; by rewrite Hpc, Hm).
    destruct Hpcs as (? & ? & _ & Hr). apply ensures_Ok. apply main_quiet; [|done|unfold main_waits; rewrite Hpc, Hm; by intros []].
    exists ops, out, evs, gys. constructor; try done; cbn; rewrite ?Hm; try done. unfold pcs_ok; cbn. split_and!; [done|done|by destruct Hr as [-> | ->]].
  - destruct (sy_reporter s) eqn:Hr; try (apply ensures_Ok; unfold main_post, main_waits; by rewrite Hpc, Hr).
    destruct Hpcs as (? & ? & _). apply ensures_Ok. apply main_quiet; [|done|unfold main_waits; rewrite Hpc, Hr; by intros []].
    exists ops, out, evs, gys. constructor; try done; cbn; rewrite ?Hr; done.
Qed.

Lemma main_drain_step h s ops out evs gys : sys_ok h s ops out evs gys -> sy_main s = MainDrain ->
  ensures (main_step s) (fun o => main_post h s o /\ exists s', o = Some s' /\ sy_main s' = MainDone).
Proof.
  intros Hok Hpc. pose proof (so_pcs _ _ _ _ _ _ Hok) as Hpcs. unfold pcs_ok in Hpcs. rewrite Hpc in Hpcs. destruct Hpcs as [Hm Hr].
  destruct (so_sink _ _ _ _ _ _ Hok) as (queued & Hq & Hnil). specialize (Hnil Hr). subst queued.
  unfold Threads.main_step. rewrite Hpc.
  eapply ensures_bind; [apply (report_ok h s ops out evs gys [] Hok); [by rewrite Hpc|done|done]|].
  intros [[more k] rt'] (ops' & out' & Hok' & Hin & _ & Hmore). cbn [fst snd] in *. subst more. cbn zeta. apply ensures_Ok. split; [|by eexists].
  apply main_quiet; [|done|unfold main_waits; rewrite Hpc; by intros []]. exists ops', out', evs, gys.
  destruct Hok' as [Hrun Hops Hrt Hhand Hpush Htodo Hfile Hpcs Hsink Hfl Hset Hrep]. unfold filed in Hfile. cbn in Hfile. rewrite Hpc in Hfile.
  by constructor.
Qed.

Lemma main_acts h s : sys_inv h s -> ensures (main_step s) (main_post h s).
Proof.
  intros (ops & out & evs & gys & Hok). destruct (sy_main s) as [bs|[|[p ts] cur] bs| | | | |] eqn:Hpc.
  - by eapply main_start_step.
  - by eapply main_loop_step.
  - by eapply main_packet_step.
  - by eapply main_stop_step.
  - eapply main_join_step; [done|by left].
  - eapply main_join_step; [done|by right].
  - eapply ensures_mono; [by eapply main_drain_step|]. by intros o [? _].
  - unfold Threads.main_step. rewrite Hpc. apply ensures_Ok. unfold main_post, main_waits. by rewrite Hpc.
Qed.

(** ** Every interleaving *)

Lemma meter_returns h s : sys_inv h s -> ensures (meter_step s) (fun o => match o with Some s' => sys_inv h s' | None => True end).
Proof.
  intros (ops & out & evs & gys & Hok). destruct (sy_meter s) eqn:Hpc;
    try (unfold Threads.meter_step; rewrite Hpc; by apply ensures_Ok).
  all: eapply ensures_mono; [eapply (meter_acts h s); [done|by rewrite Hpc..]|].
  all: intros o (rt' & pc' & ops' & evs' & gys' & -> & Hok' & _); by exists ops', out, evs', gys'.
Qed.

Lemma reporter_returns h s : sys_inv h s -> ensures (reporter_step s) (fun o => match o with Some s' => sys_inv h s' | None => True end).
Proof.
  intros (ops & out & evs & gys & Hok). destruct (so_sink _ _ _ _ _ _ Hok) as (queued & Hq & _). destruct (sy_reporter s) eqn:Hpc;
    try (unfold Threads.reporter_step; rewrite Hpc; by apply ensures_Ok).
  all: eapply ensures_mono; [eapply (reporter_acts h s); [done|by rewrite Hpc|done]|].
  all: intros o (rt' & k & pc' & ops' & out' & queued' & -> & Hok' & _); by exists ops', out', evs, gys.
Qed.

Lemma signal_inv h s : sys_inv h s -> sys_inv h (s <| sy_g_stop := true |>).
Proof. intros (ops & out & evs & gys & []). exists ops, out, evs, gys. by constructor. Qed.

Lemma reader_inv h s now : sys_inv h s -> sys_inv h (s <| sy_rt ::= fun rt => request_detail rt now |>).
Proof.
  intros (ops & out & evs & gys & [H1 H2 [] H4 H5 H6 H7 H8 H9 H10 H11 H12]). exists ops, out, evs, gys. constructor; try done.
Qed.

(** The executions from [s0], each with the history of the rings: [E] and [G] are
    what the main thread's actions have put behind the contents of the two rings,
    in order; no other action adds to them. *)
Inductive fed (s0 : system) : system -> list MeterEvent -> list GyEvent -> Prop :=
| fed_start : fed s0 s0 [] []
| fed_main s s' E G new newg : fed s0 s E G -> main_step s = Ok (Some s') -> rings_fed s s' new newg ->
    fed s0 s' (E ++ new) (G ++ newg)
| fed_meter s s' E G : fed s0 s E G -> meter_step s = Ok (Some s') -> fed s0 s' E G
| fed_reporter s s' E G : fed s0 s E G -> reporter_step s = Ok (Some s') -> fed s0 s' E G
| fed_signal s E G : fed s0 s E G -> fed s0 (s <| sy_g_stop := true |>) E G
| fed_reader s E G now : fed s0 s E G -> fed s0 (s <| sy_rt ::= fun rt => request_detail rt now |>) E G.

(** A ring represents one list, so what an action puts on it is determined. *)
Lemma repr_unique {T Q} {B : BoundedQueue T Q} l : forall (q : Q) l', q_repr q l -> q_repr q l' -> l = l'.
Proof.
  induction l as [|x l IH]; intros q l' H H'; pose proof (q_depth_spec q _ H') as Hd; rewrite (q_depth_spec q _ H) in Hd.
  - destruct l'; [done|]. rewrite size_nil, size_cons in Hd. pose proof (size_nonneg l'). lia.
  - destruct l' as [|x' l']; [rewrite size_nil, size_cons in Hd; pose proof (size_nonneg l); lia|].
    destruct (q_pop_spec q _ H) as ([o q1] & E1 & _ & -> & H1). destruct (q_pop_spec q _ H') as ([o q2] & E2 & _ & -> & H2).
    rewrite E1 in E2. injection E2 as <- <-. by rewrite (IH q1 l').
Qed.

Lemma fed_unique (s s' : system) evs gys new newg new' newg' : rt_ok (sy_rt s) evs gys ->
  rings_fed s s' new newg -> rings_fed s s' new' newg' -> new = new' /\ newg = newg'.
Proof.
  intros [_ (q & Hq & Hr) (qg & Hqg & Hrg) _ _ _ _] [H1 H2] [H1' H2']. unfold ring_pushed in *. rewrite Hq in *. rewrite Hqg in *.
  destruct (meter_ring_ (rt_ingest (sy_rt s'))) as [q'|]; [|done]. destruct (gy_ring_ (rt_ingest (sy_rt s'))) as [qg'|]; [|done].
  destruct H1 as [_ H1], H2 as [_ H2], H1' as [_ H1'], H2' as [_ H2'].
  split; [apply (app_inv_head evs)|apply (app_inv_head gys)]; eapply repr_unique; eauto.
Qed.

Lemma main_inv h s s' : sys_inv h s -> main_step s = Ok (Some s') -> exists new newg, rings_fed s s' new newg /\ sys_inv (extend h new newg) s'.
Proof.
  intros Hinv H. destruct (main_acts h s Hinv) as (o & Ho & Hp). rewrite H in Ho. injection Ho as <-.
  destruct Hp as (new & newg & ? & ? & _). by exists new, newg.
Qed.

Lemma meter_inv h s s' : sys_inv h s -> meter_step s = Ok (Some s') -> sys_inv h s'.
Proof. intros Hinv H. destruct (meter_returns h s Hinv) as (o & Ho & Hp). rewrite H in Ho. by injection Ho as <-. Qed.

Lemma reporter_inv h s s' : sys_inv h s -> reporter_step s = Ok (Some s') -> sys_inv h s'.
Proof. intros Hinv H. destruct (reporter_returns h s Hinv) as (o & Ho & Hp). rewrite H in Ho. by injection Ho as <-. Qed.

(** The invariant holds along every execution, with its history. *)
Lemma fed_inv e s0 s E G : sys_inv (mkHistory e [] []) s0 -> fed s0 s E G -> sys_inv (mkHistory e E G) s.
Proof.
  intros H0. induction 1 as [|s s' E G new newg _ IH Hs Hf|s s' E G _ IH Hs|s s' E G _ IH Hs|s E G _ IH|s E G now _ IH];
    [done| |by eapply meter_inv|by eapply reporter_inv|by apply signal_inv|by apply reader_inv].
  destruct (main_inv _ s s' IH Hs) as (new' & newg' & Hf' & Hi). destruct IH as (ops & out & evs & gys & Hok).
  by destruct (fed_unique s s' evs gys new newg new' newg' (so_rt _ _ _ _ _ _ Hok) Hf Hf') as [-> ->].
Qed.

(** Every interleaving has a history. *)
Lemma steps_fed e s0 s : sys_inv (mkHistory e [] []) s0 -> sys_steps s0 s -> exists E G, fed s0 s E G.
Proof.
  intros H0. revert s. apply (rtc_ind_r (fun s => exists E G, fed s0 s E G)); [by exists [], []; constructor|].
  intros s s' _ Hstep (E & G & IH).
  pose proof (fed_inv e s0 s E G H0 IH) as Hinv. destruct Hstep as [s1 H|s1 H|s1 H| |now].
  - destruct (main_inv _ s s1 Hinv H) as (new & newg & Hf & _). exists (E ++ new), (G ++ newg). by eapply fed_main.
  - exists E, G. by eapply fed_meter.
  - exists E, G. by eapply fed_reporter.
  - exists E, G. by apply fed_signal.
  - exists E, G. by apply fed_reader.
Qed.

(** ** Progress *)

(** The metering thread alone can bring itself to [pc]. *)
Definition meter_goes (h : history) (s : system) (out : list UsageRecord) (pc : MeterPc) (evs : list MeterEvent) (gys : list GyEvent) : Prop :=
  exists rt' ops', sys_steps s (s <| sy_rt := rt' |> <| sy_meter := pc |>) /\
    sys_ok h (s <| sy_rt := rt' |> <| sy_meter := pc |>) ops' out evs gys.

Lemma meter_goes_step h s ops out evs gys pc evs1 gys1 : sys_ok h s ops out evs gys -> sy_meter s <> MeterOff -> sy_meter s <> MeterDone ->
  (forall rt' pc' ops' evs' gys', let s' := s <| sy_rt := rt' |> <| sy_meter := pc' |> in
    sys_ok h s' ops' out evs' gys' -> meter_next (sy_meter_stop s) (sy_meter s) evs gys pc' evs' gys' -> meter_goes h s' out pc evs1 gys1) ->
  meter_goes h s out pc evs1 gys1.
Proof.
  intros Hok H1 H2 Hk. destruct (meter_acts h s ops out evs gys Hok H1 H2) as (o & Ho & rt' & pc' & ops' & evs' & gys' & -> & Hok' & Hn).
  destruct (Hk rt' pc' ops' evs' gys' Hok' Hn) as (rt2 & ops2 & Hs & Hok2). exists rt2, ops2. split; [|exact Hok2].
  eapply rtc_l; [apply by_meter, Ho|exact Hs].
Qed.

Lemma meter_goes_here h s ops out evs gys pc : sys_ok h s ops out evs gys -> sy_meter s = pc -> meter_goes h s out pc evs gys.
Proof. intros Hok <-. exists (sy_rt s), ops. assert (s <| sy_rt := sy_rt s |> <| sy_meter := sy_meter s |> = s) as -> by (by destruct s). done. Qed.

Section Stopping.
Context (h : history) (out : list UsageRecord).

(** Once nothing is produced any more, the metering thread can end. *)
Lemma gy_empties gys idle : forall s ops evs, sys_ok h s ops out evs gys -> sy_meter s = MeterGy idle ->
  (forall s' ops', sys_ok h s' ops' out evs [] -> sy_meter s' = MeterPoll idle -> sy_meter_stop s' = sy_meter_stop s -> meter_goes h s' out MeterDone [] []) ->
  meter_goes h s out MeterDone [] [].
Proof.
  induction gys as [|g gys IH]; intros s ops evs Hok Hpc Hk; (eapply meter_goes_step; [done|by rewrite Hpc|by rewrite Hpc|]); cbn zeta.
  all: intros rt' pc' ops' evs' gys' Hok' Hn; rewrite Hpc in Hn; destruct Hn as (-> & -> & ->).
  - by eapply Hk.
  - eapply (IH _ ops' evs Hok'); [done|]. intros s1 ops1 Hok1 Hpc1 Hst. by eapply Hk.
Qed.

Lemma batch_empties rest : forall s ops evs gys, sys_ok h s ops out evs gys -> sy_meter s = MeterBatch rest ->
  (forall s' ops', sys_ok h s' ops' out evs gys -> sy_meter s' = MeterGy false -> sy_meter_stop s' = sy_meter_stop s -> meter_goes h s' out MeterDone [] []) ->
  meter_goes h s out MeterDone [] [].
Proof.
  induction rest as [|ev rest IH]; intros s ops evs gys Hok Hpc Hk; (eapply meter_goes_step; [done|by rewrite Hpc|by rewrite Hpc|]); cbn zeta.
  all: intros rt' pc' ops' evs' gys' Hok' Hn; rewrite Hpc in Hn; destruct Hn as (-> & -> & ->).
  - by eapply Hk.
  - eapply (IH _ ops' evs gys Hok'); [done|]. intros s1 ops1 Hok1 Hpc1 Hst. by eapply Hk.
Qed.

Lemma poll_goes s ops evs gys idle : sys_ok h s ops out evs gys -> sy_meter s = MeterPoll idle ->
  (forall s' ops', sys_ok h s' ops' out evs gys -> sy_meter s' = (if idle then MeterCheck else MeterPop) -> sy_meter_stop s' = sy_meter_stop s -> meter_goes h s' out MeterDone [] []) ->
  meter_goes h s out MeterDone [] [].
Proof.
  intros Hok Hpc Hk. eapply meter_goes_step; [done|by rewrite Hpc..|]. cbn zeta.
  intros rt' pc' ops' evs' gys' Hok' Hn. rewrite Hpc in Hn. destruct Hn as (-> & -> & ->). by eapply Hk.
Qed.

Lemma check_goes s ops evs gys : sys_ok h s ops out evs gys -> sy_meter s = MeterCheck -> sy_meter_stop s = true ->
  (forall s' ops', sys_ok h s' ops' out evs gys -> sy_meter s' = MeterPop -> sy_meter_stop s' = true -> evs <> [] \/ gys <> [] -> meter_goes h s' out MeterDone [] []) ->
  meter_goes h s out MeterDone [] [].
Proof.
  intros Hok Hpc Hst Hk. eapply meter_goes_step; [done|by rewrite Hpc..|]. cbn zeta.
  intros rt' pc' ops' evs' gys' Hok' Hn. rewrite Hpc, Hst in Hn. destruct Hn as (-> & -> & Hpc'). cbn [andb] in Hpc'.
  destruct (decide (evs = [])) as [->|He]; [destruct (decide (gys = [])) as [->|Hg]|].
  - subst pc'. eapply meter_goes_step; [exact Hok'|done..|]. cbn zeta. intros rt2 pc2 ops2 evs2 gys2 Hok2 (-> & -> & ->).
    by eapply meter_goes_here.
  - rewrite (bool_decide_false (gys = [])), andb_false_r in Hpc' by done. subst pc'. eapply Hk; [exact Hok'|done|done|by right].
  - rewrite (bool_decide_false (evs = [])) in Hpc' by done. subst pc'. eapply Hk; [exact Hok'|done|done|by left].
Qed.

Lemma idle_goes s ops gys : sys_ok h s ops out [] gys -> sy_meter s = MeterGy true -> sy_meter_stop s = true -> meter_goes h s out MeterDone [] [].
Proof.
  intros Hok Hpc Hst. eapply gy_empties; [done|done|]. intros s1 ops1 Hok1 Hpc1 Hst1. eapply poll_goes; [done|done|].
  intros s2 ops2 Hok2 Hpc2 Hst2. eapply check_goes; [done|done|congruence|]. intros s3 ops3 _ _ _ [?|?]; done.
Qed.

Lemma pop_ends n : forall s ops evs gys, (length evs <= n)%nat -> sys_ok h s ops out evs gys -> sy_meter s = MeterPop -> sy_meter_stop s = true ->
  meter_goes h s out MeterDone [] [].
Proof.
  induction n as [|n IH]; intros s ops evs gys Hn Hok Hpc Hst; (eapply meter_goes_step; [done|by rewrite Hpc|by rewrite Hpc|]); cbn zeta;
    intros rt' pc' ops' evs' gys' Hok' Hnx; rewrite Hpc in Hnx; destruct Hnx as (-> & b & -> & Hb).
  - destruct b as [|ev b]; [|cbn in Hn; lia]. destruct Hb as [E ->]. cbn in E. subst evs'. eapply idle_goes; [exact Hok'|done|done].
  - destruct b as [|ev b].
    { destruct Hb as [E ->]. cbn in E. subst evs'. eapply idle_goes; [exact Hok'|done|done]. }
    subst pc'. rewrite length_app in Hn. cbn in Hn. eapply batch_empties; [exact Hok'|done|]. intros s1 ops1 Hok1 Hpc1 Hst1.
    eapply gy_empties; [done|done|]. intros s2 ops2 Hok2 Hpc2 Hst2. eapply poll_goes; [done|done|]. intros s3 ops3 Hok3 Hpc3 Hst3.
    eapply (IH s3 ops3 evs' []); [lia|done|done|]. cbn in Hst1. congruence.
Qed.

Lemma meter_ends s ops evs gys : sys_ok h s ops out evs gys -> sy_meter s <> MeterOff -> sy_meter_stop s = true ->
  exists evs' gys', meter_goes h s out MeterDone evs' gys'.
Proof.
  intros Hok Hoff Hst. destruct (sy_meter s) as [| |rest|idle|idle| | |] eqn:Hpc; [done|..].
  - exists [], []. by eapply pop_ends.
  - exists [], []. eapply batch_empties; [done|done|]. intros s1 ops1 Hok1 Hpc1 Hst1.
    eapply gy_empties; [done|done|]. intros s2 ops2 Hok2 Hpc2 Hst2. eapply poll_goes; [done|done|]. intros s3 ops3 Hok3 Hpc3 Hst3.
    eapply pop_ends; [done|done|done|congruence].
  - exists [], []. eapply gy_empties; [done|done|]. intros s2 ops2 Hok2 Hpc2 Hst2. eapply poll_goes; [done|done|]. intros s3 ops3 Hok3 Hpc3 Hst3.
    destruct idle; [eapply check_goes|eapply pop_ends]; try done; try congruence. intros s4 ops4 Hok4 Hpc4 Hst4 _. by eapply pop_ends.
  - exists [], []. eapply poll_goes; [done|done|]. intros s3 ops3 Hok3 Hpc3 Hst3.
    destruct idle; [eapply check_goes|eapply pop_ends]; try done; try congruence. intros s4 ops4 Hok4 Hpc4 Hst4 _. by eapply pop_ends.
  - exists [], []. eapply check_goes; [done|done|done|]. intros s4 ops4 Hok4 Hpc4 Hst4 _. by eapply pop_ends.
  - exists evs, gys. eapply meter_goes_step; [done|by rewrite Hpc|by rewrite Hpc|]. cbn zeta. intros rt2 pc2 ops2 evs2 gys2 Hok2 Hn.
    rewrite Hpc in Hn. destruct Hn as (-> & -> & ->). by eapply meter_goes_here.
  - exists evs, gys. by eapply meter_goes_here.
Qed.
End Stopping.

(** A drain of the reporter can empty the ring and go on to [pc']. *)
Lemma drain_ends h pc pc' : pc = ReporterDrain /\ pc' = ReporterCheck \/ pc = ReporterFinal /\ pc' = ReporterDone ->
  forall n s ops out evs gys queued, (length queued <= n)%nat -> sys_ok h s ops out evs gys -> records_queued (sy_rt s) queued ->
  sy_reporter s = pc ->
  exists s', sys_steps s s' /\ sys_inv h s' /\ sy_reporter s' = pc' /\ sy_main s' = sy_main s /\ sy_reporter_stop s' = sy_reporter_stop s.
Proof.
  intros Hcase. induction n as [|n IH]; intros s ops out evs gys queued Hn Hok Hq Hpc;
    (destruct (reporter_acts h s ops out evs gys queued Hok) as (o & Ho & rt' & k & pc1 & ops' & out' & queued' & -> & Hok' & Hq' & Hnx);
      [rewrite Hpc; by destruct Hcase as [[-> _]|[-> _]]|done|]); rewrite Hpc in Hnx;
    assert (queued' = tail queued /\ pc1 = match queued with [] => pc' | _ => pc end) as [-> ->]
      by (destruct Hcase as [[-> ->]|[-> ->]]; exact Hnx);
    apply by_reporter with (wall_ns := wall_ns) (now_ns := now_ns)
      (publish_wall := publish_wall) (rank := rank) (link_type := link_type) (start_ns := start_ns) (opened := opened) in Ho.
  - destruct queued; [|cbn in Hn; lia]. eexists. split; [by apply rtc_once|]. split; [by eexists _, _, _, _|done].
  - destruct queued as [|r queued]; [eexists; split; [by apply rtc_once|split; [by eexists _, _, _, _|done]]|]. cbn [tail] in *.
    destruct (IH _ ops' out' evs gys queued ltac:(cbn in Hn; lia) Hok' Hq') as (s' & Hs & Hi & Hr & Hm); [done|].
    exists s'. split_and!; [by eapply rtc_l|done|done|apply Hm..].
Qed.

Lemma final_ends h s : sys_inv h s -> sy_reporter s = ReporterFinal ->
  exists s', sys_steps s s' /\ sys_inv h s' /\ sy_reporter s' = ReporterDone /\ sy_main s' = sy_main s.
Proof.
  intros (ops & out & evs & gys & Hok) Hpc. destruct (so_sink _ _ _ _ _ _ Hok) as (queued & Hq & _).
  destruct (drain_ends h ReporterFinal ReporterDone (or_intror (conj eq_refl eq_refl)) _ s ops out evs gys queued (le_n _) Hok Hq Hpc)
    as (s' & H1 & H2 & H3 & H4 & _). by exists s'.
Qed.

Lemma check_ends h s : sys_inv h s -> sy_reporter s = ReporterCheck -> sy_reporter_stop s = true ->
  exists s', sys_steps s s' /\ sys_inv h s' /\ sy_reporter s' = ReporterDone /\ sy_main s' = sy_main s.
Proof.
  intros Hinv Hpc Hst. pose proof Hinv as (ops & out & evs & gys & Hok). destruct (reporter_returns h s Hinv) as (o & Ho & Hi).
  pose proof Ho as Ho1. unfold Threads.reporter_step in Ho1. rewrite Hpc, Hst in Ho1. injection Ho1 as <-.
  destruct (final_ends h _ Hi) as (s' & H1 & H2 & H3 & H4); [done|]. exists s'. split_and!; [|done|done|done].
  eapply rtc_l; [apply by_reporter, Ho|exact H1].
Qed.

Lemma reporter_ends h s : sys_inv h s -> sy_reporter_stop s = true -> sy_reporter s <> ReporterOff ->
  exists s', sys_steps s s' /\ sys_inv h s' /\ sy_reporter s' = ReporterDone /\ sy_main s' = sy_main s.
Proof.
  intros Hinv Hst Hoff. pose proof Hinv as (ops & out & evs & gys & Hok). destruct (so_sink _ _ _ _ _ _ Hok) as (queued & Hq & _).
  destruct (sy_reporter s) eqn:Hpc; [done|by apply check_ends| |by apply final_ends|by exists s].
  destruct (drain_ends h ReporterDrain ReporterCheck (or_introl (conj eq_refl eq_refl)) _ s ops out evs gys queued (le_n _) Hok Hq Hpc)
    as (s1 & H1 & H2 & H3 & H4 & H5). destruct (check_ends h s1 H2 H3) as (s' & K1 & K2 & K3 & K4); [congruence|].
  exists s'. split_and!; [by etransitivity|done|done|congruence].
Qed.

(** Where the main thread goes. *)
Lemma main_pc_next (s s' : system) : main_step s = Ok (Some s') ->
  match sy_main s with
  | MainStart bs => sy_main s' = MainRun [] bs
  | MainRun (_ :: cur) bs => sy_main s' = MainRun cur bs
  | MainRun [] _ => sy_g_stop s = true -> sy_main s' = MainStop
  | MainStop => sy_running s = true -> sy_main s' = MainJoinMeter
  | MainJoinMeter => sy_main s' = MainJoinReporter
  | MainJoinReporter => sy_main s' = MainDrain
  | _ => True
  end.
Proof.
  unfold Threads.main_step. destruct (sy_main s) as [bs|[|[p ts] cur] bs| | | | |] eqn:Hpc; try done.
  - destruct (sy_running s); by intros [= <-].
  - intros H Hg. rewrite Hg in H. by injection H as <-.
  - intros (i & _ & [= <-])%bind_Ok_inv. done.
  - intros H Hr. rewrite Hr in H. by injection H as <-.
  - destruct (sy_meter s); try done. by intros [= <-].
  - destruct (sy_reporter s); try done. by intros [= <-].
Qed.

Lemma main_moves h s : sys_inv h s -> ~ main_waits s -> exists h' s', sys_step s s' /\ sys_inv h' s' /\ main_step s = Ok (Some s').
Proof.
  intros Hinv Hw. destruct (main_acts h s Hinv) as ([s'|] & Ho & Hp); [|done]. destruct Hp as (new & newg & _ & Hi & _).
  exists (extend h new newg), s'. split_and!; [by apply by_main|done|done].
Qed.

(** From each stage of the main thread the system can go on to the end. *)
Definition can_stop (s : system) : Prop := exists s', sys_steps s s' /\ sy_main s' = MainDone.

Lemma can_stop_l s s' : sys_steps s s' -> can_stop s' -> can_stop s.
Proof. intros H (s2 & H2 & ?). exists s2. split; [by etransitivity|done]. Qed.

(** The next stage of a main thread that does not wait. *)
Lemma main_goes h s pc : sys_inv h s -> ~ main_waits s -> (forall s', main_step s = Ok (Some s') -> sy_main s' = pc) ->
  (forall h' s', sys_inv h' s' -> sy_main s' = pc -> can_stop s') -> can_stop s.
Proof.
  intros Hinv Hw Hpc Hk. destruct (main_moves h s Hinv Hw) as (h' & s' & Hs & Hi & Ho). apply (can_stop_l s s'); [by apply rtc_once|eauto].
Qed.

Ltac no_wait Hpc := unfold main_waits; rewrite Hpc; by intros [].

Lemma drain_stops h s : sys_inv h s -> sy_main s = MainDrain -> can_stop s.
Proof.
  intros (ops & out & evs & gys & Hok) Hpc. destruct (main_drain_step h s ops out evs gys Hok Hpc) as (o & Ho & _ & s' & -> & Hd).
  exists s'. split; [by apply rtc_once, by_main|done].
Qed.

Lemma join_reporter_stops h s : sys_inv h s -> sy_main s = MainJoinReporter -> can_stop s.
Proof.
  intros Hinv Hpc. pose proof Hinv as (ops & out & evs & gys & Hok). pose proof (so_pcs _ _ _ _ _ _ Hok) as Hp. unfold pcs_ok in Hp.
  rewrite Hpc in Hp. destruct Hp as (Hst & _ & Hoff). destruct (reporter_ends h s Hinv Hst Hoff) as (s1 & Hs & Hi & Hr & Hm).
  apply (can_stop_l s s1 Hs). rewrite Hpc in Hm. apply (main_goes h s1 MainDrain Hi); [unfold main_waits; rewrite Hm, Hr; by intros []| |by apply drain_stops].
  intros s' H%main_pc_next. by rewrite Hm in H.
Qed.

Lemma join_meter_stops h s : sys_inv h s -> sy_main s = MainJoinMeter -> can_stop s.
Proof.
  intros Hinv Hpc. pose proof Hinv as (ops & out & evs & gys & Hok). pose proof (so_pcs _ _ _ _ _ _ Hok) as Hp. unfold pcs_ok in Hp.
  rewrite Hpc in Hp. destruct Hp as (Hst & _ & Hoff & _).
  destruct (meter_ends h out s ops evs gys Hok Hoff Hst) as (evs' & gys' & rt' & ops' & Hs & Hok').
  apply (can_stop_l s _ Hs). set (s1 := setf sy_meter _ _) in *. assert (sy_main s1 = MainJoinMeter) as Hm by done.
  apply (main_goes h s1 MainJoinReporter); [by eexists _, _, _, _|unfold main_waits; rewrite Hm; intros H; by apply H| |by apply join_reporter_stops].
  intros s' H%main_pc_next. by rewrite Hm in H.
Qed.

Lemma stop_stops h s : sys_inv h s -> sy_main s = MainStop -> can_stop s.
Proof.
  intros Hinv Hpc. pose proof Hinv as (ops & out & evs & gys & Hok). pose proof (so_pcs _ _ _ _ _ _ Hok) as Hp. unfold pcs_ok in Hp.
  rewrite Hpc in Hp. apply (main_goes h s MainJoinMeter Hinv); [no_wait Hpc| |by apply join_meter_stops].
  intros s' H%main_pc_next. rewrite Hpc in H. apply H, Hp.
Qed.

Lemma run_stops bs cur : forall h s, sys_inv h s -> sy_main s = MainRun cur bs -> can_stop s.
Proof.
  induction cur as [|p cur IH]; intros h s Hinv Hpc.
  - apply (can_stop_l s (s <| sy_g_stop := true |>)); [apply rtc_once, by_signal|].
    apply (main_goes h _ MainStop); [by apply signal_inv|unfold main_waits; cbn; rewrite Hpc; by intros []| |by apply stop_stops].
    intros s' H%main_pc_next. cbn in H. rewrite Hpc in H. by apply H.
  - apply (main_goes h s (MainRun cur bs) Hinv); [no_wait Hpc| |by apply IH]. intros s' H%main_pc_next. by rewrite Hpc in H.
Qed.

Lemma system_stops h s : sys_inv h s -> can_stop s.
Proof.
  intros Hinv. destruct (sy_main s) as [bs|cur bs| | | | |] eqn:Hpc.
  - apply (main_goes h s (MainRun [] bs) Hinv); [no_wait Hpc| |intros h' s'; by apply run_stops]. intros s' H%main_pc_next. by rewrite Hpc in H.
  - by eapply run_stops.
  - by eapply stop_stops.
  - by eapply join_meter_stops.
  - by eapply join_reporter_stops.
  - by eapply drain_stops.
  - by exists s.
Qed.

(** ** The program as [main] sets it up *)

(** The engine with its record ring and sessions, the runtime around it. *)
Definition boot (mcfg : MeterConfig) (teids : M) (q0 : R) (cfg : RuntimeConfig) (icfg : IngestConfig) (q1 : R1) (q2 : R2)
    (specs : list SessionSpec) (now : Z) (batches : list batch) : res (engine * system) :=
  let* e0 := fresh_engine mcfg teids (Some q0) in
  let* (_, e) := run wall_ns e0 (installs specs now) in
  Ok (e0, system_init (Runtime_new cfg icfg q1 q2 e) batches).

Record boot_ok (mcfg : MeterConfig) (teids : M) (q0 : R) (cfg : RuntimeConfig) (q1 : R1) (q2 : R2)
    (specs : list SessionSpec) (batches : list batch) : Prop := {
  bo_engine : fresh_ok mcfg teids (Some q0);
  bo_meter : q_repr q1 [];
  bo_gy : q_repr q2 [];
  bo_batch : 1 <= meter_batch cfg < 2 ^ 64;
  bo_limit : (0 < snapshot_flow_limit (rc_detail cfg))%nat;
  bo_specs : Forall session_ok specs;
  bo_packets : Forall packet_ok (concat batches)
}.

Lemma boot_spec mcfg teids q0 cfg icfg q1 q2 specs now batches : boot_ok mcfg teids q0 cfg q1 q2 specs batches ->
  ensures (boot mcfg teids q0 cfg icfg q1 q2 specs now batches) (fun '(e0, s0) => exists e,
    good e0 /\ (forall mt i, pend mt e0 i = 0) /\ record_sink_ e0 = Some q0 /\ stats_ e0 = PipelineStats_init /\ built_ e0 = [] /\
    ran wall_ns e0 (installs specs now) e /\ sys_inv (mkHistory e [] []) s0).
Proof.
  intros [Hf H1 H2 Hb Hlim Hspec Hp]. unfold boot. eapply ensures_bind; [by apply fresh_good|]. intros e0 (Hg & Hp0 & Hs & Hst & Hbt).
  assert (Forall op_ok (installs specs now)) as Hins by (by apply Forall_map).
  destruct (installs_ran wall_ns specs now e0 Hg Hspec) as (e & Hrun & Hge). unfold ran in Hrun. rewrite Hrun, bind_Ok. apply ensures_Ok.
  pose proof (fo_sink _ _ _ Hf) as Hq0. exists e. split_and!; try done. exists [], [], [], []. constructor; try done.
  - constructor; [done|by exists q1|by exists q2|done|done|done|by split; [split_and!|]].
  - destruct (ran_queued (installs specs now) e0 e q0 [] Hg Hins Hrun Hs Hq0) as (q & l & Hq & Hl). exists l. split; [by exists q|done].
  - by intros [?|?].
Qed.

(** A system that has stopped, when the main thread has put the events [E] and the
    Gy reports [G] on the rings: one run of engine operations, the sessions
    installed at the start and then the threads' operations, explains the engine
    and applied exactly [E] and [G], in order; nothing is queued and no byte is
    pending; the records built bill what the packets were charged, and those the
    record ring kept were all taken off it and written. *)
Definition finished (e0 : engine) (specs : list SessionSpec) (now : Z) (s : system) (E : list MeterEvent) (G : list GyEvent) : Prop :=
  exists ops out, let e := rt_engine (sy_rt s) in let all := installs specs now ++ ops in
  run wall_ns e0 all = Ok (out, e) /\ Forall thread_op ops /\ applied ops = E /\ reported ops = G /\
  u64 (in_events_pushed (in_stats_ (rt_ingest (sy_rt s)))) = u64 (size E) /\
  rt_ok (sy_rt s) [] [] /\ records_queued (sy_rt s) [] /\ settled e /\
  (forall i, u64 (billed UlBytes i (built_ e)) = u64 (charges wall_ns e0 all UlBytes i) /\
             u64 (billed DlBytes i (built_ e)) = u64 (charges wall_ns e0 all DlBytes i)) /\
  out `sublist_of` built_ e /\ u64 (st_records_dropped (stats_ e)) = u64 (size (built_ e) - size out) /\
  (size (built_ e) < 2 ^ 64 -> st_records_dropped (stats_ e) = 0 -> out = built_ e) /\
  filed_as (sy_rt s) (sy_writes s) out.

Lemma done_finished e0 e specs now s q0 E G : good e0 -> (forall mt i, pend mt e0 i = 0) -> record_sink_ e0 = Some q0 -> q_repr q0 [] ->
  stats_ e0 = PipelineStats_init -> built_ e0 = [] -> Forall session_ok specs -> ran wall_ns e0 (installs specs now) e ->
  sys_inv (mkHistory e E G) s -> sy_main s = MainDone -> finished e0 specs now s E G.
Proof.
  intros Hg Hp0 Hs0 Hq0 Hst0 Hb0 Hspec Hins (ops & out & evs & gys & [Hrun [Hops Hth] Hrt Hhand (HE1 & HE2 & Hpush) Htodo Hfile Hpcs (queued & Hq & Hnil) Hfl Hset Hrep]) Hpc.
  cbn in HE1, HE2, Hpush, Hrun. unfold pcs_ok in Hpcs. unfold filed in Hfile. rewrite Hpc in Hpcs, Hfile. destruct Hpcs as [Hm Hr].
  specialize (Hnil Hr). subst queued. destruct (Hfl (or_intror Hm)) as [-> ->]. rewrite Hm in HE1. cbn [in_hand app] in HE1. rewrite app_nil_r in HE1, HE2.
  assert (run wall_ns e0 (installs specs now ++ ops) = Ok (out, rt_engine (sy_rt s))) as Hall
    by (rewrite run_app; unfold ran in Hins; rewrite Hins, bind_Ok, Hrun, bind_Ok; done).
  destruct (run_spec wall_ns (installs specs now ++ ops) e0 Hg) as ([out' e'] & Hrun' & _ & recs & kept & Hbk).
  { apply Forall_app. split; [by apply Forall_map|done]. }
  rewrite Hall in Hrun'. injection Hrun' as <- <-.
  destruct (settled_books e0 _ q0 _ recs kept out Hbk Hp0 Hs0 Hq0 Hst0 Hb0 (Hset Hm)) as (q & l & Hq1 & Hl & Hsub & Hbill & Hdr).
  destruct Hq as (q' & Hq' & Hr'). rewrite Hq1 in Hq'. injection Hq' as <-. rewrite (repr_unique l q [] Hl Hr'), app_nil_r in Hsub, Hdr.
  exists ops, out. cbn zeta. split_and!; try done; [by exists q|by apply Hset|]. intros Hlt H0. by eapply nothing_dropped.
Qed.

(** C2: The threads settle the books under every schedule.  Start the program with
    any sessions and any batches of packets, and let the main, metering and
    reporter threads take their actions in any order, with signals and readers at
    any time; [fed] records, along the execution, the events [E] and Gy reports
    [G] the main thread puts on the rings.  No action of any thread ever faults.
    Whenever the main thread has come to its end, both event rings and the record
    ring are empty; one run of engine operations, the sessions' installation
    followed by the threads' operations, explains the engine, and it applied
    exactly the events [E] and the reports [G], each once and in order; no byte is
    pending, and for every subscriber the records [emit_record] built bill exactly
    the bytes its packets were charged, modulo 2^64; the drop counter counts the
    built records the ring refused; and the others are, in order, those in the
    record file behind what it held, or were counted as failed writes. *)
Theorem threads_settle mcfg teids q0 cfg icfg q1 q2 specs now batches : boot_ok mcfg teids q0 cfg q1 q2 specs batches ->
  ensures (boot mcfg teids q0 cfg icfg q1 q2 specs now batches) (fun '(e0, s0) =>
    (forall s, sys_steps s0 s -> exists E G, fed s0 s E G) /\
    forall s E G, fed s0 s E G ->
      returns (main_step s) /\ returns (meter_step s) /\ returns (reporter_step s) /\
      (sy_main s = MainDone -> finished e0 specs now s E G)).
Proof.
  intros Hb. eapply ensures_mono; [by apply boot_spec|]. intros [e0 s0] (e & Hg & Hp & Hs & Hst & Hbt & Hins & Hinv).
  split; [intros s; by eapply steps_fed|]. intros s E G Hfed.
  pose proof (fed_inv e s0 s E G Hinv Hfed) as Hi. destruct (main_acts _ s Hi) as (o1 & H1 & _).
  destruct (meter_returns _ s Hi) as (o2 & H2 & _). destruct (reporter_returns _ s Hi) as (o3 & H3 & _).
  split_and!; [by exists o1|by exists o2|by exists o3|]. destruct Hb as [Hf _ _ _ _ Hspec _].
  apply (done_finished e0 e specs now s q0); auto. apply (fo_sink _ _ _ Hf).
Qed.

(** C10: The program can always be stopped.  Whatever the threads have done so far,
    from every reachable state there is a continuation, with at most a signal from
    outside, in which the main thread joins both others and ends: no state is a
    deadlock, and no wait of the shutdown sequence can be left unanswered. *)
Theorem threads_can_stop mcfg teids q0 cfg icfg q1 q2 specs now batches : boot_ok mcfg teids q0 cfg q1 q2 specs batches ->
  ensures (boot mcfg teids q0 cfg icfg q1 q2 specs now batches) (fun '(e0, s0) => forall s, sys_steps s0 s ->
    exists s', sys_steps s s' /\ sy_main s' = MainDone).
Proof.
  intros Hb. eapply ensures_mono; [by apply boot_spec|]. intros [e0 s0] (e & _ & _ & _ & _ & _ & _ & Hinv) s Hsteps.
  destruct (steps_fed e s0 s Hinv Hsteps) as (E & G & Hf). by eapply system_stops, fed_inv.
Qed.

(** A schedule: the main thread first, then the metering thread, then the reporter. *)
Fixpoint drive (n : nat) (s : system) : res system :=
  match n with
  | O => Ok s
  | S n =>
      let* o := main_step s in
      let* o := match o with Some s' => Ok (Some s') | None => meter_step s end in
      let* o := match o with Some s' => Ok (Some s') | None => reporter_step s end in
      match o with Some s' => drive n s' | None => Ok s end
  end.

Lemma drive_steps n : forall s s', drive n s = Ok s' -> sys_steps s s'.
Proof.
  induction n as [|n IH]; intros s s'; cbn [drive]; [intros [= <-]; apply rtc_refl|].
  intros (o1 & H1 & (o2 & H2 & (o3 & H3 & H4)%bind_Ok_inv)%bind_Ok_inv)%bind_Ok_inv. destruct o3 as [s1|]; [|injection H4 as <-; apply rtc_refl].
  apply IH in H4. apply rtc_l with s1; [|done].
  destruct o1 as [a|]; [injection H2 as <-; injection H3 as <-; by apply by_main|].
  destruct o2 as [b|]; [injection H3 as <-; by apply by_meter|by apply by_reporter].
Qed.
End Props.

(** ** Witnesses: one packet through all threads *)

Definition sample_batches : list batch := [[(mkPacket sample_frame 0 (size sample_frame), 5)]; []].

Lemma sample_boot_ok : boot_ok sample_cfg sample_teids sample_sink sample_rt_cfg (sample_ring MeterEvent_init) (sample_ring GyEvent_init)
  [sample_session 11 0x1001 101] sample_batches.
Proof.
  constructor; [apply sample_fresh|apply sample_ring_empty|apply sample_ring_empty|cbn; lia|cbn; lia| |].
  - constructor; [|constructor]. unfold session_ok. cbn. lia.
  - constructor; [|constructor]. split; vm_compute; [reflexivity|]. split; [congruence|reflexivity].
Qed.

Definition sample_boot := boot sample_wall sample_cfg sample_teids sample_sink sample_rt_cfg IngestConfig_init
  (sample_ring MeterEvent_init) (sample_ring GyEvent_init) [sample_session 11 0x1001 101] 3 sample_batches.

#[local] Abbreviation sample_drive := (@drive little _ _ _ _ _ _ _ _ _ sample_wall sample_wall sample_wall (fun _ t => t) 1 7 (Some []) (fun _ => true)).
#[local] Abbreviation sample_steps := (@sys_steps little _ _ _ _ _ _ _ _ _ sample_wall sample_wall sample_wall (fun _ t => t) 1 7 (Some []) (fun _ => true)).

#[local] Abbreviation sample_fed := (@fed little _ _ _ _ _ _ _ _ _ sample_wall sample_wall sample_wall (fun _ t => t) 1 7 (Some []) (fun _ => true)).

(** The schedule of [drive] brings the program to its end, with the packet billed
    to IMSI 11 in the record file. *)
Lemma threads_settle_witness :
  ensures sample_boot (fun '(e0, s0) => exists s, sample_steps s0 s /\ sy_main s = MainDone /\
    option_map (map (fun r => (r_imsi r, r_ul_bytes r))) (rt_records_file (sy_rt s)) = Some [(11, 30)] /\
    exists E G, sample_fed s0 s E G /\ finished sample_wall (Some []) (fun _ => true) e0 [sample_session 11 0x1001 101] 3 s E G).
Proof.
  pose proof (@threads_settle little _ _ _ _ _ _ _ _ _ sample_wall sample_wall sample_wall (fun _ t => t) 1 7 (Some []) (fun _ => true)
    sample_cfg sample_teids sample_sink sample_rt_cfg IngestConfig_init (sample_ring MeterEvent_init) (sample_ring GyEvent_init)
    [sample_session 11 0x1001 101] 3 sample_batches sample_boot_ok) as ([e0 s0] & Hb & H).
  exists (e0, s0). split; [exact Hb|].
  assert (exists s, sample_drive 60 s0 = Ok s /\ sy_main s = MainDone /\
    option_map (map (fun r => (r_imsi r, r_ul_bytes r))) (rt_records_file (sy_rt s)) = Some [(11, 30)]) as (s & Hs & Hd & Hf).
  { vm_compute in Hb. injection Hb as <- <-. eexists. split; [vm_compute; reflexivity|]. split_and!; reflexivity. }
  exists s. apply drive_steps in Hs. split; [exact Hs|]. split; [exact Hd|]. split; [exact Hf|].
  destruct H as [Hfed H]. destruct (Hfed s Hs) as (E & G & HEG). exists E, G. split; [exact HEG|].
  exact (proj2 (proj2 (proj2 (H s E G HEG))) Hd).
Defined.

Lemma threads_can_stop_witness :
  ensures sample_boot (fun '(_, s0) => exists s', sample_steps s0 s' /\ sy_main s' = MainDone).
Proof.
  pose proof (@threads_can_stop little _ _ _ _ _ _ _ _ _ sample_wall sample_wall sample_wall (fun _ t => t) 1 7 (Some []) (fun _ => true)
    sample_cfg sample_teids sample_sink sample_rt_cfg IngestConfig_init (sample_ring MeterEvent_init) (sample_ring GyEvent_init)
    [sample_session 11 0x1001 101] 3 sample_batches sample_boot_ok) as ([e0 s0] & Hb & H).
  exists (e0, s0). split; [exact Hb|]. apply H. apply rtc_refl.
Defined.
