(* ===== verification/Descriptors.v ===== *)
(** * src/ingest_rawsock.cpp, src/reporter.cpp: file descriptors

    The operations that open and close descriptors: [LiveCaptureSource::open] on
    both platforms with its destructor, and [HttpReporter]'s [start], [stop] and the
    life of one connection.  The kernel is an oracle: [answer k] is what the [k]-th
    system call returns, negative for a failure, and a call that makes a descriptor
    and does not fail makes [pick open], which is not open.  [strerror k] is the text
    of [errno] after call [k].  Closing a descriptor that is not open is recorded as
    a fault. *)

From Stdlib Require Strings.String.
From S2P Require Import Prelude SessionCsv Double Text Pcap.

Record Kernel := mkKernel { k_calls : nat; k_open : list Z; k_fault : bool }.
#[export] Instance Kernel_eta : Eta Kernel := fun w => mkKernel (k_calls w) (k_open w) (k_fault w).

Section Descriptors.
Context (answer : nat -> Z) (strerror : nat -> Bytes) (pick : list Z -> Z).

(** System calls: one that makes a descriptor, one that does not, and [close]. *)
Definition sys_open (w : Kernel) : Z * Kernel :=
  if answer (k_calls w) <? 0 then (-1, w <| k_calls ::= S |>)
  else let fd := pick (k_open w) in (fd, w <| k_calls ::= S |> <| k_open ::= cons fd |>).
Definition sys_call (w : Kernel) : Z * Kernel := (answer (k_calls w), w <| k_calls ::= S |>).
Definition sys_close (fd : Z) (w : Kernel) : Kernel :=
  if bool_decide (fd ∈ k_open w) then w <| k_calls ::= S |> <| k_open ::= filter (fun x => x <> fd) |>
  else w <| k_calls ::= S |> <| k_fault := true |>.
(** [std::strerror(errno)] after the last call. *)
Definition last_error (w : Kernel) : Bytes := strerror (pred (k_calls w)).

(** ** LiveCaptureSource *)

Record LiveOptions := mkLiveOptions { lo_interface : Bytes; lo_promiscuous : bool; lo_snaplen : Z }.
Record LiveHandle := mkHandle { lh_fd : Z; lh_link_type : Z; lh_buffer : Z }.
#[export] Instance LiveHandle_eta : Eta LiveHandle := fun h => mkHandle (lh_fd h) (lh_link_type h) (lh_buffer h).
Definition LiveHandle_init : LiveHandle := mkHandle (-1) LinkType.kEthernet 0.

(** [~LiveCaptureSource]. *)
Definition live_destroy (h : LiveHandle) (w : Kernel) : Kernel := if 0 <=? lh_fd h then sys_close (lh_fd h) w else w.

(** Returning [nullptr] destroys the source that was being built. *)
Definition live_fail (h : LiveHandle) (error : Bytes) (w : Kernel) : (Bytes + LiveHandle) * Kernel := (inl error, live_destroy h w).

(** Linux. *)
Definition open_linux (opt : LiveOptions) (w : Kernel) : (Bytes + LiveHandle) * Kernel :=
  let src := LiveHandle_init in
  let (fd, w) := sys_open w in
  if fd <? 0 then live_fail src (txt "socket(AF_PACKET): " ++ last_error w ++ txt " (live capture needs CAP_NET_RAW or root)") w else
  let src := src <| lh_fd := fd |> in
  let (r, w) := sys_call w in
  if r <? 0 then live_fail src (txt "no such interface: " ++ lo_interface opt) w else
  let (r, w) := sys_call w in
  if r <? 0 then live_fail src (txt "bind: " ++ last_error w) w else
  let (r, w) := (if lo_promiscuous opt then sys_call w else (0, w)) in
  if r <? 0 then live_fail src (txt "promiscuous mode: " ++ last_error w) w else
  (inr (src <| lh_buffer := lo_snaplen opt |> <| lh_link_type := LinkType.kEthernet |>), w).

(** macOS: the search for a free BPF device.  [busy k] says whether [errno] is
    [EBUSY] after call [k]; [datalink] and [buf_len] are what the device reports as
    its link type and buffer size. *)
Context (busy : nat -> bool) (datalink : Z) (dlt_raw : Z) (buf_len : Z).
Fixpoint open_bpf (devices : nat) (w : Kernel) : Z * Kernel :=
  match devices with
  | O => (-1, w)
  | S devices =>
      let (fd, w) := sys_open w in
      if 0 <=? fd then (fd, w) else if negb (busy (pred (k_calls w))) then (fd, w) else open_bpf devices w
  end.

Definition open_macos (opt : LiveOptions) (w : Kernel) : (Bytes + LiveHandle) * Kernel :=
  let src := LiveHandle_init in
  let (fd, w) := open_bpf 256 w in
  if fd <? 0 then live_fail src (txt "open /dev/bpf*: " ++ last_error w ++ txt " (live capture needs root on macOS)") w else
  let src := src <| lh_fd := fd |> in
  let (r, w) := sys_call w in
  if r <? 0 then live_fail src (txt "BIOCSBLEN: " ++ last_error w) w else
  let (r, w) := sys_call w in
  if r <? 0 then live_fail src (txt "cannot attach to interface " ++ lo_interface opt ++ txt ": " ++ last_error w) w else
  let (_, w) := sys_call w in
  let (_, w) := (if lo_promiscuous opt then sys_call w else (0, w)) in
  let (r, w) := sys_call w in
  (inr (src <| lh_link_type := if (r =? 0) && (datalink =? dlt_raw) then LinkType.kRawIp else LinkType.kEthernet |>
            <| lh_buffer := buf_len |>), w).

(** ** HttpReporter *)

Record Reporter := mkReporter {
  hr_port : Z; hr_bind : Bytes; hr_listen_fd : Z; hr_joinable : bool; hr_stop : bool; hr_requests : Z
}.
#[export] Instance Reporter_eta : Eta Reporter := fun h =>
  mkReporter (hr_port h) (hr_bind h) (hr_listen_fd h) (hr_joinable h) (hr_stop h) (hr_requests h).
Definition Reporter_new (port : Z) (bind_address : Bytes) : Reporter := mkReporter port bind_address (-1) false false 0.

(** A failed start: the error, and the socket closed again. *)
Definition start_fail (h : Reporter) (error : Bytes) (w : Kernel) : option Bytes * Reporter * Kernel :=
  (Some error, h <| hr_listen_fd := -1 |>, sys_close (hr_listen_fd h) w).

(** [start]; [valid] says whether [inet_pton] reads the address, [bound] is the port
    [getsockname] reports.  [None] is success.  The reporter must not be running:
    assigning to a joinable thread would end the process. *)
Definition http_start (valid : bool) (bound : Z) (h : Reporter) (w : Kernel) : option Bytes * Reporter * Kernel :=
  let (fd, w) := sys_open w in
  let h := h <| hr_listen_fd := fd |> in
  if fd <? 0 then (Some (txt "socket: " ++ last_error w), h, w) else
  let (_, w) := sys_call w in
  if negb valid then start_fail h (txt "invalid bind address: " ++ hr_bind h) w else
  let (r, w) := sys_call w in
  if r <? 0 then start_fail h (txt "bind " ++ hr_bind h ++ txt ":" ++ show_u64 (hr_port h) ++ txt ": " ++ last_error w) w else
  let (r, w) := sys_call w in
  if r <? 0 then start_fail h (txt "listen: " ++ last_error w) w else
  let (r, w) := sys_call w in
  let h := if r =? 0 then h <| hr_port := bound |> else h in
  (None, h <| hr_stop := false |> <| hr_joinable := true |>, w).

(** [stop]; the join waits for the serving thread. *)
Definition http_stop (h : Reporter) (w : Kernel) : Reporter * Kernel :=
  if (hr_listen_fd h <? 0) && negb (hr_joinable h) then (h, w) else
  let h := h <| hr_stop := true |> <| hr_joinable := false |> in
  if 0 <=? hr_listen_fd h then (h <| hr_listen_fd := -1 |>, sys_close (hr_listen_fd h) w) else (h, w).

(** One turn of [serve_loop]: [poll], [accept], the exchange of [exchange] calls on
    the connection, [close]. *)
Definition serve_turn (exchange : nat) (h : Reporter) (w : Kernel) : Reporter * Kernel :=
  let (ready, w) := sys_call w in
  if ready <=? 0 then (h, w) else
  let (fd, w) := sys_open w in
  if fd <? 0 then (h, w) else
  let w := Nat.iter exchange (fun w => (sys_call w).2) w in
  (h <| hr_requests ::= fun n => add64 n 1 |>, sys_close fd w).

(** ** Nothing is left open *)

Hypothesis pick_fresh : forall l, 0 <= pick l /\ pick l ∉ l.

(** [w'] has [fds] open besides what [w] had, and closed nothing twice. *)
Definition opened (w w' : Kernel) (fds : list Z) : Prop := k_open w' = fds ++ k_open w /\ k_fault w' = k_fault w.

Lemma opened_call w w0 fds : opened w0 w fds -> opened w0 (sys_call w).2 fds.
Proof. done. Qed.

Lemma opened_iter n w0 fds : forall w, opened w0 w fds -> opened w0 (Nat.iter n (fun w => (sys_call w).2) w) fds.
Proof. induction n as [|n IH]; intros w H; [done|]. cbn [Nat.iter nat_rect]. by apply opened_call, IH. Qed.

Lemma sys_open_spec w : let (fd, w') := sys_open w in
  (fd < 0 /\ opened w w' []) \/ (0 <= fd /\ (fd ∉ k_open w) /\ opened w w' [fd]).
Proof.
  unfold sys_open. destruct (answer (k_calls w) <? 0); [left; split; [lia|done]|]. right.
  destruct (pick_fresh (k_open w)). done.
Qed.

Lemma sys_close_spec w w' fd : fd ∉ k_open w -> opened w w' [fd] -> opened w (sys_close fd w') [].
Proof.
  intros Hn [Ho Hf]. unfold sys_close. rewrite bool_decide_true by (rewrite Ho; by left). split; [|done].
  change (filter (fun x => x <> fd) (k_open w') = k_open w). rewrite Ho. change ([fd] ++ k_open w) with (fd :: k_open w).
  rewrite list.filter_cons_False by (intros H; by apply H). clear Ho. induction (k_open w) as [|x l IH]; [done|].
  rewrite list.filter_cons_True by (intros ->; apply Hn; by left). f_equal. apply IH. intros H. apply Hn. by right.
Qed.

(** What opening a capture leaves: an error and nothing, or the source and its
    descriptor, which the destructor closes. *)
Definition live_opened (w : Kernel) (r : (Bytes + LiveHandle) * Kernel) : Prop :=
  match r.1 with
  | inl _ => opened w r.2 []
  | inr h => 0 <= lh_fd h /\ opened w r.2 [lh_fd h] /\ opened w (live_destroy h r.2) []
  end.

Lemma live_failed w w' fd h error : lh_fd h = fd -> 0 <= fd -> fd ∉ k_open w -> opened w w' [fd] -> live_opened w (live_fail h error w').
Proof.
  intros <- Hfd Hn Ho. unfold live_fail, live_opened, live_destroy. cbn. destruct (Z.leb_spec 0 (lh_fd h)); [|lia]. by apply sys_close_spec.
Qed.

Lemma live_done w w' h : 0 <= lh_fd h -> lh_fd h ∉ k_open w -> opened w w' [lh_fd h] -> live_opened w (inr h, w').
Proof.
  intros Hfd Hn Ho. split_and!; [done|done|]. unfold live_destroy. cbn. destruct (Z.leb_spec 0 (lh_fd h)); [|lia]. by apply sys_close_spec.
Qed.

(** The next system call keeps what is open. *)
Ltac next_call :=
  match goal with
  | H : opened ?w0 ?w ?fds |- context [sys_call ?w] =>
      let Hc := fresh "Hc" in pose proof (opened_call w w0 fds H) as Hc; destruct (sys_call w) as [? ?]; cbn [snd] in Hc
  end.
Ltac settle := (by eapply live_failed) || (by apply live_done).

Lemma open_linux_spec opt w : live_opened w (open_linux opt w).
Proof.
  unfold open_linux. pose proof (sys_open_spec w) as Ho. destruct (sys_open w) as [fd w1]. destruct (Z.ltb_spec fd 0).
  { destruct Ho as [[_ Ho]|]; [exact Ho|lia]. }
  destruct Ho as [|(Hfd & Hn & Ho)]; [lia|]. next_call. destruct (_ <? 0); [settle|]. next_call. destruct (_ <? 0); [settle|].
  destruct (lo_promiscuous opt); [|settle]. next_call. destruct (_ <? 0); settle.
Qed.

Lemma open_bpf_spec n : forall w, let (fd, w') := open_bpf n w in
  (fd < 0 /\ opened w w' []) \/ (0 <= fd /\ (fd ∉ k_open w) /\ opened w w' [fd]).
Proof.
  induction n as [|n IH]; intros w; cbn [open_bpf]; [left; split; [lia|done]|].
  pose proof (sys_open_spec w) as Ho. destruct (sys_open w) as [fd w1]. destruct (Z.leb_spec 0 fd); [by right; destruct Ho as [[]|]; [lia|]|].
  destruct Ho as [[Hfd Ho]|]; [|lia]. destruct (negb _); [by left|]. specialize (IH w1). destruct (open_bpf n w1) as [fd2 w2].
  destruct Ho as [Ho1 Ho2]. cbn in Ho1. unfold opened in *. rewrite Ho1, Ho2 in IH. exact IH.
Qed.

Lemma open_macos_spec opt w : live_opened w (open_macos opt w).
Proof.
  unfold open_macos. pose proof (open_bpf_spec 256 w) as Ho. destruct (open_bpf 256 w) as [fd w1]. destruct (Z.ltb_spec fd 0).
  { destruct Ho as [[_ Ho]|]; [exact Ho|lia]. }
  destruct Ho as [|(Hfd & Hn & Ho)]; [lia|]. next_call. destruct (_ <? 0); [settle|]. next_call. destruct (_ <? 0); [settle|].
  next_call. destruct (lo_promiscuous opt); next_call; [next_call|]; settle.
Qed.

Lemma negative_closed (l : list Z) fd : Forall (fun x => 0 <= x) l -> fd < 0 -> fd ∉ l.
Proof. intros Hl Hfd Hin. apply (proj1 (list.Forall_forall _ _) Hl) in Hin. lia. Qed.

(** A reporter whose only descriptor is its listening socket. *)
Definition listening (h : Reporter) : list Z := if 0 <=? hr_listen_fd h then [hr_listen_fd h] else [].
Definition reporter_ok (w0 : Kernel) (h : Reporter) (w : Kernel) : Prop :=
  opened w0 w (listening h) /\ (hr_listen_fd h ∉ k_open w0) /\ (hr_joinable h = true -> 0 <= hr_listen_fd h) /\
  Forall (fun fd => 0 <= fd) (k_open w0).

Lemma start_failed w0 w h error : opened w0 w [hr_listen_fd h] -> hr_listen_fd h ∉ k_open w0 -> hr_joinable h = false ->
  Forall (fun fd => 0 <= fd) (k_open w0) -> let '(_, h', w') := start_fail h error w in reporter_ok w0 h' w'.
Proof.
  intros Ho Hn Hj Hpos. unfold start_fail, reporter_ok, listening. cbn. split_and!; [by apply sys_close_spec| |congruence|done]. by apply negative_closed.
Qed.

Lemma http_start_spec valid bound w0 h w : reporter_ok w0 h w -> hr_listen_fd h < 0 -> hr_joinable h = false ->
  let '(error, h', w') := http_start valid bound h w in
  reporter_ok w0 h' w' /\ (error = None -> 0 <= hr_listen_fd h' /\ hr_joinable h' = true) /\
  (error <> None -> hr_listen_fd h' = -1 /\ hr_joinable h' = false).
Proof.
  intros ([Ho Hf] & Hn & _ & Hpos) Hneg Hj. unfold listening in Ho. destruct (Z.leb_spec 0 (hr_listen_fd h)); [lia|]. cbn in Ho.
  unfold http_start. pose proof (sys_open_spec w) as Hs. unfold sys_open in *. destruct (answer (k_calls w) <? 0).
  { cbn. split_and!; [|done|done]. unfold reporter_ok, listening. cbn. split_and!; [by split|..|congruence|done]. by apply negative_closed. }
  destruct Hs as [[? _]|(Hfd & Hn1 & Ho1 & Hf1)]; [pose proof (pick_fresh (k_open w)); lia|].
  set (fd := pick (k_open w)) in *. set (w1 := setf k_open _ _) in *. set (h1 := setf hr_listen_fd _ h).
  assert (opened w0 w1 [hr_listen_fd h1]) as Ho2 by (split; [by rewrite Ho1, Ho|by rewrite Hf1, Hf]).
  assert (hr_listen_fd h1 ∉ k_open w0) as Hn2 by (by rewrite <- Ho). clearbody w1.
  assert (forall error' w', opened w0 w' [hr_listen_fd h1] -> let '(error, h', w') := start_fail h1 error' w' in
    reporter_ok w0 h' w' /\ (error = None -> 0 <= hr_listen_fd h' /\ hr_joinable h' = true) /\
    (error <> None -> hr_listen_fd h' = -1 /\ hr_joinable h' = false)) as Hfail.
  { intros error' w' Hw. pose proof (start_failed w0 w' h1 error' Hw Hn2 Hj Hpos) as Hs. unfold start_fail in *. by split_and!. }
  destruct (Z.ltb_spec fd 0); [lia|]. next_call. destruct (negb valid); [by apply Hfail|]. next_call. destruct (_ <? 0); [by apply Hfail|].
  next_call. destruct (_ <? 0); [by apply Hfail|]. next_call. cbn zeta.
  assert (reporter_ok w0 (h1 <| hr_stop := false |> <| hr_joinable := true |>) k2) as Hok.
  { unfold reporter_ok, listening. cbn. destruct (Z.leb_spec 0 fd); [|lia]. done. }
  destruct (_ =? 0); split_and!; try done.
Qed.

Lemma http_stop_spec w0 h w : reporter_ok w0 h w ->
  opened w0 (http_stop h w).2 [] /\ reporter_ok w0 (http_stop h w).1 (http_stop h w).2.
Proof.
  intros (Ho & Hn & Hj & Hpos). assert (-1 ∉ k_open w0) as Hneg by (by apply negative_closed).
  unfold http_stop, listening in *. destruct (Z.leb_spec 0 (hr_listen_fd h)) as [H|H].
  - destruct (Z.ltb_spec (hr_listen_fd h) 0); [lia|]. cbn [andb]. cbn -[sys_close]. destruct (Z.leb_spec 0 (hr_listen_fd h)); [|lia]. cbn -[sys_close].
    pose proof (sys_close_spec w0 w (hr_listen_fd h) Hn Ho). split; [done|]. split_and!; try done.
  - destruct (Z.ltb_spec (hr_listen_fd h) 0); [|lia]. destruct (hr_joinable h) eqn:Ej; [specialize (Hj eq_refl); lia|]. cbn. split; [done|].
    unfold reporter_ok, listening. destruct (Z.leb_spec 0 (hr_listen_fd h)); [lia|]. split_and!; (done || congruence).
Qed.

Lemma serve_turn_spec exchange w0 h w : reporter_ok w0 h w ->
  reporter_ok w0 (serve_turn exchange h w).1 (serve_turn exchange h w).2.
Proof.
  intros (Ho & Hn & Hj & Hpos). unfold serve_turn, sys_call. cbn match. destruct (_ <=? 0); [by split_and!|].
  set (w1 := setf k_calls _ w). pose proof (sys_open_spec w1) as Hs. destruct (sys_open w1) as [fd w2].
  assert (opened w0 w1 (listening h)) as Ho1 by done. clearbody w1. destruct (Z.ltb_spec fd 0).
  - destruct Hs as [[_ [Hs1 Hs2]]|]; [|lia]. destruct Ho1 as [E1 E2]. split_and!; try done. split; [etransitivity; [exact Hs1|exact E1]|etransitivity; [exact Hs2|exact E2]].
  - destruct Hs as [|(Hfd & Hn2 & Hs)]; [lia|]. apply (opened_iter exchange) in Hs. apply sys_close_spec in Hs as [Hs1 Hs2]; [|done].
    destruct Ho1 as [E1 E2]. split_and!; try done. split; [etransitivity; [exact Hs1|exact E1]|etransitivity; [exact Hs2|exact E2]].
Qed.

(** The life of a reporter: started when it is not running, serving, stopped at any
    time (also by its destructor). *)
Inductive reporter_life : Reporter * Kernel -> Reporter * Kernel -> Prop :=
| life_here x : reporter_life x x
| life_start valid bound h w h' w' error x : hr_listen_fd h < 0 -> hr_joinable h = false ->
    http_start valid bound h w = (error, h', w') -> reporter_life (h', w') x -> reporter_life (h, w) x
| life_serve exchange h w x : hr_joinable h = true -> reporter_life (serve_turn exchange h w) x -> reporter_life (h, w) x
| life_stop h w x : reporter_life (http_stop h w) x -> reporter_life (h, w) x.

Lemma life_ok w0 x y : reporter_life x y -> reporter_ok w0 x.1 x.2 -> reporter_ok w0 y.1 y.2.
Proof.
  induction 1 as [x|valid bound h w h' w' error x Hneg Hj Hs _ IH|exchange h w x _ _ IH|h w x _ IH]; intros Hok; [done|..]; apply IH.
  - pose proof (http_start_spec valid bound w0 h w Hok Hneg Hj) as H. rewrite Hs in H. apply H.
  - by apply serve_turn_spec.
  - by apply http_stop_spec.
Qed.

(** C35: No descriptor is leaked or closed twice.  Whatever each system call answers,
    opening a capture (on either platform) either fails and leaves every
    descriptor as it was, or returns a source that holds the one descriptor more,
    which its destructor closes.  Through any life of the HTTP reporter the only
    descriptor it holds is its listening socket; connections are closed, failed
    starts clean up, and after a stop, however often repeated, nothing is left. *)
Theorem descriptors_balanced opt port bind_address (w : Kernel) : Forall (fun fd => 0 <= fd) (k_open w) -> k_fault w = false ->
  live_opened w (open_linux opt w) /\ live_opened w (open_macos opt w) /\
  forall h w', reporter_life (Reporter_new port bind_address, w) (h, w') ->
    k_open w' = listening h ++ k_open w /\ k_fault w' = false /\
    let (h1, w1) := http_stop h w' in k_open w1 = k_open w /\ k_fault w1 = false /\ k_open (http_stop h1 w1).2 = k_open w.
Proof.
  intros Hpos Hf. split_and!; [apply open_linux_spec|apply open_macos_spec|]. intros h w' Hl.
  assert (reporter_ok w h w') as Hok.
  { apply (life_ok w _ _ Hl). unfold reporter_ok, listening. cbn. split_and!; [by split|..|done|done]. by apply negative_closed. }
  pose proof (http_stop_spec w h w' Hok) as ([H1 H2] & Hok2). destruct (http_stop h w') as [h1 w1]. cbn [fst snd] in *.
  pose proof (http_stop_spec w h1 w1 Hok2) as ([H3 _] & _). destruct Hok as ([Ho1 Ho2] & _).
  split_and!; [done|congruence|done|congruence|done].
Qed.
End Descriptors.

(** One above every open descriptor. *)
Definition above (l : list Z) : Z := foldr (fun x y => Z.max (x + 1) y) 0 l.
Lemma above_fresh l : 0 <= above l /\ (above l ∉ l).
Proof.
  assert (0 <= above l /\ Forall (fun x => x < above l) l) as [H1 H2].
  { induction l as [|x l [IH1 IH2]]; [by split|]. change (above (x :: l)) with (Z.max (x + 1) (above l)).
    split; [lia|]. constructor; [lia|]. revert IH2. apply Forall_impl. lia. }
  split; [done|]. intros Hin. apply (proj1 (list.Forall_forall _ _) H2) in Hin. lia.
Qed.

(** With every call successful: a reporter that is started, serves one connection
    and is stopped leaves descriptors 0 to 2 as they were. *)
Lemma descriptors_balanced_witness :
  let w := mkKernel 0 [0; 1; 2] false in let start := http_start (fun _ => 1) (fun _ => []) above true 8080 in
  let '(_, h1, w1) := start (Reporter_new 0 []) w in
  let (h2, w2) := serve_turn (fun _ => 1) above 3 h1 w1 in
  k_open w2 = [3; 0; 1; 2] /\ k_open (http_stop h2 w2).2 = [0; 1; 2].
Proof.
  cbn zeta. set (w := mkKernel 0 [0; 1; 2] false). set (x := http_start _ _ _ _ _ _ _).
  destruct x as [[error h1] w1] eqn:E. destruct (serve_turn (fun _ => 1) above 3 h1 w1) as [h2 w2] eqn:E2.
  destruct (descriptors_balanced (fun _ => 1) (fun _ => []) above (fun _ => false) 1 12 4096 above_fresh (mkLiveOptions [] true 64) 0 [] w) as (_ & _ & H).
  - repeat constructor; lia.
  - reflexivity.
  - destruct (H h2 w2) as (H1 & _ & H2).
    + eapply life_start; [| |exact E|].
      * reflexivity.
      * reflexivity.
      * apply (life_serve _ _ _ 3); [vm_compute in E; injection E as <- <- <-; reflexivity|]. rewrite E2. apply life_here.
    + destruct (http_stop h2 w2) as [h3 w3]. destruct H2 as (H2 & _). split; [|exact H2]. rewrite H1.
      vm_compute in E. injection E as <- <- <-. vm_compute in E2. injection E2 as <- <-. reflexivity.
Defined.
