(* ===== verification/Pacing.v ===== *)
(** * src/main.cpp: the pacer

    [wait_until] and the pacing block of the ingest loop.  [clock k] is the [k]-th
    reading of the monotonic clock; sleeping and spinning only let time pass. *)

From S2P Require Import Prelude.

Record Pacer := mkPacer { pc_start : Z; pc_packets : Z; pc_reads : nat }.

Section Pacing.
Context (clock : nat -> Z).

(** The number of readings taken when it returns. *)
Fixpoint wait_until (fuel : nat) (deadline_ns : Z) (reads : nat) : res nat :=
  match fuel with
  | O => Fuel
  | S fuel => if deadline_ns <=? clock reads then Ok (S reads) else wait_until fuel deadline_ns (S reads)
  end.

(** The deadline after [packets] packets of a budget that began at [start]. *)
Definition pace_deadline (start packets max_pps : Z) : Z := add64 start (mul64 packets 1000000000 / max_pps).

(** After a batch of [n] packets, with [max_pps] not 0. *)
Definition pace (fuel : nat) (max_pps : Z) (n : Z) (p : Pacer) : res Pacer :=
  let packets := add64 (pc_packets p) n in
  let* reads := wait_until fuel (pace_deadline (pc_start p) packets max_pps) (pc_reads p) in
  if 1000000000 <? sub64 (clock reads) (pc_start p) then Ok (mkPacer (clock (S reads)) 0 (S (S reads)))
  else Ok (mkPacer (pc_start p) packets (S reads)).

Fixpoint pace_all (fuel : nat) (max_pps : Z) (ns : list Z) (p : Pacer) : res Pacer :=
  match ns with [] => Ok p | n :: ns => let* p := pace fuel max_pps n p in pace_all fuel max_pps ns p end.

(** A deadline that the clock reaches is waited for. *)
Lemma wait_until_reached deadline j reads : (reads <= j)%nat -> deadline <= clock j ->
  exists fuel r, (reads < r)%nat /\ deadline <= clock (pred r) /\
    forall fuel', (fuel <= fuel')%nat -> wait_until fuel' deadline reads = Ok r.
Proof.
  intros Hj Ht. remember (j - reads)%nat as d eqn:E. revert reads Hj E.
  induction d as [|d IH]; intros reads Hj E.
  - replace j with reads in Ht by lia. exists 1%nat, (S reads). split_and!; [lia|done|]. intros [|fuel'] Hf; [lia|]. cbn [wait_until].
    destruct (Z.leb_spec deadline (clock reads)); [done|lia].
  - destruct (IH (S reads)) as (fuel & r & Hr & Hd & Hw); [lia|lia|]. destruct (Z.leb_spec deadline (clock reads)) as [H|H].
    + exists 1%nat, (S reads). split_and!; [lia|done|]. intros [|fuel'] Hf; [lia|]. cbn [wait_until]. by rewrite (proj2 (Z.leb_le _ _) H).
    + exists (S fuel), r. split_and!; [lia|done|]. intros [|fuel'] Hf; [lia|]. cbn [wait_until]. rewrite (proj2 (Z.leb_gt _ _) H). apply Hw. lia.
Qed.

(** ** The rate *)

Hypothesis clock_monotone : forall i j, (i <= j)%nat -> clock i <= clock j.
(** Time passes: every instant is reached. *)
Hypothesis clock_passes : forall i t, exists j, (i <= j)%nat /\ t <= clock j.

Lemma wait_until_spec deadline reads : exists fuel r, (reads < r)%nat /\ deadline <= clock (pred r) /\
  forall fuel', (fuel <= fuel')%nat -> wait_until fuel' deadline reads = Ok r.
Proof. destruct (clock_passes reads deadline) as (j & Hj & Ht). by apply (wait_until_reached deadline j). Qed.

(** The last reading. *)
Definition last_now (p : Pacer) : Z := clock (pred (pc_reads p)).

Context (max_pps : Z) (pps_range : 1 <= max_pps <= 10000000000) (t0 : Z).

(** [past] packets went out in [windows] completed budgets since [t0]. *)
Record on_pace (past windows : Z) (p : Pacer) : Prop := {
  op_start : 0 <= t0 <= pc_start p /\ pc_start p <= last_now p <= pc_start p + 1000000000;
  op_packets : 0 <= pc_packets p /\ pc_packets p * 1000000000 <= max_pps * (last_now p - pc_start p + 1);
  op_past : past * 1000000000 <= max_pps * (pc_start p - t0 + windows);
  op_windows : 0 <= windows /\ windows * 1000000000 <= pc_start p - t0
}.

Lemma packets_bound past windows p : on_pace past windows p -> pc_packets p <= 10000000011.
Proof. intros [(H1 & H2 & H3) [H4 H5] _ _]. nia. Qed.

Lemma div_bound a b c : 0 < b -> a / b <= c -> a <= b * (c + 1).
Proof. intros Hb Hc. pose proof (Z.mod_pos_bound a b Hb). pose proof (Z.div_mod a b). nia. Qed.

(** One paced batch. *)
Lemma pace_spec n p : 0 <= n <= 256 -> exists fuel p', (forall fuel', (fuel <= fuel')%nat -> pace fuel' max_pps n p = Ok p') /\
  last_now p <= last_now p' /\ forall past windows, last_now p' < 2 ^ 62 ->
    on_pace past windows p -> on_pace past windows p' /\ pc_packets p' = pc_packets p + n \/
      on_pace (past + pc_packets p + n) (windows + 1) p' /\ pc_packets p' = 0.
Proof.
  intros Hn. set (packets := add64 (pc_packets p) n). set (deadline := pace_deadline (pc_start p) packets max_pps).
  destruct (wait_until_spec deadline (pc_reads p)) as (fuel & r & Hr & Hd & Hw). set (now := clock (pred r)) in *.
  assert (last_now p <= now) as Hln by (apply clock_monotone; lia). assert (now <= clock r <= clock (S r)) as Hmono by (split; apply clock_monotone; lia).
  assert (forall past windows, clock r < 2 ^ 62 -> on_pace past windows p -> packets = pc_packets p + n /\
    packets * 1000000000 <= max_pps * (now - pc_start p + 1)) as Hrate.
  { intros past windows Hlt Hp. pose proof (packets_bound past windows p Hp) as Hb. destruct Hp as [(H1 & H2 & H3) [H4 H5] _ _].
    assert (packets = pc_packets p + n) as E by (unfold packets; apply u64_small; lia). split; [done|].
    unfold deadline, pace_deadline, mul64 in Hd. rewrite (u64_small (packets * 1000000000)) in Hd by lia.
    assert (0 <= packets * 1000000000 / max_pps <= packets * 1000000000) as Hq.
    { split; [apply Z.div_pos; lia|]. apply Z.div_le_upper_bound; nia. }
    assert (packets * 1000000000 <= 11000000000 * 1000000000) by lia.
    pose proof (clock_monotone (pred (pc_reads p)) r ltac:(lia)). unfold last_now in *.
    assert (packets * 1000000000 / max_pps <= 2000000000 + 256000000000) as Hq2.
    { apply Z.div_le_upper_bound; [lia|]. nia. }
    unfold add64 in Hd. rewrite u64_small in Hd by lia. apply div_bound; lia. }
  exists fuel, (if 1000000000 <? sub64 (clock r) (pc_start p) then mkPacer (clock (S r)) 0 (S (S r)) else mkPacer (pc_start p) packets (S r)).
  split; [intros fuel' Hf; unfold pace; fold packets; fold deadline; rewrite (Hw fuel' Hf), bind_Ok; by destruct (_ <? _)|].
  destruct (Z.ltb_spec 1000000000 (sub64 (clock r) (pc_start p))) as [Hs|Hs]; unfold last_now at 2; cbn [pc_reads pred].
  - split; [lia|]. intros past windows Hlt Hp. unfold last_now in Hlt. cbn [pc_reads pred] in Hlt. destruct (Hrate past windows) as [E Hr1]; [lia|done|].
    destruct Hp as [(H1 & H2) [H4 H5] H6 [H7 H8]]. right. split; [|done].
    assert (sub64 (clock r) (pc_start p) = clock r - pc_start p) as E2 by (apply u64_small; lia). rewrite E2 in Hs.
    constructor; unfold last_now; cbn [pc_reads pc_start pc_packets pred]; try nia.
  - split; [lia|]. intros past windows Hlt Hp. unfold last_now in Hlt. cbn [pc_reads pred] in Hlt. destruct (Hrate past windows) as [E Hr1]; [lia|done|].
    destruct Hp as [(H1 & H2) [H4 H5] H6 [H7 H8]]. left. split; [|done].
    assert (sub64 (clock r) (pc_start p) = clock r - pc_start p) as E2 by (apply u64_small; lia). rewrite E2 in Hs.
    constructor; unfold last_now; cbn [pc_reads pc_start pc_packets pred]; try nia.
Qed.

Definition total (ns : list Z) : Z := foldr Z.add 0 ns.

Lemma pace_all_spec ns : forall p, Forall (fun n => 0 <= n <= 256) ns ->
  exists fuel p', (forall fuel', (fuel <= fuel')%nat -> pace_all fuel' max_pps ns p = Ok p') /\
    last_now p <= last_now p' /\ forall past windows, last_now p' < 2 ^ 62 -> on_pace past windows p ->
      exists past' windows', on_pace past' windows' p' /\ past' + pc_packets p' = past + pc_packets p + total ns.
Proof.
  induction ns as [|n ns IH]; intros p Hns.
  { exists 0%nat, p. split_and!; [done|lia|]. intros past windows _ Hp. exists past, windows. split; [done|]. cbn. lia. }
  apply Forall_cons_iff in Hns as [Hn Hns]. destruct (pace_spec n p Hn) as (f1 & p1 & H1 & Hl1 & Hp1).
  destruct (IH p1 Hns) as (f2 & p2 & H2 & Hl2 & Hp2). exists (f1 + f2)%nat, p2. split_and!; [|lia|].
  - intros fuel' Hf. cbn [pace_all]. rewrite (H1 fuel'), bind_Ok by lia. apply H2. lia.
  - intros past windows Hlt Hp. change (total (n :: ns)) with (n + total ns).
    destruct (Hp1 past windows) as [[Ho E]|[Ho E]]; [lia|done|..].
    + destruct (Hp2 past windows Hlt Ho) as (past' & windows' & Ho' & E'). exists past', windows'. split; [done|lia].
    + destruct (Hp2 _ _ Hlt Ho) as (past' & windows' & Ho' & E'). exists past', windows'. split; [done|lia].
Qed.
End Pacing.

(** C36: A paced replay never runs ahead of its rate.  Whatever batches of at most 256
    packets the ingest loop hands out after starting at the first reading of the
    clock, every wait of the pacer ends, and when it has returned after the last
    batch at time [T] since the start, the packets handed out are at most the rate
    times [T], give or take one nanosecond's worth for each second that has passed
    and the current one.  The rate may be anything up to 10^10 packets per second,
    and no intermediate product overflows (as long as the clock reads below 2^62
    ns, 146 years). *)
Theorem pacing_bound clock max_pps ns : (forall i j, (i <= j)%nat -> clock i <= clock j) -> 0 <= clock 0%nat ->
  (forall i t, exists j, (i <= j)%nat /\ t <= clock j) -> 1 <= max_pps <= 10000000000 -> Forall (fun n => 0 <= n <= 256) ns ->
  exists fuel p, (forall fuel', (fuel <= fuel')%nat -> pace_all clock fuel' max_pps ns (mkPacer (clock 0%nat) 0 1) = Ok p) /\
    let T := last_now clock p - clock 0%nat in
    last_now clock p < 2 ^ 62 -> total ns * 1000000000 <= max_pps * (T + T / 1000000000 + 1).
Proof.
  intros Hm Hpos Hpass Hpps Hns.
  destruct (pace_all_spec clock Hm Hpass max_pps Hpps (clock 0%nat) ns (mkPacer (clock 0%nat) 0 1) Hns) as (fuel & p & H1 & Hl & Hp).
  exists fuel, p. split; [done|]. cbn zeta. intros Hlt. destruct (Hp 0 0 Hlt) as (past & windows & [(H2 & H3) [H4 H5] H6 [H7 H8]] & E).
  { constructor; unfold last_now; cbn; lia. }
  cbn [pc_packets] in E. set (T := last_now clock p - clock 0%nat) in *.
  assert (windows <= T / 1000000000) as Hw by (apply Z.div_le_lower_bound; unfold T; lia). nia.
Qed.

(** A clock that ticks once a second: 96 packets at 32 per second. *)
Lemma pacing_bound_witness : exists fuel p, (forall fuel', (fuel <= fuel')%nat ->
    pace_all (fun i => 1000000000 * Z.of_nat i) fuel' 32 [32; 32; 32] (mkPacer 0 0 1) = Ok p) /\
  pace_all (fun i => 1000000000 * Z.of_nat i) 10 32 [32; 32; 32] (mkPacer 0 0 1) = Ok (mkPacer 9000000000 0 10).
Proof.
  destruct (pacing_bound (fun i => 1000000000 * Z.of_nat i) 32 [32; 32; 32]) as (fuel & p & H & _).
  - intros i j Hij. lia.
  - cbn. lia.
  - intros i t. exists (i + Z.to_nat t)%nat. split; [lia|]. lia.
  - lia.
  - repeat constructor; lia.
  - exists fuel, p. split; [exact H|]. reflexivity.
Defined.
