(* ===== verification/Summary.v ===== *)
(** * src/main.cpp, histogram.hpp, flat_hash.hpp: ratios and the printed summary

    The [double] computations of the statistics (mean, load factor, probes per
    lookup, the rank of a quantile) and the text that [main] prints: the progress
    line, the final summary and [Histogram::summary].  Printing appends to a byte
    list.  A decimal literal of the source is the quotient of two integers, which
    division rounds correctly. *)

From Stdlib Require Strings.String SpecFloat.
From S2P Require Import Prelude ByteOrder SpscRing FlatHash MeterEvent UsageRecord Session SessionCsv Meter Pipeline Histogram Snapshot TopN DetailScan Runtime.
From S2P Require Import Double Text Clock Json RecordJson Report.

Definition dmul (x y : double) : double := SpecFloat.SFmul 53 1024 x y.
Definition dadd (x y : double) : double := SpecFloat.SFadd 53 1024 x y.
Definition dlit (n d : Z) : double := ddiv (dbl n) (dbl d).
Definition dzero : double := dbl 0.
Definition dpositive (x : double) : bool := SpecFloat.SFltb dzero x.
(** [std::clamp(q, 0.0, 1.0)]. *)
Definition dclamp (q : double) : double :=
  if SpecFloat.SFltb q dzero then dzero else if SpecFloat.SFltb (dbl 1) q then dbl 1 else q.

(** [static_cast<uint64_t>]: towards zero; out of range is undefined behaviour. *)
Definition u64_of_double (x : double) : res Z :=
  match x with
  | SpecFloat.S754_zero _ => Ok 0
  | SpecFloat.S754_finite false m e =>
      let v := if 0 <=? e then Z.pos m * 2 ^ e else Z.pos m / 2 ^ (- e) in if v <? 2 ^ 64 then Ok v else UB
  | SpecFloat.S754_finite true m e => if Z.pos m / 2 ^ (- e) =? 0 then Ok 0 else UB
  | _ => UB
  end.

(** ** Ratios *)

Definition mean (h : Histogram) : double := if negb (total_ h =? 0) then ddiv (dbl (sum_ h)) (dbl (total_ h)) else dzero.
Definition load_factor {V} (h : FlatHashU32 V) : double := ddiv (dbl (fh_size_ h)) (dbl (fh_capacity_ h)).
Definition probes_per_lookup {V} (h : FlatHashU32 V) : double :=
  if lookup_count h =? 0 then dzero else ddiv (dbl (probe_count h)) (dbl (lookup_count h)).

(** The rank that [quantile] looks for, and [quantile] itself. *)
Definition quantile_target (q : double) (total : Z) : res Z := u64_of_double (dadd (dmul (dclamp q) (dbl total)) (dlit 1 2)).
Definition quantile_of (h : Histogram) (q : double) : res Z :=
  if total_ h =? 0 then Ok 0 else let* target := quantile_target q (total_ h) in Ok (quantile h target).

(** The [double] members of a snapshot, as [publish_locked] fills them. *)
Definition snapshot_ratios {V} (h : Histogram) (t : FlatHashU32 V) : SnapshotRatios :=
  mkRatios (load_factor t) (probes_per_lookup t) (mean h).

(** [Histogram::summary] into [char buf[256]]. *)
Definition hist_summary (h : Histogram) (unit_ : Bytes) : res Bytes :=
  let* p50 := quantile_of h (dlit 50 100) in let* p90 := quantile_of h (dlit 90 100) in let* p99 := quantile_of h (dlit 99 100) in
  let* p999 := quantile_of h (dlit 999 1000) in let* p9999 := quantile_of h (dlit 9999 10000) in
  Ok (take 255 (sprintf "n=%llu min=%llu p50=%llu p90=%llu p99=%llu p99.9=%llu p99.99=%llu max=%llu mean=%.1f %s"
    [AInt (total_ h); AInt (hist_min h); AInt p50; AInt p90; AInt p99; AInt p999; AInt p9999; AInt (max_ h); ADouble (mean h); AStr unit_])).

(** ** What [main] prints *)

Definition mega : double := dbl 1000000.
Definition elapsed (from_ to_ : Z) : double := ddiv (dbl (sub64 to_ from_)) giga.
Definition mpps (frames : Z) (elapsed_s : double) : double :=
  if dpositive elapsed_s then ddiv (ddiv (dbl frames) elapsed_s) mega else dzero.
Definition gbps (frames_bytes : Z) (elapsed_s : double) : double :=
  if dpositive elapsed_s then ddiv (ddiv (dmul (dbl frames_bytes) (dbl 8)) elapsed_s) giga else dzero.

Definition print_progress (s : PipelineSnapshot) (elapsed_s : double) : Bytes :=
  let i := sn_ingest s in let m := sn_meter s in
  sprintf "^%8.1fs  %7.3f Mpps  %7.3f Gbps  metered=%llu  drops=%llu  unknown-teid=%llu  p99=%lluns   "
    [ADouble elapsed_s; ADouble (mpps (in_frames i) elapsed_s); ADouble (gbps (in_frames_bytes i) elapsed_s);
     AInt (st_events m); AInt (in_events_dropped i); AInt (st_unknown_teid_events m); AInt (ls_p99_ns (sn_latency s))].

Definition print_summary (s : PipelineSnapshot) (x : SnapshotRatios) (elapsed_s : double) (records_written : Z) : Bytes :=
  let i := sn_ingest s in let m := sn_meter s in let l := sn_latency s in
  concat [
    txt "~"; txt "=== gtp-meter summary ===~";
    sprintf "  elapsed              %.3f s~" [ADouble elapsed_s];
    sprintf "  frames ingested      %llu (%.3f Mpps)~" [AInt (in_frames i); ADouble (mpps (in_frames i) elapsed_s)];
    sprintf "  bytes ingested       %llu (%.3f Gbps)~" [AInt (in_frames_bytes i); ADouble (gbps (in_frames_bytes i) elapsed_s)];
    sprintf "  GTP-U G-PDUs         %llu~" [AInt (in_gtpu_gpdus i)];
    sprintf "  GTP-U control        %llu~" [AInt (in_gtpu_control i)];
    sprintf "  GTP-U parse errors   %llu~" [AInt (in_gtpu_parse_errors i)];
    sprintf "  Diameter messages    %llu (errors %llu)~" [AInt (in_diameter_messages i); AInt (in_diameter_parse_errors i)];
    sprintf "  not our traffic      %llu~" [AInt (add64 (in_not_gtpu_port i) (in_non_ip i))];
    sprintf "  events dropped       %llu~" [AInt (in_events_dropped i)];
    sprintf "  metered events       %llu~" [AInt (st_events m)];
    sprintf "  metered bytes        %llu (ul %llu / dl %llu)~" [AInt (st_bytes m); AInt (st_ul_bytes m); AInt (st_dl_bytes m)];
    sprintf "  unknown TEID         %llu events, %llu bytes~" [AInt (st_unknown_teid_events m); AInt (st_unknown_teid_bytes m)];
    (if negb (st_teid_bind_failures m =? 0) then
       sprintf "  TEID BIND FAILURES   %llu - the TEID table is too small for the session table; raise it or sessions go unmetered~"
         [AInt (st_teid_bind_failures m)]
     else []);
    sprintf "  flows                %llu active, %llu evictions~" [AInt (st_flows_active m); AInt (st_flow_evictions m)];
    sprintf "  usage records        %llu emitted, %llu written, %llu dropped~"
      [AInt (st_records_emitted m); AInt records_written; AInt (st_records_dropped m)];
    sprintf "  Gy events            %llu (%llu octets reported)~" [AInt (st_gy_events m); AInt (st_gy_reported_octets m)];
    sprintf "  TEID table           %llu / %llu entries, load %.3f, %.2f probes/lookup~"
      [AInt (sn_teid_table_size s); AInt (sn_teid_table_capacity s); ADouble (sx_teid_load_factor x); ADouble (sx_teid_probes_per_lookup x)];
    (if 0 <? ls_count l then
       sprintf "  e2e latency (ns)     n=%llu p50=%llu p99=%llu p99.9=%llu p99.99=%llu max=%llu~"
         [AInt (ls_count l); AInt (ls_p50_ns l); AInt (ls_p99_ns l); AInt (ls_p999_ns l); AInt (ls_p9999_ns l); AInt (ls_max_ns l)]
     else [])].

(** ** Examples *)

Example target_half : quantile_target (dlit 50 100) 7 = Ok 4.
Proof. vm_compute. reflexivity. Qed.
Example target_tail : quantile_target (dlit 9999 10000) 1000000 = Ok 999900.
Proof. vm_compute. reflexivity. Qed.
Example target_clamped : quantile_target (dbl 3) 12 = Ok 12.
Proof. vm_compute. reflexivity. Qed.
(** 2^53 + 1 samples: the sum [q * total + 0.5] is not a [double], and the rank of the
    largest sample is 2^53, one short. *)
Example target_rounds : quantile_target (dbl 1) (2 ^ 53 + 1) = Ok (2 ^ 53).
Proof. vm_compute. reflexivity. Qed.
Example progress_line : exists pad, mpps 3000000 (elapsed 5 2000000005) = dlit 3 2 /\
  take 26 (sprintf "^%8.1fs  %7.3f Mpps" [ADouble (elapsed 5 2000000005); ADouble (mpps 3000000 (elapsed 5 2000000005))]) = txt "^     2.0s    1.500 Mpps" ++ pad.
Proof. exists []. vm_compute. split; reflexivity. Qed.
