(* ===== verification/Startup.v ===== *)
(** * src/main.cpp: help text, diagnostics, startup and shutdown

    [startup] is [main] between the command line and the ingest loop: the source is
    opened, the runtime is built, sessions are installed, the threads and the HTTP
    reporter are started.  [None] is [return 1], with the destructors of what was
    built by then.  [shutdown] is the end of [main] after the ingest loop,
    which [drain_wait] precedes.  Files
    are what [read_file] gives; sockets, the records file and their descriptors
    come from the kernel of [Descriptors].  What the threads do is in [Threads].
    Allocation succeeds: a constructor that throws for a very large [--ring-size] or
    table size, which ends [main] without [return 1], is outside the model. *)

From Stdlib Require Strings.String.
From S2P Require Import Prelude ByteOrder SpscRing FlatHash MeterEvent UsageRecord Session SessionCsv Meter MeterLedger.
From S2P Require Import Pipeline PipelineProps Pcap PcapProps Replay Histogram Snapshot TopN DetailScan DetailProps Runtime RuntimeProps.
From S2P Require Import Double Text CommandLine Descriptors.

(** ** The help text *)

Definition usage_lines : list String.string := [
  "gtp-meter - GTP-U / Diameter metering pipeline";
  "";
  "USAGE";
  "  gtp-meter --pcap FILE [options]";
  "  gtp-meter --interface IFACE [options]";
  "";
  "INPUT";
  "  --pcap FILE             replay a capture (loaded into memory first)";
  "  --interface IFACE       live capture (needs CAP_NET_RAW / root)";
  "  --loops N               replay the capture N times, 0 = forever (default 1)";
  "  --max-pps N             throttle replay to N packets per second (default: full speed)";
  "";
  "SESSIONS";
  "  --sessions FILE         CSV session table: imsi,ul_teid,dl_teid,rating_group,msisdn,apn";
  "  --learn-teids           create a subscriber for any unseen TEID (replay convenience)";
  "";
  "OUTPUT";
  "  --records FILE          append NDJSON usage records to FILE";
  "  --http PORT             serve /metrics, /stats, /subscribers, /flows on PORT";
  "  --http-bind ADDR        bind address for --http (default 127.0.0.1)";
  "  --report-interval SEC   usage record interval (default 10)";
  "  --volume-threshold MB   emit a record after this much unreported volume (default 100)";
  "  --quiet                 suppress the periodic progress line";
  "";
  "TUNING";
  "  --ring-size N           meter ring entries, rounded to a power of two (default 65536)";
  "  --ingest-cpu N          pin the ingest thread to CPU N";
  "  --meter-cpu N           pin the metering thread to CPU N";
  "  --reporter-cpu N        pin the reporter thread to CPU N";
  "  --no-flows              disable the per-flow table";
  "  --no-latency            disable end-to-end latency sampling";
  "  --busy-poll             metering thread spins instead of sleeping when idle";
  "                          (lower tail latency, burns a core)";
  "  --latency-sample N      sample 1 event in N for latency (default 8)";
  "";
  "  -h, --help              this message"]%string.
Definition usage : Bytes := concat (map (fun l => txt l ++ [ch_nl]) usage_lines).

(** The words of a text that start with a dash after a blank. *)
Definition name_char (c : byte) : bool := ((97 <=? bval c) && (bval c <=? 122)) || (bval c =? 45).
Fixpoint option_words (word : option Bytes) (blank : bool) (s : Bytes) : list Bytes :=
  match s with
  | [] => match word with Some w => [w] | None => [] end
  | c :: s =>
      match word with
      | Some w => if name_char c then option_words (Some (w ++ [c])) false s else w :: option_words None (is_blank c) s
      | None => if blank && (bval c =? 45) then option_words (Some [c]) false s else option_words None (is_blank c || (bval c =? 10)) s
      end
  end.
(** A word of one dash alone is punctuation. *)
Definition usage_options : list Bytes := filter (fun w => w <> txt "-") (option_words None true usage).

(** An argument [main] takes for an option. *)
Definition known_option (arg : Bytes) : bool :=
  match apply_arg Options_init arg (Some (txt "1")) with Ok (Stop 2) => false | _ => true end.

(** The help text lists exactly the options that are accepted. *)
Theorem usage_lists_options arg : known_option arg = true <-> arg ∈ usage_options.
Proof.
  split.
  - unfold known_option, apply_arg. intros H.
    repeat match type of H with context [is_arg arg ?n] => destruct (is_arg arg n) eqn:?;
      [match goal with E : is_arg arg n = true |- _ => unfold is_arg in E; apply bool_decide_eq_true_1 in E; subst arg end; apply (bool_decide_unpack _); vm_compute; exact I|cbn [orb] in H] end.
    discriminate H.
  - intros Hin. assert (Forall (fun a => known_option a = true) usage_options) as Hall.
    { apply (bool_decide_unpack _). vm_compute. exact I. }
    by apply (proj1 (list.Forall_forall _ _) Hall).
Qed.

(** ** What the option loop prints *)

(** An option that is followed by its value. *)
Definition takes_value (arg : Bytes) : bool :=
  known_option arg && match apply_arg Options_init arg None with Ok (Stop 2) => true | _ => false end.

(** The line on [stderr] when [main] stops at an argument; a value that is no
    number has none. *)
Definition arg_message (arg : Bytes) (next : option Bytes) : Bytes :=
  if negb (known_option arg) then sprintf "gtp-meter: unknown option %s (try --help)~" [AStr arg]
  else match next with None => if takes_value arg then sprintf "gtp-meter: %s needs a value~" [AStr arg] else [] | Some _ => [] end.

(** The argument loop with its [stderr]. *)
Fixpoint parse_report (args : list Bytes) (o : Options) : res (outcome * Bytes) :=
  match args with
  | [] => Ok (Run o, [])
  | arg :: rest =>
      let* e := apply_arg o arg (head rest) in
      match e with
      | Stop code => Ok (Exit code, arg_message arg (head rest))
      | Flag o => parse_report rest o
      | Took o => match rest with _ :: rest => parse_report rest o | [] => Ok (Exit 2, []) end
      end
  end.

(** The outcome, [stderr] and [stdout] of the command line. *)
Definition main_report (args : list Bytes) : res (outcome * Bytes * Bytes) :=
  let* (r, err) := parse_report args Options_init in
  match r with
  | Exit code => Ok (Exit code, err, if code =? 0 then usage else [])
  | Run o =>
      if Bool.eqb (bool_decide (pcap_path o = [])) (bool_decide (interface o = [])) then
        Ok (Exit 2, txt "gtp-meter: give exactly one of --pcap or --interface~", usage)
      else Ok (Run o, [], [])
  end.

Lemma parse_report_outcome args : forall o, (let* (r, _) := parse_report args o in Ok r) = parse_args args o.
Proof.
  induction args as [args IH] using (induction_ltof1 _ (@length Bytes)). unfold ltof in IH. intros o.
  destruct args as [|arg rest]; [done|]. cbn [parse_report parse_args]. destruct (apply_arg o arg (head rest)) as [[code|o'|o']| |]; try done; cbn [res_bind].
  - apply IH. cbn. lia.
  - destruct rest as [|v rest]; [done|]. apply IH. cbn. lia.
Qed.

(** What stops at a known option that has its value: help, or a value that is no number. *)
Lemma stops_at o arg v code : apply_arg o arg (Some v) = Ok (Stop code) -> known_option arg = true -> code = 0 \/ parse_u64_arg v = None.
Proof.
  intros H Hk. unfold apply_arg, set_number, set_cpu, with_value in H.
  assert (forall set, (let* n := atoi v in Ok (Took (set n))) <> Ok (Stop code)) as Hcpu by (intros set ([] & _ & [=])%bind_Ok_inv).
  repeat match type of H with context [is_arg arg ?n] => destruct (is_arg arg n) eqn:?; cbn [orb] in H end;
    try (left; congruence); try done; try (destruct (parse_u64_arg v); [done|by right]); try (by apply Hcpu in H).
  exfalso. revert Hk. unfold known_option, apply_arg.
  repeat match goal with E : is_arg arg _ = _ |- _ => rewrite E; clear E end. done.
Qed.

Lemma stop_codes o arg next code : apply_arg o arg next = Ok (Stop code) -> code = 0 \/ code = 2.
Proof.
  unfold apply_arg, set_number, set_cpu, with_value. intros H.
  repeat (match type of H with context [is_arg arg ?n] => destruct (is_arg arg n) end; cbn [orb] in H); destruct next as [v|];
    try match type of H with context [parse_u64_arg ?v] => destruct (parse_u64_arg v) end;
    try (left; congruence); try (right; congruence); try done; apply bind_Ok_inv in H as (n & _ & H); done.
Qed.

Lemma help_only o arg next : apply_arg o arg next = Ok (Stop 0) -> is_arg arg "-h" || is_arg arg "--help" = true.
Proof.
  unfold apply_arg, set_number, set_cpu, with_value. intros H. destruct (is_arg arg "-h" || is_arg arg "--help"); [done|].
  repeat (match type of H with context [is_arg arg ?n] => destruct (is_arg arg n) end); destruct next as [v|];
    try match type of H with context [parse_u64_arg ?v] => destruct (parse_u64_arg v) end; try done;
    apply bind_Ok_inv in H as (n & _ & H); done.
Qed.

(** Without a next argument an option that needs one stops. *)
Lemma no_value o arg : match apply_arg o arg None with
  | Ok (Took _) => False | Ok (Stop code) => code = 0 \/ takes_value arg = true \/ known_option arg = false | _ => True end.
Proof.
  destruct (known_option arg) eqn:Hk.
  2: { pose proof (stop_codes o arg None) as H. unfold apply_arg, set_number, set_cpu, with_value in *.
       repeat match goal with |- context [is_arg arg ?n] => destruct (is_arg arg n) end; cbn [orb]; auto. }
  unfold takes_value. rewrite Hk. unfold apply_arg, set_number, set_cpu, with_value.
  repeat match goal with |- context [is_arg arg ?n] => destruct (is_arg arg n) end; cbn [orb andb]; auto.
Qed.

Lemma messages_nonempty arg : sprintf "gtp-meter: unknown option %s (try --help)~" [AStr arg] <> [] /\ sprintf "gtp-meter: %s needs a value~" [AStr arg] <> [].
Proof. by split. Qed.

(** A value that should be a number and is none. *)
Definition bad_number (args : list Bytes) : Prop := exists pre arg v post, args = pre ++ arg :: v :: post /\ parse_u64_arg v = None.

Lemma bad_number_app l args : bad_number args -> bad_number (l ++ args).
Proof. intros (pre & arg & v & post & -> & H). exists (l ++ pre), arg, v, post. by rewrite <- app_assoc. Qed.

Lemma parse_report_exit args : forall o code err, parse_report args o = Ok (Exit code, err) ->
  (code = 0 /\ err = []) \/ (code = 2 /\ (err <> [] \/ (err = [] /\ bad_number args))).
Proof.
  induction args as [args IH] using (induction_ltof1 _ (@length Bytes)). unfold ltof in IH. intros o code err H.
  destruct args as [|arg rest]; [done|]. cbn [parse_report] in H. apply bind_Ok_inv in H as (e & He & H). destruct e as [c|o'|o'].
  - injection H as -> <-. destruct (stop_codes _ _ _ _ He) as [-> | ->].
    + left. split; [done|]. apply help_only in He. unfold arg_message, takes_value, known_option, apply_arg. rewrite He. by destruct (head rest).
    + right. split; [done|]. unfold arg_message. destruct (messages_nonempty arg) as [H1 H2]. destruct (known_option arg) eqn:Hk; cbn [negb]; [|by left].
      destruct rest as [|v rest]; cbn [head] in *.
      * pose proof (no_value o arg) as Hn. rewrite He in Hn. destruct Hn as [|[Ht|]]; [done| |congruence]. rewrite Ht. by left.
      * right. split; [done|]. exists [], arg, v, rest. split; [done|]. destruct (stops_at o arg v 2 He Hk) as [|]; done.
  - apply IH in H; [|cbn; lia]. destruct H as [|[-> [?|[-> Hb]]]]; [by left|by right; split; [|left]|]. right. split; [done|]. right.
    split; [done|]. by apply (bad_number_app [arg]).
  - destruct rest as [|v rest]; cbn [head] in *.
    + pose proof (no_value o arg) as Hn. by rewrite He in Hn.
    + apply IH in H; [|cbn; lia]. destruct H as [|[-> [?|[-> Hb]]]]; [by left|by right; split; [|left]|]. right. split; [done|]. right.
      split; [done|]. by apply (bad_number_app [arg; v]).
Qed.

(** What the user sees of the command line: [main] goes on silently, prints the
    help text and succeeds, or fails with 2 and a diagnostic; the only refusal
    without one is a value that should be a number and is none. *)
Theorem refusals_explained args r err out : main_report args = Ok (r, err, out) -> main_options args = Ok r /\
  match r with
  | Run _ => err = [] /\ out = []
  | Exit code => (code = 0 /\ err = [] /\ out = usage) \/ (code = 2 /\ (err <> [] \/ (err = [] /\ bad_number args)))
  end.
Proof.
  unfold main_report, main_options. intros H. apply bind_Ok_inv in H as ([r0 e] & Hp & H). rewrite <- parse_report_outcome, Hp. cbn [res_bind].
  destruct r0 as [o|code].
  - destruct (Bool.eqb _ _); injection H as <- <- <-; [|done]. split; [done|]. right. by split; [|left].
  - injection H as <- <- <-. split; [done|]. destruct (parse_report_exit _ _ _ _ Hp) as [[-> ->]|[-> Hr]]; [by left|by right].
Qed.

Example main_report_ex :
  main_report [txt "--frob"] = Ok (Exit 2, txt "gtp-meter: unknown option --frob (try --help)~", []) /\
  main_report [txt "--loops"] = Ok (Exit 2, txt "gtp-meter: --loops needs a value~", []) /\
  main_report [txt "--loops"; txt "many"] = Ok (Exit 2, [], []) /\
  main_report [txt "--pcap"; txt "a"; txt "-h"] = Ok (Exit 0, [], usage).
Proof. vm_compute. by split_and!. Qed.

(** ** The parts *)

Abbreviation runtime := (Runtime (FlatHashU32 TeidBinding) (SpscRing UsageRecord) (SpscRing MeterEvent) (SpscRing GyEvent)).

Inductive Source := FileSource (r : Replay) | LiveSource (h : LiveHandle).

(** The process outside the parts themselves: the kernel, [stderr], whether the
    runtime's threads run, and the descriptor of the records file. *)
Record Process := mkProcess { ps_kernel : Kernel; ps_stderr : Bytes; ps_running : bool; ps_records : Z }.
#[export] Instance Process_eta : Eta Process := fun p => mkProcess (ps_kernel p) (ps_stderr p) (ps_running p) (ps_records p).
Definition Process_init (w : Kernel) : Process := mkProcess w [] false (-1).

(** [std::fprintf(stderr, "gtp-meter: ...\n")]. *)
Definition complain (line : Bytes) (p : Process) : Process := p <| ps_stderr ::= fun t => t ++ txt "gtp-meter: " ++ line ++ [ch_nl] |>.

(** What [main] holds when the ingest loop starts. *)
Record Ready := mkReady { rd_source : Source; rd_runtime : runtime; rd_http : option Reporter }.

Definition RuntimeConfig_init : RuntimeConfig := mkRuntimeConfig 256 100000000 8 true (mkDetailConfig 4096 64 4096) 30000000000.
Definition pcap_total_bytes (f : PcapFile) : Z := foldl (fun n p => add64 n (size (p_data p))) 0 (packets_ f).

Section Startup.
Context {HE : HostEndian}.
Context (answer : nat -> Z) (strerror : nat -> Bytes) (pick : list Z -> Z).
(** What the file system and [inet_pton] say, and the port [getsockname] reports. *)
Context (read_file : Bytes -> option Bytes) (valid_address : Bytes -> bool) (bound : Z).

Definition open_source (o : Options) (p : Process) : res (option Source * Process) :=
  if negb (bool_decide (pcap_path o = [])) then
    let* r := replay_open (pcap_path o) (read_file (pcap_path o)) true (replay_loops o) in
    Ok (match r with
        | inl error => (None, complain error p)
        | inr replay => (Some (FileSource replay),
            complain (sprintf "loaded %zu packets (%zu bytes, link type %u) from %s"
              [AInt (size (packets_ (rp_file replay))); AInt (pcap_total_bytes (rp_file replay)); AInt (link_type_ (rp_file replay)); AStr (pcap_path o)]) p)
        end)
  else
    let (r, w) := open_linux answer strerror pick (mkLiveOptions (interface o) true 65535) (ps_kernel p) in
    let p := p <| ps_kernel := w |> in
    Ok (match r with
        | inl error => (None, complain error p)
        | inr live => (Some (LiveSource live), complain (sprintf "capturing on %s" [AStr (interface o)]) p)
        end).

(** [~PacketSource]. *)
Definition source_destroy (s : Source) (p : Process) : Process :=
  match s with FileSource _ => p | LiveSource h => p <| ps_kernel ::= live_destroy h |> end.

(** [Runtime runtime(cfg)]. *)
Definition main_runtime (o : Options) : res runtime :=
  let* meter_ring := SpscRing_new MeterEvent_init (ring_size o) in
  let* gy_ring := SpscRing_new GyEvent_init (2 ^ 12) in
  let* record_ring := SpscRing_new UsageRecord_init (2 ^ 14) in
  let* teids := FlatHashU32_new TeidBinding_init (teid_table_capacity (meter_config o)) in
  let* e := fresh_engine (meter_config o) teids (Some record_ring) in
  Ok (Runtime_new (runtime_config RuntimeConfig_init o) IngestConfig_init meter_ring gy_ring e).

(** [Runtime::install_sessions] at [now]. *)
Definition runtime_install (rt : runtime) (specs : list SessionSpec) (now : Z) : res (Z * runtime) :=
  let* (installed, e) := install_sessions (rt_engine rt) specs now 0 in Ok (installed, rt <| rt_engine := e |>).

(** The session table of [--sessions]; [None] is the error return. *)
Definition load_table (o : Options) (rt : runtime) (now : Z) (p : Process) : res (option runtime * Process) :=
  if negb (bool_decide (sessions_path o = [])) then
    let r := load_sessions_csv (sessions_path o) (read_file (sessions_path o)) in
    match load_error r with
    | Some error => Ok (None, complain error p)
    | None =>
        let* (installed, rt) := runtime_install rt (sessions r) now in
        Ok (Some rt, complain (sprintf "installed %zu sessions (%zu malformed rows skipped)" [AInt installed; AInt (skipped_lines r)]) p)
    end
  else Ok (Some rt, if negb (learn_teids o) then
      complain (txt "no --sessions given; every TEID will count as unknown. Pass --learn-teids to meter them anyway.") p else p).

(** [Runtime::start] at [now]: without a records file the runtime goes on. *)
Definition runtime_start (o : Options) (rt : runtime) (now : Z) (p : Process) : runtime * Process :=
  if ps_running p then (rt, p) else
  let p := p <| ps_running := true |> in
  if negb (bool_decide (records_path o = [])) && (ps_records p <? 0) then
    let (fd, w) := sys_open answer pick (ps_kernel p) in
    let p := p <| ps_kernel := w |> <| ps_records := fd |> in
    if fd <? 0 then (start rt None now, complain (sprintf "cannot open usage record file %s" [AStr (records_path o)]) p)
    else (start rt (Some []) now, p)
  else (start rt None now, p).

(** [Runtime::stop] as main sees it, and [~Runtime]. *)
Definition runtime_stop (p : Process) : Process := p <| ps_running := false |>.
Definition runtime_destroy (p : Process) : Process :=
  let p := runtime_stop p in
  if 0 <=? ps_records p then p <| ps_kernel ::= sys_close (ps_records p) |> <| ps_records := -1 |> else p.

(** [HttpReporter::stop], also its destructor. *)
Definition reporter_stop (http : option Reporter) (p : Process) : option Reporter * Process :=
  match http with
  | None => (None, p)
  | Some h => let (h, w) := http_stop h (ps_kernel p) in (Some h, p <| ps_kernel := w |>)
  end.

(** The reporter of [--http]; [inl] is a failed start with the reporter it leaves. *)
Definition start_http (o : Options) (p : Process) : (Reporter + option Reporter) * Process :=
  if negb (http_port o =? 0) then
    let h := Reporter_new (listen_port o) (http_bind o) in
    let '(error, h, w) := http_start answer strerror pick (valid_address (http_bind o)) bound h (ps_kernel p) in
    let p := p <| ps_kernel := w |> in
    match error with
    | Some error => (inl h, complain error p)
    | None => (inr (Some h), complain (sprintf "metrics on http://%s:%u/metrics" [AStr (http_bind o); AInt (hr_port h)]) p)
    end
  else (inr None, p).

(** [return 1] or the end of [main]: destructors in reverse order. *)
Definition unwind (http : option Reporter) (s : Source) (p : Process) : Process :=
  let (_, p) := reporter_stop http p in source_destroy s (runtime_destroy p).

Definition startup (o : Options) (install_ns start_ns : Z) (p : Process) : res (option Ready * Process) :=
  let* (src, p) := open_source o p in
  match src with
  | None => Ok (None, p)
  | Some src =>
      let* rt := main_runtime o in
      let* (rt, p) := load_table o rt install_ns p in
      match rt with
      | None => Ok (None, unwind None src p)
      | Some rt =>
          let (rt, p) := runtime_start o rt start_ns p in
          match start_http o p with
          | (inl h, p) => Ok (None, unwind (Some h) src (runtime_stop p))
          | (inr http, p) => Ok (Some (mkReady src rt http), p)
          end
      end
  end.

(** After the ingest loop: [runtime.stop()], [http->stop()], [return 0]. *)
Definition shutdown (rd : Ready) (p : Process) : Process :=
  let p := runtime_stop p in
  let (http, p) := reporter_stop (rd_http rd) p in
  unwind http (rd_source rd) p.

(** ** Nothing is left behind *)

Hypothesis pick_fresh : forall l, 0 <= pick l /\ pick l ∉ l.

Definition nonneg (l : list Z) : Prop := Forall (fun fd => 0 <= fd) l.

Lemma opened_refl w : opened w w [].
Proof. done. Qed.
Lemma opened_trans w1 w2 w3 a b : opened w1 w2 a -> opened w2 w3 b -> opened w1 w3 (b ++ a).
Proof. intros [H1 H2] [H3 H4]. split; [by rewrite H3, H1, app_assoc|congruence]. Qed.
Lemma opened_nonneg w w' fds : opened w w' fds -> nonneg (k_open w) -> nonneg fds -> nonneg (k_open w').
Proof. intros [-> _] ? ?. by apply Forall_app. Qed.
(** Only what is open matters for closing. *)
Lemma sys_close_ext w w1 w2 fd fds : opened w1 w2 [] -> opened w (sys_close fd w1) fds -> opened w (sys_close fd w2) fds.
Proof.
  intros [Ho Hf] H. unfold sys_close, opened in *. cbn [app] in Ho. rewrite Ho. destruct (bool_decide _); cbn in *; rewrite ?Ho, ?Hf; done.
Qed.

(** The source holds its descriptors, and its destructor closes them. *)
Definition source_held (s : Source) (w w' : Kernel) : Prop :=
  (exists fds, opened w w' fds /\ nonneg fds) /\
  forall p, opened w' (ps_kernel p) [] -> opened w (ps_kernel (source_destroy s p)) [].
Definition complained (p p' : Process) : Prop :=
  ps_running p' = ps_running p /\ ps_records p' = ps_records p /\
  exists line, ps_stderr p' = ps_stderr p ++ txt "gtp-meter: " ++ line ++ [ch_nl].
(** Why there is no source: the capture cannot be loaded or is empty, or the
    interface cannot be opened. *)
Definition no_source (o : Options) : Prop :=
  pcap_path o <> [] -> exists error, replay_open (pcap_path o) (read_file (pcap_path o)) true (replay_loops o) = Ok (inl error).

Lemma replay_open_returns path file loops : returns (replay_open path file true loops).
Proof.
  destruct (pcap_load_safe path file true) as ([r f] & H & _). unfold replay_open. rewrite H, bind_Ok.
  destruct (pr_error r); [by eexists|]. destruct (packets_ f); by eexists.
Qed.

Lemma replay_open_source path file loops r : replay_open path file true loops = Ok (inr r) -> packets_ (rp_file r) <> [] /\ rp_loops r = loops.
Proof.
  unfold replay_open. intros ([res f] & _ & H)%bind_Ok_inv. destruct (pr_error res); [done|]. destruct (packets_ f) eqn:E; [done|].
  injection H as <-. cbn. by rewrite E.
Qed.

(** The source the options ask for. *)
Definition source_as_asked (o : Options) (s : Source) : Prop :=
  match s with FileSource r => pcap_path o <> [] /\ packets_ (rp_file r) <> [] /\ rp_loops r = replay_loops o | LiveSource _ => pcap_path o = [] end.

Lemma open_source_spec o p : ensures (open_source o p) (fun '(s, p') => complained p p' /\
  match s with
  | None => opened (ps_kernel p) (ps_kernel p') [] /\ no_source o
  | Some s => source_held s (ps_kernel p) (ps_kernel p') /\ source_as_asked o s
  end).
Proof.
  unfold open_source. case_bool_decide as Ep; cbn [negb].
  - pose proof (open_linux_spec answer strerror pick pick_fresh (mkLiveOptions (interface o) true 65535) (ps_kernel p)) as Hl.
    destruct (open_linux _ _ _ _ _) as [[error|h] w]; apply ensures_Ok; unfold live_opened in Hl; cbn [fst snd] in Hl.
    + split; [split_and!; [done|done|by eexists]|]. split; [done|]. by intros ?.
    + destruct Hl as (Hfd & Ho & Hd). split; [split_and!; [done|done|by eexists]|]. split; [|exact Ep]. split; [exists [lh_fd h]; split; [done|by repeat constructor]|].
      intros p2 H2. change (opened w (ps_kernel p2) []) in H2. change (opened (ps_kernel p) (live_destroy h (ps_kernel p2)) []). unfold live_destroy in *.
      rewrite (proj2 (Z.leb_le _ _) Hfd) in *. by eapply sys_close_ext.
  - destruct (replay_open_returns (pcap_path o) (read_file (pcap_path o)) (replay_loops o)) as [[error|r] Hr]; rewrite Hr, bind_Ok; apply ensures_Ok.
    + split; [split_and!; [done|done|by eexists]|]. split; [apply opened_refl|]. intros _. by exists error.
    + destruct (replay_open_source _ _ _ _ Hr) as [H1 H2].
      split; [split_and!; [done|done|by eexists]|]. split; [|by split_and!]. split; [exists []; split; [apply opened_refl|constructor]|].
      intros p2 Hp2. exact Hp2.
Qed.

(** The runtime the options describe is ready to meter. *)
Lemma main_ring {T} (d : T) cap : cap <= 2 ^ 63 -> ensures (SpscRing_new d cap) (fun r => q_repr r []).
Proof.
  intros Hc. eapply ensures_mono; [by apply new_inv|]. intros r (k & Hk & Hb).
  exists 0, 0, 0, 0, k. split_and!; [done|done|]. intros i v Hi. by destruct i.
Qed.

Lemma main_runtime_spec o : ring_size o <= 2 ^ 63 -> ensures (main_runtime o) (fun rt => rt_ok rt [] []).
Proof.
  intros Hr. unfold main_runtime. eapply ensures_bind; [by apply (main_ring MeterEvent_init)|]. intros q1 Hq1.
  eapply ensures_bind; [apply (main_ring GyEvent_init); lia|]. intros q2 Hq2.
  eapply ensures_bind; [apply (main_ring UsageRecord_init); lia|]. intros q3 Hq3.
  eapply ensures_bind; [apply (new_repr TeidBinding_init (teid_table_capacity (meter_config o))); cbn; lia|]. intros t (Ht & Hcap & _).
  eapply ensures_bind; [apply (fresh_good (meter_config o) t (Some q3))|].
  { split; [|exact Ht| |exact Hq3].
    - split; [cbn; lia|]. intros _. cbn. lia.
    - change (kt_cap t) with (fh_capacity_ t). cbn in *. lia. }
  intros e (Hg & _). apply ensures_Ok. constructor; [exact Hg|by exists q1|by exists q2|done|done|cbn; lia|split; [by split_and!|cbn; lia]].
Qed.

Lemma install_sessions_good specs now : forall (e : MeterEngine (FlatHashU32 TeidBinding) (SpscRing UsageRecord)) n, good e -> Forall session_ok specs ->
  ensures (install_sessions e specs now n) (fun '(_, e') => good e').
Proof.
  induction specs as [|sp specs IH]; intros e n Hg Hs; cbn [install_sessions]; [by apply ensures_Ok|]. apply Forall_cons_iff in Hs as [Hsp Hs].
  destruct (exec_ran (fun _ => 0) e (OpInstall sp now) Hg Hsp ltac:(done)) as ([out e1] & Hex & _ & Hg1). cbn [exec] in Hex.
  apply bind_Ok_inv in Hex as ([r e2] & -> & [= <- <-]). rewrite bind_Ok. by apply IH.
Qed.

Lemma load_table_spec o (rt : runtime) now p : rt_ok rt [] [] ->
  (forall text, read_file (sessions_path o) = Some text -> size (getlines ch_nl text) < 2 ^ 64) ->
  ensures (load_table o rt now p) (fun '(r, p') => ps_kernel p' = ps_kernel p /\ ps_running p' = ps_running p /\ ps_records p' = ps_records p /\
    (exists more, ps_stderr p' = ps_stderr p ++ more) /\
    match r with
    | None => sessions_path o <> [] /\ read_file (sessions_path o) = None /\ complained p p'
    | Some rt' => rt_ok rt' [] []
    end).
Proof.
  intros Hok Hsz. unfold load_table. case_bool_decide as Es; cbn [negb].
  { apply ensures_Ok. destruct (learn_teids o); cbn [negb]; split_and!; try done; [exists []; by rewrite app_nil_r|by eexists]. }
  unfold load_sessions_csv. destruct (read_file (sessions_path o)) as [text|] eqn:Ef.
  - destruct (load_lines_sound (getlines ch_nl text) (mkLoad [] 0 None)) as (H1 & H2 & _); [constructor|done|by apply Hsz|].
    cbn [load_error] in H2. rewrite H2. unfold runtime_install.
    set (r := foldl _ _ _) in *. clearbody r. destruct Hok as [Hg ? ? ? ? ? ?].
    assert (Forall session_ok (sessions r)) as Hs by (revert H1; apply Forall_impl; tauto).
    destruct (install_sessions_good (sessions r) now _ 0 Hg Hs) as ([n e] & -> & He).
    rewrite !bind_Ok. apply ensures_Ok. split_and!; [done|done|done|by eexists|]. by constructor.
  - apply ensures_Ok. split_and!; [done|done|done|by eexists|done|done|]. split_and!; [done|done|by eexists].
Qed.

(** The records file: none, or one descriptor. *)
Definition records_held (w : Kernel) (fd : Z) (w' : Kernel) : Prop :=
  (fd = -1 /\ opened w w' []) \/ (0 <= fd /\ (fd ∉ k_open w) /\ opened w w' [fd]).

Lemma sys_open_cases w : let (fd, w') := sys_open answer pick w in records_held w fd w'.
Proof.
  pose proof (sys_open_spec answer pick pick_fresh w) as H. unfold sys_open in *. destruct (answer (k_calls w) <? 0); [by left|].
  destruct H as [[? _]|H]; [pose proof (pick_fresh (k_open w)); lia|by right].
Qed.

Lemma runtime_start_spec o (rt : runtime) now p : ps_running p = false -> ps_records p = -1 -> rt_ok rt [] [] ->
  let (rt', p') := runtime_start o rt now p in
  rt_ok rt' [] [] /\ ps_running p' = true /\ records_held (ps_kernel p) (ps_records p') (ps_kernel p') /\ exists more, ps_stderr p' = ps_stderr p ++ more.
Proof.
  intros Hrun Hrec [? ? ? ? ? ? ?]. unfold runtime_start. rewrite Hrun. change (ps_records (p <| ps_running := true |>)) with (ps_records p). rewrite Hrec.
  change (-1 <? 0) with true. rewrite andb_true_r. case_bool_decide; cbn [negb].
  { split_and!; [by constructor|done|by left|exists []; by rewrite app_nil_r]. }
  change (ps_kernel (p <| ps_running := true |>)) with (ps_kernel p). pose proof (sys_open_cases (ps_kernel p)) as Hs.
  destruct (sys_open answer pick (ps_kernel p)) as [fd w]. destruct Hs as [[-> Ho]|(Hfd & Hn & Ho)].
  - change (-1 <? 0) with true. split_and!; [by constructor|done|by left|by eexists].
  - rewrite (proj2 (Z.ltb_ge _ _) Hfd). split_and!; [by constructor|done|by right|exists []; by rewrite app_nil_r].
Qed.

(** The reporter's socket lies above [w]. *)
Definition http_held (w : Kernel) (http : option Reporter) (p : Process) : Prop :=
  match http with Some h => reporter_ok w h (ps_kernel p) | None => opened w (ps_kernel p) [] end.

Lemma start_http_spec o p : nonneg (k_open (ps_kernel p)) -> let (r, p') := start_http o p in
  ps_running p' = ps_running p /\ ps_records p' = ps_records p /\
  match r with
  | inl h => http_held (ps_kernel p) (Some h) p' /\ complained p p' /\ http_port o <> 0
  | inr http => http_held (ps_kernel p) http p' /\ (is_Some http <-> http_port o <> 0) /\ (exists more, ps_stderr p' = ps_stderr p ++ more) /\
      forall h, http = Some h -> 0 <= hr_listen_fd h /\ hr_joinable h = true
  end.
Proof.
  intros Hpos. unfold start_http. destruct (Z.eqb_spec (http_port o) 0) as [Hz|Hz]; cbn [negb].
  { split_and!; [done|done|apply opened_refl|split; [by intros []|done]|exists []; by rewrite app_nil_r|done]. }
  set (h0 := Reporter_new _ _). assert (reporter_ok (ps_kernel p) h0 (ps_kernel p)) as H0.
  { split_and!; [apply opened_refl| |done|exact Hpos]. by apply negative_closed. }
  pose proof (http_start_spec answer strerror pick pick_fresh (valid_address (http_bind o)) bound (ps_kernel p) h0 (ps_kernel p) H0 eq_refl eq_refl) as Hs.
  destruct (http_start _ _ _ _ _ _ _) as [[error h] w]. destruct Hs as (Hok & Hn & _). destruct error as [error|].
  - split_and!; [done|done|exact Hok|split_and!; [done|done|by eexists]|done].
  - split_and!; [done|done|exact Hok|split; [done|by eexists]|by eexists|]. intros h' [= <-]. by apply Hn.
Qed.

Lemma reporter_stop_spec w http p : http_held w http p -> let (http', p') := reporter_stop http p in
  opened w (ps_kernel p') [] /\ http_held w http' p' /\ ps_running p' = ps_running p /\ ps_records p' = ps_records p.
Proof.
  destruct http as [h|]; cbn [reporter_stop http_held]; [|done]. intros Hok. pose proof (http_stop_spec w h (ps_kernel p) Hok) as [H1 H2].
  destruct (http_stop h (ps_kernel p)) as [h' w']. done.
Qed.

Lemma unwind_closes w w1 w2 src http p : source_held src w w1 -> records_held w1 (ps_records p) w2 -> http_held w2 http p ->
  let p' := unwind http src p in opened w (ps_kernel p') [] /\ ps_running p' = false /\ ps_records p' = -1.
Proof.
  intros [_ Hsrc] Hrec Hhttp. unfold unwind. pose proof (reporter_stop_spec w2 http p Hhttp) as Hs.
  destruct (reporter_stop http p) as [http' p']. destruct Hs as (Ho & _ & _ & Hr). rewrite <- Hr in Hrec. cbn zeta.
  assert (opened w1 (ps_kernel (runtime_destroy p')) [] /\ ps_running (runtime_destroy p') = false /\ ps_records (runtime_destroy p') = -1) as (H1 & H2 & H3).
  { unfold runtime_destroy, runtime_stop. change (ps_records (p' <| ps_running := false |>)) with (ps_records p').
    destruct Hrec as [[E Hw]|(Hfd & Hn & Hw)]; pose proof (opened_trans _ _ _ _ _ Hw Ho) as Ho'; cbn [app] in Ho'.
    - rewrite E. change (0 <=? -1) with false. done.
    - rewrite (proj2 (Z.leb_le _ _) Hfd). split_and!; [|done|done]. by apply (sys_close_spec w1 (ps_kernel p') (ps_records p')). }
  split; [by apply Hsrc|]. by destruct src.
Qed.

Lemma unwind_stderr http src p : ps_stderr (unwind http src p) = ps_stderr p.
Proof.
  assert (forall p, ps_stderr (source_destroy src (runtime_destroy p)) = ps_stderr p) as H.
  { intros q. unfold runtime_destroy. destruct src, (_ <=? _); done. }
  unfold unwind. destruct http as [h|]; cbn [reporter_stop]; [|apply H]. destruct (http_stop h (ps_kernel p)). by rewrite H.
Qed.

(** C18: Starting up succeeds whole or not at all.  Whatever the files contain and
    whatever each system call answers, [main] reaches the ingest loop or returns 1
    after a line on [stderr].  When it returns 1, no thread runs and every
    descriptor it opened (capture, records file, listening socket) is closed
    exactly once; and it does so only if there is no source, the session file
    cannot be opened, or a reporter was asked for and cannot be started: an
    unusable records file does not stop it.  When it goes on, the source is the
    one asked for with at least one packet to replay, the runtime satisfies the
    invariant of the metering loop with empty rings, a reporter listens exactly if
    a port was given, and the end of [main] closes everything again. *)
Theorem startup_whole o install_ns start_ns w : nonneg (k_open w) -> k_fault w = false -> ring_size o <= 2 ^ 63 ->
  (forall text, read_file (sessions_path o) = Some text -> size (getlines ch_nl text) < 2 ^ 64) ->
  ensures (startup o install_ns start_ns (Process_init w)) (fun '(r, p) =>
    match r with
    | None => k_open (ps_kernel p) = k_open w /\ k_fault (ps_kernel p) = false /\ ps_running p = false /\ ps_records p = -1 /\
        (exists before line, ps_stderr p = before ++ txt "gtp-meter: " ++ line ++ [ch_nl]) /\
        (no_source o \/ (sessions_path o <> [] /\ read_file (sessions_path o) = None) \/ http_port o <> 0)
    | Some rd => source_as_asked o (rd_source rd) /\ rt_ok (rd_runtime rd) [] [] /\ ps_running p = true /\
        (is_Some (rd_http rd) <-> http_port o <> 0) /\
        (forall h, rd_http rd = Some h -> 0 <= hr_listen_fd h /\ hr_joinable h = true) /\
        let p' := shutdown rd p in k_open (ps_kernel p') = k_open w /\ k_fault (ps_kernel p') = false /\ ps_running p' = false
    end).
Proof.
  intros Hpos Hf Hring Hsz. unfold startup. eapply ensures_bind; [apply open_source_spec|]. intros [src p1] ((Hrun1 & Hrec1 & Herr1) & Hsrc).
  cbn [Process_init ps_running ps_records ps_stderr ps_kernel] in *. destruct src as [src|].
  2: { destruct Hsrc as [[Ho Hk] Hno]. apply ensures_Ok. split_and!; [done|congruence|done|done|destruct Herr1 as [l Hl]; by exists [], l|by left]. }
  destruct Hsrc as [Hheld Hask]. eapply ensures_bind; [by apply main_runtime_spec|]. intros rt Hrt. cbn beta in Hrt.
  eapply ensures_bind; [by apply (load_table_spec o rt install_ns p1 Hrt)|]. intros [rt2 p2] (Hk2 & Hrun2 & Hrec2 & _ & Hrt2). rewrite Hrun1 in Hrun2. rewrite Hrec1 in Hrec2.
  destruct rt2 as [rt2|].
  2: { destruct Hrt2 as (Hs1 & Hs2 & _ & _ & line & Hline). destruct (unwind_closes w (ps_kernel p1) (ps_kernel p2) src None p2) as ([H1 H2] & H3 & H4);
         [done|left; by rewrite Hk2|apply opened_refl|].
       apply ensures_Ok. split_and!; [done|congruence|done|done| |by right; left].
       exists (ps_stderr p1), line. by rewrite unwind_stderr. }
  pose proof (runtime_start_spec o rt2 start_ns p2 Hrun2 Hrec2 Hrt2) as Hst. destruct (runtime_start o rt2 start_ns p2) as [rt3 p3].
  destruct Hst as (Hrt3 & Hrun3 & Hrec3 & _). rewrite Hk2 in Hrec3.
  assert (nonneg (k_open (ps_kernel p3))) as Hpos3.
  { destruct Hheld as [(fds & Ho & Hn) _]. pose proof (opened_nonneg _ _ _ Ho Hpos Hn) as Hp1.
    destruct Hrec3 as [[_ H]|(Hfd & _ & H)]; [apply (opened_nonneg _ _ _ H Hp1); constructor|]. apply (opened_nonneg _ _ _ H Hp1). constructor; [exact Hfd|constructor]. }
  pose proof (start_http_spec o p3 Hpos3) as Hh. destruct (start_http o p3) as [[h|http] p4]; destruct Hh as (Hrun4 & Hrec4 & Hh); apply ensures_Ok.
  - destruct Hh as (Hheld4 & (_ & _ & line & Hline) & Hport). rewrite <- Hrec4 in Hrec3.
    destruct (unwind_closes w (ps_kernel p1) (ps_kernel p3) src (Some h) (runtime_stop p4) Hheld Hrec3 Hheld4) as ([H1 H2] & H3 & H4).
    split_and!; [done|congruence|done|done| |by right; right]. exists (ps_stderr p3), line. by rewrite unwind_stderr.
  - destruct Hh as (Hheld4 & Hiff & _ & Hlisten). split; [done|]. split; [exact Hrt3|]. split; [congruence|]. split; [done|]. split; [done|].
    unfold shutdown. pose proof (reporter_stop_spec (ps_kernel p3) http (runtime_stop p4) Hheld4) as Hs. cbn [rd_http rd_source].
    destruct (reporter_stop http (runtime_stop p4)) as [http5 p5]. destruct Hs as (_ & Hheld5 & _ & Hrec5).
    change (ps_records (runtime_stop p4)) with (ps_records p4) in Hrec5. rewrite <- Hrec4, <- Hrec5 in Hrec3.
    destruct (unwind_closes w (ps_kernel p1) (ps_kernel p3) src http5 p5 Hheld Hrec3 Hheld5) as ([H1 H2] & H3 & _). cbn zeta.
    split_and!; [done|congruence|done].
Qed.
End Startup.

(** A replay without sessions file and reporter, on descriptors 0 to 2. *)
Definition sample_options : Options := Options_init <| pcap_path := txt "a.pcap" |> <| records_path := txt "r.ndjson" |>.

Lemma startup_whole_witness :
  let HE : HostEndian := little in
  exists rd p, startup (fun _ => 1) (fun _ => []) above (fun _ => Some sample_capture) (fun _ => true) 0 sample_options 5 6
    (Process_init (mkKernel 0 [0; 1; 2] false)) = Ok (Some rd, p) /\
    ps_running p = true /\ rd_http rd = None /\ k_open (ps_kernel (shutdown rd p)) = [0; 1; 2].
Proof.
  intros HE. destruct (startup_whole (HE := HE) (fun _ => 1) (fun _ => []) above (fun _ => Some sample_capture) (fun _ => true) 0
    above_fresh sample_options 5 6 (mkKernel 0 [0; 1; 2] false)) as ([[rd|] p] & Hs & H).
  - repeat (constructor; [lia|]). constructor.
  - reflexivity.
  - cbn. lia.
  - intros text [= <-]. vm_compute. reflexivity.
  - exists rd, p. destruct H as (_ & _ & H1 & H2 & _ & H3 & _). split_and!; [exact Hs|exact H1| |exact H3].
    destruct (rd_http rd); [|reflexivity]. exfalso. by apply H2.
  - exfalso. destruct H as (_ & _ & _ & _ & _ & [Hno|[[Hs' _]|Hp]]); [|by apply Hs'|by apply Hp].
    destruct Hno as [error He]; [done|]. vm_compute in He. discriminate He.
Defined.

(** A port in use: the message, and the socket closed again. *)
Example start_http_in_use :
  (start_http (fun k => if (k =? 2)%nat then -1 else 1) (fun _ => txt "Address already in use") above (fun _ => true) 0
     (sample_options <| http_port := 80 |>) (Process_init (mkKernel 0 [0; 1; 2] false))).2 =
  mkProcess (mkKernel 4 [0; 1; 2] false) (txt "gtp-meter: bind 127.0.0.1:80: Address already in use~") false (-1).
Proof. vm_compute. reflexivity. Qed.

(** ** Around the ingest loop *)

Section Waits.
Context (clock : nat -> Z).

(** The progress line is printed, and its time remembered. *)
Definition progress_due (o : Options) (now last_progress : Z) : bool * Z :=
  if negb (quiet o) && (500000000 <? sub64 now last_progress) then (true, now) else (false, last_progress).

(** The wait for the metering thread: test [k] finds the ring empty or not
    ([empty k]); the clock is read only when it is not.  The result is the number
    of tests and of clock readings. *)
Fixpoint drain_wait (fuel : nat) (empty : nat -> bool) (deadline : Z) (k reads : nat) : res (nat * nat) :=
  match fuel with
  | O => Fuel
  | S fuel =>
      if empty k then Ok (S k, reads)
      else if clock reads <? deadline then drain_wait fuel empty deadline (S k) (S reads)
      else Ok (S k, S reads)
  end.
Definition drain_deadline (reads : nat) : Z := add64 (clock reads) 2000000000.

(** The wait ends as soon as the ring is found empty or the deadline has passed,
    whichever comes first, and not before. *)
Lemma drain_wait_ends empty deadline j : forall k reads, empty (k + j)%nat = true \/ deadline <= clock (reads + j)%nat ->
  exists i, (i <= j)%nat /\ (empty (k + i)%nat = true \/ deadline <= clock (reads + i)%nat) /\
    (forall m, (m < i)%nat -> empty (k + m)%nat = false /\ clock (reads + m)%nat < deadline) /\
    exists r, forall fuel, (i < fuel)%nat -> drain_wait fuel empty deadline k reads = Ok (S (k + i), r).
Proof.
  induction j as [|j IH]; intros k reads H.
  - exists 0%nat. split_and!; [lia|done|lia|]. rewrite !Nat.add_0_r in *. destruct (empty k) eqn:E.
    + exists reads. intros [|fuel] Hf; [lia|]. cbn [drain_wait]. by rewrite E.
    + destruct H as [|H]; [done|]. exists (S reads). intros [|fuel] Hf; [lia|]. cbn [drain_wait]. rewrite E.
      by rewrite (proj2 (Z.ltb_ge _ _) H).
  - destruct (empty k) eqn:E; [|destruct (Z.ltb_spec (clock reads) deadline) as [Hc|Hc]].
    + exists 0%nat. rewrite !Nat.add_0_r. split_and!; [lia|by left|lia|]. exists reads. intros [|fuel] Hf; [lia|]. cbn [drain_wait]. by rewrite E.
    + destruct (IH (S k) (S reads)) as (i & Hi & Hend & Hbefore & r & Hr).
      { replace (S k + j)%nat with (k + S j)%nat by lia. by replace (S reads + j)%nat with (reads + S j)%nat by lia. }
      exists (S i). split_and!; [lia| | |].
      * replace (k + S i)%nat with (S k + i)%nat by lia. by replace (reads + S i)%nat with (S reads + i)%nat by lia.
      * intros [|m] Hm; [by rewrite !Nat.add_0_r|]. destruct (Hbefore m ltac:(lia)) as [H1 H2].
        replace (k + S m)%nat with (S k + m)%nat by lia. by replace (reads + S m)%nat with (S reads + m)%nat by lia.
      * exists r. intros [|fuel] Hf; [lia|]. cbn [drain_wait]. rewrite E, (proj2 (Z.ltb_lt _ _) Hc), Hr by lia. do 2 f_equal. lia.
    + exists 0%nat. rewrite !Nat.add_0_r. split_and!; [lia|by right|lia|]. exists (S reads). intros [|fuel] Hf; [lia|]. cbn [drain_wait]. rewrite E.
      by rewrite (proj2 (Z.ltb_ge _ _) Hc).
Qed.
End Waits.
