(* ===== verification/BenchCommon.v ===== *)
(** * bench/bench_common.hpp: what the benchmarks share

    The environment block, the latency table and the sink that keeps results
    observable; and the pacing loop that the producers of [bench_ring] and
    [bench_e2e] contain.  The Linux branches are modelled.  A file that cannot be
    opened is [None]; [clock k] is the [k]-th reading of the monotonic clock. *)

From Stdlib Require Strings.String.
From S2P Require Import Prelude Session SessionCsv Double Text Clock Histogram Report Pacing Summary.

(** [std::string::c_str] as [%s] reads it. *)
Fixpoint c_str (s : Bytes) : Bytes := match s with c :: s => if decide (c = x00) then [] else c :: c_str s | [] => [] end.

(** [std::string::find] of a character. *)
Fixpoint find_char (c : byte) (s : Bytes) : option nat :=
  match s with [] => None | d :: s => if decide (d = c) then Some 0%nat else S <$> find_char c s end.

(** [std::string::substr]: [None] is the exception [std::out_of_range]. *)
Definition substr_from (s : Bytes) (pos : nat) : option Bytes := if (length s <? pos)%nat then None else Some (drop pos s).

(** The loop of [cpu_model] over the lines of [/proc/cpuinfo]. *)
Fixpoint cpu_model_lines (lines : list Bytes) : option Bytes :=
  match lines with
  | [] => Some (txt "unknown")
  | line :: lines =>
      match find_char ch_colon line with
      | Some colon => if bool_decide (txt "model name" `prefix_of` line) then substr_from line (colon + 2) else cpu_model_lines lines
      | None => cpu_model_lines lines
      end
  end.
Definition cpu_model (cpuinfo : option Bytes) : option Bytes :=
  cpu_model_lines (match cpuinfo with Some text => getlines ch_nl text | None => [] end).

(** What the environment block reads of the machine and the build. *)
Record Environment := mkEnvironment {
  en_cpuinfo : option Bytes;
  en_cores : Z;
  en_compiler : Bytes;
  en_ndebug : bool;
  en_governor : option Bytes;
  en_isolated : option Bytes;
  en_wall_ns : Z
}.

(** The first [std::getline] of a file. *)
Definition first_line_of (file : option Bytes) : option Bytes := match file with Some text => head (getlines ch_nl text) | None => None end.

Definition print_environment (en : Environment) (benchmark : Bytes) : option Bytes :=
  cpu ← cpu_model (en_cpuinfo en);
  Some (concat [
    sprintf "# benchmark: %s~" [AStr benchmark];
    sprintf "# cpu: %s~" [AStr (c_str cpu)];
    sprintf "# cores: %u~" [AInt (en_cores en)];
    sprintf "# compiler: %s~" [AStr (en_compiler en)];
    (if en_ndebug en then txt "# build: release (NDEBUG)~" else txt "# build: DEBUG - results are not meaningful~");
    match first_line_of (en_governor en) with Some value => sprintf "# governor: %s~" [AStr (c_str value)] | None => [] end;
    match first_line_of (en_isolated en) with
    | Some value => sprintf "# isolated cpus: %s~" [AStr (match value with [] => txt "(none)" | _ => c_str value end)]
    | None => []
    end;
    sprintf "# timestamp: %s~" [AStr (format_rfc3339 (en_wall_ns en))]]).

(** ** The latency table *)

Definition print_latency_row (name : Bytes) (h : Histogram) (ops_per_sec : double) : res Bytes :=
  let* p50 := quantile_of h (dlit 50 100) in let* p99 := quantile_of h (dlit 99 100) in
  let* p999 := quantile_of h (dlit 999 1000) in let* p9999 := quantile_of h (dlit 9999 10000) in
  Ok (sprintf "%-28s,%12.0f,%8llu,%8llu,%8llu,%8llu,%8llu,%8llu,%10.1f~"
    [AStr name; ADouble ops_per_sec; AInt (hist_min h); AInt p50; AInt p99; AInt p999; AInt p9999; AInt (max_ h); ADouble (mean h)]).

Definition print_latency_header : Bytes :=
  sprintf "%-28s,%12s,%8s,%8s,%8s,%8s,%8s,%8s,%10s~"
    (map (fun s => AStr (txt s)) ["case"; "ops/s"; "min"; "p50"; "p99"; "p99.9"; "p99.99"; "max"; "mean"]%string).

(** [bench::sink += v]. *)
Definition sink_add (sink v : Z) : Z := add64 sink v.
(** [return bench::sink == UINT64_MAX ? 1 : 0]. *)
Definition bench_exit (sink : Z) : Z := if sink =? UINT64_MAX then 1 else 0.

(** Operations per second over [elapsed] nanoseconds. *)
Definition per_second (count elapsed : Z) : double := ddiv (dbl count) (ddiv (dbl elapsed) giga).

(** ** Pacing a producer *)

(** When element [i] is due. *)
Definition due (start i target_pps : Z) : Z := pace_deadline start i target_pps.

Section Paced.
Context (clock : nat -> Z).

(** Before element [i]: the number of readings taken when it may go. *)
Definition paced (fuel : nat) (start i target_pps : Z) (reads : nat) : res nat :=
  if negb (target_pps =? 0) then wait_until clock fuel (due start i target_pps) reads else Ok reads.

Lemma paced_spec start i target_pps reads :
  (target_pps <> 0 -> exists j, (reads <= j)%nat /\ due start i target_pps <= clock j) ->
  exists fuel r, (reads <= r)%nat /\ (target_pps <> 0 -> due start i target_pps <= clock (pred r)) /\
    forall fuel', (fuel <= fuel')%nat -> paced fuel' start i target_pps reads = Ok r.
Proof.
  intros Hp. unfold paced. destruct (Z.eqb_spec target_pps 0) as [->|Hne]; cbn [negb]; [by exists 0%nat, reads|].
  destruct (Hp Hne) as (j & Hj & Ht). destruct (wait_until_reached clock (due start i target_pps) j reads Hj Ht) as (fuel & r & Hr & Hd & Hw).
  exists fuel, r. split_and!; [lia|done|done].
Qed.
End Paced.

Example cpu_model_ex :
  cpu_model (Some (txt "processor	: 0~model name	: Xeon 9~")) = Some (txt "Xeon 9") /\ cpu_model None = Some (txt "unknown") /\
  cpu_model (Some (txt "model name:~")) = None.
Proof. split_and!; vm_compute; reflexivity. Qed.

Example print_latency_row_ex :
  print_latency_row (txt "spsc") Histogram_new (dbl 5) =
  Ok (txt "spsc                        ,           5,       0,       0,       0,       0,       0,       0,       0.0~").
Proof. vm_compute. reflexivity. Qed.
