(* ===== verification/BenchRing.v ===== *)
(** * bench/bench_ring.cpp: the queue between two threads, measured

    [run_spsc] and its baseline [run_mutex_queue] are one program over two queues:
    a paced producer, and a consumer that times and sums what it receives.  The
    class [Channel] is what the program needs of the queue; its instances are the
    SPSC ring, popped in bulk, and the [std::queue] behind a mutex, popped one
    element at a time.  The threads interleave by actions: one queue operation or
    one clock reading, with the bookkeeping around it.  [clock k] is the [k]-th
    reading of the clock, by whichever thread. *)

From stdpp Require Import relations.
From Stdlib Require Strings.String.
From S2P Require Import Prelude ByteOrder SpscRing MeterEvent Pipeline Session SessionCsv Double Text Histogram Report Pacing Summary BenchCommon.

Definition ch_caret : byte := x5e.

Record Item := mkItem { it_seq : Z; it_ts_ns : Z; it_payload : list Z }.
Definition Item_init : Item := mkItem 0 0 (replicate 6 0).

(** ** The queue *)

Class Channel (Q : Type) := {
  ch_push : Q -> Item -> res (bool * Q);
  ch_pop : Q -> res (list Item * Q);
  ch_repr : Q -> list Item -> Prop;
  ch_push_spec q l x : ch_repr q l ->
    ensures (ch_push q x) (fun '(ok, q') => ch_repr q' (if ok : bool then l ++ [x] else l) /\ (ok = false -> l <> []));
  ch_pop_spec q l : ch_repr q l ->
    ensures (ch_pop q) (fun '(out, q') => exists rest, l = out ++ rest /\ ch_repr q' rest /\ (out = [] -> l = []))
}.

#[export] Instance spsc_channel : Channel (SpscRing Item).
Proof.
  refine {| ch_push := try_push; ch_pop := fun r => try_pop_bulk r 256; ch_repr := fun r l => repr r l /\ 0 < capacity_ r |}.
  - intros q l x [Hr Hc]. eapply ensures_mono; [by apply try_push_repr|]. intros [ok q'] [Hcap H].
    destruct (Z.ltb_spec (size l) (capacity_ q)) as [Hlt|Hge]; destruct H as [-> H]; cbn [q_cap] in *; [by split; [split; [|lia]|]|].
    split; [split; [done|lia]|]. intros _ ->. change (size []) with 0 in *. lia.
  - intros q l [Hr Hc]. eapply ensures_mono; [apply (try_pop_bulk_repr q l 256 Hr); lia|].
    intros [out q'] (Hcap & rest & -> & Hr' & _ & He). exists rest. split; [done|].
    split; [split; [done|lia]|]. intros E. by destruct (He E).
Defined.

(** [queue.push] under the lock; [front] and [pop] under the lock. *)
Definition mutex_push (q : list Item) (x : Item) : res (bool * list Item) := Ok (true, q ++ [x]).
Definition mutex_pop (q : list Item) : res (list Item * list Item) :=
  match q with [] => Ok ([], []) | x :: q => Ok ([x], q) end.

#[export] Instance mutex_channel : Channel (list Item).
Proof.
  refine {| ch_push := mutex_push; ch_pop := mutex_pop; ch_repr := eq |}.
  - intros q l x ->. by apply ensures_Ok.
  - intros q l ->. destruct l as [|x l]; apply ensures_Ok; [by exists []|by exists l].
Defined.

(** ** The threads *)

Inductive ProducerPc := ProducerWait | ProducerPace (i : Z) | ProducerMake (i : Z) | ProducerPush (i : Z) (item : Item) | ProducerJoin | ProducerDone.
Inductive ConsumerPc := ConsumerInit | ConsumerLoop | ConsumerDone.

Record Transit (Q : Type) := mkTransit {
  tr_queue : Q;
  tr_hist : Histogram;
  tr_sink : Z;
  tr_received : Z;
  tr_start : Z;
  tr_elapsed : Z;
  tr_reads : nat;
  tr_ready : bool;
  tr_producer : ProducerPc;
  tr_consumer : ConsumerPc
}.
Arguments mkTransit {Q}.
Arguments tr_queue {Q}.
Arguments tr_hist {Q}.
Arguments tr_sink {Q}.
Arguments tr_received {Q}.
Arguments tr_start {Q}.
Arguments tr_elapsed {Q}.
Arguments tr_reads {Q}.
Arguments tr_ready {Q}.
Arguments tr_producer {Q}.
Arguments tr_consumer {Q}.
#[export] Instance Transit_eta {Q} : Eta (Transit Q) := fun s =>
  mkTransit (tr_queue s) (tr_hist s) (tr_sink s) (tr_received s) (tr_start s) (tr_elapsed s) (tr_reads s) (tr_ready s)
    (tr_producer s) (tr_consumer s).

Section Transit.
Context {Q : Type} {CH : Channel Q} (count target_pps : Z) (measure : bool) (clock : nat -> Z).
Abbreviation transit := (Transit Q).

(** [wait] says whether the producer waits for [consumer_ready] ([run_spsc] does). *)
Definition transit_init (q : Q) (wait : bool) (sink : Z) : transit :=
  mkTransit q Histogram_new sink 0 0 0 0 (negb wait) ProducerWait (if wait then ConsumerInit else ConsumerLoop).

Definition tick (s : transit) : Z * transit := (clock (tr_reads s), s <| tr_reads ::= S |>).

(** The loop over a popped batch. *)
Fixpoint consume (now : Z) (batch : list Item) (h : Histogram) (sink : Z) : res (Histogram * Z) :=
  match batch with
  | [] => Ok (h, sink)
  | x :: batch =>
      let* h := (if measure && (it_ts_ns x <? now) then hist_record h (sub64 now (it_ts_ns x)) else Ok h) in
      consume now batch h (sink_add sink (it_seq x))
  end.

Definition consumer_step (s : transit) : res (option transit) :=
  match tr_consumer s with
  | ConsumerInit => Ok (Some (s <| tr_ready := true |> <| tr_consumer := ConsumerLoop |>))
  | ConsumerLoop =>
      if tr_received s <? count then
        let* (batch, q) := ch_pop (tr_queue s) in
        let s := s <| tr_queue := q |> in
        match batch with
        | [] => Ok (Some s)
        | _ =>
            let '(now, s) := if measure then tick s else (0, s) in
            let* (h, sink) := consume now batch (tr_hist s) (tr_sink s) in
            Ok (Some (s <| tr_hist := h |> <| tr_sink := sink |> <| tr_received ::= fun r => add64 r (size batch) |>))
        end
      else Ok (Some (s <| tr_consumer := ConsumerDone |>))
  | ConsumerDone => Ok None
  end.

Definition producer_step (s : transit) : res (option transit) :=
  match tr_producer s with
  | ProducerWait =>
      if tr_ready s then let '(now, s) := tick s in Ok (Some (s <| tr_start := now |> <| tr_producer := ProducerPace 0 |>)) else Ok (Some s)
  | ProducerPace i =>
      if i <? count then
        if negb (target_pps =? 0) then
          let '(now, s) := tick s in
          Ok (Some (if now <? due (tr_start s) i target_pps then s else s <| tr_producer := ProducerMake i |>))
        else Ok (Some (s <| tr_producer := ProducerMake i |>))
      else Ok (Some (s <| tr_producer := ProducerJoin |>))
  | ProducerMake i =>
      let '(now, s) := if measure then tick s else (0, s) in
      Ok (Some (s <| tr_producer := ProducerPush i (mkItem i now (replicate 6 0)) |>))
  | ProducerPush i item =>
      let* (ok, q) := ch_push (tr_queue s) item in
      let s := s <| tr_queue := q |> in
      Ok (Some (if (ok : bool) then s <| tr_producer := ProducerPace (i + 1) |> else s))
  | ProducerJoin =>
      match tr_consumer s with
      | ConsumerDone =>
          let '(now, s) := tick s in Ok (Some (s <| tr_elapsed := sub64 now (tr_start s) |> <| tr_producer := ProducerDone |>))
      | _ => Ok None
      end
  | ProducerDone => Ok None
  end.

Inductive transit_step (s : transit) : transit -> Prop :=
| by_producer s' : producer_step s = Ok (Some s') -> transit_step s s'
| by_consumer s' : consumer_step s = Ok (Some s') -> transit_step s s'.

(** The elements pushed so far. *)
Definition sent (p : ProducerPc) : Z :=
  match p with ProducerWait => 0 | ProducerPace i | ProducerMake i | ProducerPush i _ => i | ProducerJoin | ProducerDone => count end.

Definition finished (s : transit) : Prop := tr_producer s = ProducerDone /\ tr_consumer s = ConsumerDone.
End Transit.

(** ** The rows *)

(** [std::countr_zero]. *)
Fixpoint countr_zero (fuel : nat) (v : Z) : Z :=
  match fuel with O => 0 | S fuel => if Z.odd v then 0 else 1 + countr_zero fuel (v / 2) end.

Definition spsc_row {Q} (capacity count target_pps : Z) (s : Transit Q) : res Bytes :=
  let name := take 63 (txt "spsc_2" ++ ch_caret :: sprintf "%d%s" [AInt (countr_zero 64 capacity); AStr (if target_pps =? 0 then [] else txt "_paced")]) in
  print_latency_row name (tr_hist s) (per_second count (tr_elapsed s)).
Definition mutex_row {Q} (count target_pps : Z) (s : Transit Q) : res Bytes :=
  print_latency_row (if target_pps =? 0 then txt "mutex_queue" else txt "mutex_queue_paced") (tr_hist s) (per_second count (tr_elapsed s)).

(** ** One thread *)

Fixpoint single_thread_loop (n : nat) (ring : SpscRing Item) (item : Item) (i sink : Z) : res (SpscRing Item * Z) :=
  match n with
  | O => Ok (ring, sink)
  | S n =>
      let item := mkItem i (it_ts_ns item) (it_payload item) in
      let* (_, ring) := try_push ring item in
      let* (o, ring) := try_pop ring in
      let out := default Item_init o in
      single_thread_loop n ring item (i + 1) (sink_add sink (it_seq out))
  end.

Definition run_single_thread (capacity count sink : Z) (elapsed : Z) : res (Bytes * Z) :=
  let* ring := SpscRing_new Item_init capacity in
  let* (ring, sink) := single_thread_loop (Z.to_nat count) ring Item_init 0 sink in
  let name := take 63 (txt "spsc_1thread_2" ++ ch_caret :: sprintf "%d" [AInt (countr_zero 64 (capacity_ ring))]) in
  Ok (sprintf "%-28s,%12.0f,%8s,%8.1f ns/op pair~"
        [AStr name; ADouble (per_second count elapsed); AStr (txt "-"); ADouble (ddiv (dbl elapsed) (dbl count))], sink).

(** ** Delivery *)

(** [0 + 1 + ... + (n - 1)]. *)
Definition triangle (n : Z) : Z := n * (n - 1) / 2.

Lemma triangle_succ n : triangle (n + 1) = triangle n + n.
Proof. unfold triangle. replace ((n + 1) * (n + 1 - 1)) with (n * (n - 1) + n * 2) by lia. by rewrite Z.div_add. Qed.

Lemma hist_record_step h v : size (counts_ h) = 10240 -> 0 <= v < 2 ^ 64 ->
  ensures (hist_record h v) (fun h' => size (counts_ h') = 10240 /\ total_ h' = add64 (total_ h) 1).
Proof.
  intros Hs Hv. unfold hist_record. pose proof (index_range v Hv).
  destruct (at_Ok (counts_ h) (index_for v)) as [n ->]; [lia|].
  rewrite bind_Ok, set_Ok, bind_Ok by lia. apply ensures_Ok. cbn. by rewrite size_insert.
Qed.

Lemma consume_spec measure now batch : forall r h sink, map it_seq batch = seqZ r (size batch) ->
  size (counts_ h) = 10240 -> 0 <= total_ h <= r -> r + size batch < 2 ^ 64 ->
  ensures (consume measure now batch h (u64 (sink + triangle r))) (fun '(h', sink') =>
    size (counts_ h') = 10240 /\ 0 <= total_ h' <= r + size batch /\ sink' = u64 (sink + triangle (r + size batch))).
Proof.
  induction batch as [|x batch IH]; intros r h sink Hseq Hh Ht Hlt; cbn [consume].
  { apply ensures_Ok. change (size []) with 0. rewrite Z.add_0_r. done. }
  rewrite size_cons in *. pose proof (size_nonneg batch). cbn [map] in Hseq. rewrite seqZ_cons in Hseq by lia.
  replace (Z.pred (1 + size batch)) with (size batch) in Hseq by lia. injection Hseq as Hx Hseq.
  eapply (ensures_bind _ _ (fun h' => size (counts_ h') = 10240 /\ 0 <= total_ h' <= r + 1)).
  { destruct (_ && _).
    - eapply ensures_mono; [apply hist_record_step; [done|apply u64_range]|]. intros h' [? ->]. split; [done|].
      unfold add64. rewrite u64_small; lia.
    - apply ensures_Ok. split; [done|lia]. }
  intros h' [Hh' Ht']. unfold sink_add, add64. rewrite u64_add_u64_l, Hx.
  replace (sink + triangle r + r) with (sink + triangle (r + 1)) by (rewrite triangle_succ; lia).
  replace (Z.succ r) with (r + 1) in Hseq by lia.
  replace (r + (1 + size batch)) with (r + 1 + size batch) in * by lia. by apply IH.
Qed.

Section Delivery.
Context {Q : Type} {CH : Channel Q} (count target_pps : Z) (measure : bool) (clock : nat -> Z).
Context (count_range : 0 <= count < 2 ^ 64) (sink0 : Z).
#[local] Abbreviation transit := (Transit Q).
#[local] Abbreviation sent := (sent count).
#[local] Abbreviation step := (transit_step count target_pps measure clock).

(** What every interleaving keeps. *)
Record transit_inv (s : transit) : Prop := {
  ti_queue : exists l, ch_repr (tr_queue s) l /\ map it_seq l = seqZ (tr_received s) (sent (tr_producer s) - tr_received s);
  ti_range : 0 <= tr_received s <= sent (tr_producer s) /\ sent (tr_producer s) <= count;
  ti_sink : tr_sink s = u64 (sink0 + triangle (tr_received s));
  ti_hist : size (counts_ (tr_hist s)) = 10240 /\ 0 <= total_ (tr_hist s) <= tr_received s;
  ti_item : match tr_producer s with ProducerMake i => i < count | ProducerPush i item => i < count /\ it_seq item = i | _ => True end;
  ti_ready : tr_ready s = false -> tr_consumer s = ConsumerInit;
  ti_done : (tr_consumer s = ConsumerDone -> tr_received s = count) /\ (tr_producer s = ProducerDone -> tr_consumer s = ConsumerDone)
}.

Lemma transit_inv_init q wait : ch_repr q [] -> 0 <= sink0 < 2 ^ 64 -> transit_inv (transit_init q wait sink0).
Proof.
  intros Hq Hs. split; cbn; try done.
  - exists []. done.
  - lia.
  - change (triangle 0) with 0. rewrite Z.add_0_r, u64_small; done.
  - by destruct wait.
  - by destruct wait.
Qed.

(** No action faults, and each keeps the invariant. *)
Lemma consumer_inv s : transit_inv s ->
  ensures (consumer_step count measure clock s) (fun o => if o is Some s' then transit_inv s' else tr_consumer s = ConsumerDone).
Proof.
  intros Hi. pose proof Hi as [(l & Hl & Hseq) Hr Hs [Hh Ht] Hitem Hrd [Hd1 Hd2]]. unfold consumer_step.
  destruct (tr_consumer s) eqn:Hc; [| |by apply ensures_Ok].
  { apply ensures_Ok. split; try done; [by exists l|cbn; intuition congruence]. }
  destruct (Z.ltb_spec (tr_received s) count) as [Hlt|Hge].
  2: { apply ensures_Ok. split; try done; [by exists l|cbn; intuition congruence|]. cbn. split; [lia|done]. }
  eapply ensures_bind; [by apply ch_pop_spec|]. intros [batch q] (rest & -> & Hq & He). cbn zeta. destruct batch as [|x batch'].
  { apply ensures_Ok. split; try done; cbn; rewrite ?Hc; [by exists rest|done|done]. }
  set (batch := x :: batch') in *. pose proof (size_nonneg rest). pose proof (size_nonneg batch).
  assert (size batch + size rest = sent (tr_producer s) - tr_received s) as Hlen.
  { apply (f_equal length) in Hseq. rewrite length_map, length_app, length_seqZ in Hseq. unfold size in *. lia. }
  rewrite <- Hlen, map_app, seqZ_app in Hseq by lia.
  apply app_inj_1 in Hseq as [Hb Hrest]; [|rewrite length_map, length_seqZ; unfold size; lia].
  set (s1 := setf tr_queue _ s).
  assert (forall now reads, let s2 := s1 <| tr_reads ::= reads |> in
    ensures (let* (h, sink) := consume measure now batch (tr_hist s2) (tr_sink s2) in
             Ok (Some (s2 <| tr_hist := h |> <| tr_sink := sink |> <| tr_received ::= fun r => add64 r (size batch) |>)))
      (fun o => if o is Some s' then transit_inv s' else ConsumerLoop = ConsumerDone)) as Hgo.
  { intros now reads s2. change (tr_sink s2) with (tr_sink s). rewrite Hs.
    eapply ensures_bind; [apply (consume_spec measure now batch (tr_received s)); [exact Hb|exact Hh|exact Ht|lia]|].
    intros [h sink] (Hh' & Ht' & ->). apply ensures_Ok.
    assert (add64 (tr_received s) (size batch) = tr_received s + size batch) as Ha by (unfold add64; rewrite u64_small; lia).
    split; cbn -[add64 triangle size]; rewrite ?Ha, ?Hc; try done.
    - exists rest. split; [done|]. rewrite Hrest. f_equal. lia.
    - lia. }
  destruct measure; [apply (Hgo _ S)|apply (Hgo 0 (fun n => n))].
Qed.

Lemma producer_inv s : transit_inv s ->
  ensures (producer_step count target_pps measure clock s) (fun o => if o is Some s' then transit_inv s' else True).
Proof.
  intros Hi. pose proof Hi as [(l & Hl & Hseq) Hr Hs [Hh Ht] Hitem Hrd [Hd1 Hd2]]. unfold producer_step, tick.
  destruct (tr_producer s) as [|i|i|i item| |] eqn:Hp; cbn [BenchRing.sent] in *.
  - destruct (tr_ready s) eqn:Hy; apply ensures_Ok; [|exact Hi]. split; cbn; rewrite ?Hy; try done. by exists l.
  - destruct (Z.ltb_spec i count) as [Hlt|Hge].
    + destruct (negb (target_pps =? 0)); apply ensures_Ok; [destruct (_ <? _)|]; split; cbn; rewrite ?Hp; try done; by exists l.
    + apply ensures_Ok. assert (i = count) as -> by lia. split; cbn; try done. by exists l.
  - destruct measure; apply ensures_Ok; split; cbn; try done; by exists l.
  - destruct Hitem as [Hlt Hx]. eapply ensures_bind; [by apply (ch_push_spec (tr_queue s) l item)|]. intros [ok q] [Hq _].
    apply ensures_Ok. destruct ok; split; cbn; rewrite ?Hp; try done; [|lia|by exists l].
    exists (l ++ [item]). split; [done|]. rewrite map_app, Hseq. replace (i + 1 - tr_received s) with ((i - tr_received s) + 1) by lia.
    rewrite seqZ_app by lia. cbn [map]. rewrite Hx. by replace (tr_received s + (i - tr_received s)) with i by lia.
  - destruct (tr_consumer s) eqn:Hc; apply ensures_Ok; [done|done|]. split; cbn; rewrite ?Hc; try done. by exists l.
  - by apply ensures_Ok.
Qed.

Lemma step_inv s s' : transit_inv s -> step s s' -> transit_inv s'.
Proof.
  intros Hi [s1 H|s1 H]; [exact (ensures_inv _ _ _ (producer_inv s Hi) H)|exact (ensures_inv _ _ _ (consumer_inv s Hi) H)].
Qed.
Lemma steps_inv s s' : rtc step s s' -> transit_inv s -> transit_inv s'.
Proof. induction 1 as [|s s1 s' H _ IH]; [done|]. intros Hi. by eapply IH, step_inv. Qed.

(** ** Progress *)

Context (clock_passes : forall k t, exists j, (k <= j)%nat /\ t <= clock j).

(** The clock lets the producer go on. *)
Lemma pace_over i s : tr_producer s = ProducerPace i -> i < count ->
  exists s', rtc step s s' /\ tr_producer s' = ProducerMake i /\ tr_consumer s' = tr_consumer s /\ tr_received s' = tr_received s /\
    tr_queue s' = tr_queue s.
Proof.
  intros Hp Hi. destruct (negb (target_pps =? 0)) eqn:Hpace.
  2: { eexists. split; [apply rtc_once, by_producer; unfold producer_step; rewrite Hp, Hpace, (proj2 (Z.ltb_lt _ _) Hi); reflexivity|done]. }
  destruct (clock_passes (tr_reads s) (due (tr_start s) i target_pps)) as (j & Hj & Ht).
  remember (j - tr_reads s)%nat as d eqn:E. revert s Hp Hj Ht E. induction d as [|d IH]; intros s Hp Hj Ht E.
  all: assert (forall s1, s1 = s <| tr_reads ::= S |> -> step s (if clock (tr_reads s) <? due (tr_start s) i target_pps
    then s1 else s1 <| tr_producer := ProducerMake i |>)) as Hstep
    by (intros s1 ->; apply by_producer; unfold producer_step; rewrite Hp, Hpace, (proj2 (Z.ltb_lt _ _) Hi); reflexivity).
  all: specialize (Hstep _ eq_refl); destruct (Z.ltb_spec (clock (tr_reads s)) (due (tr_start s) i target_pps)) as [Hlt|Hge];
    [|eexists; split; [by apply rtc_once|done]].
  - replace j with (tr_reads s) in Ht by lia. lia.
  - assert (j <> tr_reads s) by (intros ->; lia).
    destruct (IH (s <| tr_reads ::= S |>)) as (s' & Hs & ? & ? & ? & ?); [done|cbn; lia|done|cbn; lia|].
    exists s'. split_and!; try done. by eapply rtc_l.
Qed.

(** What the producer may do alone: the consumer and its count stay. *)
Definition produces (s s' : transit) (p : ProducerPc) : Prop :=
  rtc step s s' /\ tr_producer s' = p /\ tr_consumer s' = tr_consumer s /\ tr_received s' = tr_received s.

Lemma produces_trans s1 s2 s3 p p' : produces s1 s2 p -> produces s2 s3 p' -> produces s1 s3 p'.
Proof. intros (H1 & _ & H2 & H3) (H4 & H5 & H6 & H7). split_and!; [by etransitivity|done|congruence|congruence]. Qed.

(** An element finds room in an empty queue. *)
Lemma push_now s i item : transit_inv s -> tr_producer s = ProducerPush i item -> tr_received s = i ->
  exists s', produces s s' (ProducerPace (i + 1)).
Proof.
  intros Hi Hp Hr. destruct (ti_queue _ Hi) as (l & Hl & Hseq). rewrite Hp in Hseq. cbn [BenchRing.sent] in Hseq.
  rewrite Hr, Z.sub_diag in Hseq. destruct l; [|done].
  destruct (ch_push_spec (tr_queue s) [] item Hl) as ([ok q] & Hpush & Hq & Hok). destruct ok; [|by destruct (Hok eq_refl)].
  exists (s <| tr_queue := q |> <| tr_producer := ProducerPace (i + 1) |>). split_and!; try done.
  apply rtc_once, by_producer. unfold producer_step. rewrite Hp, Hpush, bind_Ok. reflexivity.
Qed.

Lemma make_now s i : transit_inv s -> tr_producer s = ProducerMake i -> tr_received s = i ->
  exists s', produces s s' (ProducerPace (i + 1)).
Proof.
  intros Hi Hp Hr.
  assert (exists s' item, produces s s' (ProducerPush i item)) as (s1 & item & H1).
  { destruct measure eqn:Hm; eexists _, _; (split; [apply rtc_once, by_producer; unfold producer_step, tick; rewrite Hp, Hm; reflexivity|done]). }
  pose proof H1 as (Hs & Hp1 & _ & Hr1).
  destruct (push_now s1 i item) as (s2 & H2); [by eapply steps_inv|done|congruence|]. exists s2. by eapply produces_trans.
Qed.

(** Once it has started, the producer gets a missing element into the queue. *)
Lemma one_more s : transit_inv s -> tr_producer s <> ProducerWait -> tr_received s = sent (tr_producer s) -> tr_received s < count ->
  exists s', produces s s' (ProducerPace (tr_received s + 1)).
Proof.
  intros Hi Hw Hr Hlt. destruct (tr_producer s) as [|i|i|i item| |] eqn:Hp; cbn [BenchRing.sent] in Hr; [done| | | |lia|lia]; subst i.
  - destruct (pace_over (tr_received s) s Hp Hlt) as (s1 & Hs & Hp1 & Hc1 & Hr1 & _).
    destruct (make_now s1 (tr_received s)) as (s2 & H2); [by eapply steps_inv|done|done|]. exists s2. by eapply produces_trans.
  - by apply make_now.
  - by eapply push_now.
Qed.

(** The consumer takes something out of a queue that is not empty. *)
Lemma drain_some s : transit_inv s -> tr_consumer s = ConsumerLoop -> tr_received s < sent (tr_producer s) ->
  exists s', step s s' /\ tr_producer s' = tr_producer s /\ tr_consumer s' = ConsumerLoop /\ tr_received s < tr_received s'.
Proof.
  intros Hi Hc Hlt. destruct (consumer_inv s Hi) as (o & Ho & Hpost). destruct (ti_range _ Hi) as [Hr Hcount].
  destruct o as [s'|]; [|congruence]. exists s'. split; [by apply by_consumer|].
  destruct (ti_range _ Hpost) as [Hr' _].
  revert Ho. unfold consumer_step. rewrite Hc, (proj2 (Z.ltb_lt _ _)) by lia.
  destruct (ti_queue _ Hi) as (l & Hl & Hseq).
  destruct (ch_pop_spec (tr_queue s) l Hl) as ([batch q] & -> & rest & -> & Hq & He). rewrite bind_Ok. cbn zeta. destruct batch as [|x batch].
  { rewrite (He eq_refl) in Hseq. rewrite seqZ_cons in Hseq by lia. done. }
  assert (1 <= size (x :: batch) <= sent (tr_producer s) - tr_received s) as Hb.
  { apply (f_equal length) in Hseq. rewrite length_map, length_app, length_seqZ in Hseq. rewrite size_cons. unfold size in *. cbn in Hseq. lia. }
  remember (x :: batch) as b eqn:E. clear E x batch He.
  assert (tr_received s < add64 (tr_received s) (size b)) as Ha by (unfold add64; rewrite u64_small; lia).
  destruct measure; cbn [tick]; intros ([h sink] & _ & [= <-])%bind_Ok_inv; done.
Qed.

Lemma joins s : transit_inv s -> tr_consumer s = ConsumerDone -> tr_producer s <> ProducerWait ->
  exists s', rtc step s s' /\ finished s'.
Proof.
  intros Hi Hc Hw. pose proof (ti_range _ Hi). destruct (ti_done _ Hi) as [Hd _]. specialize (Hd Hc). pose proof (ti_item _ Hi) as Hit.
  assert (forall s, tr_consumer s = ConsumerDone -> tr_producer s = ProducerJoin -> exists s', rtc step s s' /\ finished s') as Hjoin.
  { intros s1 Hc1 Hp1. eexists. split; [apply rtc_once, by_producer; unfold producer_step, tick; rewrite Hp1, Hc1; reflexivity|].
    split; [reflexivity|exact Hc1]. }
  destruct (tr_producer s) as [|i|i|i item| |] eqn:Hp; cbn [BenchRing.sent] in *; [done| |lia|lia|by apply Hjoin|by exists s].
  destruct (Hjoin (s <| tr_producer := ProducerJoin |>)) as (s' & Hs & Hf); [done|done|]. exists s'. split; [|done].
  eapply rtc_l; [|exact Hs]. apply by_producer. unfold producer_step. rewrite Hp, (proj2 (Z.ltb_ge _ _)) by lia. done.
Qed.

Lemma finishes : forall n s, transit_inv s -> tr_consumer s <> ConsumerInit -> tr_producer s <> ProducerWait ->
  (Z.to_nat (count - tr_received s) <= n)%nat -> exists s', rtc step s s' /\ finished s'.
Proof.
  induction n as [n IH] using lt_wf_ind. intros s Hi Hc Hp Hn. pose proof (ti_range _ Hi) as [Hr Hcount].
  destruct (tr_consumer s) eqn:Hcs; [done| |by apply joins].
  destruct (decide (tr_received s = count)) as [E|E].
  { set (s1 := s <| tr_consumer := ConsumerDone |>).
    assert (step s s1) as H1 by (apply by_consumer; unfold consumer_step; rewrite Hcs, (proj2 (Z.ltb_ge _ _)) by lia; done).
    destruct (joins s1) as (s' & Hs & Hf); [by eapply step_inv|done|done|]. exists s'. split; [by eapply rtc_l|done]. }
  assert (exists s1, rtc step s s1 /\ tr_consumer s1 = ConsumerLoop /\ tr_producer s1 <> ProducerWait /\
    tr_received s1 = tr_received s /\ tr_received s1 < sent (tr_producer s1)) as (s1 & Hs1 & Hc1 & Hp1 & Hr1 & Hlt1).
  { destruct (decide (tr_received s = sent (tr_producer s))) as [E'|E']; [|exists s; split_and!; [constructor|done|done|done|lia]].
    destruct (one_more s Hi Hp E') as (s1 & Hs1 & Hp1 & Hc1 & Hr1); [lia|]. exists s1. rewrite Hp1, Hr1.
    split_and!; [done|congruence|done|done|cbn; lia]. }
  pose proof (steps_inv _ _ Hs1 Hi) as Hi1. destruct (drain_some s1 Hi1 Hc1 Hlt1) as (s2 & Hs2 & Hp2 & Hc2 & Hr2).
  pose proof (step_inv _ _ Hi1 Hs2) as Hi2. pose proof (ti_range _ Hi2).
  destruct (IH (Z.to_nat (count - tr_received s2)) ltac:(lia) s2 Hi2) as (s' & Hs' & Hf); [by rewrite Hc2|by rewrite Hp2|done|].
  exists s'. split; [|done]. etransitivity; [exact Hs1|]. by eapply rtc_l.
Qed.

Lemma can_finish s : transit_inv s -> exists s', rtc step s s' /\ finished s'.
Proof.
  intros Hi.
  assert (exists s1, rtc step s s1 /\ tr_consumer s1 <> ConsumerInit) as (s1 & H1 & Hc1).
  { destruct (tr_consumer s) eqn:Hc; [|exists s; split; [constructor|congruence]..].
    exists (s <| tr_ready := true |> <| tr_consumer := ConsumerLoop |>). split; [|done]. apply rtc_once, by_consumer. unfold consumer_step. by rewrite Hc. }
  pose proof (steps_inv _ _ H1 Hi) as Hi1.
  assert (exists s2, rtc step s1 s2 /\ tr_consumer s2 <> ConsumerInit /\ tr_producer s2 <> ProducerWait) as (s2 & H2 & Hc2 & Hp2).
  { destruct (tr_producer s1) eqn:Hp; [|exists s1; split_and!; [constructor|done|congruence]..].
    assert (tr_ready s1 = true) as Hy by (destruct (tr_ready s1) eqn:Hy; [done|by destruct Hc1; apply (ti_ready _ Hi1)]).
    eexists. split; [apply rtc_once, by_producer; unfold producer_step, tick; rewrite Hp, Hy; reflexivity|]. done. }
  destruct (finishes _ s2 (steps_inv _ _ H2 Hi1) Hc2 Hp2 (le_n _)) as (s' & Hs & Hf). exists s'. split; [|done].
  etransitivity; [exact H1|]. by etransitivity.
Qed.
End Delivery.

(** C38: Either queue delivers everything once and in order.  Whatever the
    interleaving of the two threads, paced or not, with or without timing: what
    is queued are the elements from the first one not yet received to the last
    one sent, the sink has grown by the sum of the received sequence numbers and
    there is at most one latency sample per received element; no action faults;
    a finished run has received every element; and from every state on the way
    both threads can finish, the sink then being larger by the sum of all
    sequence numbers (modulo 2^64).  The SPSC ring and the mutex-guarded queue
    are the two instances. *)
Theorem transit_delivers {Q : Type} {CH : Channel Q} count target_pps measure clock (q : Q) wait sink s :
  ch_repr q [] -> 0 <= count < 2 ^ 64 -> 0 <= sink < 2 ^ 64 -> (forall k t, exists j, (k <= j)%nat /\ t <= clock j) ->
  rtc (transit_step count target_pps measure clock) (transit_init q wait sink) s ->
  (exists l, ch_repr (tr_queue s) l /\ map it_seq l = seqZ (tr_received s) (sent count (tr_producer s) - tr_received s)) /\
  0 <= tr_received s <= sent count (tr_producer s) /\ sent count (tr_producer s) <= count /\
  tr_sink s = u64 (sink + triangle (tr_received s)) /\ total_ (tr_hist s) <= tr_received s /\
  returns (producer_step count target_pps measure clock s) /\ returns (consumer_step count measure clock s) /\
  (finished s -> tr_received s = count) /\
  exists s', rtc (transit_step count target_pps measure clock) s s' /\ finished s' /\ tr_sink s' = u64 (sink + triangle count).
Proof.
  intros Hq Hc Hs Hclock Hrun.
  assert (forall s, transit_inv count sink s -> finished s -> tr_received s = count) as Hfin
    by (intros s1 Hi1 [_ Hf]; by apply (ti_done _ _ _ Hi1)).
  assert (transit_inv count sink s) as Hi by (eapply steps_inv; [done|exact Hrun|by apply transit_inv_init]).
  pose proof Hi as [Hl [Hr1 Hr2] Hsink [_ Ht] _ _ _]. split_and!; try done; try lia.
  - eapply ensures_returns, producer_inv; eauto.
  - eapply ensures_returns, consumer_inv; eauto.
  - by apply Hfin.
  - destruct (can_finish count target_pps measure clock Hc sink Hclock s Hi) as (s' & Hs' & Hf). exists s'. split_and!; [done|by destruct Hf..|].
    assert (transit_inv count sink s') as Hi' by (eapply steps_inv; eauto). by rewrite (ti_sink _ _ _ Hi'), (Hfin _ Hi' Hf).
Qed.

Lemma single_thread_spec sink n : forall ring item i, repr ring [] -> 0 < capacity_ ring -> 0 <= i ->
  ensures (single_thread_loop n ring item i (u64 (sink + triangle i))) (fun '(ring', sink') =>
    capacity_ ring' = capacity_ ring /\ sink' = u64 (sink + triangle (i + Z.of_nat n))).
Proof.
  induction n as [|n IH]; intros ring item i Hr Hc Hi; cbn [single_thread_loop].
  { apply ensures_Ok. by rewrite Z.add_0_r. }
  eapply ensures_bind; [by apply (try_push_repr ring [])|]. intros [ok r1] [Hc1 Hp]. cbn beta in Hp.
  rewrite (proj2 (Z.ltb_lt _ _)) in Hp by (change (size []) with 0; done). destruct Hp as [_ Hr1].
  eapply ensures_bind; [exact (try_pop_repr r1 _ Hr1)|]. intros [o r2] [Hc2 Hp]. cbn in Hp. destruct Hp as [-> Hr2].
  unfold sink_add, add64, default, id. rewrite u64_add_u64_l. cbn [default it_seq id].
  replace (sink + triangle i + i) with (sink + triangle (i + 1)) by (rewrite triangle_succ; lia).
  eapply ensures_mono; [apply (IH r2); [done|lia|lia]|]. intros [r' s'] [H1 ->]. split; [congruence|].
  by replace (i + 1 + Z.of_nat n) with (i + Z.of_nat (S n)) by lia.
Qed.

(** The single-threaded run: each element comes straight back. *)
Lemma single_thread_exact capacity count sink elapsed : capacity <= 2 ^ 63 -> 0 <= count -> 0 <= sink < 2 ^ 64 ->
  ensures (run_single_thread capacity count sink elapsed) (fun '(_, sink') => sink' = u64 (sink + triangle count)).
Proof.
  intros Hcap Hc Hs. unfold run_single_thread. eapply ensures_bind; [by apply new_inv|]. intros r (k & Hk & Hb).
  assert (repr r []) as Hr by (exists 0, 0, 0, 0, k; split_and!; [done|done|]; intros i v Hi; by destruct i).
  replace sink with (u64 (sink + triangle 0)) at 1 by (change (triangle 0) with 0; rewrite Z.add_0_r, u64_small; lia).
  eapply ensures_bind; [apply (single_thread_spec sink (Z.to_nat count) r Item_init 0 Hr); lia|].
  intros [r' s'] [_ ->]. apply ensures_Ok. by replace (0 + Z.of_nat (Z.to_nat count)) with count by lia.
Qed.

Definition sample_transit_ring : SpscRing Item := match SpscRing_new Item_init 4 with Ok r => r | _ => mkSpscRing 0 0 [] 0 0 0 0 end.

Lemma sample_transit_ring_empty : ch_repr sample_transit_ring [].
Proof.
  destruct (new_inv Item_init 4) as (r & E & k & Hk & _); [lia|]. unfold sample_transit_ring. rewrite E.
  split; [|rewrite (ri_cap _ _ _ _ _ _ Hk); pose proof (ri_k _ _ _ _ _ _ Hk); lia].
  exists 0, 0, 0, 0, k. split_and!; [done|done|]. intros i v Hi. by destruct i.
Qed.

Lemma transit_delivers_witness :
  (exists s', rtc (transit_step 3 2 true Z.of_nat) (transit_init sample_transit_ring true 0) s' /\ finished s' /\ tr_sink s' = 3) /\
  (exists s', rtc (transit_step 3 0 true Z.of_nat) (transit_init ([] : list Item) false 0) s' /\ finished s' /\ tr_sink s' = 3).
Proof.
  assert (forall (k : nat) t, exists j, (k <= j)%nat /\ t <= Z.of_nat j) as Hclock.
  { intros k t. exists (k + Z.to_nat t)%nat. lia. }
  split.
  - destruct (transit_delivers 3 2 true Z.of_nat sample_transit_ring true 0 (transit_init sample_transit_ring true 0))
      as (_ & _ & _ & _ & _ & _ & _ & _ & H); [apply sample_transit_ring_empty|lia|lia|exact Hclock|constructor|exact H].
  - destruct (transit_delivers 3 0 true Z.of_nat ([] : list Item) false 0 (transit_init [] false 0))
      as (_ & _ & _ & _ & _ & _ & _ & _ & H); [reflexivity|lia|lia|exact Hclock|constructor|exact H].
Defined.
