(* ===== verification/BenchHash.v ===== *)
(** * bench/bench_hash.cpp: the TEID table against std::unordered_map

    Key generation with [std::mt19937], the two timed routines and the driver.
    [std::unordered_map] is a finite map: [emplace] keeps an entry that is there.
    [std::shuffle] is not fixed by the standard: the probe order is an argument.
    The time a routine takes is its argument [elapsed]. *)

From Stdlib Require Strings.String.
From S2P Require Import Prelude ByteOrder SpscRing FlatHash MeterEvent UsageRecord Session SessionCsv Meter Pipeline Histogram Double Text Report Summary.
From S2P Require Import BenchCommon.

(** ** std::mt19937 *)

Record Mt19937 := mkMt { mt_x : list Z; mt_index : Z }.

Fixpoint mt_seed_loop (n : nat) (i prev : Z) : list Z :=
  match n with
  | O => []
  | S n => let x := u32 (1812433253 * Z.lxor prev (Z.shiftr prev 30) + i) in x :: mt_seed_loop n (i + 1) x
  end.
Definition mt_seed (value : Z) : Mt19937 := let v := u32 value in mkMt (v :: mt_seed_loop 623 1 v) 624.

(** One word of the next block, from the word at [k], the next one and the one
    397 places on. *)
Definition mt_next_word (x x1 xm : Z) : Z :=
  let y := Z.lor (Z.land x 0x80000000) (Z.land x1 0x7FFFFFFF) in
  Z.lxor xm (Z.lxor (Z.shiftr y 1) (if Z.odd y then 0x9908B0DF else 0)).

Fixpoint mt_twist_loop (n : nat) (x : list Z) (k : Z) : res (list Z) :=
  match n with
  | O => Ok x
  | S n =>
      let* a := at_ x k in
      let* b := at_ x ((k + 1) mod 624) in
      let* c := at_ x ((k + 397) mod 624) in
      let* x := set_ x k (mt_next_word a b c) in
      mt_twist_loop n x (k + 1)
  end.

Definition mt_temper (y : Z) : Z :=
  let y := Z.lxor y (Z.shiftr y 11) in
  let y := Z.lxor y (Z.land (u32 (Z.shiftl y 7)) 0x9D2C5680) in
  let y := Z.lxor y (Z.land (u32 (Z.shiftl y 15)) 0xEFC60000) in
  Z.lxor y (Z.shiftr y 18).

(** [rng()]. *)
Definition mt_next (g : Mt19937) : res (Z * Mt19937) :=
  let* g := (if 624 <=? mt_index g then let* x := mt_twist_loop 624 (mt_x g) 0 in Ok (mkMt x 0) else Ok g) in
  let* y := at_ (mt_x g) (mt_index g) in
  Ok (mt_temper y, mkMt (mt_x g) (mt_index g + 1)).

Fixpoint mt_take (n : nat) (g : Mt19937) : res (list Z * Mt19937) :=
  match n with
  | O => Ok ([], g)
  | S n => let* (v, g) := mt_next g in let* (vs, g) := mt_take n g in Ok (v :: vs, g)
  end.

(** ** The keys *)

Definition make_teids (n : nat) (rng : Mt19937) (sequential : bool) : res (list Z * Mt19937) :=
  if sequential then Ok (map (fun i => u32 (0x10000 + Z.of_nat i * 2)) (seq 0 n), rng) else mt_take n rng.

(** The probe order starts from the first keys. *)
Definition probe_prefix (keys : list Z) : list Z := take (Z.to_nat 100000) keys.

(** [static_cast<size_t>(load * kCapacity)]. *)
Definition kCapacity : Z := 2 ^ 20.
Definition entries_for (load : double) : res Z := u64_of_double (dmul load (dbl kCapacity)).

(** ** The two routines *)

Record Timing := mkTiming { ti_ns_per_lookup : double; ti_probes_per_lookup : double; ti_hit_rate : double }.
Abbreviation table := (FlatHashU32 TeidBinding).

Definition binding_of (i : Z) : TeidBinding := TeidBinding_init <| sub_idx := u32 i |>.

Fixpoint fill_flat (t : table) (i : Z) (keys : list Z) : res table :=
  match keys with
  | [] => Ok t
  | k :: keys => let* (_, t) := insert t k (binding_of i) in fill_flat t (i + 1) keys
  end.

(** The warm-up pass counts the hits; a timed pass sums the bindings found. *)
Fixpoint warm_flat (t : table) (sink : Z) (probes : list Z) : res (table * Z) :=
  match probes with
  | [] => Ok (t, sink)
  | k :: probes => let* (p, t) := find t k in warm_flat t (sink_add sink (match p with Some _ => 1 | None => 0 end)) probes
  end.
Fixpoint pass_flat (t : table) (hits : Z) (probes : list Z) : res (table * Z) :=
  match probes with
  | [] => Ok (t, hits)
  | k :: probes =>
      let* (o, t) := find_value t k in
      pass_flat t (match o with Some b => add64 hits (sub_idx b) | None => hits end) probes
  end.
Fixpoint passes_flat (n : nat) (t : table) (hits : Z) (probes : list Z) : res (table * Z) :=
  match n with O => Ok (t, hits) | S n => let* (t, hits) := pass_flat t hits probes in passes_flat n t hits probes end.

Definition lookups_of (probes : list Z) (iterations : nat) : double := dmul (dbl (size probes)) (dbl (Z.of_nat iterations)).

Definition bench_flat (keys probes : list Z) (capacity : Z) (iterations : nat) (elapsed sink : Z) : res (table * Timing * Z) :=
  let* t := FlatHashU32_new TeidBinding_init capacity in
  let* t := fill_flat t 0 keys in
  let* (t, sink) := warm_flat t sink probes in
  let t := FlatHash.reset_stats t in
  let* (t, hits) := passes_flat iterations t 0 probes in
  let sink := sink_add sink hits in
  Ok (t, mkTiming (ddiv (dbl elapsed) (lookups_of probes iterations)) (ddiv (dbl (probe_count t)) (dbl (lookup_count t)))
       (dbl (if hits =? 0 then 0 else 1)), sink).

(** [std::unordered_map::emplace]. *)
Definition emplace (m : gmap Z TeidBinding) (k : Z) (b : TeidBinding) : gmap Z TeidBinding :=
  match m !! k with Some _ => m | None => <[k := b]> m end.

Fixpoint fill_unordered (m : gmap Z TeidBinding) (i : Z) (keys : list Z) : gmap Z TeidBinding :=
  match keys with [] => m | k :: keys => fill_unordered (emplace m k (binding_of i)) (i + 1) keys end.
Definition warm_unordered (m : gmap Z TeidBinding) (sink : Z) (probes : list Z) : Z :=
  foldl (fun sink k => sink_add sink (match m !! k with Some _ => 1 | None => 0 end)) sink probes.
Definition pass_unordered (m : gmap Z TeidBinding) (hits : Z) (probes : list Z) : Z :=
  foldl (fun hits k => match m !! k with Some b => add64 hits (sub_idx b) | None => hits end) hits probes.
Fixpoint passes_unordered (n : nat) (m : gmap Z TeidBinding) (hits : Z) (probes : list Z) : Z :=
  match n with O => hits | S n => passes_unordered n m (pass_unordered m hits probes) probes end.

Definition bench_unordered (keys probes : list Z) (iterations : nat) (elapsed sink : Z) : Timing * Z :=
  let m := fill_unordered ∅ 0 keys in
  let sink := warm_unordered m sink probes in
  let hits := passes_unordered iterations m 0 probes in
  (mkTiming (ddiv (dbl elapsed) (lookups_of probes iterations)) dzero (dbl (if hits =? 0 then 0 else 1)), sink_add sink hits).

(** A line of the table; the heading. *)
Definition hash_row (structure pattern : Bytes) (load : double) (entries : Z) (t : Timing) : Bytes :=
  sprintf "%-18s,%-12s,%6.2f,%10zu,%12.2f,%12.2f~"
    [AStr structure; AStr pattern; ADouble load; AInt entries; ADouble (ti_ns_per_lookup t); ADouble (ti_probes_per_lookup t)].
Definition hash_heading (iterations : Z) : Bytes :=
  sprintf "# TEID -> subscriber binding lookup, %llu iterations per case~" [AInt iterations] ++
  sprintf "%-18s,%-12s,%6s,%10s,%12s,%12s~"
    (map (fun s => AStr (txt s)) ["structure"; "pattern"; "load"; "entries"; "ns/lookup"; "probes"]%string).

(** The keys of the miss path: odd, drawn after the table's own. *)
Definition make_misses (n : nat) (rng : Mt19937) : res (list Z * Mt19937) :=
  let* (vs, rng) := mt_take n rng in Ok (map (fun v => Z.lor v 1) vs, rng).

(** The first numbers of the default seed. *)
Example mt19937_ex :
  match mt_take 3 (mt_seed 5489) with Ok (vs, _) => vs = [3499211612; 581869302; 3890346734] | _ => False end.
Proof. vm_compute. reflexivity. Qed.

Example entries_ex : entries_for (dlit 3 10) = Ok 314572 /\ entries_for (dlit 7 10) = Ok 734003.
Proof. split; vm_compute; reflexivity. Qed.

(** ** The generator *)

Definition word (x : Z) : Prop := 0 <= x < 2 ^ 32.
Record mt_ok (g : Mt19937) : Prop := {
  mo_size : size (mt_x g) = 624;
  mo_words : Forall word (mt_x g);
  mo_index : 0 <= mt_index g <= 624
}.

Lemma word_shiftr x n : word x -> 0 <= n -> word (Z.shiftr x n).
Proof.
  intros Hx Hn. rewrite Z.shiftr_div_pow2 by done. pose proof (Z.pow_pos_nonneg 2 n). split; [apply Z.div_pos; unfold word in *; lia|].
  apply Z.le_lt_trans with x; [apply Z.div_le_upper_bound; unfold word in *; nia|apply Hx].
Qed.
Lemma word_bits x : word x <-> 0 <= x /\ (forall n, 32 <= n -> Z.testbit x n = false).
Proof.
  split.
  - intros [H1 H2]. split; [done|]. intros n Hn. destruct (decide (x = 0)) as [->|Hne]; [apply Z.bits_0|].
    apply Z.bits_above_log2; [done|]. apply Z.lt_le_trans with 32; [|done]. apply Z.log2_lt_pow2; lia.
  - intros [H1 H2]. split; [done|]. destruct (Z.lt_ge_cases x (2 ^ 32)) as [|Hge]; [done|]. exfalso.
    assert (32 <= Z.log2 x) as Hl by (apply Z.log2_le_pow2; lia). specialize (H2 _ Hl). rewrite Z.bit_log2 in H2; [done|lia].
Qed.
Lemma word_land x y : word x -> 0 <= y -> word (Z.land x y).
Proof. rewrite !word_bits. intros [H1 H2] Hy. split; [apply Z.land_nonneg; by left|]. intros n Hn. by rewrite Z.land_spec, H2. Qed.
Lemma word_lxor x y : word x -> word y -> word (Z.lxor x y).
Proof.
  rewrite !word_bits. intros [H1 H2] [H3 H4]. split; [by apply Z.lxor_nonneg|]. intros n Hn. by rewrite Z.lxor_spec, H2, H4.
Qed.
Lemma word_lor x y : word x -> word y -> word (Z.lor x y).
Proof.
  rewrite !word_bits. intros [H1 H2] [H3 H4]. split; [by apply Z.lor_nonneg|]. intros n Hn. by rewrite Z.lor_spec, H2, H4.
Qed.
Lemma word_u32 x : word (u32 x).
Proof. apply u32_range. Qed.

Ltac word_tac := repeat first [done | apply word_lxor | apply word_lor | apply word_land | apply word_shiftr | apply word_u32 | lia].

Lemma mt_next_word_word x x1 xm : word x -> word x1 -> word xm -> word (mt_next_word x x1 xm).
Proof. intros. unfold mt_next_word. word_tac. by destruct (Z.odd _). Qed.
Lemma mt_temper_word y : word y -> word (mt_temper y).
Proof. intros. unfold mt_temper. word_tac. Qed.

Lemma at_word (x : list Z) i : Forall word x -> 0 <= i < size x -> ensures (at_ x i) word.
Proof.
  intros Hx Hi. destruct (at_Ok_lookup x i Hi) as (a & Ha & Hl). exists a. split; [done|]. by eapply Forall_lookup_1.
Qed.

Lemma mt_twist_spec n : forall x k, size x = 624 -> Forall word x -> 0 <= k -> k + Z.of_nat n <= 624 ->
  ensures (mt_twist_loop n x k) (fun x' => size x' = 624 /\ Forall word x').
Proof.
  induction n as [|n IH]; intros x k Hs Hw Hk Hn; cbn [mt_twist_loop]; [by apply ensures_Ok|].
  pose proof (Z.mod_pos_bound (k + 1) 624). pose proof (Z.mod_pos_bound (k + 397) 624).
  eapply ensures_bind; [apply at_word; [done|lia]|]. intros a Ha. eapply ensures_bind; [apply at_word; [done|lia]|]. intros b Hb.
  eapply ensures_bind; [apply at_word; [done|lia]|]. intros c Hc. rewrite set_Ok, bind_Ok by lia.
  apply IH; [by rewrite size_insert| |lia|lia]. apply Forall_insert; [done|by apply mt_next_word_word].
Qed.

Lemma mt_next_spec g : mt_ok g -> ensures (mt_next g) (fun '(v, g') => word v /\ mt_ok g').
Proof.
  intros [Hs Hw Hi]. unfold mt_next.
  eapply (ensures_bind _ _ (fun g' => mt_ok g' /\ mt_index g' < 624)).
  { destruct (Z.leb_spec 624 (mt_index g)); [|apply ensures_Ok; split; [by split|lia]].
    eapply ensures_bind; [apply (mt_twist_spec 624 (mt_x g) 0); [done|done|lia|lia]|]. intros x [Hx1 Hx2]. apply ensures_Ok.
    split; [split; [done|done|cbn; lia]|cbn; lia]. }
  intros g' [[Hs' Hw' Hi'] Hlt]. eapply ensures_bind; [apply at_word; [done|lia]|]. intros y Hy. apply ensures_Ok.
  split; [by apply mt_temper_word|]. split; [done|done|cbn; lia].
Qed.

Lemma mt_take_spec n : forall g, mt_ok g ->
  ensures (mt_take n g) (fun '(vs, g') => length vs = n /\ Forall word vs /\ mt_ok g').
Proof.
  induction n as [|n IH]; intros g Hg; cbn [mt_take]; [by apply ensures_Ok|].
  eapply ensures_bind; [by apply mt_next_spec|]. intros [v g1] [Hv Hg1]. eapply ensures_bind; [by apply IH|].
  intros [vs g2] (Hl & Hvs & Hg2). apply ensures_Ok. split_and!; [cbn; by rewrite Hl|by constructor|done].
Qed.

Lemma mt_seed_ok value : mt_ok (mt_seed value).
Proof.
  assert (forall n i prev, size (mt_seed_loop n i prev) = Z.of_nat n /\ Forall word (mt_seed_loop n i prev)) as H.
  { induction n as [|n IH]; intros i prev; cbn [mt_seed_loop]; [done|]. set (x := u32 _). destruct (IH (i + 1) x) as [H1 H2].
    split; [rewrite size_cons; lia|]. constructor; [apply word_u32|done]. }
  unfold mt_seed. destruct (H 623%nat 1 (u32 value)) as [H1 H2]. split; cbn [mt_x mt_index]; [rewrite size_cons; lia| |lia].
  constructor; [apply word_u32|done].
Qed.

(** The keys are TEIDs, as many as asked for; a lab generator's are distinct. *)
Lemma make_teids_spec n rng sequential : mt_ok rng ->
  ensures (make_teids n rng sequential) (fun '(keys, rng') => length keys = n /\ Forall word keys /\ mt_ok rng' /\
    (sequential = true -> (n <= Z.to_nat (2 ^ 30))%nat -> NoDup keys)).
Proof.
  intros Hg. unfold make_teids. destruct sequential.
  - apply ensures_Ok. split_and!; [by rewrite length_map, length_seq| |done|].
    + apply Forall_map, list.Forall_forall. intros i _. apply word_u32.
    + intros _ Hn. apply NoDup_fmap_2_strong; [|apply NoDup_ListNoDup, seq_NoDup].
      intros i j Hi Hj. rewrite list_elem_of_In, in_seq in Hi, Hj. unfold u32. rewrite !Z.mod_small by lia. lia.
  - eapply ensures_mono; [by apply mt_take_spec|]. intros [vs g] (? & ? & ?). done.
Qed.

(** ** The two structures *)

(** What the inserts of [bench_flat] leave: the last one wins. *)
Fixpoint fill_last (m : gmap Z TeidBinding) (i : Z) (keys : list Z) : gmap Z TeidBinding :=
  match keys with [] => m | k :: keys => fill_last (<[k := binding_of i]> m) (i + 1) keys end.

Lemma fills_agree keys : forall m i, NoDup keys -> (forall k, k ∈ keys -> m !! k = None) ->
  fill_unordered m i keys = fill_last m i keys.
Proof.
  induction keys as [|k keys IH]; intros m i Hnd Hm; [done|]. apply list.NoDup_cons in Hnd as [Hk Hnd]. cbn [fill_unordered fill_last].
  unfold emplace. rewrite (Hm k) by (by left). apply IH; [done|]. intros k' Hk'. rewrite lookup_insert_ne; [apply Hm; by right|].
  by intros ->.
Qed.

Lemma fill_flat_spec keys : forall (t : table) m i, table_repr t m -> Forall word keys ->
  Z.of_nat (base.size m) + size keys <= fh_capacity_ t ->
  ensures (fill_flat t i keys) (fun t' => table_repr t' (fill_last m i keys)).
Proof.
  induction keys as [|k keys IH]; intros t m i Ht Hk Hc; cbn [fill_flat fill_last]; [by apply ensures_Ok|].
  apply Forall_cons_iff in Hk as [Hk0 Hk]. rewrite size_cons in Hc. pose proof (size_nonneg keys).
  eapply ensures_bind; [exact (kt_insert_spec t m k (binding_of i) Ht Hk0)|]. intros [ok t1] [Hcap H1]. cbn beta in H1.
  destruct ok; cbn [negb] in H1.
  - apply IH; [done|done|]. change (fh_capacity_ t1 = fh_capacity_ t) in Hcap. rewrite Hcap.
    rewrite map_size_insert. destruct (m !! k); cbn [id]; unfold id; lia.
  - destruct H1 as [Hfull _]. change (kt_cap t) with (fh_capacity_ t) in Hfull. lia.
Qed.

(** Whether a key is found. *)
Lemma find_flag (t : table) m k : table_repr t m -> ensures (find t k) (fun '(p, t') =>
  stats_only t t' /\ match p with Some _ => 1 | None => 0 end = match m !! k with Some _ => 1 | None => 0 end :> Z).
Proof.
  intros Ht. destruct (find_value_repr t m k Ht) as ([o t'] & Hf & -> & Hst). unfold find_value in Hf.
  apply bind_Ok_inv in Hf as ([p t1] & Hp & Hf). exists (p, t1). split; [done|]. destruct p as [p|].
  - apply bind_Ok_inv in Hf as (v & _ & [= <- ->]). done.
  - injection Hf as <- ->. done.
Qed.

(** A lookup of a key other than the reserved one is counted. *)
Lemma find_loop_lookups n : forall (t : table) key idx p t', find_loop n t key idx = Ok (p, t') -> lookups_ t' = lookups_ t.
Proof.
  induction n as [|n IH]; intros t key idx p t' H; cbn [find_loop] in H; [by injection H as _ <-|].
  apply bind_Ok_inv in H as (k & _ & H). destruct (_ =? _); [by injection H as _ <-|]. destruct (_ =? _); [by injection H as _ <-|].
  by rewrite (IH _ _ _ _ _ H).
Qed.
Lemma find_value_lookups (t : table) key o t' : find_value t key = Ok (o, t') -> key <> kEmptyKey -> lookups_ t' = add64 (lookups_ t) 1.
Proof.
  unfold find_value, find. intros ([p t1] & Hp & H)%bind_Ok_inv Hk. rewrite (proj2 (Z.eqb_neq _ _) Hk) in Hp.
  assert (t' = t1) as -> by (destruct p; [apply bind_Ok_inv in H as (? & _ & [= _ <-])|injection H as _ <-]; done).
  by rewrite (find_loop_lookups _ _ _ _ _ _ Hp).
Qed.

Lemma warm_flat_spec m probes : forall (t : table) sink, table_repr t m ->
  ensures (warm_flat t sink probes) (fun '(t', sink') => table_repr t' m /\ sink' = warm_unordered m sink probes).
Proof.
  induction probes as [|k probes IH]; intros t sink Ht; cbn [warm_flat]; [by apply ensures_Ok|].
  eapply ensures_bind; [by apply (find_flag t m k)|]. intros [p t1] [Hst Hp]. cbn [warm_unordered foldl] in *. rewrite Hp.
  apply IH. by eapply stats_only_repr.
Qed.

(** [n] lookups more on the table's counter, if none is of the reserved key. *)
Definition counted_lookups (probes : list Z) (t t' : table) (n : Z) : Prop :=
  Forall (fun k => k <> kEmptyKey) probes -> u64 (lookups_ t') = u64 (lookups_ t + n).

Lemma pass_flat_spec m probes : forall (t : table) hits, table_repr t m ->
  ensures (pass_flat t hits probes) (fun '(t', hits') => table_repr t' m /\ hits' = pass_unordered m hits probes /\
    counted_lookups probes t t' (size probes)).
Proof.
  induction probes as [|k probes IH]; intros t hits Ht; cbn [pass_flat].
  { apply ensures_Ok. split_and!; [done|done|]. intros _. change (size []) with 0. by rewrite Z.add_0_r. }
  destruct (find_value_repr t m k Ht) as ([o t1] & Hf & -> & Hst). rewrite Hf, bind_Ok.
  eapply ensures_mono; [apply IH; by eapply stats_only_repr|]. intros [t' hits'] (H1 & -> & H3). split_and!; [done|done|].
  intros [Hk Hks]%Forall_cons_iff. rewrite (H3 Hks), (find_value_lookups _ _ _ _ Hf Hk), size_cons. unfold add64.
  rewrite u64_add_u64_l. f_equal. lia.
Qed.

Lemma passes_flat_spec m probes n : forall (t : table) hits, table_repr t m ->
  ensures (passes_flat n t hits probes) (fun '(t', hits') => table_repr t' m /\ hits' = passes_unordered n m hits probes /\
    counted_lookups probes t t' (size probes * Z.of_nat n)).
Proof.
  induction n as [|n IH]; intros t hits Ht; cbn [passes_flat passes_unordered].
  { apply ensures_Ok. split_and!; [done|done|]. intros _. by rewrite Z.mul_0_r, Z.add_0_r. }
  eapply ensures_bind; [by apply (pass_flat_spec m probes)|]. intros [t1 h1] (H1 & -> & H3).
  eapply ensures_mono; [by apply IH|]. intros [t2 h2] (H4 & -> & H6). split_and!; [done|done|].
  intros Hk. rewrite (H6 Hk), <- u64_add_u64_l, (H3 Hk), u64_add_u64_l. f_equal. lia.
Qed.

(** C39: The benchmark compares equals.  For any keys that fit the requested capacity
    and any probe order, the run over the flat table returns; its table is then
    exactly the map that the inserts describe (the last insert of a key wins),
    and every probe of an ordinary key was counted, so that the reported probes
    per lookup are an average over all of them.  If the keys are distinct, the
    run over [std::unordered_map] (where the first insert wins) finds the same
    bindings: both contribute the same to the sink and report the same hit
    flag. *)
Theorem tables_agree keys probes capacity iterations elapsed elapsed' sink :
  Forall word keys -> size keys <= capacity -> capacity <= 2 ^ 63 ->
  ensures (bench_flat keys probes capacity iterations elapsed sink) (fun '(t, timing, sink') =>
    table_repr t (fill_last ∅ 0 keys) /\
    (Forall (fun k => k <> kEmptyKey) probes -> u64 (lookup_count t) = u64 (size probes * Z.of_nat iterations)) /\
    (NoDup keys -> let '(timing', sink'') := bench_unordered keys probes iterations elapsed' sink in
       sink' = sink'' /\ ti_hit_rate timing = ti_hit_rate timing')).
Proof.
  intros Hk Hc Hc63. unfold bench_flat. eapply ensures_bind; [by apply (new_repr TeidBinding_init capacity)|].
  intros t0 (Ht0 & Hcap & _). eapply ensures_bind; [apply (fill_flat_spec keys t0 ∅ 0 Ht0 Hk); rewrite map_size_empty; lia|].
  intros t1 Ht1. eapply ensures_bind; [exact (warm_flat_spec _ probes t1 sink Ht1)|]. intros [t2 s2] [Ht2 ->]. cbn zeta.
  assert (table_repr (FlatHash.reset_stats t2) (fill_last ∅ 0 keys)) as Ht3
    by (eapply stats_only_repr; [exists 0, 0; reflexivity|done]).
  eapply ensures_bind; [exact (passes_flat_spec _ probes iterations _ 0 Ht3)|]. intros [t4 hits] (Ht4 & -> & Hl). apply ensures_Ok. split_and!.
  - done.
  - intros Hp. exact (Hl Hp).
  - intros Hnd. unfold bench_unordered. rewrite (fills_agree keys ∅ 0 Hnd) by (intros; apply lookup_empty). done.
Qed.

Lemma tables_agree_witness :
  ensures (bench_flat [7; 9; 11] [9; 8; 7; 9] 16 2 100 0) (fun '(t, _, sink') =>
    u64 (lookup_count t) = 8 /\ sink' = (bench_unordered [7; 9; 11] [9; 8; 7; 9] 2 50 0).2).
Proof.
  assert (NoDup [7; 9; 11]) as Hnd by (apply (bool_decide_unpack _); reflexivity).
  eapply ensures_mono.
  - apply (tables_agree [7; 9; 11] [9; 8; 7; 9] 16 2 100 50 0); [repeat constructor; unfold word; lia|vm_compute; congruence|lia].
  - intros [[t timing] sink'] (_ & Hl & Ha). split; [|by destruct (Ha Hnd)].
    assert (Forall (fun k => k <> kEmptyKey) [9; 8; 7; 9]) as Hk by (repeat constructor; unfold kEmptyKey; lia).
    exact (Hl Hk).
Defined.

(** With a key inserted twice the two structures keep different bindings. *)
Example duplicate_keys_differ : fill_last ∅ 0 [5; 5] <> fill_unordered ∅ 0 [5; 5].
Proof. intros H. apply (f_equal (fun m => m !! 5)) in H. vm_compute in H. congruence. Qed.

(** ** The driver *)

Section Main.
(** [std::shuffle] with the generator, and the time the [k]-th routine takes. *)
Context (shuffle : list Z -> Mt19937 -> list Z * Mt19937) (elapsed : nat -> Z) (iterations : nat).

Record HashRun := mkHashRun { hr_rng : Mt19937; hr_sink : Z; hr_routines : nat; hr_out : Bytes }.

(** Both routines on one set of keys, and their rows. *)
Definition hash_pair (r : HashRun) (rng : Mt19937) (pattern : Bytes) (load : double) (keys probes : list Z) : res HashRun :=
  let k := hr_routines r in
  let* (x, sink) := bench_flat keys probes kCapacity iterations (elapsed k) (hr_sink r) in
  let '(y, sink) := bench_unordered keys probes iterations (elapsed (S k)) sink in
  Ok (mkHashRun rng sink (S (S k)) (hr_out r ++ hash_row (txt "flat_hash") pattern load (size keys) x.2
                                             ++ hash_row (txt "unordered_map") pattern load (size keys) y)).

(** The body of the two nested loops. *)
Definition hash_case (r : HashRun) (load : double) (sequential : bool) : res HashRun :=
  let* entries := entries_for load in
  let* (keys, rng) := make_teids (Z.to_nat entries) (hr_rng r) sequential in
  let '(probes, rng) := shuffle (probe_prefix keys) rng in
  hash_pair r rng (if sequential then txt "sequential" else txt "random") load keys probes.

Fixpoint hash_cases (r : HashRun) (cases : list (double * bool)) : res HashRun :=
  match cases with [] => Ok r | (load, s) :: cases => let* r := hash_case r load s in hash_cases r cases end.

Definition hash_loads : list (double * bool) :=
  loads ← [dlit 3 10; dlit 5 10; dlit 7 10]; [(loads, false); (loads, true)].

Definition hash_miss_case (r : HashRun) : res HashRun :=
  let r := mkHashRun (hr_rng r) (hr_sink r) (hr_routines r) (hr_out r ++ txt "~# miss path (no session installed for the TEID)~") in
  let* (keys, rng) := make_teids (Z.to_nat (2 ^ 19)) (hr_rng r) false in
  let* (misses, rng) := make_misses (Z.to_nat 100000) rng in
  hash_pair r rng (txt "miss") (dlit 5 10) keys misses.

(** [environment] is what [print_environment] printed.  The exit status. *)
Definition bench_hash_main (environment : Bytes) (sink : Z) : res (Z * Bytes) :=
  let r := mkHashRun (mt_seed 0xF10A7) sink 0 (environment ++ hash_heading (Z.of_nat iterations)) in
  let* r := hash_cases r hash_loads in
  let* r := hash_miss_case r in
  Ok (bench_exit (hr_sink r), hr_out r).

Hypothesis shuffle_permutes : forall l g, mt_ok g -> Permutation l (shuffle l g).1 /\ mt_ok (shuffle l g).2.

Lemma hash_pair_returns r rng pattern load keys probes : mt_ok rng -> Forall word keys -> size keys <= kCapacity ->
  ensures (hash_pair r rng pattern load keys probes) (fun r' => mt_ok (hr_rng r')).
Proof.
  intros Hg Hk Hs. unfold hash_pair.
  assert (ensures (bench_flat keys probes kCapacity iterations (elapsed (hr_routines r)) (hr_sink r)) (fun _ => True)) as Hb.
  { unfold bench_flat. eapply ensures_bind; [apply (new_repr TeidBinding_init kCapacity); unfold kCapacity; lia|].
    intros t0 (Ht0 & Hcap & _). eapply ensures_bind; [apply (fill_flat_spec keys t0 ∅ 0 Ht0 Hk); rewrite map_size_empty; lia|].
    intros t1 Ht1. eapply ensures_bind; [exact (warm_flat_spec _ probes t1 _ Ht1)|]. intros [t2 s2] [Ht2 ->]. cbn zeta.
    eapply ensures_bind; [exact (passes_flat_spec _ probes iterations _ 0 (stats_only_repr t2 _ _ (ex_intro _ 0 (ex_intro _ 0 eq_refl)) Ht2))|].
    intros [t4 hits] _. by apply ensures_Ok. }
  eapply ensures_bind; [exact Hb|]. intros [x s] _. by apply ensures_Ok.
Qed.

(** The driver runs to the end and returns 0 unless the sink reads all ones. *)
Lemma bench_hash_main_returns environment sink : ensures (bench_hash_main environment sink) (fun '(status, _) => status = 0 \/ status = 1).
Proof.
  assert (forall r load s n, mt_ok (hr_rng r) -> entries_for load = Ok n -> 0 <= n <= kCapacity ->
    ensures (hash_case r load s) (fun r' => mt_ok (hr_rng r'))) as Hcase.
  { intros r load s n Hg He Hn. unfold hash_case. rewrite He, bind_Ok. eapply ensures_bind; [by apply make_teids_spec|].
    intros [keys rng] (Hl & Hk & Hg1 & _). destruct (shuffle_permutes (probe_prefix keys) rng Hg1) as [_ Hg2].
    destruct (shuffle (probe_prefix keys) rng) as [probes rng2]. apply hash_pair_returns; [done|done|]. unfold size. lia. }
  unfold bench_hash_main. set (r0 := mkHashRun _ _ _ _).
  eapply (ensures_bind _ _ (fun r => mt_ok (hr_rng r))).
  { assert (mt_ok (hr_rng r0)) as Hg by apply mt_seed_ok. generalize dependent r0. intros r0 Hg. cbn [hash_cases].
    change hash_loads with [(dlit 3 10, false); (dlit 3 10, true); (dlit 5 10, false); (dlit 5 10, true); (dlit 7 10, false); (dlit 7 10, true)].
    assert (entries_for (dlit 3 10) = Ok 314572) as E3 by (vm_compute; reflexivity).
    assert (entries_for (dlit 5 10) = Ok 524288) as E5 by (vm_compute; reflexivity).
    assert (entries_for (dlit 7 10) = Ok 734003) as E7 by (vm_compute; reflexivity).
    cbn [hash_cases]. do 6 (eapply ensures_bind; [eapply Hcase; [eassumption|eassumption|unfold kCapacity; lia]|]; intros ? ?). by apply ensures_Ok. }
  intros r Hg. eapply (ensures_bind _ _ (fun _ => True)).
  { unfold hash_miss_case. eapply ensures_bind; [by apply make_teids_spec|]. intros [keys rng] (Hl & Hk & Hg1 & _).
    eapply (ensures_bind _ _ (fun p => mt_ok p.2)).
    { unfold make_misses. eapply ensures_bind; [by apply mt_take_spec|]. intros [vs g] (_ & _ & Hg2). by apply ensures_Ok. }
    intros [misses rng2] Hg2. eapply ensures_mono; [apply (hash_pair_returns _ rng2 _ _ keys misses Hg2 Hk)|done].
    unfold size. rewrite Hl. unfold kCapacity. lia. }
  intros r' _. apply ensures_Ok. unfold bench_exit. destruct (_ =? _); auto.
Qed.
End Main.
