(* ===== verification/BenchE2e.v ===== *)
(** * bench/bench_e2e.cpp: the pipeline against the obvious implementation

    The corpus of tunnelled packets, [run_pipeline] (the whole runtime fed from
    the corpus), and [run_baseline]: the same parsers, a mutex-guarded queue and
    per-TEID counters in a [std::unordered_map], as two interleaved threads.
    [clock k] is the [k]-th reading that the routine's own threads take of the
    monotonic clock; the clocks of the metering thread are those of [Runtime]. *)

From stdpp Require Import relations.
From Stdlib Require Strings.String SpecFloat.
From S2P Require Import Prelude ByteOrder Gtpu Net SpscRing FlatHash MeterEvent UsageRecord Session SessionCsv Meter MeterLedger.
From S2P Require Import Pipeline PipelineProps Synth Histogram Snapshot TopN DetailScan Runtime RuntimeProps Double Text Report Pacing Summary BenchCommon.

(** ** The corpus *)

Definition kSubscribers : Z := 512.
Definition kBaseTeid : Z := 0x20000.

Record Corpus := mkCorpus { co_frames : list Bytes; co_sessions : list SessionSpec; co_total_bytes : Z }.

Definition corpus_session (i : Z) : SessionSpec :=
  SessionSpec_init <| s_imsi := 310150000000000 + i |> <| s_ul_teid := u32 (kBaseTeid + u32 i * 2) |>
    <| s_dl_teid := u32 (kBaseTeid + u32 i * 2 + 1) |> <| s_rating_group := u32 (10 + u32 (i mod 3)) |>.
Definition corpus_sessions : list SessionSpec := map (fun i => corpus_session (Z.of_nat i)) (List.seq 0 (Z.to_nat kSubscribers)).

(** [v[i % v.size()]]. *)
Definition at_cyclic {A} (l : list A) (i : Z) : res A := if size l =? 0 then UB else at_ l (i mod size l).

Definition corpus_udp (i : Z) : UdpSpec :=
  let sub := i mod kSubscribers in
  mkUdpSpec (ipv4 10 45 (u8 (Z.shiftr sub 8)) (u8 sub)) (ipv4 93 184 216 34) (u16 (30000 + i mod 1024)) 443 64.

Definition corpus_gtpu (i : Z) (s : SessionSpec) : GtpuSpec :=
  let sub := i mod kSubscribers in
  let uplink := i mod 3 =? 0 in
  mkGtpuSpec (if uplink then s_ul_teid s else s_dl_teid s) GtpuMsgType.kGpdu false 0 false 0
    (i mod 4 =? 0) (u8 (1 + sub mod 8)) (if uplink then 1 else 0) false [].

Section Corpus.
Context {HE : HostEndian}.

Definition corpus_frame (sessions : list SessionSpec) (payload_sizes : list Z) (i : Z) : res Bytes :=
  let* payload := at_cyclic payload_sizes i in
  let* ip := build_ipv4_udp (corpus_udp i) (filler payload (u8 i)) in
  let* s := at_ sessions (i mod kSubscribers) in
  build_gtpu_frame (corpus_gtpu i s) ip (ipv4 192 168 1 1) (ipv4 192 168 1 2).

(** The loop over the frames, [n] left. *)
Fixpoint corpus_loop (n : nat) (payload_sizes : list Z) (i : Z) (c : Corpus) : res Corpus :=
  match n with
  | O => Ok c
  | S n =>
      let* f := corpus_frame (co_sessions c) payload_sizes i in
      corpus_loop n payload_sizes (i + 1) (mkCorpus (co_frames c ++ [f]) (co_sessions c) (add64 (co_total_bytes c) (size f)))
  end.
Definition build_corpus (frame_count : nat) (payload_sizes : list Z) : res Corpus :=
  corpus_loop frame_count payload_sizes 0 (mkCorpus [] corpus_sessions 0).
End Corpus.

(** ** Results *)

Record RunResult := mkRunResult {
  rr_offered_mpps : double;
  rr_achieved_mpps : double;
  rr_achieved_gbps : double;
  rr_dropped : Z;
  rr_latency : LatencySummary;
  rr_metered_bytes : Z
}.

(** The result of a run that took [elapsed] nanoseconds and took in [bytes]. *)
Definition run_result (target_pps frames_to_send elapsed bytes dropped : Z) (latency : LatencySummary) (metered : Z) : RunResult :=
  let seconds := ddiv (dbl elapsed) giga in
  mkRunResult (if target_pps =? 0 then dzero else ddiv (dbl target_pps) mega)
    (ddiv (ddiv (dbl frames_to_send) seconds) mega)
    (ddiv (ddiv (dmul (dbl bytes) (dbl 8)) seconds) giga) dropped latency metered.

Definition print_row (label : Bytes) (r : RunResult) : Bytes :=
  let offered := if SpecFloat.SFeqb (rr_offered_mpps r) dzero then txt "unpaced" else take 23 (sprintf "%.2f" [ADouble (rr_offered_mpps r)]) in
  let l := rr_latency r in
  sprintf "%-16s,%10s,%10.3f,%10.3f,%9llu,%8llu,%8llu,%8llu,%8llu,%8llu~"
    [AStr label; AStr offered; ADouble (rr_achieved_mpps r); ADouble (rr_achieved_gbps r); AInt (rr_dropped r); AInt (ls_p50_ns l);
     AInt (ls_p99_ns l); AInt (ls_p999_ns l); AInt (ls_p9999_ns l); AInt (ls_max_ns l)].

(** ** The pipeline *)

Definition e2e_meter_config : MeterConfig :=
  let d := MeterConfig_init in
  mkConfig 4096 (2 ^ 14) (2 ^ 16) (flow_probe_window d) 60000000000 0 (sweep_period_ns d) (sweep_fraction d) (track_flows d) (learn_unknown_teids d).
Definition e2e_runtime_config : RuntimeConfig := mkRuntimeConfig 256 1000000000 1 true (mkDetailConfig 4096 64 4096) 30000000000.

Abbreviation e2e_engine := (MeterEngine (FlatHashU32 TeidBinding) (SpscRing UsageRecord)).
Abbreviation e2e_runtime := (Runtime (FlatHashU32 TeidBinding) (SpscRing UsageRecord) (SpscRing MeterEvent) (SpscRing GyEvent)).

(** The frames in rounds: [sched] says how many are sent before each iteration of
    the metering thread, the last round has what is left. *)
Fixpoint rounds_of {A} (sched : list nat) (frames : list A) : list (list A) :=
  match sched with [] => [frames] | n :: sched => take n frames :: rounds_of sched (drop n frames) end.

Section Sending.
Context (clock : nat -> Z).

(** The sending loop from frame [i], [n] left: what is handed to the pipeline and
    when, and the readings taken. *)
Fixpoint send_loop (fuel n : nat) (frames : list Bytes) (start target_pps i : Z) (reads : nat) : res (list (Bytes * Z) * nat) :=
  match n with
  | O => Ok ([], reads)
  | S n =>
      let* reads := paced clock fuel start i target_pps reads in
      let* frame := at_cyclic frames i in
      let* (sent, reads') := send_loop fuel n frames start target_pps (i + 1) (S reads) in
      Ok ((frame, clock reads) :: sent, reads')
  end.
End Sending.

Section Pipeline.
Context {HE : HostEndian} {AL : Algorithms}.
Context (wall_ns now_ns publish_wall : nat -> Z) (rank : Z -> Z -> Z) (clock : nat -> Z).

(** [Runtime runtime(cfg)]: the rings and tables of the configuration. *)
Definition e2e_engine_new : res e2e_engine :=
  let* teids := FlatHashU32_new TeidBinding_init (teid_table_capacity e2e_meter_config) in
  let* records := SpscRing_new UsageRecord_init (2 ^ 14) in
  fresh_engine e2e_meter_config teids (Some records).

(** [install_ns] and [start_ns] are the readings of [install_sessions] and
    [start]; the wait for the ring to empty gives the metering thread the rounds
    of [sched] that are left, and takes [waited] readings.  After [stop] there is
    always a published snapshot. *)
Definition run_pipeline (corpus : Corpus) (target_pps : Z) (frames_to_send : nat) (fuel waited : nat) (sched : list nat)
    (install_ns start_ns : Z) : res (RunResult * e2e_runtime) :=
  let* e := e2e_engine_new in
  let* q1 := SpscRing_new MeterEvent_init (2 ^ 16) in
  let* q2 := SpscRing_new GyEvent_init (2 ^ 12) in
  let start := clock 0%nat in
  let* (sent, reads) := send_loop clock fuel frames_to_send (co_frames corpus) start target_pps 0 1 in
  let* (_, rt) := session_run wall_ns now_ns publish_wall rank (runtime_of e2e_runtime_config IngestConfig_init q1 q2 None start_ns)
    e (co_sessions corpus) install_ns (rounds_of sched sent) in
  let elapsed := sub64 (clock (reads + waited)%nat) start in
  match rt_stats rt with
  | None => UB
  | Some snap => Ok (run_result target_pps (Z.of_nat frames_to_send) elapsed (in_frames_bytes (sn_ingest snap))
      (in_events_dropped (sn_ingest snap)) (sn_latency snap) (st_bytes (sn_meter snap)), rt)
  end.
End Pipeline.

(** ** The baseline *)

Record Counters := mkCounters { ct_bytes : Z; ct_packets : Z }.

(** The sender: pacing, the frame, the push; then the wait, [stop] and the join. *)
Inductive SenderPc := SenderPace (i : Z) | SenderFrame (i : Z) | SenderPush (i : Z) (ev : MeterEvent) | SenderWait | SenderStop | SenderJoin | SenderDone.
(** The consumer: [BaseIdle] found the queue empty. *)
Inductive BaseMeterPc := BasePop | BaseIdle | BaseApply (ev : MeterEvent) | BaseOff.

Record Baseline := mkBaseline {
  ba_queue : list MeterEvent;
  ba_counters : gmap Z Counters;
  ba_hist : Histogram;
  ba_stop : bool;
  ba_applied : Z;
  ba_metered_bytes : Z;
  ba_bytes_in : Z;
  ba_start : Z;
  ba_elapsed : Z;
  ba_reads : nat;
  ba_sender : SenderPc;
  ba_meter : BaseMeterPc
}.
#[export] Instance Baseline_eta : Eta Baseline := fun b =>
  mkBaseline (ba_queue b) (ba_counters b) (ba_hist b) (ba_stop b) (ba_applied b) (ba_metered_bytes b) (ba_bytes_in b) (ba_start b)
    (ba_elapsed b) (ba_reads b) (ba_sender b) (ba_meter b).

(** The event of a frame, [None] when a layer is refused. *)
Definition baseline_event {HE : HostEndian} (frame : Bytes) (ts : Z) : res (option MeterEvent) :=
  let* eth := parse_ethernet frame in
  if negb (eth_valid eth) then Ok None else
  let* outer := parse_ip (eth_payload eth) in
  if negb (valid outer) then Ok None else
  let* (st, h) := parse_gtpu (l4_payload outer) in
  if negb (bool_decide (st = GtpuStatus.kOk)) then Ok None else
  let* inner := parse_ip (payload h) in
  Ok (Some (MeterEvent_init <| ev_ts_ns := ts |> <| ev_teid := teid h |>
    <| ev_bytes := if valid inner then ip_total_len inner else u32 (size (payload h)) |>)).

(** [Counters& c = counters[ev.teid]; c.bytes += ev.bytes; ++c.packets]. *)
Definition count_event (m : gmap Z Counters) (ev : MeterEvent) : gmap Z Counters :=
  let c := default (mkCounters 0 0) (m !! ev_teid ev) in
  <[ev_teid ev := mkCounters (add64 (ct_bytes c) (ev_bytes ev)) (add64 (ct_packets c) 1)]> m.

Section Baseline.
Context {HE : HostEndian} (clock : nat -> Z) (corpus : Corpus) (target_pps frames_to_send : Z).

Definition baseline_init : Baseline :=
  mkBaseline [] ∅ Histogram_new false 0 0 0 (clock 0%nat) 0 1 (SenderPace 0) BasePop.

Definition base_clock (b : Baseline) : Z * Baseline := (clock (ba_reads b), b <| ba_reads ::= S |>).

Definition sender_step (b : Baseline) : res (option Baseline) :=
  match ba_sender b with
  | SenderPace i =>
      if i <? frames_to_send then
        if negb (target_pps =? 0) then
          let '(now, b) := base_clock b in
          Ok (Some (if now <? due (ba_start b) i target_pps then b else b <| ba_sender := SenderFrame i |>))
        else Ok (Some (b <| ba_sender := SenderFrame i |>))
      else Ok (Some (b <| ba_sender := SenderWait |>))
  | SenderFrame i =>
      let* frame := at_cyclic (co_frames corpus) i in
      let b := b <| ba_bytes_in ::= fun n => add64 n (size frame) |> in
      let '(now, b') := base_clock b in
      let* o := baseline_event frame now in
      Ok (Some (match o with
        | None => b <| ba_sender := SenderPace (i + 1) |>
        | Some ev => b' <| ba_sender := SenderPush i ev |>
        end))
  | SenderPush i ev => Ok (Some (b <| ba_queue ::= fun q => q ++ [ev] |> <| ba_sender := SenderPace (i + 1) |>))
  | SenderWait =>
      if ba_applied b <? frames_to_send then
        let '(now, b) := base_clock b in
        Ok (Some (if sub64 now (ba_start b) <? 30000000000 then b else b <| ba_sender := SenderStop |>))
      else Ok (Some (b <| ba_sender := SenderStop |>))
  | SenderStop =>
      let '(now, b) := base_clock b in
      Ok (Some (b <| ba_elapsed := sub64 now (ba_start b) |> <| ba_stop := true |> <| ba_sender := SenderJoin |>))
  | SenderJoin => match ba_meter b with BaseOff => Ok (Some (b <| ba_sender := SenderDone |>)) | _ => Ok None end
  | SenderDone => Ok None
  end.

Definition base_meter_step (b : Baseline) : res (option Baseline) :=
  match ba_meter b with
  | BasePop =>
      match ba_queue b with
      | [] => Ok (Some (b <| ba_meter := BaseIdle |>))
      | ev :: q => Ok (Some (b <| ba_queue := q |> <| ba_meter := BaseApply ev |>))
      end
  | BaseIdle => Ok (Some (b <| ba_meter := if ba_stop b then BaseOff else BasePop |>))
  | BaseApply ev =>
      let b := b <| ba_counters ::= fun m => count_event m ev |> <| ba_metered_bytes ::= fun n => add64 n (ev_bytes ev) |> in
      let '(now, b) := base_clock b in
      let* h := (if ev_ts_ns ev <? now then hist_record (ba_hist b) (sub64 now (ev_ts_ns ev)) else Ok (ba_hist b)) in
      Ok (Some (b <| ba_hist := h |> <| ba_applied ::= fun n => add64 n 1 |> <| ba_meter := BasePop |>))
  | BaseOff => Ok None
  end.

Inductive base_step (b : Baseline) : Baseline -> Prop :=
| by_sender b' : sender_step b = Ok (Some b') -> base_step b b'
| by_base_meter b' : base_meter_step b = Ok (Some b') -> base_step b b'.

(** What [run_baseline] returns once both threads have ended. *)
Definition baseline_result (rank : Z -> Z -> Z) (b : Baseline) : RunResult :=
  run_result target_pps frames_to_send (ba_elapsed b) (ba_bytes_in b) 0 (summarize rank (ba_hist b)) (ba_metered_bytes b).
End Baseline.
