(* ===== verification/BenchE2eProps.v ===== *)
(** * The end-to-end benchmark compares two meters that agree

    Every frame of the corpus is a user packet of known TEID and length, for the
    ingest path and for the baseline's parser alike.  From there both sides are
    followed to their counters: through the rings, the metering loop and the
    engine on one side, through the queue and the map on the other. *)

From stdpp Require Import relations.
From S2P Require Import Prelude ByteOrder Gtpu Net SpscRing FlatHash MeterEvent UsageRecord Session Meter MeterProps MeterControl MeterLedger.
From S2P Require Import Pipeline PipelineProps Synth SynthProps SynthIp EndToEnd Histogram Snapshot TopN DetailScan DetailProps Runtime RuntimeProps.
From S2P Require Import Pacing BenchCommon BenchE2e.

(** ** The frames *)

Lemma size_pos {A} (l : list A) : l <> [] -> 0 < size l.
Proof. destruct l; [done|]. rewrite size_cons. pose proof (size_nonneg l). lia. Qed.

(** What a frame is worth: its tunnel and the length of the user's packet. *)
Record usage := mkUsage { us_teid : Z; us_bytes : Z }.

Definition payload_at (sizes : list Z) (i : Z) : Z := nth (Z.to_nat (i mod size sizes)) sizes 0.
Definition corpus_usage (sizes : list Z) (i : Z) : usage :=
  mkUsage (kBaseTeid + 2 * (i mod kSubscribers) + if i mod 3 =? 0 then 0 else 1) (28 + payload_at sizes i).

(** Payloads as the benchmark uses them fit an outer packet. *)
Definition sizes_ok (sizes : list Z) : Prop := sizes <> [] /\ Forall (fun n => 0 <= n <= 65000) sizes.

Section Frames.
Context {HE : HostEndian}.

(** A frame that carries [u], as the decoders see it. *)
Definition carries (f : Bytes) (u : usage) : Prop := size f < 2 ^ 63 /\ exists eth outer h inner,
  parse_ethernet f = Ok eth /\ eth_valid eth = true /\
  parse_ip (eth_payload eth) = Ok outer /\ valid outer = true /\ proto (tuple outer) = IpProto.kUdp /\
  dst_port (tuple outer) = kGtpuPort /\
  parse_gtpu (l4_payload outer) = Ok (GtpuStatus.kOk, h) /\ is_gpdu h = true /\ teid h = us_teid u /\
  parse_ip (payload h) = Ok inner /\ valid inner = true /\ ip_total_len inner = us_bytes u.

Lemma corpus_session_at i : 0 <= i < kSubscribers -> at_ corpus_sessions i = Ok (corpus_session i).
Proof.
  intros Hi. apply at_lookup; [lia|]. unfold corpus_sessions. rewrite list_lookup_fmap, lookup_seq_lt by lia. cbn. by rewrite Z2Nat.id by lia.
Qed.

Lemma at_cyclic_Ok {A} (l : list A) i d : l <> [] -> 0 <= i -> at_cyclic l i = Ok (nth (Z.to_nat (i mod size l)) l d).
Proof.
  intros Hne Hi. pose proof (size_pos l Hne) as Hs.
  unfold at_cyclic. rewrite (proj2 (Z.eqb_neq _ _)) by lia. pose proof (Z.mod_pos_bound i (size l) Hs).
  apply at_lookup; [lia|]. rewrite nth_lookup. destruct (lookup_lt_is_Some_2 l (Z.to_nat (i mod size l))) as [x Hx]; [unfold size in *; lia|].
  by rewrite Hx.
Qed.

Lemma payload_range sizes i : sizes_ok sizes -> 0 <= i -> 0 <= payload_at sizes i <= 65000.
Proof.
  intros [Hne Hs] Hi. unfold payload_at. rewrite nth_lookup. pose proof (size_pos sizes Hne).
  pose proof (Z.mod_pos_bound i (size sizes)). destruct (lookup_lt_is_Some_2 sizes (Z.to_nat (i mod size sizes))) as [x Hx]; [unfold size in *; lia|].
  rewrite Hx. by eapply (Forall_lookup_1 _ _ _ _ Hs).
Qed.

Lemma size_filler n seed : 0 <= n -> size (filler n seed) = n.
Proof. intros. unfold filler, size. rewrite length_map, length_seqZ. lia. Qed.

(** The optional part of a header with at most a PDU Session Container. *)
Lemma size_opt_plain t m (q : bool) qf pt (r : bool) : let gs := mkGtpuSpec t m false 0 false 0 q qf pt r [] in
  size (gtpu_opt gs) <= 8 /\ size (chain_of gs) <= 1.
Proof.
  destruct q; cbn zeta; [|by vm_compute]. split; [|done]. unfold gtpu_opt. rewrite bool_decide_eq_false_2 by done. cbn [gs_with_seq gs_with_npdu orb negb].
  unfold chain_of. cbn [gs_extra_ext gs_with_qfi app map]. rewrite size_app, size_be16_bytes, !size_cons, size_enc_cons.
  cbn [ext_of ext_content snd]. rewrite size_padded. change (size (container _)) with 2. by vm_compute.
Qed.

Lemma corpus_frame_carries sizes i : sizes_ok sizes -> 0 <= i ->
  ensures (corpus_frame corpus_sessions sizes i) (fun f => carries f (corpus_usage sizes i)).
Proof.
  intros Hs Hi. pose proof (payload_range sizes i Hs Hi) as Hp. unfold corpus_frame. destruct Hs as [Hne _].
  rewrite (at_cyclic_Ok sizes i 0 Hne Hi), bind_Ok. fold (payload_at sizes i). set (n := payload_at sizes i) in *.
  pose proof (Z.mod_pos_bound i kSubscribers) as Hsub. pose proof (Z.mod_pos_bound i 1024).
  eapply ensures_bind; [apply (build_ipv4_udp_spec (corpus_udp i) (filler n (u8 i))); [rewrite size_filler; lia|]|].
  { split; cbn [corpus_udp us_src_port us_dst_port]; [apply u16_range|lia]. }
  intros ip (Hsz & _ & Hip). rewrite size_filler in Hsz by lia. rewrite corpus_session_at, bind_Ok by (unfold kSubscribers in *; lia).
  set (gs := corpus_gtpu i _).
  assert (wf_gtpu gs ip /\ size (gtpu_opt gs) <= 8) as [Hwf Hopt].
  { destruct (size_opt_plain (gs_teid gs) GtpuMsgType.kGpdu (gs_with_qfi gs) (gs_qfi gs) (gs_pdu_type gs) false) as [Hopt Hch].
    change (size (gtpu_opt gs) <= 8) in Hopt. change (size (chain_of gs) <= 1) in Hch. split; [|done].
    assert (0 <= gs_teid gs < 2 ^ 32) as Ht by (unfold gs, corpus_gtpu; cbn [gs_teid]; destruct (i mod 3 =? 0); apply u32_range).
    split; [exact Ht|]. split; [done|]. split; [done|]. split; [done|]. split; [constructor|]. lia. }
  destruct (gtpu_frame_layers gs ip (ipv4 192 168 1 1) (ipv4 192 168 1 2) Hwf ltac:(lia)) as (f & pkt & Hf & H63 & He & Hout).
  rewrite Hf. apply ensures_Ok. split; [done|].
  pose proof (parse_enc_gtpu gs ip Hwf) as Hg. pose proof (gtpu_opened_fixed gs ip) as Hfix. injection Hfix as _ Hteid _ _ _ Hmsg _ _ _ _.
  eexists _, _, _, _. split_and!; [exact He|reflexivity|exact Hout|reflexivity|reflexivity|reflexivity|exact Hg| | |exact Hip|reflexivity|].
  - unfold is_gpdu. change (msg_type _) with (msg_type (gtpu_opened gs ip)). rewrite Hmsg. reflexivity.
  - change (teid _) with (teid (gtpu_opened gs ip)). rewrite Hteid. unfold gs, corpus_usage, kBaseTeid, kSubscribers in *. cbn -[Z.mul Z.add Z.modulo u32].
    destruct (i mod 3 =? 0); unfold corpus_session; cbn -[Z.mul Z.add Z.modulo u32]; rewrite !(u32_small (i mod 512)), u32_small; unfold kBaseTeid; lia.
  - change (ip_total_len _) with (28 + size (filler n (u8 i))). rewrite size_filler by lia. reflexivity.
Qed.

(** The corpus holds what it should, in order. *)
Lemma corpus_loop_spec sizes : sizes_ok sizes -> forall n i c, 0 <= i -> co_sessions c = corpus_sessions ->
  ensures (corpus_loop n sizes i c) (fun c' => co_sessions c' = corpus_sessions /\ exists fs,
    co_frames c' = co_frames c ++ fs /\ length fs = n /\
    forall j f, fs !! j = Some f -> carries f (corpus_usage sizes (i + Z.of_nat j))).
Proof.
  intros Hs. induction n as [|n IH]; intros i c Hi Hc; cbn [corpus_loop].
  { apply ensures_Ok. split; [done|]. exists []. by rewrite app_nil_r. }
  rewrite Hc. eapply ensures_bind; [by apply (corpus_frame_carries sizes i)|]. intros f Hf. cbn beta in Hf.
  eapply ensures_mono; [apply IH; [lia|done]|]. intros c' (Hc' & fs & Hfs & Hl & Hall). split; [done|].
  exists (f :: fs). cbn [co_frames] in Hfs. rewrite <- app_assoc in Hfs. split_and!; [done|cbn; by rewrite Hl|].
  intros [|j] g; cbn.
  - intros [= <-]. by rewrite Z.add_0_r.
  - intros Hg. replace (i + Z.of_nat (S j)) with (i + 1 + Z.of_nat j) by lia. by apply Hall.
Qed.

Lemma build_corpus_spec sizes n : sizes_ok sizes -> ensures (build_corpus n sizes) (fun c =>
  co_sessions c = corpus_sessions /\ length (co_frames c) = n /\
  forall j f, co_frames c !! j = Some f -> carries f (corpus_usage sizes (Z.of_nat j))).
Proof.
  intros Hs. eapply ensures_mono; [by apply (corpus_loop_spec sizes Hs n 0)|]. intros c (Hc & fs & Hfs & Hl & Hall).
  cbn [co_frames app] in Hfs. subst fs. done.
Qed.

(** What the baseline makes of a carried packet. *)
Lemma baseline_event_carries f u ts : carries f u -> exists ev, baseline_event f ts = Ok (Some ev) /\
  ev_teid ev = us_teid u /\ ev_bytes ev = us_bytes u.
Proof.
  intros (_ & eth & outer & h & inner & He & Hev & Hip & Hv & _ & _ & Hg & _ & Ht & Hin & Hvi & Hb).
  eexists. unfold baseline_event. rewrite He, bind_Ok, Hev. cbn [negb]. rewrite Hip, bind_Ok, Hv. cbn [negb]. rewrite Hg, bind_Ok.
  rewrite bool_decide_eq_true_2 by done. cbn [negb]. rewrite Hin, bind_Ok, Hvi. split; [reflexivity|]. done.
Qed.
End Frames.

(** The usage of the [n] frames from [i] on that a run sends from a corpus of [len]. *)
Definition sent_usage (sizes : list Z) (len : Z) (n : nat) (i : Z) : list usage :=
  map (fun k => corpus_usage sizes ((i + Z.of_nat k) mod len)) (List.seq 0 n).

Lemma sent_usage_S sizes len n i : sent_usage sizes len (S n) i = corpus_usage sizes (i mod len) :: sent_usage sizes len n (i + 1).
Proof.
  unfold sent_usage. cbn [List.seq map]. rewrite Z.add_0_r. f_equal. rewrite <- seq_shift, map_map. apply map_ext. intros k.
  by replace (i + Z.of_nat (S k)) with (i + 1 + Z.of_nat k) by lia.
Qed.

Section Sent.
Context {HE : HostEndian} (sizes : list Z) (frames : list Bytes).
Hypothesis frames_carry : forall j f, frames !! j = Some f -> carries f (corpus_usage sizes (Z.of_nat j)).
Hypothesis frames_some : frames <> [].

Lemma at_cyclic_carries i : 0 <= i -> ensures (at_cyclic frames i) (fun f => carries f (corpus_usage sizes (i mod size frames))).
Proof.
  intros Hi. pose proof (size_pos frames frames_some) as Hs.
  pose proof (Z.mod_pos_bound i (size frames) Hs). unfold at_cyclic. rewrite (proj2 (Z.eqb_neq _ _)) by lia.
  destruct (at_Ok_lookup frames (i mod size frames)) as (f & Hf & Hl); [lia|]. exists f. split; [done|].
  apply frames_carry in Hl. by rewrite Z2Nat.id in Hl by lia.
Qed.

Lemma send_loop_spec clock fuel start target_pps n : forall i reads sent reads', 0 <= i ->
  send_loop clock fuel n frames start target_pps i reads = Ok (sent, reads') ->
  Forall2 (fun p u => carries p.1 u /\ exists k, p.2 = clock k) sent (sent_usage sizes (size frames) n i).
Proof.
  induction n as [|n IH]; intros i reads sent reads' Hi H; cbn [send_loop] in H; [injection H as <- _; constructor|].
  apply bind_Ok_inv in H as (r1 & _ & H). apply bind_Ok_inv in H as (f & Hf & H). apply bind_Ok_inv in H as ([sent1 r2] & Hs & H).
  injection H as <- _. rewrite sent_usage_S. constructor; [|eapply IH; [|exact Hs]; lia].
  split; [exact (ensures_inv _ _ _ (at_cyclic_carries i Hi) Hf)|by eexists].
Qed.

Lemma send_loop_returns clock start target_pps n : forall i reads, 0 <= i ->
  (target_pps <> 0 -> forall k j, 0 <= j < i + Z.of_nat n -> exists m, (k <= m)%nat /\ due start j target_pps <= clock m) ->
  exists fuel, forall fuel', (fuel <= fuel')%nat -> returns (send_loop clock fuel' n frames start target_pps i reads).
Proof.
  induction n as [|n IH]; intros i reads Hi Hclock; [exists 0%nat; by eexists|].
  destruct (paced_spec clock start i target_pps reads) as (f1 & r & _ & _ & Hp); [intros Hne; apply Hclock; [done|lia]|].
  destruct (IH (i + 1) (S r)) as (f2 & H2); [lia|intros Hne k j Hj; apply Hclock; [done|lia]|].
  destruct (at_cyclic_carries i Hi) as (f & Hf & _).
  exists (Nat.max f1 f2). intros fuel' Hle. cbn [send_loop]. rewrite Hp, bind_Ok by lia. rewrite Hf, bind_Ok.
  destruct (H2 fuel' ltac:(lia)) as ([sent r2] & ->). rewrite bind_Ok. by eexists.
Qed.
End Sent.

(** ** What a list of packets adds up to *)

Definition on (t : Z) (l : list usage) : list usage := filter (fun u => us_teid u = t) l.
Definition total_bytes_of (l : list usage) : Z := foldr (fun u n => us_bytes u + n) 0 l.

Lemma total_bytes_app l k : total_bytes_of (l ++ k) = total_bytes_of l + total_bytes_of k.
Proof. unfold total_bytes_of. induction l as [|u l IH]; cbn [app foldr]; [done|]. rewrite IH. lia. Qed.

Lemma on_snoc t l u : on t (l ++ [u]) = on t l ++ if decide (us_teid u = t) then [u] else [].
Proof. unfold on. by rewrite list.filter_app. Qed.

(** An event of a packet. *)
Definition event_for (ev : MeterEvent) (u : usage) : Prop := ev_teid ev = us_teid u /\ ev_bytes ev = us_bytes u.

(** ** The baseline *)

Section BaselineProps.
Context {HE : HostEndian} (clock : nat -> Z) (corpus : Corpus) (target_pps frames_to_send : Z) (sizes : list Z).
Hypothesis frames_carry : forall j f, co_frames corpus !! j = Some f -> carries f (corpus_usage sizes (Z.of_nat j)).
Hypothesis frames_some : co_frames corpus <> [].
Hypothesis send_range : 0 <= frames_to_send < 2 ^ 64.
#[local] Abbreviation len := (size (co_frames corpus)).
#[local] Abbreviation usage_upto i := (sent_usage sizes len (Z.to_nat i) 0).
#[local] Abbreviation step := (base_step clock corpus target_pps frames_to_send).

(** The frames that reached the queue. *)
Definition pushed (p : SenderPc) : Z :=
  match p with SenderPace i | SenderFrame i | SenderPush i _ => i | _ => frames_to_send end.

Record base_inv (b : Baseline) (done : list usage) : Prop := {
  bi_range : 0 <= pushed (ba_sender b) <= frames_to_send;
  bi_split : exists hand queued, usage_upto (pushed (ba_sender b)) = done ++ hand ++ queued /\ Forall2 event_for (ba_queue b) queued /\
    match ba_meter b with BaseApply ev => exists u, hand = [u] /\ event_for ev u | _ => hand = [] end;
  bi_counters : forall t, default (mkCounters 0 0) (ba_counters b !! t) =
    mkCounters (u64 (total_bytes_of (on t done))) (u64 (size (on t done)));
  bi_metered : ba_metered_bytes b = u64 (total_bytes_of done);
  bi_applied : ba_applied b = u64 (size done);
  bi_hist : size (counts_ (ba_hist b)) = 10240;
  bi_sender : match ba_sender b with
    | SenderFrame i => i < frames_to_send
    | SenderPush i ev => i < frames_to_send /\ event_for ev (corpus_usage sizes (i mod len))
    | _ => True
    end
}.

Lemma base_inv_init : base_inv (baseline_init clock) [].
Proof.
  split; cbn; try done; [lia|]. exists [], []. by split_and!.
Qed.

Lemma usage_upto_succ i : 0 <= i -> usage_upto (i + 1) = usage_upto i ++ [corpus_usage sizes (i mod len)].
Proof.
  intros Hi. unfold sent_usage. replace (Z.to_nat (i + 1)) with (S (Z.to_nat i)) by lia. rewrite seq_S, map_app. cbn [map]. by replace (0 + Z.of_nat (0 + Z.to_nat i)) with i by lia.
Qed.

(** A move of the sender that pushes nothing. *)
Lemma base_inv_sender b b' done : base_inv b done -> pushed (ba_sender b') = pushed (ba_sender b) ->
  (ba_queue b', ba_counters b', ba_metered_bytes b', ba_applied b', ba_hist b', ba_meter b') =
  (ba_queue b, ba_counters b, ba_metered_bytes b, ba_applied b, ba_hist b, ba_meter b) ->
  match ba_sender b' with
  | SenderFrame i => i < frames_to_send
  | SenderPush i ev => i < frames_to_send /\ event_for ev (corpus_usage sizes (i mod len))
  | _ => True
  end -> base_inv b' done.
Proof.
  intros [] Hp [= E1 E2 E3 E4 E5 E6] Hs. split; rewrite ?Hp, ?E1, ?E2, ?E3, ?E4, ?E5, ?E6; auto.
Qed.

Lemma sender_inv b done : base_inv b done ->
  ensures (sender_step clock corpus target_pps frames_to_send b) (fun o => if o is Some b' then base_inv b' done else True).
Proof.
  intros Hi. pose proof Hi as [Hr (hand & queued & Hsp & Hq & Hm) Hc Hmb Ha Hh Hs]. unfold sender_step, base_clock.
  destruct (ba_sender b) as [i|i|i ev| | | |] eqn:Hp; cbn [pushed] in *.
  - destruct (Z.ltb_spec i frames_to_send) as [Hlt|Hge].
    + destruct (negb (target_pps =? 0)); apply ensures_Ok; [destruct (_ <? _)|];
        (apply (base_inv_sender b _ done Hi); [cbn; by rewrite ?Hp|done|cbn; by rewrite ?Hp]).
    + apply ensures_Ok. apply (base_inv_sender b _ done Hi); [cbn; rewrite Hp; cbn; lia|done|done].
  - eapply ensures_bind; [apply (at_cyclic_carries sizes (co_frames corpus) frames_carry frames_some i); lia|]. intros f Hf. cbn beta in Hf.
    destruct (baseline_event_carries f _ (clock (ba_reads b)) Hf) as (ev & Hev & He). cbn [ba_reads setf]. rewrite Hev, bind_Ok.
    apply ensures_Ok. apply (base_inv_sender b _ done Hi); [cbn; by rewrite Hp|done|done].
  - destruct Hs as [Hlt He]. apply ensures_Ok. split; cbn [ba_sender ba_queue ba_counters ba_metered_bytes ba_applied ba_hist ba_meter setf pushed]; auto; [lia|].
    exists hand, (queued ++ [corpus_usage sizes (i mod len)]). split_and!; [|apply Forall2_app; auto|done].
    rewrite usage_upto_succ, Hsp by lia. by rewrite <- !app_assoc.
  - destruct (ba_applied b <? frames_to_send); apply ensures_Ok; [destruct (_ <? _)|];
      (apply (base_inv_sender b _ done Hi); [cbn; by rewrite ?Hp|done|cbn; by rewrite ?Hp]).
  - apply ensures_Ok. apply (base_inv_sender b _ done Hi); [cbn; by rewrite Hp|done|done].
  - destruct (ba_meter b) eqn:Hmt; apply ensures_Ok; try done. apply (base_inv_sender b _ done Hi); [cbn; by rewrite Hp|cbn; by rewrite Hmt|done].
  - by apply ensures_Ok.
Qed.

Lemma count_event_on m ev u done : event_for ev u ->
  (forall t, default (mkCounters 0 0) (m !! t) = mkCounters (u64 (total_bytes_of (on t done))) (u64 (size (on t done)))) ->
  forall t, default (mkCounters 0 0) (count_event m ev !! t) =
    mkCounters (u64 (total_bytes_of (on t (done ++ [u])))) (u64 (size (on t (done ++ [u])))).
Proof.
  intros [Ht Hb] Hm t. rewrite on_snoc, total_bytes_app, size_app. unfold count_event. rewrite Hm. cbn [ct_bytes ct_packets].
  case_decide as Hd.
  - rewrite Ht, Hd, lookup_insert_eq. unfold default, id, add64, total_bytes_of. cbn [foldr]. rewrite !u64_add_u64_l, Hb, Z.add_0_r. done.
  - rewrite lookup_insert_ne by congruence. change (total_bytes_of []) with 0. change (size []) with 0. by rewrite Hm, !Z.add_0_r.
Qed.

Lemma base_meter_inv b done : base_inv b done ->
  ensures (base_meter_step clock b) (fun o => if o is Some b' then exists done', base_inv b' done' else ba_meter b = BaseOff).
Proof.
  intros Hi. pose proof Hi as [Hr (hand & queued & Hsp & Hq & Hm) Hc Hmb Ha Hh Hs]. unfold base_meter_step, base_clock.
  destruct (ba_meter b) as [| |ev|] eqn:Hmt; [| | |by apply ensures_Ok].
  - subst hand. destruct (ba_queue b) as [|ev q] eqn:Hbq; apply ensures_Ok; exists done; split; cbn; auto.
    + exists [], queued. split_and!; [done|by rewrite Hbq|done].
    + apply Forall2_cons_inv_l in Hq as (u & rest & He & Hq & ->). exists [u], rest. split_and!; [done|done|by exists u].
  - subst hand. apply ensures_Ok. exists done. split; cbn; auto. exists [], queued. destruct (ba_stop b); by split_and!.
  - destruct Hm as (u & -> & He). cbn zeta.
    eapply (ensures_bind _ _ (fun h => size (counts_ h) = 10240)).
    { cbn. destruct (_ <? _); [|by apply ensures_Ok]. apply hist_record_size; [done|apply u64_range]. }
    intros h Hh'. apply ensures_Ok. exists (done ++ [u]).
    split; cbn [ba_sender ba_queue ba_counters ba_metered_bytes ba_applied ba_hist ba_meter setf]; auto.
    + exists [], queued. split_and!; [by rewrite Hsp, <- app_assoc|done|done].
    + by apply count_event_on.
    + rewrite Hmb, total_bytes_app. unfold add64, total_bytes_of. cbn [foldr]. rewrite u64_add_u64_l. destruct He as [_ ->]. by rewrite Z.add_0_r.
    + rewrite Ha, size_app. unfold add64. by rewrite u64_add_u64_l.
Qed.

Lemma base_steps_inv b b' : rtc step b b' -> (exists done, base_inv b done) -> exists done, base_inv b' done.
Proof.
  induction 1 as [|b b1 b' H _ IH]; [done|]. intros [done Hi]. apply IH. destruct H as [b1 H|b1 H].
  - exists done. exact (ensures_inv _ _ _ (sender_inv b done Hi) H).
  - exact (ensures_inv _ _ _ (base_meter_inv b done Hi) H).
Qed.

(** Once everything is applied, the counters are those of all frames. *)
Lemma base_complete b done : base_inv b done -> ba_applied b = frames_to_send -> done = usage_upto frames_to_send.
Proof.
  intros [Hr (hand & queued & Hsp & Hq & Hm) _ _ Ha _ _] Happ. pose proof (f_equal length Hsp) as Hl.
  unfold sent_usage in Hl at 1. rewrite length_map, length_seq, !length_app in Hl. rewrite Happ in Ha.
  pose proof (size_nonneg done). rewrite u64_small in Ha by (unfold size in *; lia).
  assert (length hand = 0 /\ length queued = 0 /\ pushed (ba_sender b) = frames_to_send)%nat as (H1 & H2 & H3) by (unfold size in *; lia).
  apply length_zero_iff_nil in H1 as ->. apply length_zero_iff_nil in H2 as ->. by rewrite H3, !app_nil_r in Hsp.
Qed.

(** A schedule on which the baseline finishes: the consumer follows the sender. *)
Context (clock_passes : forall k t, exists j, (k <= j)%nat /\ t <= clock j).

Definition settled (b : Baseline) (p : SenderPc) (n : Z) : Prop :=
  ba_sender b = p /\ ba_meter b = BasePop /\ ba_queue b = [] /\ ba_applied b = n /\ ba_stop b = false.

Lemma sender_paces i n b : i < frames_to_send -> settled b (SenderPace i) n ->
  exists b', rtc step b b' /\ settled b' (SenderFrame i) n.
Proof.
  intros Hi Hb. destruct (negb (target_pps =? 0)) eqn:Hpace.
  2: { eexists. destruct Hb as (Hp & Hb). split; [apply rtc_once, by_sender; unfold sender_step; rewrite Hp, Hpace, (proj2 (Z.ltb_lt _ _) Hi); reflexivity|done]. }
  destruct (clock_passes (ba_reads b) (due (ba_start b) i target_pps)) as (j & Hj & Ht).
  remember (j - ba_reads b)%nat as d eqn:E. revert b Hb Hj Ht E. induction d as [|d IH]; intros b Hb Hj Ht E.
  all: assert (forall b1, b1 = b <| ba_reads ::= S |> -> step b (if clock (ba_reads b) <? due (ba_start b) i target_pps
    then b1 else b1 <| ba_sender := SenderFrame i |>)) as Hstep
    by (intros b1 ->; apply by_sender; unfold sender_step; destruct Hb as [-> _]; rewrite Hpace, (proj2 (Z.ltb_lt _ _) Hi); reflexivity).
  all: specialize (Hstep _ eq_refl); destruct (Z.ltb_spec (clock (ba_reads b)) (due (ba_start b) i target_pps)) as [Hlt|Hge];
    [|eexists; split; [by apply rtc_once|by destruct Hb]].
  - replace j with (ba_reads b) in Ht by lia. lia.
  - assert (j <> ba_reads b) by (intros ->; lia).
    destruct (IH (b <| ba_reads ::= S |>)) as (b' & Hs & Hb'); [done|cbn; lia|done|cbn; lia|]. exists b'. split; [by eapply rtc_l|done].
Qed.

Lemma one_frame i b done : 0 <= i < frames_to_send -> base_inv b done -> settled b (SenderPace i) i ->
  exists b' done', rtc step b b' /\ base_inv b' done' /\ settled b' (SenderPace (i + 1)) (i + 1).
Proof.
  intros Hi Hinv Hb. destruct (sender_paces i i b ltac:(lia) Hb) as (b1 & Hs1 & (Hp1 & Hm1 & Hq1 & Ha1 & Ht1)).
  destruct (base_steps_inv _ _ Hs1 (ex_intro _ done Hinv)) as (done1 & Hi1).
  destruct (at_cyclic_carries sizes (co_frames corpus) frames_carry frames_some i ltac:(lia)) as (f & Hf & Hcar).
  destruct (baseline_event_carries f _ (clock (ba_reads b1)) Hcar) as (ev & Hev & _).
  set (b2 := b1 <| ba_bytes_in ::= fun n => add64 n (size f) |> <| ba_reads ::= S |> <| ba_sender := SenderPush i ev |>).
  assert (step b1 b2) as H2 by (apply by_sender; unfold sender_step; rewrite Hp1, Hf, bind_Ok; cbn [base_clock]; cbn; rewrite Hev; reflexivity).
  set (b3 := b2 <| ba_queue ::= fun q => q ++ [ev] |> <| ba_sender := SenderPace (i + 1) |>).
  assert (step b2 b3) as H3 by (apply by_sender; reflexivity).
  set (b4 := b3 <| ba_queue := [] |> <| ba_meter := BaseApply ev |>).
  assert (step b3 b4) as H4 by (apply by_base_meter; unfold base_meter_step; cbn; rewrite Hm1, Hq1; reflexivity).
  assert (rtc step b b4) as Hs4 by (etransitivity; [exact Hs1|]; eapply rtc_l; [exact H2|]; eapply rtc_l; [exact H3|]; by apply rtc_once).
  destruct (base_steps_inv _ _ Hs4 (ex_intro _ done Hinv)) as (done4 & Hi4).
  destruct (base_meter_inv b4 done4 Hi4) as (o & Hst & Ho). destruct o as [b5|]; [|done]. destruct Ho as (done5 & Hi5).
  exists b5, done5. split; [eapply rtc_r; [exact Hs4|by apply by_base_meter]|]. split; [done|].
  revert Hst. unfold base_meter_step, base_clock. cbn -[add64 hist_record]. intros (h & _ & [= <-])%bind_Ok_inv.
  split_and!; try done. cbn -[add64]. rewrite Ha1. unfold add64. rewrite u64_small; lia.
Qed.

(** The end of a run: nothing is left to apply. *)
Lemma closes b : settled b (SenderPace frames_to_send) frames_to_send ->
  exists b', rtc step b b' /\ ba_sender b' = SenderDone /\ ba_meter b' = BaseOff /\ ba_applied b' = frames_to_send.
Proof.
  intros (Hp & Hm & Hq & Ha & Hst).
  assert (step b (b <| ba_sender := SenderWait |>)) as H1
    by (apply by_sender; unfold sender_step; rewrite Hp, (proj2 (Z.ltb_ge _ _)) by lia; done).
  assert (forall b, ba_sender b = SenderWait -> ba_applied b = frames_to_send -> step b (b <| ba_sender := SenderStop |>)) as H2
    by (intros b0 E E'; apply by_sender; unfold sender_step; rewrite E, E', (proj2 (Z.ltb_ge _ _)) by lia; done).
  assert (forall b, ba_sender b = SenderStop -> exists b', step b b' /\ ba_sender b' = SenderJoin /\ ba_stop b' = true /\
    ba_meter b' = ba_meter b /\ ba_queue b' = ba_queue b /\ ba_applied b' = ba_applied b) as H3.
  { intros b0 E. eexists. split; [apply by_sender; unfold sender_step, base_clock; rewrite E; reflexivity|done]. }
  assert (forall b, ba_meter b = BasePop -> ba_queue b = [] -> step b (b <| ba_meter := BaseIdle |>)) as H4
    by (intros b0 E E'; apply by_base_meter; unfold base_meter_step; by rewrite E, E').
  assert (forall b, ba_meter b = BaseIdle -> ba_stop b = true -> step b (b <| ba_meter := BaseOff |>)) as H5
    by (intros b0 E E'; apply by_base_meter; unfold base_meter_step; by rewrite E, E').
  assert (forall b, ba_sender b = SenderJoin -> ba_meter b = BaseOff -> step b (b <| ba_sender := SenderDone |>)) as H6
    by (intros b0 E E'; apply by_sender; unfold sender_step; by rewrite E, E').
  set (b1 := b <| ba_sender := SenderWait |>) in *. set (b2 := b1 <| ba_sender := SenderStop |>).
  destruct (H3 b2 eq_refl) as (b3 & S3 & P3 & T3 & M3 & Q3 & A3).
  set (b4 := b3 <| ba_meter := BaseIdle |>). set (b5 := b4 <| ba_meter := BaseOff |>). exists (b5 <| ba_sender := SenderDone |>).
  split; [|split_and!; [done|done|exact (eq_trans A3 Ha)]].
  apply rtc_l with b1; [exact H1|]. apply rtc_l with b2; [apply H2; [done|exact Ha]|]. apply rtc_l with b3; [exact S3|].
  apply rtc_l with b4; [apply H4; [exact (eq_trans M3 Hm)|exact (eq_trans Q3 Hq)]|].
  apply rtc_l with b5; [apply H5; [done|exact T3]|]. apply rtc_once, H6; [exact P3|done].
Qed.

Lemma baseline_can_finish : exists b, rtc step (baseline_init clock) b /\ ba_sender b = SenderDone /\ ba_meter b = BaseOff /\
  ba_applied b = frames_to_send.
Proof.
  assert (forall n, Z.of_nat n <= frames_to_send -> exists b done, rtc step (baseline_init clock) b /\ base_inv b done /\
    settled b (SenderPace (Z.of_nat n)) (Z.of_nat n)) as Hall.
  { induction n as [|n IH]; intros Hn.
    - exists (baseline_init clock), []. split_and!; [constructor|apply base_inv_init|done].
    - destruct IH as (b & done & Hs & Hi & Hb); [lia|]. destruct (one_frame (Z.of_nat n) b done ltac:(lia) Hi Hb) as (b' & done' & Hs' & Hi' & Hb').
      exists b', done'. rewrite Nat2Z.inj_succ. split_and!; [by etransitivity|done|exact Hb']. }
  destruct (Hall (Z.to_nat frames_to_send) ltac:(lia)) as (b & done & Hs & _ & (Hp & Hm & Hq & Ha & Hst)). rewrite Z2Nat.id in Hp, Ha by lia.
  destruct (closes b) as (b' & Hs' & H); [by split_and!|]. exists b'. split; [by etransitivity|done].
Qed.
End BaselineProps.
