(* ===== verification/BenchMeter.v ===== *)
(** * The engine on the benchmark's traffic

    Installing the corpus's sessions binds each subscriber's two tunnels; from
    then on the counters of the engine are the sums over the packets applied,
    whatever polls, Gy reports and drains happen in between. *)

From S2P Require Import Prelude ByteOrder SpscRing FlatHash MeterEvent UsageRecord Session Meter MeterProps MeterControl MeterLedger.
From S2P Require Import Pipeline PipelineProps Histogram Snapshot TopN DetailScan DetailProps Runtime RuntimeProps BenchE2e BenchE2eProps.

Definition ul_teid (i : nat) : Z := kBaseTeid + 2 * Z.of_nat i.
Definition dl_teid (i : nat) : Z := kBaseTeid + 2 * Z.of_nat i + 1.
Definition in_corpus (u : usage) : Prop := 0 <= us_bytes u < 2 ^ 32 /\ exists i, (i < 512)%nat /\ (us_teid u = ul_teid i \/ us_teid u = dl_teid i).

(** An event of a user packet. *)
Definition packet_event (ev : MeterEvent) (u : usage) : Prop := event_for ev u /\ flag_set (ev_flags ev) kFlagControlPdu = false.

Lemma corpus_usage_in sizes i : sizes_ok sizes -> 0 <= i -> in_corpus (corpus_usage sizes i).
Proof.
  intros Hs Hi. pose proof (payload_range sizes i Hs Hi). pose proof (Z.mod_pos_bound i 512).
  split; [cbn; lia|]. exists (Z.to_nat (i mod 512)). split; [lia|]. unfold corpus_usage, ul_teid, dl_teid, kSubscribers. cbn [us_teid].
  rewrite Z2Nat.id by lia. destruct (i mod 3 =? 0); lia.
Qed.

Section Engine.
Context {M R : Type} {KT : KeyTable TeidBinding M} {BQ : BoundedQueue UsageRecord R} (wall_ns : nat -> Z).
#[local] Abbreviation engine := (MeterEngine M R).

(** ** Installing a new subscriber *)

Lemma install_new (e : engine) spec now : good e -> session_ok spec -> session_valid spec = true ->
  imsi_index_ e !! s_imsi spec = None -> next_sub_ e < size (counters_ e) ->
  s_ul_teid spec <> 0 -> s_dl_teid spec <> 0 -> s_ul_teid spec <> s_dl_teid spec ->
  ensures (install_session e spec now) (fun '(r, e') => good e' /\ next_sub_ e' = next_sub_ e + 1 /\
    imsi_index_ e' = <[s_imsi spec := next_sub_ e]> (imsi_index_ e) /\
    counters_ e' = <[Z.to_nat (next_sub_ e) := SubscriberCounters_init]> (counters_ e) /\
    st_bytes (stats_ e') = st_bytes (stats_ e) /\
    (exists slot, owner e' (s_ul_teid spec) = Some (mkBinding (next_sub_ e) Direction.kUplink slot) /\
                  owner e' (s_dl_teid spec) = Some (mkBinding (next_sub_ e) Direction.kDownlink slot)) /\
    (forall k, 0 <= k < 2 ^ 32 -> k <> s_ul_teid spec -> k <> s_dl_teid spec -> owner e' k = owner e k)).
Proof.
  intros Hg Hok Hv Him Hn Hu Hd Hud. pose proof Hg as ((m & Hinv) & _). pose proof Hok as (_ & Hul & Hdl & _).
  pose proof (ei_next _ _ Hinv). pose proof (ei_sizes _ _ Hinv) as [Hsz H32].
  destruct (install_session_spec e m spec now Hinv Hok) as ([r e'] & Hins & Hp). exists (r, e'). split; [done|].
  destruct (post_install e e' m spec r Hg Hinv Hp) as (? & [= <-] & Hg' & _). split; [done|].
  revert Hins. unfold install_session. rewrite Hv, Him. cbn [negb]. rewrite (proj2 (Z.leb_gt _ _)) by lia.
  destruct (inv_next e m Hinv Hn) as [Hinv1 Hn1].
  destruct (at_info e m (next_sub_ e) Hinv) as (x & _ & Hx & _); [lia|].
  destruct (ei_fresh _ _ Hinv (next_sub_ e) x) as [Ha Hl]; [lia|done|].
  set (e0 := setf stats_ _ _). intros Hins.
  assert (engine_inv e0 m) as Hinv0.
  { apply inv_stats. apply (inv_imsi _ m (s_imsi spec) (next_sub_ e) x); [done|cbn; lia|done|done]. }
  assert (0 <= next_sub_ e < next_sub_ e0) as Hi by (unfold e0; cbn; lia).
  destruct (ensures_inv _ _ _ (install_at_spec e0 m spec now (next_sub_ e) x Hinv0 Hok Hi Hx Hl) Hins) as (_ & m' & Hinv' & [Hb Hsame]).
  destruct Hb as (x1 & slot & Hx1 & _ & Hm' & x' & _ & _ & _ & _ & _ & _ & Hc & _).
  assert (x1 = x) as -> by (change (info_ e0) with (info_ e) in Hx1; congruence). rewrite Ha in Hc.
  change (counters_ e0) with (counters_ e) in Hc.
  assert (install_base x = SubscriberInfo_init) as Hbase by (unfold install_base; by rewrite Ha). rewrite Hbase in Hm'.
  change (m' = bind_if (s_dl_teid spec) (mkBinding (next_sub_ e) Direction.kDownlink slot)
    (bind_if (s_ul_teid spec) (mkBinding (next_sub_ e) Direction.kUplink slot) m)) in Hm'.
  assert (next_sub_ e' = next_sub_ e0 /\ imsi_index_ e' = imsi_index_ e0 /\ st_bytes (stats_ e') = st_bytes (stats_ e0)) as (E1 & E2 & E3)
    by (unfold traffic in Hsame; split_and!; congruence).
  split_and!.
  - rewrite E1. exact Hn1.
  - by rewrite E2.
  - done.
  - by rewrite E3.
  - exists slot. rewrite !(owner_lookup e' m') by done. rewrite Hm'. split; [|by apply bind_if_eq].
    rewrite bind_if_lookup by done. by apply bind_if_eq.
  - intros k Hk H1 H2. rewrite (owner_lookup e' m'), (owner_lookup e m) by done. by rewrite Hm', !bind_if_lookup.
Qed.

(** ** The sessions of the corpus *)

Definition bound (e : engine) (i : nat) : Prop := exists slot,
  owner e (ul_teid i) = Some (mkBinding (Z.of_nat i) Direction.kUplink slot) /\
  owner e (dl_teid i) = Some (mkBinding (Z.of_nat i) Direction.kDownlink slot).

(** After the first [n] sessions of an empty engine. *)
Record installed_upto (e : engine) (n : nat) : Prop := {
  iu_good : good e;
  iu_next : next_sub_ e = Z.of_nat n;
  iu_room : size (counters_ e) = 4096;
  iu_imsi : forall i, (n <= i)%nat -> imsi_index_ e !! (310150000000000 + Z.of_nat i) = None;
  iu_counters : Forall (fun c => c = SubscriberCounters_init) (counters_ e);
  iu_bound : forall i, (i < n)%nat -> bound e i;
  iu_bytes : st_bytes (stats_ e) = 0
}.

Lemma corpus_session_fields i : 0 <= i < 512 -> let s := corpus_session i in
  s_imsi s = 310150000000000 + i /\ s_ul_teid s = ul_teid (Z.to_nat i) /\ s_dl_teid s = dl_teid (Z.to_nat i) /\
  session_ok s /\ session_valid s = true.
Proof.
  intros Hi s.
  assert (s_ul_teid s = ul_teid (Z.to_nat i)) as Hu.
  { change (s_ul_teid s) with (u32 (kBaseTeid + u32 i * 2)). unfold ul_teid, kBaseTeid. rewrite (u32_small i), u32_small; lia. }
  assert (s_dl_teid s = dl_teid (Z.to_nat i)) as Hd.
  { change (s_dl_teid s) with (u32 (kBaseTeid + u32 i * 2 + 1)). unfold dl_teid, kBaseTeid. rewrite (u32_small i), u32_small; lia. }
  split; [done|]. split; [done|]. split; [done|]. split.
  - unfold session_ok. change (s_imsi s) with (310150000000000 + i). rewrite Hu, Hd. unfold ul_teid, dl_teid, kBaseTeid.
    change (s_rating_group s) with (u32 (10 + u32 (i mod 3))). pose proof (u32_range (10 + u32 (i mod 3))). lia.
  - unfold session_valid. change (s_imsi s) with (310150000000000 + i). rewrite Hu. unfold ul_teid, kBaseTeid.
    rewrite !(proj2 (Z.eqb_neq _ _)) by lia. done.
Qed.

Lemma install_next (e : engine) n now : installed_upto e n -> (n < 512)%nat ->
  ensures (install_session e (corpus_session (Z.of_nat n)) now) (fun '(_, e') => installed_upto e' (S n)).
Proof.
  intros [Hg Hn Hr Him Hc Hb Hby] Hlt.
  destruct (corpus_session_fields (Z.of_nat n) ltac:(lia)) as (E1 & E2 & E3 & Hok & Hv). rewrite Nat2Z.id in E2, E3.
  eapply ensures_mono; [apply (install_new e _ now Hg Hok Hv); rewrite ?E1, ?E2, ?E3, ?Hn, ?Hr; unfold ul_teid, dl_teid, kBaseTeid; try lia; by apply Him|].
  intros [r e'] (Hg' & Hn' & Him' & Hc' & Hby' & (slot & Ho1 & Ho2) & Hoth). rewrite E1, E2, E3, Hn in *. split; auto.
  - lia.
  - by rewrite Hc', size_insert.
  - intros i Hi. rewrite Him', lookup_insert_ne by lia. apply Him. lia.
  - rewrite Hc'. by apply Forall_insert.
  - intros i Hi. destruct (decide (i = n)) as [->|Hne]; [by exists slot|]. destruct (Hb i ltac:(lia)) as (sl & H1 & H2). exists sl.
    rewrite !Hoth; unfold ul_teid, dl_teid, kBaseTeid in *; (done || lia).
  - congruence.
Qed.

Lemma run_installs now : forall n k (e : engine), installed_upto e k -> (k + n = 512)%nat ->
  ensures (run wall_ns e (installs (map (fun i => corpus_session (Z.of_nat i)) (List.seq k n)) now)) (fun '(out, e') =>
    out = [] /\ installed_upto e' 512).
Proof.
  induction n as [|n IH]; intros k e He Hk; cbn [List.seq map installs run].
  { apply ensures_Ok. replace 512%nat with k by lia. done. }
  destruct (install_next e k now He ltac:(lia)) as ([r e1] & Hi & He1). cbn [exec]. rewrite Hi, bind_Ok, bind_Ok.
  eapply ensures_bind; [by apply (IH (S k)); [|lia]|]. intros [out e'] [-> He']. by apply ensures_Ok.
Qed.

Lemma fresh_installed cfg teids sink : fresh_ok cfg teids sink -> max_subscribers cfg = 4096 ->
  ensures (fresh_engine cfg teids sink) (fun e => installed_upto e 0).
Proof.
  intros Hf Hmax. destruct (fresh_good _ _ _ Hf) as (e & He & Hg & _ & _ & Hst). exists e. split; [done|].
  unfold fresh_engine, MeterEngine_new in He. apply bind_Ok_inv in He as (e0 & H0 & He). apply bind_Ok_inv in H0 as (n & _ & H0).
  injection H0 as <-. injection He as <-. split; cbn [set_record_sink setf next_sub_ counters_ imsi_index_ stats_]; try done.
  - unfold size. rewrite length_replicate. lia.
  - by apply Forall_replicate.
  - intros i Hi. lia.
Qed.

(** ** Packets *)

(** The engine after the packets [done]. *)
Record tally (e : engine) (done : list usage) : Prop := {
  ta_good : good e;
  ta_bound : forall i, (i < 512)%nat -> bound e i;
  ta_counters : forall i, (i < 512)%nat -> exists c, counters_ e !! i = Some c /\
    c_ul_bytes c = u64 (total_bytes_of (on (ul_teid i) done)) /\ c_ul_packets c = u64 (size (on (ul_teid i) done)) /\
    c_dl_bytes c = u64 (total_bytes_of (on (dl_teid i) done)) /\ c_dl_packets c = u64 (size (on (dl_teid i) done));
  ta_bytes : st_bytes (stats_ e) = u64 (total_bytes_of done)
}.

Lemma installed_tally e : installed_upto e 512 -> tally e [].
Proof.
  intros [Hg _ Hr _ Hc Hb Hby]. split; auto. intros i Hi.
  destruct (lookup_lt_is_Some_2 (counters_ e) i) as [c Hl]; [unfold size in Hr; lia|]. exists c. split; [done|].
  rewrite (Forall_lookup_1 _ _ _ _ Hc Hl). done.
Qed.

Lemma tally_emits e e' done recs kept : tally e done -> good e' -> emits e e' recs kept -> tally e' done.
Proof.
  intros [_ Hb Hc Hby] Hg' [Hsame _ _ _]. 
  assert (counters_ e' = counters_ e /\ teid_map_ e' = teid_map_ e /\ st_bytes (stats_ e') = st_bytes (stats_ e)) as (Hcn & Ht & Htr)
    by (unfold traffic in Hsame; split_and!; congruence).
  assert (forall k, owner e' k = owner e k) as Ho by (intros k; unfold owner; by rewrite Ht).
  split; [done| | |congruence].
  - intros i Hi. destruct (Hb i Hi) as (slot & H1 & H2). exists slot. by rewrite !Ho.
  - intros i Hi. rewrite Hcn. by apply Hc.
Qed.

(** The sums after one more packet. *)
Lemma on_other t done u : us_teid u <> t -> on t (done ++ [u]) = on t done.
Proof. intros H. rewrite on_snoc. case_decide; [done|]. by rewrite app_nil_r. Qed.
Lemma on_bytes t done u : us_teid u = t -> u64 (total_bytes_of (on t (done ++ [u]))) = add64 (u64 (total_bytes_of (on t done))) (us_bytes u).
Proof.
  intros H. rewrite on_snoc, decide_True, total_bytes_app by done. unfold add64. rewrite u64_add_u64_l. unfold total_bytes_of at 2. cbn [foldr].
  by rewrite Z.add_0_r.
Qed.
Lemma on_packets t done u : us_teid u = t -> u64 (size (on t (done ++ [u]))) = add64 (u64 (size (on t done))) 1.
Proof. intros H. rewrite on_snoc, decide_True, size_app by done. unfold add64. by rewrite u64_add_u64_l. Qed.

Lemma tally_apply e ev u done : tally e done -> sound_event ev -> packet_event ev u -> in_corpus u ->
  ensures (apply e ev) (fun e' => tally e' (done ++ [u])).
Proof.
  intros [Hg Hb Hc Hby] [Hok Hts] [[Et Eb] Hctl] (_ & i & Hi & Ht).
  assert (forall j, ul_teid j <> dl_teid i /\ dl_teid j <> ul_teid i /\ (j <> i -> ul_teid j <> ul_teid i /\ dl_teid j <> dl_teid i)) as Hne
    by (intros j; unfold ul_teid, dl_teid; lia).
  assert (exists b, owner e (ev_teid ev) = Some b /\ sub_idx b = Z.of_nat i /\ is_downlink ev b = bool_decide (us_teid u = dl_teid i))
    as (b & Ho & Hbi & Hdl).
  { destruct (Hb i Hi) as (slot & H1 & H2). rewrite Et. destruct (Hne i) as (Hx & _). destruct Ht as [-> | ->]; eexists; (split; [eassumption|]).
    - split; [done|]. by rewrite bool_decide_eq_false_2.
    - split; [done|]. by rewrite bool_decide_eq_true_2. }
  eapply ensures_mono; [by apply (apply_bound e ev b)|].
  intros e' (Hg' & (c & c' & x & x' & slot & Hcl & Hcl' & _ & _ & Hcr & _) & Hrest & Hown & Hst). rewrite Hbi, Nat2Z.id in *. split; [done| | |].
  - intros j Hj. destruct (Hb j Hj) as (sl & H1 & H2). exists sl. rewrite !Hown; [done| |]; unfold ul_teid, dl_teid, kBaseTeid; lia.
  - intros j Hj. destruct (Hne j) as (N1 & N2 & N3). destruct (decide (j = i)) as [->|Hji].
    + exists c'. split; [done|]. destruct (Hc i Hi) as (c0 & Hc0 & C1 & C2 & C3 & C4). assert (c0 = c) as -> by congruence.
      destruct Hcr as (D1 & D2 & D3 & D4 & _). rewrite Hdl in D1, D2, D3, D4. rewrite Eb in D1, D2. destruct Ht as [Ht|Ht].
      * rewrite bool_decide_eq_false_2 in D1, D2, D3, D4 by congruence.
        rewrite (on_bytes (ul_teid i)), (on_packets (ul_teid i)), (on_other (dl_teid i)) by congruence. split_and!; congruence.
      * rewrite bool_decide_eq_true_2 in D1, D2, D3, D4 by congruence.
        rewrite (on_bytes (dl_teid i)), (on_packets (dl_teid i)), (on_other (ul_teid i)) by congruence. split_and!; congruence.
    + destruct (Hc j Hj) as (c0 & Hc0 & C). destruct (Hrest j Hji) as [-> _]. destruct (N3 Hji). exists c0. split; [done|].
      rewrite !on_other by (destruct Ht; congruence). done.
  - rewrite total_bytes_app. unfold stats_credited, core_stats in Hst. injection Hst as _ -> _ _ _ _ _ _ _ _ _.
    cbn [counted setf stats_ st_bytes]. rewrite Hby, Eb. unfold add64. rewrite u64_add_u64_l. unfold total_bytes_of at 3. cbn [foldr]. by rewrite Z.add_0_r.
Qed.

(** Data-plane operations, and the others of the metering loop. *)
Definition loop_op (o : op) : Prop := match o with OpApply _ | OpGy _ | OpPoll _ | OpDrain _ => True | _ => False end.

Lemma run_tally ops : forall e e' out done us, run wall_ns e ops = Ok (out, e') -> tally e done -> Forall loop_op ops -> Forall op_ok ops ->
  Forall2 packet_event (applied ops) us -> Forall in_corpus us -> tally e' (done ++ us).
Proof.
  induction ops as [|o ops IH]; intros e e' out done us Hrun Ht Hl Hok Hev Hin; cbn [run] in Hrun.
  { apply Forall2_nil_inv_l in Hev as ->. injection Hrun as _ <-. by rewrite app_nil_r. }
  apply Forall_cons_iff in Hl as [Hl0 Hl]. apply Forall_cons_iff in Hok as [Hok0 Hok].
  apply bind_Ok_inv in Hrun as ([o1 e1] & Hex & Hrun). apply bind_Ok_inv in Hrun as ([o2 e2] & Hrun & E). injection E as _ <-.
  pose proof (ta_good _ _ Ht) as Hg. pose proof Hg as ((m & Hinv) & _). pose proof (ei_next _ _ Hinv).
  destruct (ensures_inv _ _ _ (exec_spec wall_ns e o Hg Hok0) Hex) as [Hg1 _].
  assert (forall recs kept, emits e e1 recs kept -> applied (o :: ops) = applied ops -> tally e2 (done ++ us)) as Hquiet.
  { intros recs kept Hem E. rewrite E in Hev. eapply IH; [exact Hrun|by eapply tally_emits|done|done|done|done]. }
  destruct o as [ev|g|now|now|spec now|imsi now|max|]; try done; cbn [exec] in Hex.
  - cbn [applied omap list_omap] in Hev. apply Forall2_cons_inv_l in Hev as (u & us' & Hu & Hev & ->). apply Forall_cons_iff in Hin as [Hin0 Hin].
    apply bind_Ok_inv in Hex as (e0 & Hap & [= _ <-]). replace (done ++ u :: us') with ((done ++ [u]) ++ us') by (by rewrite <- app_assoc).
    eapply IH; [exact Hrun| |done|done|done|done]. exact (ensures_inv _ _ _ (tally_apply e ev u done Ht Hok0 Hu Hin0) Hap).
  - apply bind_Ok_inv in Hex as (e0 & Hap & [= _ <-]).
    destruct (ensures_inv _ _ _ (apply_gy_spec e m g Hinv) Hap) as (_ & Hem & _). by eapply Hquiet.
  - apply bind_Ok_inv in Hex as (e0 & Hap & [= _ <-]).
    destruct (ensures_inv _ _ _ (poll_spec wall_ns e m now Hinv) Hap) as (_ & (r & k & Hem) & _). by eapply Hquiet.
  - apply bind_Ok_inv in Hex as ([n e0] & Hap & [= _ <-]). unfold drain in Hap.
    destruct (ensures_inv _ _ _ (drain_loop_spec wall_ns m now (Z.to_nat (next_sub_ e)) e 0 0 Hinv ltac:(lia) ltac:(lia)) Hap) as (_ & (r & k & Hem & _) & _).
    by eapply Hquiet.
Qed.
End Engine.
