(* ===== verification/BenchEquiv.v ===== *)
(** * The pipeline and the baseline meter the same

    The frames of the benchmark followed through the ingest path, the metering
    loop and the engine; and the comparison with the baseline's counters. *)

From stdpp Require Import relations.
From S2P Require Import Prelude ByteOrder Gtpu Net SpscRing FlatHash MeterEvent UsageRecord Session Meter MeterProps MeterControl MeterLedger.
From S2P Require Import Pipeline PipelineProps Synth SynthProps SynthIp EndToEnd Histogram Snapshot TopN DetailScan DetailProps Runtime RuntimeProps.
From S2P Require Import BenchCommon BenchE2e BenchE2eProps BenchMeter.

Section Run.
Context {HE : HostEndian} {AL : Algorithms} {M R R1 R2 : Type}.
Context {KT : KeyTable TeidBinding M} {BQ : BoundedQueue UsageRecord R}.
Context {Q1 : BoundedQueue MeterEvent R1} {Q2 : BoundedQueue GyEvent R2}.
Context (wall_ns now_ns publish_wall : nat -> Z) (rank : Z -> Z -> Z).
#[local] Abbreviation runtime := (Runtime M R R1 R2).
#[local] Abbreviation ingest := (Ingest R1 R2).

(** ** Ingest *)

(** A frame with its timestamp, as the benchmark sends it. *)
Definition sends (p : Bytes * Z) (u : usage) : Prop := carries p.1 u /\ 0 <= p.2 < UINT64_MAX.

(** The events that enter the ring are those of a part of the frames; the rest is
    counted as dropped. *)
Lemma ingest_carried frames : forall us (s : ingest) q l qg lg, Forall2 sends frames us -> in_cfg_ s = IngestConfig_init ->
  meter_ring_ s = Some q -> q_repr q l -> gy_ring_ s = Some qg -> q_repr qg lg ->
  ensures (ingest_all s frames) (fun '(_, s') => in_cfg_ s' = in_cfg_ s /\ exists evs kept,
    (exists q', meter_ring_ s' = Some q' /\ q_repr q' (l ++ evs) /\ q_cap q' = q_cap q) /\ (exists qg', gy_ring_ s' = Some qg' /\ q_repr qg' lg) /\
    Forall sound_event evs /\ Forall2 packet_event evs kept /\ kept `sublist_of` us /\ (size l + size us <= q_cap q -> kept = us) /\
    u64 (in_events_dropped (in_stats_ s')) = u64 (in_events_dropped (in_stats_ s) + (size us - size kept))).
Proof.
  induction frames as [|[f ts] frames IH]; intros us s q l qg lg Hf Hcfg Hq Hl Hqg Hlg; cbn [ingest_all].
  { apply Forall2_nil_inv_l in Hf as ->. apply ensures_Ok. split; [done|]. exists [], []. rewrite app_nil_r.
    split_and!; [by exists q|by exists qg|done|done|done|done|]. change (size []) with 0. f_equal. lia. }
  apply Forall2_cons_inv_l in Hf as (u & us' & [Hc Hts] & Hf & ->). cbn [fst snd] in Hc, Hts.
  destruct Hc as (H63 & eth & outer & h & inner & He & Hev & Hip & Hv & Hpr & Hport & Hg & Hgp & Ht & Hin & Hvi & Hb).
  assert (rings_ok s) as Hr by (split; [rewrite Hq|rewrite Hqg]; eexists; eassumption).
  eapply ensures_bind; [apply (gpdu_frame_post s f ts eth outer h Hr H63 He Hev Hip Hv Hpr); [by rewrite Hcfg|done|done]|].
  intros [o s1] (inner' & ev & ok & Hin' & Heo & Hroom & [Hc1 Hm1 Hg1] & _ & Hcnt). assert (inner' = inner) as -> by congruence.
  destruct (ring_some _ _ _ q l Hm1 Hq Hl) as (q1 & Hq1 & Hl1). destruct (ring_some _ _ _ qg lg Hg1 Hqg Hlg) as (qg1 & Hqg1 & Hlg1).
  rewrite app_nil_r in Hlg1. rewrite Hq in Hroom. specialize (Hroom l Hl).
  assert (q_cap q1 = q_cap q) as Hcap by (rewrite Hq, Hq1 in Hm1; apply Hm1).
  assert (sound_event ev /\ packet_event ev u) as [Hs Hp].
  { pose proof Heo as [(E1 & E2 & _) _ E3 E4 _ _ _ _ E5]. split; [split; [apply E5; unfold UINT64_MAX in Hts; lia|rewrite E1; lia]|].
    split; [split; [congruence|]|by rewrite E4, Hgp]. rewrite E3, Hgp, Hvi, Hcfg. cbn. done. }
  eapply ensures_bind; [apply (IH us' s1 q1 (l ++ if ok then [ev] else []) qg1 lg Hf); [congruence|done|exact Hl1|done|done]|].
  intros [os s2] (Hc2 & evs & kept & (q2 & Hq2 & Hl2 & Hcap2) & Hqg2 & Hsd & Hpe & Hsub & Hall & Hdr). apply ensures_Ok. split; [congruence|].
  exists ((if ok then [ev] else []) ++ evs), ((if ok then [u] else []) ++ kept). rewrite app_assoc. split_and!; [exists q2; split_and!; [done|done|congruence]|done| | | | |].
  - destruct ok; [by constructor|done].
  - destruct ok; [by constructor|done].
  - destruct ok; [by apply sublist_skip|by apply sublist_cons].
  - rewrite size_cons. intros Hle. pose proof (size_nonneg us'). rewrite (proj2 (Z.ltb_lt _ _)) in Hroom by lia. subst ok.
    cbn [app]. f_equal. apply Hall. rewrite size_app, Hcap. change (size [ev]) with 1. lia.
  - rewrite Hdr, <- u64_add_u64_l, (ca_dropped _ _ _ _ _ _ _ _ _ _ Hcnt), u64_add_u64_l, size_app, size_cons. f_equal.
    destruct ok; [change (size [u]) with 1|change (size []) with 0]; lia.
Qed.

(** ** What the metering thread leaves alone *)

Definition same_ingest (rt rt' : runtime) : Prop :=
  in_cfg_ (rt_ingest rt') = in_cfg_ (rt_ingest rt) /\ in_stats_ (rt_ingest rt') = in_stats_ (rt_ingest rt).

Lemma sample_ingest (rt rt' : runtime) ev : sample_latency now_ns rt ev = Ok rt' -> rt_ingest rt' = rt_ingest rt.
Proof.
  unfold sample_latency, read_clock. destruct (measure_latency _); [|by intros [= <-]].
  destruct (_ <=? _); [|by intros [= <-]]. cbn zeta. destruct (_ <? _); [|by intros [= <-]].
  by intros (h & _ & [= <-])%bind_Ok_inv.
Qed.
Lemma batch_ingest batch : forall rt rt' : runtime, batch_loop now_ns rt batch = Ok rt' -> rt_ingest rt' = rt_ingest rt.
Proof.
  induction batch as [|ev batch IH]; intros rt rt' H; cbn [batch_loop] in H; [by injection H as <-|].
  apply bind_Ok_inv in H as (e & _ & H). apply bind_Ok_inv in H as (rt1 & H1 & H). apply sample_ingest in H1. by rewrite (IH _ _ H), H1.
Qed.
Lemma gy_ingest fuel : forall rt rt' : runtime, gy_drain fuel rt = Ok rt' -> same_ingest rt rt'.
Proof.
  induction fuel as [|fuel IH]; intros rt rt' H; cbn [gy_drain] in H; [done|]. destruct (gy_ring_ (rt_ingest rt)); [|done].
  apply bind_Ok_inv in H as ([o q] & _ & H). destruct o as [g|]; [|by injection H as <-].
  apply bind_Ok_inv in H as (e & _ & H). by apply IH in H.
Qed.
Lemma publish_ingest (rt rt' : runtime) now : publish_locked publish_wall rank rt now = Ok rt' -> rt_ingest rt' = rt_ingest rt.
Proof.
  unfold publish_locked. cbn zeta. destruct (_ && _); [|by intros [= <-]]. by intros (d & _ & [= <-])%bind_Ok_inv.
Qed.
(** The metering ring after an iteration is what the bulk pop left. *)
Lemma gy_meter_ring fuel : forall rt rt' : runtime, gy_drain fuel rt = Ok rt' -> meter_ring_ (rt_ingest rt') = meter_ring_ (rt_ingest rt).
Proof.
  induction fuel as [|fuel IH]; intros rt rt' H; cbn [gy_drain] in H; [done|]. destruct (gy_ring_ (rt_ingest rt)); [|done].
  apply bind_Ok_inv in H as ([o q] & _ & H). destruct o as [g|]; [|by injection H as <-].
  apply bind_Ok_inv in H as (e & _ & H). by apply IH in H.
Qed.
Lemma iteration_ring stop (rt rt' : runtime) leave q : meter_iteration wall_ns now_ns publish_wall rank stop rt = Ok (leave, rt') ->
  meter_ring_ (rt_ingest rt) = Some q -> exists batch q', q_pop_bulk q (meter_batch (rt_cfg rt)) = Ok (batch, q') /\ meter_ring_ (rt_ingest rt') = Some q'.
Proof.
  unfold meter_iteration. intros H Hq. rewrite Hq in H. apply bind_Ok_inv in H as ([batch q'] & Hpop & H). cbn zeta in H. exists batch, q'. split; [done|].
  apply bind_Ok_inv in H as (rt2 & H2 & H). apply bind_Ok_inv in H as (rt3 & H3 & H). apply gy_meter_ring in H3.
  unfold read_clock in H. apply bind_Ok_inv in H as (e & _ & H). apply bind_Ok_inv in H as (rt4 & H4 & H). injection H as _ <-.
  assert (rt_ingest rt4 = rt_ingest rt3) as -> by (destruct (_ <=? _) in H4; [by apply publish_ingest in H4|by injection H4 as <-]).
  rewrite H3. destruct (negb _) in H2; [apply batch_ingest in H2; by rewrite H2|by injection H2 as <-].
Qed.

Lemma iteration_ingest stop (rt rt' : runtime) leave : meter_iteration wall_ns now_ns publish_wall rank stop rt = Ok (leave, rt') -> same_ingest rt rt'.
Proof.
  unfold meter_iteration. destruct (meter_ring_ (rt_ingest rt)); [|done]. intros ([batch q] & _ & H)%bind_Ok_inv. cbn zeta in H.
  apply bind_Ok_inv in H as (rt2 & H2 & H). apply bind_Ok_inv in H as (rt3 & H3 & H). apply gy_ingest in H3 as [E1 E2].
  unfold read_clock in H. apply bind_Ok_inv in H as (e & _ & H). apply bind_Ok_inv in H as (rt4 & H4 & H). injection H as _ <-.
  assert (rt_ingest rt4 = rt_ingest rt3) as E4 by (destruct (_ <=? _) in H4; [by apply publish_ingest in H4|by injection H4 as <-]).
  assert (same_ingest rt rt2) as [E5 E6] by (destruct (negb _) in H2; [apply batch_ingest in H2; unfold same_ingest; by rewrite H2|by injection H2 as <-]).
  split; rewrite E4; congruence.
Qed.

(** ** The metering loop *)

(** The packets [done] are in the counters, those of [queued] in the ring, which
    has room for [cap]. *)
Record benching (cap : Z) (rt : runtime) (done queued : list usage) : Prop := {
  be_rings : exists evs, rt_ok rt evs [] /\ Forall2 packet_event evs queued;
  be_cap : cap_of (meter_ring_ (rt_ingest rt)) = cap;
  be_cfg : in_cfg_ (rt_ingest rt) = IngestConfig_init;
  be_tally : tally (rt_engine rt) done;
  be_corpus : Forall in_corpus queued
}.

Lemma iteration_bench cap stop (rt : runtime) done queued : benching cap rt done queued ->
  ensures (meter_iteration wall_ns now_ns publish_wall rank stop rt) (fun '(leave, rt') => same_ingest rt rt' /\ exists b r,
    queued = b ++ r /\ benching cap rt' (done ++ b) r /\ (b = [] -> queued = []) /\ leave = (size b =? 0) && stop).
Proof.
  intros [(evs & Hok & Hev) Hcap Hcfg Ht Hin].
  destruct (meter_iteration_spec wall_ns now_ns publish_wall rank stop rt evs [] Hok) as ([leave rt'] & Hit & batch & rest & now & -> & Hran & Hok' & He & ->).
  exists ((size batch =? 0) && stop, rt'). split; [done|]. pose proof (iteration_ingest _ _ _ _ Hit) as Hsame. split; [done|].
  apply Forall2_app_inv_l in Hev as (b & r & Hb & Hr & ->). exists b, r. apply Forall_app in Hin as [Hinb Hinr].
  pose proof (ro_events _ _ _ Hok) as Hse. apply Forall_app in Hse as [Hse _]. split; [done|]. split.
  - assert (cap_of (meter_ring_ (rt_ingest rt')) = cap) as Hcap'.
    { destruct (ro_meter _ _ _ Hok) as (q & Hq & Hl). destruct (iteration_ring _ _ _ _ _ Hit Hq) as (out & q' & Hpop & Hq'). rewrite Hq'.
      rewrite Hq in Hcap. cbn in *. rewrite <- Hcap.
      by destruct (ensures_inv _ _ _ (q_pop_bulk_spec q _ (meter_batch (rt_cfg rt)) Hl ltac:(pose proof (ro_batch _ _ _ Hok); lia)) Hpop) as [-> _]. }
    split; [by exists rest|done|by rewrite (proj1 Hsame)| |done]. destruct (iteration_ops batch [] now) as [Ha _]. cbn [map app] in Ha, Hran.
    eapply run_tally; [exact Hran|done| |exact (op_ok_batch batch [] now Hse)|by rewrite Ha|done].
    apply Forall_app. split; [by apply Forall_map, list.Forall_forall|by constructor].
  - split.
    + intros ->. apply Forall2_nil_inv_r in Hb as ->. specialize (He eq_refl). cbn [app] in He. subst rest. by apply Forall2_nil_inv_l in Hr as ->.
    + do 2 f_equal. unfold size. f_equal. by eapply Forall2_length.
Qed.

Lemma serve_bench cap rounds : forall (rt : runtime) us done queued, Forall2 sends (concat rounds) us -> Forall in_corpus us -> benching cap rt done queued ->
  ensures (serve wall_ns now_ns publish_wall rank rt rounds) (fun '(_, rt') => exists kept done' queued',
    kept `sublist_of` us /\ (size queued + size us <= cap -> kept = us) /\ done' ++ queued' = done ++ queued ++ kept /\ benching cap rt' done' queued' /\
    u64 (in_events_dropped (in_stats_ (rt_ingest rt'))) = u64 (in_events_dropped (in_stats_ (rt_ingest rt)) + (size us - size kept))).
Proof.
  induction rounds as [|frames rounds IH]; intros rt us done queued Hf Hin Hb; cbn [serve concat] in *.
  { apply Forall2_nil_inv_l in Hf as ->. apply ensures_Ok. exists [], done, queued. rewrite app_nil_r. split_and!; try done.
    change (size []) with 0. f_equal. lia. }
  apply Forall2_app_inv_l in Hf as (us1 & us2 & Hf1 & Hf2 & ->). apply Forall_app in Hin as [Hin1 Hin2].
  destruct Hb as [(evs & Hok & Hev) Hcap Hcfg Ht Hq]. destruct (ro_meter _ _ _ Hok) as (q & Hmq & Hl). destruct (ro_gy _ _ _ Hok) as (qg & Hgq & Hlg).
  eapply ensures_bind; [exact (ingest_carried frames us1 (rt_ingest rt) q evs qg [] Hf1 Hcfg Hmq Hl Hgq Hlg)|].
  intros [os i] (Hc1 & new & kept & (q1 & Hm1 & Hl1 & Hcap1) & Hg1 & Hse & Hpe & Hsub & Hall & Hdr).
  rewrite Hmq in Hcap. cbn in Hcap.
  assert (benching cap (rt <| rt_ingest := i |>) done (queued ++ kept)) as Hb1.
  { split; [|change (cap_of (meter_ring_ i) = cap); rewrite Hm1; cbn; congruence|by change (in_cfg_ i = IngestConfig_init); congruence|done|].
    - exists (evs ++ new). split; [|by apply Forall2_app]. destruct Hok. constructor; try done; [by exists q1|by apply Forall_app].
    - apply Forall_app. split; [done|]. rewrite list.Forall_forall in *. intros x Hx. apply Hin1.
      apply (sublist_subseteq kept us1 Hsub x Hx). }
  eapply ensures_bind; [exact (iteration_bench cap false _ done _ Hb1)|]. intros [leave rt1] ([_ Hst1] & b & r & Hsplit & Hb2 & _).
  eapply ensures_bind; [exact (IH rt1 us2 _ r Hf2 Hin2 Hb2)|]. intros [os' rt2] (kept' & done' & queued' & Hsub' & Hall' & Hd' & Hb3 & Hdr').
  apply ensures_Ok. exists (kept ++ kept'), done', queued'. split_and!; [by apply sublist_app| | |done|].
  - rewrite size_app. intros Hle. pose proof (size_nonneg us2). pose proof (size_nonneg queued). pose proof (Forall2_length Hev).
    assert (kept = us1) as -> by (apply Hall; unfold size in *; lia). f_equal. apply Hall'.
    apply (f_equal size) in Hsplit. rewrite !size_app in Hsplit. pose proof (size_nonneg b). lia.
  - rewrite Hd', <- !app_assoc. f_equal. by rewrite app_assoc, <- Hsplit, app_assoc.
  - rewrite Hdr', Hst1. change (rt_ingest (rt <| rt_ingest := i |>)) with i.
    rewrite <- u64_add_u64_l, Hdr, u64_add_u64_l, !size_app. f_equal. lia.
Qed.

Lemma loop_bench cap : forall fuel (rt : runtime) done queued, benching cap rt done queued -> (length queued < fuel)%nat ->
  ensures (meter_loop wall_ns now_ns publish_wall rank fuel rt) (fun rt' => tally (rt_engine rt') (done ++ queued) /\
    exists sn, rt_stats rt' = Some sn /\ sn_meter sn = stats_ (rt_engine rt') /\ sn_ingest sn = in_stats_ (rt_ingest rt)).
Proof.
  induction fuel as [|fuel IH]; intros rt done queued Hb Hf; [lia|]. cbn [meter_loop].
  eapply ensures_bind; [exact (iteration_bench cap true rt done queued Hb)|]. intros [leave rt1] ([_ Hst] & b & r & -> & Hb1 & He & ->).
  rewrite andb_true_r. destruct (Z.eqb_spec (size b) 0) as [E|E].
  - assert (b = []) as -> by (destruct b; [done|]; rewrite size_cons in E; pose proof (size_nonneg b); lia).
    specialize (He eq_refl). cbn [app] in *. subst r. rewrite app_nil_r in *. destruct Hb1 as [(evs & Hok & Hev) _ _ Ht _].
    apply Forall2_nil_inv_r in Hev as ->.
    destruct (meter_flush_spec wall_ns now_ns publish_wall rank rt1 Hok) as (rt' & Hfl & now & Hran & _ & sn & Hsn & Hsm & Hsi & _).
    exists rt'. split; [done|]. split.
    + rewrite <- (app_nil_r done). eapply run_tally; [exact Hran|done|by constructor|by constructor|constructor|constructor].
    + exists sn. split_and!; [done|done|]. rewrite Hsi, <- Hst. f_equal. revert Hfl. unfold meter_flush, read_clock.
      intros ([n e] & _ & H)%bind_Ok_inv. apply publish_ingest in H. done.
  - eapply ensures_mono; [apply (IH rt1 (done ++ b) r Hb1)|].
    { rewrite length_app in Hf. unfold size in E. lia. }
    intros rt' [H1 (sn & H2 & H3 & H4)]. rewrite <- app_assoc in H1. split; [done|]. exists sn. split_and!; [done|done|congruence].
Qed.
End Run.

(** ** The comparison *)

Lemma ring_new_queue {T} (d : T) cap : cap <= 2 ^ 63 -> ensures (SpscRing_new d cap) (fun r => q_repr r [] /\ cap <= q_cap r).
Proof.
  intros Hc. eapply ensures_mono; [by apply new_inv|]. intros r (k & Hk & Hb). split; [|cbn; lia].
  exists 0, 0, 0, 0, k. split_and!; [done|done|]. intros i v Hi. by destruct i.
Qed.

Lemma e2e_engine_spec : ensures e2e_engine_new (fun e => installed_upto e 0).
Proof.
  unfold e2e_engine_new. eapply ensures_bind; [apply (new_repr TeidBinding_init (teid_table_capacity e2e_meter_config)); cbn; lia|].
  intros t (Ht & Hcap & _). eapply ensures_bind; [apply (ring_new_queue UsageRecord_init); lia|]. intros q [Hq _].
  apply fresh_installed; [|done]. split; [|exact Ht| |exact Hq].
  - split; [cbn; lia|]. intros _. cbn. lia.
  - change (kt_cap t) with (fh_capacity_ t). cbn in *. lia.
Qed.

Lemma concat_rounds {A} (sched : list nat) : forall l : list A, concat (rounds_of sched l) = l.
Proof.
  induction sched as [|n sched IH]; intros l; cbn [rounds_of concat]; [by rewrite app_nil_r|]. by rewrite IH, take_drop.
Qed.

Lemma sent_usage_corpus sizes len n : sizes_ok sizes -> 0 < len -> Forall in_corpus (sent_usage sizes len n 0).
Proof.
  intros Hs Hl. apply Forall_map, list.Forall_forall. intros k _. apply corpus_usage_in; [done|]. by apply Z.mod_pos_bound.
Qed.

(** The clock gets to every deadline of the run. *)
Definition keeps_up (clock : nat -> Z) (target_pps n : Z) : Prop :=
  (forall k, 0 <= clock k < UINT64_MAX) /\
  (target_pps <> 0 -> forall k j, 0 <= j < n -> exists m, (k <= m)%nat /\ due (clock 0%nat) j target_pps <= clock m).

Section Compare.
Context {HE : HostEndian} {AL : Algorithms} (wall_ns now_ns publish_wall : nat -> Z) (rank : Z -> Z -> Z) (clock : nat -> Z).

Lemma run_pipeline_spec n sizes corpus target_pps N waited sched install_ns start_ns :
  sizes_ok sizes -> (0 < n)%nat -> build_corpus n sizes = Ok corpus -> Z.of_nat N < 2 ^ 64 -> keeps_up clock target_pps (Z.of_nat N) ->
  let U := sent_usage sizes (size (co_frames corpus)) N 0 in
  exists fuel, forall fuel', (fuel <= fuel')%nat ->
  ensures (run_pipeline wall_ns now_ns publish_wall rank clock corpus target_pps N fuel' waited sched install_ns start_ns) (fun '(r, rt) =>
    exists kept, kept `sublist_of` U /\ (Z.of_nat N <= 2 ^ 16 -> kept = U) /\ u64 (rr_dropped r) = u64 (size U - size kept) /\
      tally (rt_engine rt) kept /\ rr_metered_bytes r = st_bytes (stats_ (rt_engine rt))).
Proof.
  intros Hs Hn Hcorp HN [Hrange Hup] U. destruct (ensures_inv _ _ _ (build_corpus_spec sizes n Hs) Hcorp) as (Hses & Hlen & Hcar).
  assert (co_frames corpus <> []) as Hne by (intros E; rewrite E in Hlen; cbn in Hlen; lia).
  destruct (send_loop_returns sizes (co_frames corpus) Hcar Hne clock (clock 0%nat) target_pps N 0 1 ltac:(lia)) as (fuel & Hsend);
    [intros H k j Hj; by apply Hup|].
  exists fuel. intros fuel' Hle. destruct (Hsend fuel' Hle) as ([sent reads] & Hsent).
  pose proof (send_loop_spec sizes (co_frames corpus) Hcar Hne clock fuel' (clock 0%nat) target_pps N 0 1 sent reads ltac:(lia) Hsent) as Hf2.
  assert (Forall2 sends sent U) as HU.
  { revert Hf2. apply Forall2_impl. intros [f ts] u [Hc [k Hk]]. split; [done|]. cbn in *. subst ts. apply Hrange. }
  unfold run_pipeline. eapply ensures_bind; [exact e2e_engine_spec|]. intros e He.
  eapply ensures_bind; [apply (ring_new_queue MeterEvent_init); lia|]. intros q1 [Hq1 Hcap1].
  eapply ensures_bind; [apply (ring_new_queue GyEvent_init); lia|]. intros q2 [Hq2 _]. cbn zeta. rewrite Hsent, bind_Ok.
  unfold session_run. rewrite Hses.
  destruct (run_installs wall_ns install_ns 512 0 e He eq_refl) as ([out e1] & Hins & _ & He1).
  change (run wall_ns e (installs corpus_sessions install_ns) = Ok (out, e1)) in Hins. rewrite Hins, bind_Ok.
  set (rt0 := runtime_of _ _ _ _ _ _ e1).
  assert (benching (q_cap q1) rt0 [] []) as Hb0.
  { split; [|done|done|by apply installed_tally|done]. exists []. split; [|done].
    constructor; [exact (iu_good _ _ He1)|by exists q1|by exists q2|done|done|cbn; lia|split; [by split_and!|cbn; lia]]. }
  assert (ensures (let* (os, rt) := serve wall_ns now_ns publish_wall rank rt0 (rounds_of sched sent) in
    let* rt := meter_loop wall_ns now_ns publish_wall rank (S (Z.to_nat (depth_of (meter_ring_ (rt_ingest rt))))) rt in Ok (os, rt))
    (fun '(_, rt) => exists kept sn, kept `sublist_of` U /\ (Z.of_nat N <= 2 ^ 16 -> kept = U) /\ tally (rt_engine rt) kept /\
      rt_stats rt = Some sn /\ sn_meter sn = stats_ (rt_engine rt) /\ u64 (in_events_dropped (sn_ingest sn)) = u64 (size U - size kept))) as Hrun.
  { eapply ensures_bind.
    - apply (serve_bench wall_ns now_ns publish_wall rank (q_cap q1) (rounds_of sched sent) rt0 U [] []); [by rewrite concat_rounds| |exact Hb0].
      apply sent_usage_corpus; [done|by apply size_pos].
    - intros [os rt] (kept & done' & queued & Hsub & Hall & Hd & Hb & Hdr). cbn [app] in Hd.
      destruct (be_rings _ _ _ _ Hb) as (evs & Hok & Hev). destruct (ro_meter _ _ _ Hok) as (q & Hq & Hl). rewrite Hq.
      change (depth_of (Some q)) with (q_depth q). rewrite (q_depth_spec q evs Hl).
      eapply ensures_bind; [apply (loop_bench wall_ns now_ns publish_wall rank (q_cap q1) _ rt done' queued Hb);
        rewrite <- (Forall2_length Hev); unfold size; lia|].
      intros rt' [Ht (sn & H1 & H2 & H3)]. apply ensures_Ok. exists kept, sn. rewrite Hd in Ht. rewrite H3, Hdr. split_and!; try done.
      intros HN16. apply Hall. change (size []) with 0. unfold U, size, sent_usage. rewrite length_map, length_seq. lia. }
  eapply ensures_bind; [exact Hrun|]. intros [os rt] (kept & sn & H1 & H2 & H3 & H4 & H5 & H6). rewrite H4. apply ensures_Ok.
  exists kept. split_and!; [done|done|done|done|]. cbn [run_result rr_metered_bytes]. by rewrite H5.
Qed.

(** C4: The pipeline meters exactly what the obvious implementation meters.  For every
    corpus the benchmark can build, every number of frames, offered rate and
    interleaving of the sender with the metering thread, the pipeline run
    returns.  Nothing is dropped if the frames fit the ring; and if nothing was
    dropped, then for every run of the baseline, with its own rate and its own
    interleaving, that has applied all frames: the total of metered bytes is the
    same, and for every subscriber the pipeline's uplink and downlink byte and
    packet counters are those the baseline's map holds for the subscriber's two
    TEIDs.  Such baseline runs exist, with both threads ended. *)
Theorem pipeline_matches_baseline n sizes corpus target_pps N waited sched install_ns start_ns base_clock base_pps :
  sizes_ok sizes -> (0 < n)%nat -> build_corpus n sizes = Ok corpus -> Z.of_nat N < 2 ^ 64 -> keeps_up clock target_pps (Z.of_nat N) ->
  (forall k t, exists j, (k <= j)%nat /\ t <= base_clock j) ->
  (exists fuel, forall fuel', (fuel <= fuel')%nat ->
   ensures (run_pipeline wall_ns now_ns publish_wall rank clock corpus target_pps N fuel' waited sched install_ns start_ns) (fun '(r, rt) =>
    (Z.of_nat N <= 2 ^ 16 -> u64 (rr_dropped r) = 0) /\
    (u64 (rr_dropped r) = 0 -> forall b, rtc (base_step base_clock corpus base_pps (Z.of_nat N)) (baseline_init base_clock) b ->
      ba_applied b = Z.of_nat N ->
      rr_metered_bytes r = ba_metered_bytes b /\
      forall i, (i < 512)%nat -> exists c, counters_ (rt_engine rt) !! i = Some c /\
        default (mkCounters 0 0) (ba_counters b !! ul_teid i) = mkCounters (c_ul_bytes c) (c_ul_packets c) /\
        default (mkCounters 0 0) (ba_counters b !! dl_teid i) = mkCounters (c_dl_bytes c) (c_dl_packets c)))) /\
  exists b, rtc (base_step base_clock corpus base_pps (Z.of_nat N)) (baseline_init base_clock) b /\
    ba_sender b = SenderDone /\ ba_meter b = BaseOff /\ ba_applied b = Z.of_nat N.
Proof.
  intros Hs Hn Hcorp HN Hup Hpass. destruct (ensures_inv _ _ _ (build_corpus_spec sizes n Hs) Hcorp) as (_ & Hlen & Hcar).
  assert (co_frames corpus <> []) as Hne by (intros E; rewrite E in Hlen; cbn in Hlen; lia).
  assert (0 <= Z.of_nat N < 2 ^ 64) as HN' by lia. split.
  2: { by apply (baseline_can_finish base_clock corpus base_pps (Z.of_nat N) sizes). }
  destruct (run_pipeline_spec n sizes corpus target_pps N waited sched install_ns start_ns Hs Hn Hcorp HN Hup) as (fuel & Hrun).
  set (U := sent_usage sizes (size (co_frames corpus)) N 0) in *.
  assert (size U = Z.of_nat N) as HUs by (unfold U, size, sent_usage; by rewrite length_map, length_seq).
  exists fuel. intros fuel' Hle. eapply ensures_mono; [by apply Hrun|]. intros [r rt] (kept & Hsub & Hall & Hdr & Ht & Hm). split.
  - intros HN16. rewrite Hdr, (Hall HN16). by rewrite Z.sub_diag.
  - intros H0 b Hb Happ. rewrite H0 in Hdr. pose proof (sublist_length _ _ Hsub). pose proof (size_nonneg kept).
    assert (kept = U) as -> by (apply sublist_eq_size; [done|]; rewrite u64_small in Hdr by (unfold size in *; lia); lia).
    destruct (base_steps_inv base_clock corpus base_pps (Z.of_nat N) sizes Hcar Hne _ _ Hb) as (done & Hinv);
      [exists []; by apply base_inv_init|].
    assert (done = U) as ->.
    { rewrite (base_complete corpus (Z.of_nat N) sizes HN' b done Hinv Happ). unfold U. by rewrite Nat2Z.id. }
    destruct Hinv as [_ _ Hc Hmb _ _ _]. split; [by rewrite Hm, (ta_bytes _ _ Ht)|].
    intros i Hi. destruct (ta_counters _ _ Ht i Hi) as (c & Hcl & C1 & C2 & C3 & C4). exists c. rewrite !Hc, C1, C2, C3, C4. done.
Qed.
End Compare.

Definition sample_corpus : Corpus := match @build_corpus little 2 [64; 512] with Ok c => c | _ => mkCorpus [] [] 0 end.
Definition sample_clock (k : nat) : Z := Z.min (Z.of_nat k) 1000.

Lemma pipeline_matches_baseline_witness :
  (exists fuel, ensures (@run_pipeline little _ (fun _ => 7) (fun _ => 9) (fun _ => 7) (fun _ t => t) sample_clock sample_corpus 0 5 fuel 1 [2; 0]%nat 3 4)
    (fun '(r, rt) => u64 (rr_dropped r) = 0 /\ exists c, counters_ (rt_engine rt) !! 0%nat = Some c)) /\
  exists b, rtc (@base_step little Z.of_nat sample_corpus 1000000 5) (baseline_init Z.of_nat) b /\ ba_applied b = 5.
Proof.
  assert (forall (k : nat) t, exists j, (k <= j)%nat /\ t <= Z.of_nat j) as Hpass by (intros k t; exists (k + Z.to_nat t)%nat; lia).
  destruct (@pipeline_matches_baseline little _ (fun _ => 7) (fun _ => 9) (fun _ => 7) (fun _ t => t) sample_clock 2 [64; 512] sample_corpus 0 5 1
    [2; 0]%nat 3 4 Z.of_nat 1000000) as [(fuel & Hrun) (b & Hb & _ & _ & Ha)].
  - split; [done|]. repeat constructor; lia.
  - lia.
  - vm_compute. reflexivity.
  - lia.
  - split; [|done]. intros k. unfold sample_clock, UINT64_MAX. lia.
  - exact Hpass.
  - split; [|by exists b]. exists fuel. eapply ensures_mono; [apply Hrun; done|]. intros [r rt] [H1 H2].
    assert (u64 (rr_dropped r) = 0) as H0 by (apply H1; lia). split; [done|].
    destruct (H2 H0 b Hb Ha) as [_ H3]. destruct (H3 0%nat ltac:(lia)) as (c & Hc & _). by exists c.
Defined.
