(* ===== verification/BenchParse.v ===== *)
(** * bench/bench_parse.cpp: parse throughput

    The batches of pre-built packets, the two timed loops and the driver.  A
    routine adds what it parsed to [g_sink], which it takes and gives back; the
    time it takes is its argument [elapsed]. *)

From Stdlib Require Strings.String.
From S2P Require Import Prelude ByteOrder Gtpu Net Diameter Synth SynthIp SynthProps SynthGy EndToEnd Double Text Report Summary.
From S2P Require Import Pipeline CommandLine BenchCommon BenchE2e BenchE2eProps.

Record ParseResult := mkParseResult { pr_mpps : double; pr_gbps : double; pr_ns_per_pkt : double }.

(** The bytes of a batch, added up in 64 bits. *)
Definition batch_bytes (bufs : list Bytes) : Z := foldl (fun n f => add64 n (size f)) 0 bufs.

Section Loops.
Context {HE : HostEndian}.

(** What a frame adds to the accumulator, [None] where the body [continue]s:
    [h.teid + inner.tuple.src_port + h.qfi], in 32 bits. *)
Definition gtpu_value (frame : Bytes) : res (option Z) :=
  let* eth := parse_ethernet frame in
  if negb (eth_valid eth) then Ok None else
  let* outer := parse_ip (eth_payload eth) in
  if negb (valid outer) || negb (dst_port (tuple outer) =? kGtpuPort) then Ok None else
  let* (st, h) := parse_gtpu (l4_payload outer) in
  if negb (bool_decide (st = GtpuStatus.kOk)) then Ok None else
  let* inner := parse_ip (payload h) in
  Ok (Some (u32 (teid h + src_port (tuple inner) + qfi h))).

Definition diameter_value (m : Bytes) : res (option Z) :=
  let* (st, _, gy) := parse_diameter_gy m GyMessage_init in
  if negb (bool_decide (st = DiameterStatus.kOk)) then Ok None else
  let* rg := (if negb (mscc_count gy =? 0) then let* m0 := at_ (mscc gy) 0 in Ok (rating_group m0) else Ok 0) in
  Ok (Some (add64 (add64 (imsi gy) (cc_request_number gy)) rg)).

(** The inner loop over the packets and the outer one over the iterations. *)
Fixpoint parse_pass (value : Bytes -> res (option Z)) (bufs : list Bytes) (acc : Z) : res Z :=
  match bufs with
  | [] => Ok acc
  | f :: bufs =>
      let* v := value f in
      parse_pass value bufs (match v with Some v => add64 acc v | None => acc end)
  end.
Fixpoint parse_passes (value : Bytes -> res (option Z)) (n : nat) (bufs : list Bytes) (acc : Z) : res Z :=
  match n with
  | O => Ok acc
  | S n => let* acc := parse_pass value bufs acc in parse_passes value n bufs acc
  end.

Definition parse_result (bufs : list Bytes) (iterations elapsed : Z) : ParseResult :=
  let elapsed_s := ddiv (dbl elapsed) giga in
  let pkts := dmul (dbl (size bufs)) (dbl iterations) in
  let total_bytes := dmul (dbl (batch_bytes bufs)) (dbl iterations) in
  mkParseResult (ddiv (ddiv pkts elapsed_s) mega) (ddiv (ddiv (dmul total_bytes (dbl 8)) elapsed_s) giga) (ddiv (dbl elapsed) pkts).

Definition run_gtpu (frames : list Bytes) (iterations elapsed sink : Z) : res (ParseResult * Z) :=
  let* acc := parse_passes gtpu_value (Z.to_nat iterations) frames 0 in
  Ok (parse_result frames iterations elapsed, sink_add sink acc).
Definition run_diameter (msgs : list Bytes) (iterations elapsed sink : Z) : res (ParseResult * Z) :=
  let* acc := parse_passes diameter_value (Z.to_nat iterations) msgs 0 in
  Ok (parse_result msgs iterations elapsed, sink_add sink acc).

(** ** The batches *)

Definition batch_udp (i : Z) : UdpSpec :=
  mkUdpSpec (ipv4 10 45 (u8 (Z.shiftr i 8)) (u8 i)) (ipv4 93 184 216 34) (u16 (30000 + i)) 443 64.
Definition batch_gtpu (with_qfi : bool) (i : Z) : GtpuSpec :=
  mkGtpuSpec (u32 (0x10000 + i)) GtpuMsgType.kGpdu false 0 false 0 with_qfi (u8 (i mod 8 + 1)) 0 false [].
Definition batch_frame (inner_payload : Z) (with_qfi : bool) (i : Z) : res Bytes :=
  let* ip := build_ipv4_udp (batch_udp i) (filler inner_payload (u8 i)) in
  build_gtpu_frame (batch_gtpu with_qfi i) ip (ipv4 192 168 1 1) (ipv4 192 168 1 2).

Definition ccr_spec (i : Z) : GySpec :=
  let d := GySpec_init in
  mkGySpec (sy_session_id d) (sy_origin_host d) (sy_origin_realm d) (sy_imsi d) (sy_request_type d) (u32 i) (sy_rating_group d)
    (u64 (i * 1000)) (u64 (i * 500)) (sy_granted_total d) (sy_include_mscc d) (sy_result_code d).

(** [push_back] of packets [i], [i + 1], ..., [n] left. *)
Fixpoint build_batch (build : Z -> res Bytes) (n : nat) (i : Z) (out : list Bytes) : res (list Bytes) :=
  match n with
  | O => Ok out
  | S n => let* f := build i in build_batch build n (i + 1) (out ++ [f])
  end.
Definition make_gtpu_batch (count : nat) (inner_payload : Z) (with_qfi : bool) : res (list Bytes) :=
  build_batch (batch_frame inner_payload with_qfi) count 0 [].
Definition make_ccrs (count : nat) : res (list Bytes) := build_batch (fun i => build_ccr (ccr_spec i)) count 0 [].

(** ** The driver *)

Definition result_row (name : Bytes) (frame_bytes : Z) (r : ParseResult) : Bytes :=
  sprintf "%-28s,%8zu,%10.2f,%10.3f,%10.1f~"
    [AStr name; AInt frame_bytes; ADouble (pr_mpps r); ADouble (pr_gbps r); ADouble (pr_ns_per_pkt r)].

Record ParseCase := mkParseCase { pc_name : Bytes; pc_inner : Z; pc_qfi : bool }.
Definition parse_cases : list ParseCase :=
  [mkParseCase (txt "gtpu_ipv4_udp_64B") 64 false; mkParseCase (txt "gtpu_ipv4_udp_64B_qfi") 64 true;
   mkParseCase (txt "gtpu_ipv4_udp_1400B") 1400 false; mkParseCase (txt "gtpu_ipv4_udp_1400B_qfi") 1400 true].
Definition kParseBatch : nat := Z.to_nat 4096.

(** The iterations are an [int], printed with [%d]: [show_int] is its text. *)
Definition parse_heading (iterations : Z) : Bytes :=
  sprintf "# gtp-meter parse benchmark: %s iterations x %zu packets~" [AStr (show_int iterations); AInt (Z.of_nat kParseBatch)] ++
  sprintf "%-28s,%8s,%10s,%10s,%10s~" (map (fun s => AStr (txt s)) ["case"; "bytes"; "Mpps"; "Gbps"; "ns/pkt"]%string).

(** A warm-up of two iterations, then the timed run and its row. *)
Definition measured (run : list Bytes -> Z -> Z -> Z -> res (ParseResult * Z)) (name : Bytes) (bufs : list Bytes)
    (iterations warm timed sink : Z) : res (Bytes * Z) :=
  let* (_, sink) := run bufs 2 warm sink in
  let* front := at_ bufs 0 in
  let* (r, sink) := run bufs iterations timed sink in
  Ok (result_row name (size front) r, sink).

(** [elapsed k] is the time of the [k]-th routine. *)
Fixpoint run_cases (cases : list ParseCase) (iterations : Z) (elapsed : nat -> Z) (k : nat) (sink : Z) : res (Bytes * Z) :=
  match cases with
  | [] => Ok ([], sink)
  | c :: cases =>
      let* frames := make_gtpu_batch kParseBatch (pc_inner c) (pc_qfi c) in
      let* (line, sink) := measured run_gtpu (pc_name c) frames iterations (elapsed k) (elapsed (S k)) sink in
      let* (lines, sink) := run_cases cases iterations elapsed (S (S k)) sink in
      Ok (line ++ lines, sink)
  end.

Definition parse_iterations (args : list Bytes) : res Z := match args with a :: _ => atoi a | [] => Ok 200 end.

Definition bench_parse_main (args : list Bytes) (elapsed : nat -> Z) : res (Bytes * Z) :=
  let* iterations := parse_iterations args in
  let* (lines, sink) := run_cases parse_cases iterations elapsed 0 0 in
  let* ccrs := make_ccrs kParseBatch in
  let* (line, sink) := measured run_diameter (txt "diameter_gy_ccr") ccrs iterations (elapsed 8%nat) (elapsed 9%nat) sink in
  Ok (parse_heading iterations ++ lines ++ line, bench_exit sink).
End Loops.

(** ** What the loops add up *)

Definition sum_of (l : list Z) : Z := foldr Z.add 0 l.
(** What packet [i] of a batch contributes. *)
Definition gtpu_share (with_qfi : bool) (i : Z) : Z := u32 (0x10000 + i) + u16 (30000 + i) + (if with_qfi then i mod 8 + 1 else 0).
Definition ccr_share (i : Z) : Z := 310150123456789 + u32 i + 10.
Definition shares (share : Z -> Z) (n : nat) (i : Z) : list Z := map (fun k => share (i + Z.of_nat k)) (List.seq 0 n).

Section Sums.
Context {HE : HostEndian}.

(** Every packet of [bufs] parses and contributes its share. *)
Definition contributes (value : Bytes -> res (option Z)) (bufs : list Bytes) (vs : list Z) : Prop :=
  Forall2 (fun f v => value f = Ok (Some (u64 v))) bufs vs.

Lemma parse_pass_sum value bufs vs : contributes value bufs vs -> forall acc,
  parse_pass value bufs (u64 acc) = Ok (u64 (acc + sum_of vs)).
Proof.
  induction 1 as [|f v bufs vs Hf _ IH]; intros acc; cbn [parse_pass sum_of foldr]; [by rewrite Z.add_0_r|].
  rewrite Hf, bind_Ok. unfold add64. rewrite u64_add_u64_l, u64_add_u64_r, IH. do 2 f_equal. unfold sum_of. lia.
Qed.

Lemma parse_passes_sum value bufs vs n : contributes value bufs vs -> forall acc,
  parse_passes value n bufs (u64 acc) = Ok (u64 (acc + Z.of_nat n * sum_of vs)).
Proof.
  intros Hc. induction n as [|n IH]; intros acc; cbn [parse_passes]; [do 2 f_equal; lia|].
  rewrite (parse_pass_sum _ _ _ Hc), bind_Ok, IH. do 2 f_equal. lia.
Qed.

Lemma shares_S share n i : shares share (S n) i = share i :: shares share n (i + 1).
Proof.
  unfold shares. cbn [List.seq map]. rewrite Z.add_0_r. f_equal. rewrite <- seq_shift, map_map. apply map_ext. intros k. f_equal. lia.
Qed.

(** A batch is built, and every packet of it contributes. *)
Lemma build_batch_contributes build value share n : forall i out vs, 0 <= i -> i + Z.of_nat n <= 2 ^ 31 ->
  (forall k, 0 <= k < 2 ^ 31 -> ensures (build k) (fun f => value f = Ok (Some (u64 (share k))))) ->
  contributes value out vs ->
  ensures (build_batch build n i out) (fun bufs => contributes value bufs (vs ++ shares share n i)).
Proof.
  induction n as [|n IH]; intros i out vs Hi Hn Hb Hc; cbn [build_batch]; [apply ensures_Ok; by rewrite app_nil_r|].
  eapply ensures_bind; [apply Hb; lia|]. intros f Hf. cbn beta in Hf. rewrite shares_S.
  replace (vs ++ share i :: shares share n (i + 1)) with ((vs ++ [share i]) ++ shares share n (i + 1)) by (by rewrite <- app_assoc).
  apply IH; [lia|lia|done|]. apply Forall2_app; [done|]. by repeat constructor.
Qed.

(** The QFI the parser reports. *)
Lemma batch_qfi with_qfi i ip : wf_gtpu (batch_gtpu with_qfi i) ip ->
  qfi (gtpu_opened (batch_gtpu with_qfi i) ip) = if with_qfi then i mod 8 + 1 else 0.
Proof.
  intros Hwf. destruct with_qfi; [|reflexivity]. destruct (gtpu_opened_ext _ ip Hwf) as (_ & Hq & _).
  destruct (Hq eq_refl) as (_ & -> & _). cbn [batch_gtpu gs_qfi]. pose proof (Z.mod_pos_bound i 8).
  rewrite u8_small by lia. apply Z.mod_small. lia.
Qed.

(** A built tunnel frame is parsed in full. *)
Lemma batch_frame_value inner_payload with_qfi i : 0 <= inner_payload <= 65000 -> 0 <= i < 2 ^ 31 ->
  ensures (batch_frame inner_payload with_qfi i) (fun f => gtpu_value f = Ok (Some (u64 (gtpu_share with_qfi i)))).
Proof.
  intros Hp Hi. unfold batch_frame. set (us := batch_udp i).
  eapply ensures_bind; [apply (build_ipv4_udp_spec us (filler inner_payload (u8 i))); [rewrite size_filler; lia|]|].
  { split; cbn [us batch_udp us_src_port us_dst_port]; [apply u16_range|lia]. }
  intros ip (Hsz & _ & Hip). rewrite size_filler in Hsz by lia. set (gs := batch_gtpu with_qfi i).
  destruct (size_opt_plain (gs_teid gs) GtpuMsgType.kGpdu with_qfi (gs_qfi gs) 0 false) as [Hopt Hch].
  change (size (gtpu_opt gs) <= 8) in Hopt. change (size (chain_of gs) <= 1) in Hch.
  assert (wf_gtpu gs ip) as Hwf.
  { split; [apply u32_range|]. split; [done|]. split; [done|]. split; [done|]. split; [constructor|]. lia. }
  destruct (gtpu_frame_layers gs ip (ipv4 192 168 1 1) (ipv4 192 168 1 2) Hwf ltac:(lia)) as (f & pkt & Hf & _ & He & Hout).
  rewrite Hf. apply ensures_Ok. unfold gtpu_value. rewrite He, bind_Ok. cbn [eth_valid eth_payload negb].
  rewrite Hout, bind_Ok. cbn [packet4 valid tuple dst_port us_dst_port negb orb]. rewrite Z.eqb_refl. cbn [negb l4_payload].
  rewrite (parse_enc_gtpu gs ip Hwf), bind_Ok, bool_decide_eq_true_2 by done. cbn [negb].
  set (h := (gtpu_header gs ip) <| header_len ::= u16 |>). pose proof (gtpu_opened_fixed gs ip) as Hfix. injection Hfix as _ Ht _ _ _ _ _ _ _ _.
  replace (payload h) with ip by reflexivity. rewrite Hip, bind_Ok.
  replace (teid h) with (gs_teid gs) by exact (eq_sym Ht).
  replace (qfi h) with (if with_qfi then i mod 8 + 1 else 0) by exact (eq_sym (batch_qfi with_qfi i ip Hwf)).
  do 2 f_equal. change (src_port _) with (u16 (30000 + i)). change (gs_teid gs) with (u32 (0x10000 + i)). unfold gtpu_share.
  pose proof (u16_range (30000 + i)). pose proof (Z.mod_pos_bound i 8). rewrite (u32_small (0x10000 + i)) by lia.
  rewrite u32_small, u64_small by (destruct with_qfi; lia). reflexivity.
Qed.

Lemma ccr_spec_wf i : wf_gy (ccr_spec i).
Proof.
  destruct GySpec_init_wf as (H1 & H2 & _ & H4 & H5 & _ & _ & H8 & H9 & H10).
  split_and!; try done; try apply u32_range; try apply u64_range; try apply H2; try apply H4; try apply H5; try apply H8; apply H10.
Qed.

Lemma ccr_value i : 0 <= i < 2 ^ 31 ->
  ensures (build_ccr (ccr_spec i)) (fun f => diameter_value f = Ok (Some (u64 (ccr_share i)))).
Proof.
  intros Hi. pose proof (ccr_spec_wf i) as Hwf. rewrite (build_ccr_spec _ Hwf). apply ensures_Ok.
  destruct (parse_gy_list (ccr_list (ccr_spec i)) true (ccr_gy (ccr_spec i)) GyMessage_init) as (hdr & _ & _ & _ & Hp);
    [apply (ccr_fits _ Hwf)|by apply ccr_list_size|by apply fold_ccr|].
  unfold diameter_value. rewrite Hp, bind_Ok, bool_decide_eq_true_2 by done. cbn [negb].
  change (mscc_count _) with 1. change (mscc _) with (ccr_info (ccr_spec i) :: replicate 7 MsccInfo_init).
  change (1 =? 0) with false. cbn [negb]. change (at_ (ccr_info (ccr_spec i) :: _) 0) with (Ok (ccr_info (ccr_spec i))).
  rewrite !bind_Ok. change (rating_group _) with 10. change (cc_request_number _) with (u32 i).
  replace (imsi _) with 310150123456789 by reflexivity. unfold add64, ccr_share. by rewrite u64_add_u64_l.
Qed.

(** Both batches in full. *)
Lemma gtpu_batch_contributes count inner_payload with_qfi : 0 <= inner_payload <= 65000 -> Z.of_nat count <= 2 ^ 31 ->
  ensures (make_gtpu_batch count inner_payload with_qfi) (fun frames => contributes gtpu_value frames (shares (gtpu_share with_qfi) count 0)).
Proof.
  intros Hp Hc. apply (build_batch_contributes _ _ _ count 0 [] []); [lia|lia| |constructor]. intros k Hk. by apply batch_frame_value.
Qed.
Lemma ccr_batch_contributes count : Z.of_nat count <= 2 ^ 31 ->
  ensures (make_ccrs count) (fun msgs => contributes diameter_value msgs (shares ccr_share count 0)).
Proof. intros Hc. apply (build_batch_contributes _ _ _ count 0 [] []); [lia|lia| |constructor]. intros k Hk. by apply ccr_value. Qed.

(** A routine that adds [n] times [v] to the sink, and its warmed-up measurement. *)
Definition adds (run : list Bytes -> Z -> Z -> Z -> res (ParseResult * Z)) (bufs : list Bytes) (v : Z) : Prop :=
  forall iterations elapsed sink, run bufs iterations elapsed (u64 sink) =
    Ok (parse_result bufs iterations elapsed, u64 (sink + Z.max 0 iterations * v)).

Lemma timed_adds value bufs vs : contributes value bufs vs -> forall iterations sink,
  (let* acc := parse_passes value (Z.to_nat iterations) bufs 0 in Ok (sink_add (u64 sink) acc)) = Ok (u64 (sink + Z.max 0 iterations * sum_of vs)).
Proof.
  intros Hc iterations sink. change 0 with (u64 0) at 1. rewrite (parse_passes_sum _ _ _ _ Hc), bind_Ok. unfold sink_add, add64.
  rewrite u64_add_u64_l, u64_add_u64_r. do 2 f_equal. lia.
Qed.
Lemma run_gtpu_adds frames vs : contributes gtpu_value frames vs -> adds run_gtpu frames (sum_of vs).
Proof.
  intros Hc iterations elapsed sink. pose proof (timed_adds _ _ _ Hc iterations sink) as H. unfold run_gtpu.
  apply bind_Ok_inv in H as (acc & -> & [= Hs]). by rewrite bind_Ok, Hs.
Qed.
Lemma run_diameter_adds msgs vs : contributes diameter_value msgs vs -> adds run_diameter msgs (sum_of vs).
Proof.
  intros Hc iterations elapsed sink. pose proof (timed_adds _ _ _ Hc iterations sink) as H. unfold run_diameter.
  apply bind_Ok_inv in H as (acc & -> & [= Hs]). by rewrite bind_Ok, Hs.
Qed.

(** An even sum keeps the sink even. *)
Lemma measured_even run name bufs v iterations warm timed sink : adds run bufs v -> bufs <> [] -> Z.Even v -> Z.Even sink ->
  ensures (measured run name bufs iterations warm timed (u64 sink)) (fun '(_, s) => exists sink', s = u64 sink' /\ Z.Even sink').
Proof.
  intros Ha Hne [v' ->] [s' ->]. unfold measured. rewrite Ha, bind_Ok. destruct bufs as [|f bufs]; [done|].
  change (at_ (f :: bufs) 0) with (Ok f). rewrite bind_Ok, Ha, bind_Ok. apply ensures_Ok. eexists. split; [reflexivity|].
  exists (s' + Z.max 0 2 * v' + Z.max 0 iterations * v'). lia.
Qed.

Lemma even_exit sink : Z.Even sink -> bench_exit (u64 sink) = 0.
Proof.
  intros [s ->]. unfold bench_exit. destruct (Z.eqb_spec (u64 (2 * s)) UINT64_MAX) as [H|]; [|done]. exfalso.
  unfold u64, UINT64_MAX in H. Z.div_mod_to_equations. lia.
Qed.

Lemma batch_nonempty value bufs share i : contributes value bufs (shares share kParseBatch i) -> bufs <> [].
Proof. intros Hc ->. apply Forall2_length in Hc. unfold shares in Hc. by rewrite length_map, length_seq in Hc. Qed.

Lemma run_cases_even cases iterations elapsed : Forall (fun c => 0 <= pc_inner c <= 65000) cases -> forall k sink, Z.Even sink ->
  ensures (run_cases cases iterations elapsed k (u64 sink)) (fun '(_, s) => exists sink', s = u64 sink' /\ Z.Even sink').
Proof.
  induction 1 as [|c cases Hc _ IH]; intros k sink Hs; cbn [run_cases]; [apply ensures_Ok; by exists sink|].
  eapply ensures_bind; [apply (gtpu_batch_contributes kParseBatch (pc_inner c) (pc_qfi c) Hc); done|]. intros frames Hf. cbn beta in Hf.
  eapply ensures_bind.
  { apply (measured_even _ _ _ _ _ _ _ sink (run_gtpu_adds _ _ Hf)); [by eapply batch_nonempty| |done].
    apply Z.even_spec. destruct (pc_qfi c); vm_compute; reflexivity. }
  intros [line s] (sink' & -> & Hs'). eapply ensures_bind; [by apply IH|]. intros [lines s] (sink2 & -> & Hs2). apply ensures_Ok. by exists sink2.
Qed.

(** C40: The parse benchmark measures parsing and nothing else.  In a batch of up
    to 2^31 tunnels with payloads of up to 65000 bytes every frame it builds is
    decapsulated to the inner packet in every iteration, and every
    Credit-Control-Request is decoded: no packet takes an early [continue], for
    the accumulator is exactly the sum, once per iteration, of what the builder
    put into each packet (TEID, inner source port and QFI; IMSI, request number
    and rating group).  A number of iterations that is not positive adds nothing.
    The whole program runs without a fault and always exits with 0: the sums of
    its batches are even, so the sink never is the largest 64-bit number. *)
Theorem parse_bench_complete count inner_payload with_qfi : 0 <= inner_payload <= 65000 -> Z.of_nat count <= 2 ^ 31 ->
  ensures (make_gtpu_batch count inner_payload with_qfi) (fun frames => length frames = count /\
    adds run_gtpu frames (sum_of (shares (gtpu_share with_qfi) count 0))) /\
  ensures (make_ccrs count) (fun msgs => length msgs = count /\ adds run_diameter msgs (sum_of (shares ccr_share count 0))) /\
  forall args elapsed, returns (parse_iterations args) -> exists out, bench_parse_main args elapsed = Ok (out, 0).
Proof.
  intros Hp Hc. split; [|split].
  - eapply ensures_mono; [by apply gtpu_batch_contributes|]. intros frames Hf. split; [|by apply run_gtpu_adds].
    apply Forall2_length in Hf. unfold shares in Hf. by rewrite length_map, length_seq in Hf.
  - eapply ensures_mono; [by apply ccr_batch_contributes|]. intros msgs Hf. split; [|by apply run_diameter_adds].
    apply Forall2_length in Hf. unfold shares in Hf. by rewrite length_map, length_seq in Hf.
  - intros args elapsed (n & Hn). unfold bench_parse_main. rewrite Hn, bind_Ok.
    destruct (run_cases_even parse_cases n elapsed ltac:(repeat constructor; cbn; lia) 0 0 ltac:(by exists 0)) as ([lines s] & Hr & s1 & -> & H1).
    change (u64 0) with 0 in Hr. rewrite Hr, bind_Ok.
    destruct (ccr_batch_contributes kParseBatch) as (msgs & Hm & Hcm); [done|]. rewrite Hm, bind_Ok.
    destruct (measured_even run_diameter (txt "diameter_gy_ccr") msgs _ n (elapsed 8%nat) (elapsed 9%nat) s1 (run_diameter_adds _ _ Hcm))
      as ([line s] & Hd & s2 & -> & H2); [by eapply batch_nonempty|apply Z.even_spec; vm_compute; reflexivity|done|].
    rewrite Hd, bind_Ok, even_exit by done. eauto.
Qed.
End Sums.

Lemma parse_bench_complete_witness :
  let HE : HostEndian := little in
  (exists frames, make_gtpu_batch 2 64 true = Ok frames /\ run_gtpu frames 3 1000 0 = Ok (parse_result frames 3 1000, 3 * (95537 + 95540))) /\
  exists out, bench_parse_main [] (fun _ => 1000) = Ok (out, 0).
Proof.
  intros HE. destruct (parse_bench_complete (HE := HE) 2 64 true) as ((frames & Hf & _ & Ha) & _ & Hmain); [lia|lia|]. split.
  - exists frames. split; [done|]. pose proof (Ha 3 1000 0) as H. change (u64 0) with 0 in H. rewrite H. reflexivity.
  - apply Hmain. by exists 200.
Defined.

Example parse_case_ex :
  let HE : HostEndian := little in
  match make_gtpu_batch 2 64 false with
  | Ok frames => measured run_gtpu (txt "gtpu_ipv4_udp_64B") frames 10 500 2000 0 =
      Ok (txt "gtpu_ipv4_udp_64B           ,     142,     10.00,    11.360,     100.0~", 12 * (95536 + 95538))
  | _ => False
  end.
Proof. vm_compute. reflexivity. Qed.
